(** * vphone-cli firmware patchers: a shallow embedding and its properties

    The development follows the Python sources
      scripts/patchers/cfw.py        (Mach-O helpers, CFW patches, dylib injection)
      scripts/patchers/kernel_jb.py  (KernelJBPatcher)
      scripts/patchers/txm_jb.py     (TXMJBPatcher)
      scripts/patchers/iboot_jb.py   (IBootJBPatcher)

    Part I gives the definitions: the Python primitives the sources rely on
    (byte strings, slices, [struct]), the disassembler and assembler facades,
    and the functions of the four files.  Part II states and proves the
    properties.  Logging ([print], [self._log]) is an operator side channel and
    is not modelled. *)

From Stdlib Require Import ZArith Bool Lia String Ascii Strings.Byte List.
Import ListNotations.
Local Open Scope Z_scope.

(* ===================================================================== *)
(** * Part I.  Definitions                                                *)
(* ===================================================================== *)

(** ** Python primitives *)

Module Py.

Definition bytes := list byte.

(** The exceptions the modelled code can raise. *)
Inductive exn : Type :=
| IndexError | ValueError | StructError | RuntimeError
| UnicodeDecodeError | UnicodeEncodeError.

Inductive result (A : Type) : Type :=
| Ok (a : A)
| Raise (e : exn).
Arguments Ok {A} a.
Arguments Raise {A} e.

Definition bind {A B} (r : result A) (k : A -> result B) : result B :=
  match r with Ok a => k a | Raise e => Raise e end.

Definition len {A} (l : list A) : Z := Z.of_nat (List.length l).

Definition b2z (b : byte) : Z := Z.of_N (Byte.to_N b).

Definition z2b (z : Z) : byte :=
  match Byte.of_N (Z.to_N (z mod 256)) with
  | Some b => b
  | None => x00
  end.

(** [range(a, b, 4)] and [range(a, b, -4)], as lists. *)
Fixpoint range_up (n : nat) (a step : Z) : list Z :=
  match n with
  | O => []
  | S n' => a :: range_up n' (a + step) step
  end.

Definition range (a b step : Z) : list Z :=
  if 0 <? step then range_up (Z.to_nat ((b - a + step - 1) / step)) a step
  else if step <? 0 then range_up (Z.to_nat ((a - b - step - 1) / (- step))) a step
  else [].

(** Slice bounds as CPython adjusts them for a sequence of length [n]
    (step 1): negative indices count from the end, then both are clamped. *)
Definition adjust (n i : Z) : Z :=
  if i <? 0 then Z.max 0 (i + n) else Z.min i n.

(** [l[a:b]] *)
Definition slice {A} (l : list A) (a b : Z) : list A :=
  let n := len l in
  let a' := adjust n a in
  let b' := adjust n b in
  firstn (Z.to_nat (b' - a')) (skipn (Z.to_nat a') l).

(** [l[a:]] *)
Definition slice_from {A} (l : list A) (a : Z) : list A :=
  skipn (Z.to_nat (adjust (len l) a)) l.

(** [l[a:b] = v] on a bytearray: the slice [a':b'] (empty when [b' < a'])
    is replaced by [v], whatever the length of [v]. *)
Definition slice_assign {A} (l : list A) (a b : Z) (v : list A) : list A :=
  let n := len l in
  let a' := adjust n a in
  let b' := Z.max a' (adjust n b) in
  firstn (Z.to_nat a') l ++ v ++ skipn (Z.to_nat b') l.

(** [l[i]] on bytes or a bytearray *)
Definition getitem (l : bytes) (i : Z) : result Z :=
  let n := len l in
  let j := if i <? 0 then i + n else i in
  if (0 <=? j) && (j <? n) then Ok (b2z (nth (Z.to_nat j) l x00))
  else Raise IndexError.

(** [l[i] = v] on a bytearray *)
Definition setitem (l : bytes) (i v : Z) : result bytes :=
  let n := len l in
  let j := if i <? 0 then i + n else i in
  if negb ((0 <=? v) && (v <? 256)) then Raise ValueError
  else if (0 <=? j) && (j <? n)
       then Ok (firstn (Z.to_nat j) l ++ z2b v :: skipn (Z.to_nat j + 1) l)
       else Raise IndexError.

Definition byte_eqb (a b : byte) : bool := Byte.eqb a b.

Fixpoint bytes_eqb (a b : bytes) : bool :=
  match a, b with
  | [], [] => true
  | x :: a', y :: b' => byte_eqb x y && bytes_eqb a' b'
  | _, _ => false
  end.

Fixpoint startswith {A} (eqb : A -> A -> bool) (l p : list A) : bool :=
  match p, l with
  | [], _ => true
  | y :: p', x :: l' => eqb x y && startswith eqb l' p'
  | _ :: _, [] => false
  end.

(** First position [>= pos] at which [sub] occurs, scanning the suffix [l]
    that starts at position [pos]; [-1] when there is none. *)
Fixpoint find_aux (sub l : bytes) (pos : Z) : Z :=
  if startswith byte_eqb l sub then pos
  else match l with
       | [] => -1
       | _ :: t => find_aux sub t (pos + 1)
       end.

(** [l.find(sub, start)] *)
Definition find (l sub : bytes) (start : Z) : Z :=
  let n := len l in
  let s := if start <? 0 then Z.max 0 (start + n) else start in
  if n <? s then -1 else find_aux sub (skipn (Z.to_nat s) l) s.

(** [l.index(v, start)] for an int [v]: the position of the first byte equal to
    [v] at or after [start]; ValueError when there is none. *)
Definition index (l : bytes) (v start : Z) : result Z :=
  if negb ((0 <=? v) && (v <? 256)) then Raise ValueError
  else
    let p := find l [z2b v] start in
    if p <? 0 then Raise ValueError else Ok p.

(** *** [struct] *)

Fixpoint le_decode (bs : bytes) : Z :=
  match bs with
  | [] => 0
  | b :: t => b2z b + 256 * le_decode t
  end.

Definition be_decode (bs : bytes) : Z := le_decode (rev bs).

Fixpoint le_encode (n : nat) (v : Z) : bytes :=
  match n with
  | O => []
  | S n' => z2b v :: le_encode n' (v / 256)
  end.

(** The [size] bytes [struct.unpack_from] reads at [off]: a negative offset
    counts from the end, and the whole field must lie inside the buffer. *)
Definition field (size : Z) (data : bytes) (off : Z) : result bytes :=
  let n := len data in
  let o := if off <? 0 then off + n else off in
  if (o <? 0) || (n - o <? size) then Raise StructError
  else Ok (firstn (Z.to_nat size) (skipn (Z.to_nat o) data)).

(** [struct.unpack_from("<I", data, off)[0]] and its relatives. *)
Definition unpack_I (data : bytes) (off : Z) : result Z :=
  bind (field 4 data off) (fun bs => Ok (le_decode bs)).

Definition unpack_Q (data : bytes) (off : Z) : result Z :=
  bind (field 8 data off) (fun bs => Ok (le_decode bs)).

Definition unpack_I_be (data : bytes) (off : Z) : result Z :=
  bind (field 4 data off) (fun bs => Ok (be_decode bs)).

Definition unpack_Q_be (data : bytes) (off : Z) : result Z :=
  bind (field 8 data off) (fun bs => Ok (be_decode bs)).

(** ["<i"]: a signed 32-bit field. *)
Definition unpack_i (data : bytes) (off : Z) : result Z :=
  bind (field 4 data off) (fun bs =>
    let u := le_decode bs in
    Ok (if u <? 2 ^ 31 then u else u - 2 ^ 32)).

(** ["<II"] *)
Definition unpack_II (data : bytes) (off : Z) : result (Z * Z) :=
  bind (field 8 data off) (fun bs =>
    Ok (le_decode (firstn 4 bs), le_decode (skipn 4 bs))).

(** [struct.pack("<I", v)] and [struct.pack("<Q", v)]: the value must fit. *)
Definition pack_I (v : Z) : result bytes :=
  if (0 <=? v) && (v <? 2 ^ 32) then Ok (le_encode 4 v) else Raise StructError.

Definition pack_Q (v : Z) : result bytes :=
  if (0 <=? v) && (v <? 2 ^ 64) then Ok (le_encode 8 v) else Raise StructError.

(** [struct.pack_into("<I", data, off, v)] *)
Definition pack_into_I (data : bytes) (off v : Z) : result bytes :=
  bind (pack_I v) (fun bs =>
  bind (field 4 data off) (fun _ =>
    let n := len data in
    let o := if off <? 0 then off + n else off in
    Ok (firstn (Z.to_nat o) data ++ bs ++ skipn (Z.to_nat o + 4) data))).

(** Python's [&] with [~m] for a mask [m = 2^k - 1] is [Z.land] with
    [Z.lnot]; both are defined on all of [Z] as on Python's integers. *)
Definition and_not (a m : Z) : Z := Z.land a (Z.lnot m).

End Py.

Export Py.

Declare Scope py_scope.
Delimit Scope py_scope with py.
Notation "x <- c ;; k" := (Py.bind c (fun x => k))
  (at level 61, c at next level, right associativity) : py_scope.
Notation "' p <- c ;; k" := (Py.bind c (fun p => k))
  (at level 61, p pattern, c at next level, right associativity) : py_scope.
Local Open Scope py_scope.

(** ** Strings *)

Module Str.

(** A Python [str] as its list of code points. *)
Definition pystr := list Z.

Definition of_string (s : string) : pystr :=
  map (fun a => Z.of_N (N_of_ascii a)) (list_ascii_of_string s).

(** A byte-string literal [b"..."] (ASCII). *)
Definition B (s : string) : bytes := list_byte_of_string s.

Definition pystr_eqb (a b : pystr) : bool :=
  if list_eq_dec Z.eq_dec a b then true else false.

(** [needle in s] on strings *)
Fixpoint contains (s needle : pystr) : bool :=
  if startswith Z.eqb s needle then true
  else match s with
       | [] => false
       | _ :: t => contains t needle
       end.

(** [bs.split(b"\x00")[0]]: the bytes before the first null byte. *)
Fixpoint split0 (bs : bytes) : bytes :=
  match bs with
  | [] => []
  | b :: t => if byte_eqb b x00 then [] else b :: split0 t
  end.

(** [bs.decode("ascii", errors="replace")] *)
Definition decode_ascii_replace (bs : bytes) : pystr :=
  map (fun b => if b2z b <? 128 then b2z b else 0xFFFD) bs.

Definition is_cont (b : Z) : bool := (0x80 <=? b) && (b <=? 0xBF).

(** [bs.decode()]: strict UTF-8.  [fuel] bounds the number of characters. *)
Fixpoint utf8 (fuel : nat) (bs : list Z) : result pystr :=
  match fuel with
  | O => match bs with [] => Ok [] | _ => Raise UnicodeDecodeError end
  | S f =>
    match bs with
    | [] => Ok []
    | b0 :: t =>
      if b0 <? 0x80 then r <- utf8 f t ;; Ok (b0 :: r)
      else if (0xC2 <=? b0) && (b0 <=? 0xDF) then
        match t with
        | b1 :: t1 =>
          if is_cont b1
          then r <- utf8 f t1 ;; Ok (((b0 - 0xC0) * 64 + (b1 - 0x80)) :: r)
          else Raise UnicodeDecodeError
        | _ => Raise UnicodeDecodeError
        end
      else if (0xE0 <=? b0) && (b0 <=? 0xEF) then
        match t with
        | b1 :: b2 :: t2 =>
          let lo := if b0 =? 0xE0 then 0xA0 else 0x80 in
          let hi := if b0 =? 0xED then 0x9F else 0xBF in
          if (lo <=? b1) && (b1 <=? hi) && is_cont b2
          then r <- utf8 f t2 ;;
               Ok (((b0 - 0xE0) * 4096 + (b1 - 0x80) * 64 + (b2 - 0x80)) :: r)
          else Raise UnicodeDecodeError
        | _ => Raise UnicodeDecodeError
        end
      else if (0xF0 <=? b0) && (b0 <=? 0xF4) then
        match t with
        | b1 :: b2 :: b3 :: t3 =>
          let lo := if b0 =? 0xF0 then 0x90 else 0x80 in
          let hi := if b0 =? 0xF4 then 0x8F else 0xBF in
          if (lo <=? b1) && (b1 <=? hi) && is_cont b2 && is_cont b3
          then r <- utf8 f t3 ;;
               Ok (((b0 - 0xF0) * 262144 + (b1 - 0x80) * 4096
                    + (b2 - 0x80) * 64 + (b3 - 0x80)) :: r)
          else Raise UnicodeDecodeError
        | _ => Raise UnicodeDecodeError
        end
      else Raise UnicodeDecodeError
    end
  end.

Definition decode (bs : bytes) : result pystr :=
  utf8 (List.length bs) (map b2z bs).

(** [f"{n:X}"] *)
Definition hexdigit (d : Z) : ascii :=
  nth (Z.to_nat d) (list_ascii_of_string "0123456789ABCDEF") "0"%char.

Fixpoint hex_digits (fuel : nat) (n : Z) (acc : string) : string :=
  match fuel with
  | O => acc
  | S f =>
    let acc' := String (hexdigit (n mod 16)) acc in
    if n / 16 =? 0 then acc' else hex_digits f (n / 16) acc'
  end.

Definition format_X (n : Z) : string :=
  if n <? 0
  then String "-"%char (hex_digits (S (Z.to_nat (Z.log2 (- n)))) (- n) EmptyString)
  else hex_digits (S (Z.to_nat (Z.log2 n))) n EmptyString.

(** [f"{n}"] for a non-negative [n] *)
Fixpoint dec_digits (fuel : nat) (n : Z) (acc : string) : string :=
  match fuel with
  | O => acc
  | S f =>
    let acc' := String (hexdigit (n mod 10)) acc in
    if n / 10 =? 0 then acc' else dec_digits f (n / 10) acc'
  end.

Definition format_d (n : Z) : string :=
  if n <? 0
  then String "-"%char (dec_digits (S (Z.to_nat (Z.log2 (- n)))) (- n) EmptyString)
  else dec_digits (S (Z.to_nat (Z.log2 n))) n EmptyString.

(** A Python [dict] that is iterated: an association list in insertion
    order; assigning to a key that is present keeps its position. *)
Fixpoint dict_set {V} (d : list (pystr * V)) (k : pystr) (v : V) : list (pystr * V) :=
  match d with
  | [] => [(k, v)]
  | (k', v') :: t =>
    if pystr_eqb k' k then (k', v) :: t else (k', v') :: dict_set t k v
  end.

Fixpoint dict_get {V} (d : list (pystr * V)) (k : pystr) : option V :=
  match d with
  | [] => None
  | (k', v') :: t => if pystr_eqb k' k then Some v' else dict_get t k
  end.

End Str.

Export Str.

(** ** The disassembler and assembler facades

    capstone and keystone are third-party libraries: the code is modelled over
    any decoder and encoder with their interface.  An instruction is what the
    sources read from a capstone instruction object. *)

Module Facade.

Record operand : Type := {
  op_type : Z;       (* ARM64_OP_REG = 1, ARM64_OP_IMM = 2, ARM64_OP_MEM = 3 *)
  op_reg : Z;        (* [op.reg] *)
  op_imm : Z;        (* [op.imm] *)
  op_mem_base : Z    (* [op.mem.base] *)
}.

Record insn : Type := {
  address : Z;
  mnemonic : string;
  op_str : string;
  operands : list operand
}.

(** [_cs.disasm(code, addr)]: the instructions decoded from [code] placed at
    address [addr], up to the first word that does not decode; with it the
    operand-type and register constants of [capstone.arm64_const]. *)
Class Disassembler : Type := {
  cs_disasm : bytes -> Z -> list insn;
  ARM64_OP_REG : Z;
  ARM64_OP_IMM : Z;
  ARM64_OP_MEM : Z;
  ARM64_REG_W0 : Z;
  ARM64_REG_X0 : Z;
  ARM64_REG_X1 : Z;
  ARM64_REG_X8 : Z
}.

(** [_ks.asm(line, addr)[0]]: the encoding, or [None] when keystone gives
    none. *)
Class Assembler : Type := { ks_asm : string -> Z -> option bytes }.

(** [insn.operands[k]] (read only after a test of [len(insn.operands)]) and
    [len(insn.operands)] *)
Definition operand0 : operand :=
  {| op_type := 0; op_reg := 0; op_imm := 0; op_mem_base := 0 |}.
Definition opnd (i : insn) (k : nat) : operand := nth k (operands i) operand0.
Definition nops (i : insn) : Z := len (operands i).

Definition mn_is (i : insn) (m : string) : bool := String.eqb (mnemonic i) m.
Definition mn_in (i : insn) (ms : list string) : bool :=
  existsb (String.eqb (mnemonic i)) ms.
Definition ops_is (i : insn) (s : string) : bool := String.eqb (op_str i) s.
Definition ops_startswith (i : insn) (p : string) : bool := String.prefix p (op_str i).

End Facade.

Export Facade.

(** ** cfw.py *)

Module Cfw.

(** [asm("nop")], [asm("mov x0, #1")] and [asm("ret")], evaluated when the
    module is loaded: the A64 encodings keystone produces for them. *)
Definition NOP : bytes := [x1f; x20; x03; xd5].
Definition MOV_X0_1 : bytes := [x20; x00; x80; xd2].
Definition RET : bytes := [xc0; x03; x5f; xd6].

Section WithFacades.
Context {D : Disassembler} {K : Assembler}.

Definition asm_at (s : string) (addr : Z) : result bytes :=
  match ks_asm s addr with
  | Some (b :: enc) => Ok (b :: enc)
  | _ => Raise RuntimeError
  end.

Definition rd32 (data : bytes) (off : Z) : result Z := unpack_I data off.

Definition disasm_at (data : bytes) (off n : Z) : list insn :=
  cs_disasm (slice data off (off + n * 4)) off.

(** *** Mach-O helpers *)

Definition section_info : Type := (Z * Z * Z)%type.   (* (vm_addr, size, file_offset) *)
Definition sections_t : Type := list (pystr * section_info).

Fixpoint parse_sects (data : bytes) (nsects : nat) (segname : pystr) (sect_off : Z)
    (sections : sections_t) : result sections_t :=
  match nsects with
  | O => Ok sections
  | S n =>
    sectname <- decode (split0 (slice data sect_off (sect_off + 16))) ;;
    addr <- unpack_Q data (sect_off + 32) ;;
    size <- unpack_Q data (sect_off + 40) ;;
    file_off <- unpack_I data (sect_off + 48) ;;
    parse_sects data n segname (sect_off + 80)
      (dict_set sections (segname ++ of_string "," ++ sectname) (addr, size, file_off))
  end.

Fixpoint parse_cmds (data : bytes) (ncmds : nat) (offset : Z) (sections : sections_t)
    : result sections_t :=
  match ncmds with
  | O => Ok sections
  | S n =>
    '(cmd, cmdsize) <- unpack_II data offset ;;
    sections' <-
      (if cmd =? 0x19 then
         segname <- decode (split0 (slice data (offset + 8) (offset + 24))) ;;
         nsects <- unpack_I data (offset + 64) ;;
         parse_sects data (Z.to_nat nsects) segname (offset + 72) sections
       else Ok sections) ;;
    parse_cmds data n (offset + cmdsize) sections'
  end.

Definition parse_macho_sections (data : bytes) : result sections_t :=
  magic <- unpack_I data 0 ;;
  if negb (magic =? 0xFEEDFACF) then Raise ValueError
  else
    ncmds <- unpack_I data 16 ;;
    parse_cmds data (Z.to_nat ncmds) 32 [].

Fixpoint va_to_foff_loop (data : bytes) (ncmds : nat) (offset va : Z) : result Z :=
  match ncmds with
  | O => Ok (-1)
  | S n =>
    '(cmd, cmdsize) <- unpack_II data offset ;;
    if cmd =? 0x19 then
      vmaddr <- unpack_Q data (offset + 24) ;;
      vmsize <- unpack_Q data (offset + 32) ;;
      fileoff <- unpack_Q data (offset + 40) ;;
      if (vmaddr <=? va) && (va <? vmaddr + vmsize)
      then Ok (fileoff + (va - vmaddr))
      else va_to_foff_loop data n (offset + cmdsize) va
    else va_to_foff_loop data n (offset + cmdsize) va
  end.

Definition va_to_foff (data : bytes) (va : Z) : result Z :=
  ncmds <- unpack_I data 16 ;;
  va_to_foff_loop data (Z.to_nat ncmds) 32 va.

Fixpoint find_section (sections : sections_t) (candidates : list pystr)
    : option section_info :=
  match candidates with
  | [] => None
  | name :: rest =>
    match dict_get sections name with
    | Some v => Some v
    | None => find_section sections rest
    end
  end.

Fixpoint find_symtab_loop (data : bytes) (ncmds : nat) (offset : Z)
    : result (option (Z * Z * Z * Z)) :=
  match ncmds with
  | O => Ok None
  | S n =>
    '(cmd, cmdsize) <- unpack_II data offset ;;
    if cmd =? 0x02 then
      symoff <- unpack_I data (offset + 8) ;;
      nsyms <- unpack_I data (offset + 12) ;;
      stroff <- unpack_I data (offset + 16) ;;
      strsize <- unpack_I data (offset + 20) ;;
      Ok (Some (symoff, nsyms, stroff, strsize))
    else find_symtab_loop data n (offset + cmdsize)
  end.

Definition find_symtab (data : bytes) : result (option (Z * Z * Z * Z)) :=
  ncmds <- unpack_I data 16 ;;
  find_symtab_loop data (Z.to_nat ncmds) 32.

Fixpoint find_symbol_va_loop (data : bytes) (name_fragment : pystr)
    (symoff stroff strsize : Z) (count : nat) (i : Z) : result Z :=
  match count with
  | O => Ok (-1)
  | S n =>
    let entry_off := symoff + i * 16 in
    n_strx <- unpack_I data entry_off ;;
    n_value <- unpack_Q data (entry_off + 8) ;;
    if (n_strx >=? strsize) || (n_value =? 0)
    then find_symbol_va_loop data name_fragment symoff stroff strsize n (i + 1)
    else
      end_ <- index data 0 (stroff + n_strx) ;;
      let sym_name := decode_ascii_replace (slice data (stroff + n_strx) end_) in
      if contains sym_name name_fragment then Ok n_value
      else find_symbol_va_loop data name_fragment symoff stroff strsize n (i + 1)
  end.

Definition find_symbol_va (data : bytes) (name_fragment : pystr) : result Z :=
  st <- find_symtab data ;;
  match st with
  | None => Ok (-1)
  | Some (symoff, nsyms, stroff, strsize) =>
    (* [if not st]: a tuple of four is never falsy *)
    find_symbol_va_loop data name_fragment symoff stroff strsize (Z.to_nat nsyms) 0
  end.

(** The outcome of a patch command: the value returned and, when the command
    reached [open(filepath, "wb").write(data)], the bytes written. *)
Record outcome : Type := { returned : bool; written : option bytes }.

Definition fail_ : result outcome := Ok {| returned := false; written := None |}.
Definition wrote (data : bytes) : result outcome :=
  Ok {| returned := true; written := Some data |}.


(** *** 1. seputil *)

Definition patch_seputil (file : bytes) : result outcome :=
  let data := file in
  let anchor := B "/%s.gl" ++ [x00] in
  let offset := find data anchor 0 in
  if offset <? 0 then fail_
  else
    let pct_s_off := offset + 1 in
    data <- setitem data pct_s_off 65 ;;
    data <- setitem data (pct_s_off + 1) 65 ;;
    wrote data.

(** *** 2. launchd_cache_loader *)

Fixpoint _find_cstring_start_loop (fuel : nat) (data : bytes) (pos section_foff : Z)
    : result Z :=
  match fuel with
  | O => Raise IndexError
  | S f =>
    if pos >=? section_foff then
      b <- getitem data pos ;;
      if negb (b =? 0) then _find_cstring_start_loop f data (pos - 1) section_foff
      else Ok (pos + 1)
    else Ok (pos + 1)
  end.

(** [_find_cstring_start]: the [while] loop runs at most
    [match_off - section_foff] times before [pos] falls below [section_foff]. *)
Definition _find_cstring_start (data : bytes) (match_off section_foff : Z) : result Z :=
  _find_cstring_start_loop (S (Z.to_nat (match_off - section_foff)))
    data (match_off - 1) section_foff.

(** [adrp_cache]: register -> (insn_va, page_value, instruction_index) *)
Definition adrp_cache_t : Type := list (Z * (Z * Z * Z)).

Fixpoint cache_get (c : adrp_cache_t) (r : Z) : option (Z * Z * Z) :=
  match c with
  | [] => None
  | (r', v) :: t => if r' =? r then Some v else cache_get t r
  end.

Definition cache_set (c : adrp_cache_t) (r : Z) (v : Z * Z * Z) : adrp_cache_t :=
  (r, v) :: c.

(** The body of the [for off in range(0, len(code) - 4, 4)] loop of
    [_find_adrp_add_ref]; [Some va] is [return adrp_va]. *)
Fixpoint _find_adrp_add_ref_loop (code : bytes) (base_va target_page target_pageoff : Z)
    (offs : list Z) (adrp_cache : adrp_cache_t) : option Z :=
  match offs with
  | [] => None
  | off :: rest =>
    match cs_disasm (slice code off (off + 4)) (base_va + off) with
    | [] => _find_adrp_add_ref_loop code base_va target_page target_pageoff rest adrp_cache
    | insn :: _ =>
      let idx := off / 4 in
      if mn_is insn "adrp" && (nops insn >=? 2) then
        let reg := op_reg (opnd insn 0) in
        let page := op_imm (opnd insn 1) in
        _find_adrp_add_ref_loop code base_va target_page target_pageoff rest
          (cache_set adrp_cache reg (address insn, page, idx))
      else if mn_is insn "add" && (nops insn >=? 3) then
        let src_reg := op_reg (opnd insn 1) in
        let imm := op_imm (opnd insn 2) in
        match cache_get adrp_cache src_reg with
        | Some (adrp_va, page, adrp_idx) =>
          if (page =? target_page) && (imm =? target_pageoff) && (idx - adrp_idx <=? 8)
          then Some adrp_va
          else _find_adrp_add_ref_loop code base_va target_page target_pageoff rest adrp_cache
        | None =>
          _find_adrp_add_ref_loop code base_va target_page target_pageoff rest adrp_cache
        end
      else _find_adrp_add_ref_loop code base_va target_page target_pageoff rest adrp_cache
    end
  end.

Definition _find_adrp_add_ref (code : bytes) (base_va target_va : Z) : Z :=
  let target_page := and_not target_va 0xFFF in
  let target_pageoff := Z.land target_va 0xFFF in
  match _find_adrp_add_ref_loop code base_va target_page target_pageoff
          (range 0 (len code - 4) 4) [] with
  | Some adrp_va => adrp_va
  | None => -1
  end.

Definition branch_mnemonics : list string :=
  ["cbz"; "cbnz"; "tbz"; "tbnz"]%string.

Definition is_cond_branch (i : insn) : bool :=
  mn_in i branch_mnemonics || String.prefix "b." (mnemonic i).

(** The inner loop of strategy A: [Some br_foff] is [return br_foff]. *)
Fixpoint _find_nearby_branch_after_bl (data : bytes) (check_foff text_end : Z)
    (d2s : list Z) : option Z :=
  match d2s with
  | [] => None
  | d2 :: rest =>
    let br_foff := check_foff + d2 * 4 in
    if br_foff >=? text_end then None
    else match disasm_at data br_foff 1 with
         | [] => _find_nearby_branch_after_bl data check_foff text_end rest
         | i :: _ =>
           if is_cond_branch i then Some br_foff
           else _find_nearby_branch_after_bl data check_foff text_end rest
         end
  end.

(** Strategy A: [Some f] is [return f]; [None] is the end of the loop, at a
    [break] or at the end of the range: strategy B follows either way. *)
Fixpoint _find_nearby_branch_A (data : bytes) (ref_foff text_end : Z) (deltas : list Z)
    : option Z :=
  match deltas with
  | [] => None
  | delta :: rest =>
    let check_foff := ref_foff + delta * 4 in
    if check_foff >=? text_end then None
    else match disasm_at data check_foff 1 with
         | [] => _find_nearby_branch_A data ref_foff text_end rest
         | i :: _ =>
           if mn_is i "bl"
           then _find_nearby_branch_after_bl data check_foff text_end (range 1 9 1)
           else _find_nearby_branch_A data ref_foff text_end rest
         end
  end.

Fixpoint _find_nearby_branch_B (data : bytes) (ref_foff text_end : Z) (deltas : list Z)
    : option Z :=
  match deltas with
  | [] => None
  | delta :: rest =>
    let check_foff := ref_foff + delta * 4 in
    if check_foff >=? text_end then None
    else match disasm_at data check_foff 1 with
         | [] => _find_nearby_branch_B data ref_foff text_end rest
         | i :: _ =>
           if is_cond_branch i then Some check_foff
           else _find_nearby_branch_B data ref_foff text_end rest
         end
  end.

Definition _find_nearby_branch (data : bytes) (ref_foff text_foff text_size : Z) : Z :=
  match _find_nearby_branch_A data ref_foff (text_foff + text_size) (range 0 16 1) with
  | Some f => f
  | None =>
    match _find_nearby_branch_B data ref_foff (text_foff + text_size) (range 1 33 1) with
    | Some f => f
    | None => -1
    end
  end.

(** [for _, (sva, ssz, sfoff) in sections.items(): if sfoff <= off < sfoff + ssz] *)
Fixpoint section_containing (sections : sections_t) (off : Z) : option section_info :=
  match sections with
  | [] => None
  | (_, (sva, ssz, sfoff)) :: t =>
    if (sfoff <=? off) && (off <? sfoff + ssz) then Some (sva, ssz, sfoff)
    else section_containing t off
  end.

Fixpoint patch_launchd_cache_loader_loop (data : bytes) (sections : sections_t)
    (text_va text_size text_foff : Z) (anchor_strings : list bytes) : result outcome :=
  match anchor_strings with
  | [] => fail_
  | anchor_str :: rest =>
    let continue_ :=
      patch_launchd_cache_loader_loop data sections text_va text_size text_foff rest in
    let anchor_off := find data anchor_str 0 in
    if anchor_off <? 0 then continue_
    else
      match section_containing sections anchor_off with
      | None => continue_
      | Some (anchor_sec_va, _, anchor_sec_foff) =>
        (* [anchor_sec_foff] is an unsigned field, so never negative *)
        str_start_off <- _find_cstring_start data anchor_off anchor_sec_foff ;;
        let str_start_va := anchor_sec_va + (str_start_off - anchor_sec_foff) in
        let substr_va := anchor_sec_va + (anchor_off - anchor_sec_foff) in
        _ <- (if negb (str_start_off =? anchor_off)
              then index data 0 str_start_off else Ok 0) ;;
        let code := slice data text_foff (text_foff + text_size) in
        let ref_off := _find_adrp_add_ref code text_va str_start_va in
        let ref_off :=
          if ref_off <? 0 then _find_adrp_add_ref code text_va substr_va else ref_off in
        if ref_off <? 0 then continue_
        else
          let ref_foff := text_foff + (ref_off - text_va) in
          let branch_foff := _find_nearby_branch data ref_foff text_foff text_size in
          if branch_foff >=? 0 then
            let data := slice_assign data branch_foff (branch_foff + 4) NOP in
            wrote data
          else continue_
      end
  end.

Definition patch_launchd_cache_loader (file : bytes) : result outcome :=
  let data := file in
  sections <- parse_macho_sections data ;;
  match find_section sections [of_string "__TEXT,__text"] with
  | None => fail_
  | Some (text_va, text_size, text_foff) =>
    patch_launchd_cache_loader_loop data sections text_va text_size text_foff
      [B "unsecure_cache"; B "unsecure"; B "cache_valid"; B "validation"]
  end.

(** *** 3. mobileactivationd *)

Fixpoint selref_loop (data : bytes) (sr_va sr_foff sel_va : Z) (idxs : list Z)
    : result (Z * Z) :=
  match idxs with
  | [] => Ok (-1, -1)
  | i :: rest =>
    ptr <- unpack_Q data (sr_foff + i) ;;
    if (ptr =? sel_va) || (Z.land ptr 0x0000FFFFFFFFFFFF =? sel_va)
    then Ok (sr_foff + i, sr_va + i)
    else if Z.land ptr 0xFFFFFFFF =? Z.land sel_va 0xFFFFFFFF
    then Ok (sr_foff + i, sr_va + i)
    else selref_loop data sr_va sr_foff sel_va rest
  end.

Fixpoint method_list_loop (data : bytes) (oc_va oc_foff selref_va : Z) (idxs : list Z)
    : result Z :=
  match idxs with
  | [] => Ok (-1)
  | i :: rest =>
    let entry_foff := oc_foff + i in
    let entry_va := oc_va + i in
    rel_name <- unpack_i data entry_foff ;;
    let target_va := entry_va + rel_name in
    if target_va =? selref_va then
      let imp_field_foff := entry_foff + 8 in
      let imp_field_va := entry_va + 8 in
      rel_imp <- unpack_i data imp_field_foff ;;
      let imp_va := imp_field_va + rel_imp in
      imp_foff <- va_to_foff data imp_va ;;
      if imp_foff >=? 0 then Ok imp_foff
      else method_list_loop data oc_va oc_foff selref_va rest
    else method_list_loop data oc_va oc_foff selref_va rest
  end.

Definition _find_via_objc_metadata (data : bytes) : result Z :=
  sections <- parse_macho_sections data ;;
  let selector := B "should_hactivate" ++ [x00] in
  let sel_foff := find data selector 0 in
  if sel_foff <? 0 then Ok (-1)
  else
    let sel_va :=
      match section_containing sections sel_foff with
      | Some (sva, _, sfoff) => sva + (sel_foff - sfoff)
      | None => -1
      end in
    if sel_va <? 0 then Ok (-1)
    else
      let selrefs := find_section sections
        [of_string "__DATA_CONST,__objc_selrefs"; of_string "__DATA,__objc_selrefs";
         of_string "__AUTH_CONST,__objc_selrefs"] in
      '(selref_foff, selref_va) <-
        match selrefs with
        | Some (sr_va, sr_size, sr_foff) =>
          selref_loop data sr_va sr_foff sel_va (range 0 sr_size 8)
        | None => Ok (-1, -1)
        end ;;
      if selref_foff <? 0 then Ok (-1)
      else
        let objc_const := find_section sections
          [of_string "__DATA_CONST,__objc_const"; of_string "__DATA,__objc_const";
           of_string "__AUTH_CONST,__objc_const"] in
        match objc_const with
        | Some (oc_va, oc_size, oc_foff) =>
          method_list_loop data oc_va oc_foff selref_va (range 0 (oc_size - 12) 4)
        | None => Ok (-1)
        end.

Definition patch_mobileactivationd (file : bytes) : result outcome :=
  let data := file in
  let imp_foff := -1 in
  imp_va <- find_symbol_va data (of_string "should_hactivate") ;;
  imp_foff <- (if imp_va >? 0 then va_to_foff data imp_va else Ok imp_foff) ;;
  imp_foff <- (if imp_foff <? 0 then _find_via_objc_metadata data else Ok imp_foff) ;;
  if imp_foff <? 0 then fail_
  else if imp_foff + 8 >? len data then fail_
  else
    let data := slice_assign data imp_foff (imp_foff + 4) MOV_X0_1 in
    let data := slice_assign data (imp_foff + 4) (imp_foff + 8) RET in
    wrote data.

(** *** 4. launchd jetsam *)

Fixpoint first_imm (ops : list operand) : Z :=
  match ops with
  | [] => -1
  | op :: rest => if op_type op =? ARM64_OP_IMM then op_imm op else first_imm rest
  end.

Definition _extract_branch_target_off (i : insn) : Z := first_imm (rev (operands i)).

Fixpoint _is_return_block_loop (data : bytes) (foff text_end : Z) (idxs : list Z) : bool :=
  match idxs with
  | [] => false
  | i :: rest =>
    let check := foff + i * 4 in
    if check >=? text_end then false
    else match disasm_at data check 1 with
         | [] => _is_return_block_loop data foff text_end rest
         | ins :: _ =>
           if mn_in ins ["ret"; "retab"]%string then true
           else if mn_in ins ["b"; "bl"; "br"; "blr"]%string then false
           else _is_return_block_loop data foff text_end rest
         end
  end.

Definition _is_return_block (data : bytes) (foff text_foff text_size : Z) : bool :=
  _is_return_block_loop data foff (text_foff + text_size) (range 0 8 1).

Definition cond_mnemonics : list string :=
  ["b.eq"; "b.ne"; "b.cs"; "b.hs"; "b.cc"; "b.lo";
   "b.mi"; "b.pl"; "b.vs"; "b.vc"; "b.hi"; "b.ls";
   "b.ge"; "b.lt"; "b.gt"; "b.le";
   "cbz"; "cbnz"; "tbz"; "tbnz"]%string.

(** The backward scan of [patch_launchd_jetsam]: the last hit, that is the
    earliest branch, stays in [(patch_off, patch_target)]. *)
Fixpoint jetsam_scan (data : bytes) (text_foff text_size : Z) (backs : list Z)
    (patch : Z * Z) : Z * Z :=
  match backs with
  | [] => patch
  | back :: rest =>
    let next := jetsam_scan data text_foff text_size rest in
    match disasm_at data back 1 with
    | [] => next patch
    | insn :: _ =>
      if negb (mn_in insn cond_mnemonics) then next patch
      else
        let tgt := _extract_branch_target_off insn in
        if tgt <? 0 then next patch
        else if (tgt <? text_foff) || (tgt >=? text_foff + text_size) then next patch
        else if _is_return_block data tgt text_foff text_size then next (back, tgt)
        else next patch
    end
  end.

Fixpoint patch_launchd_jetsam_loop (data code : bytes) (sections : sections_t)
    (text_va text_size text_foff : Z) (anchors : list bytes) : result outcome :=
  match anchors with
  | [] => fail_
  | anchor :: rest =>
    let continue_ :=
      patch_launchd_jetsam_loop data code sections text_va text_size text_foff rest in
    let hit_off := find data anchor 0 in
    if hit_off <? 0 then continue_
    else
      match section_containing sections hit_off with
      | None => continue_
      | Some (sec_va, _, sec_foff) =>
        str_start_off <- _find_cstring_start data hit_off sec_foff ;;
        let str_start_va := sec_va + (str_start_off - sec_foff) in
        let ref_va := _find_adrp_add_ref code text_va str_start_va in
        if ref_va <? 0 then continue_
        else
          let ref_foff := text_foff + (ref_va - text_va) in
          let scan_lo := Z.max text_foff (ref_foff - 0x300) in
          let '(patch_off, patch_target) :=
            jetsam_scan data text_foff text_size
              (range (ref_foff - 4) (scan_lo - 1) (-4)) (-1, -1) in
          if patch_off <? 0 then continue_
          else
            enc <- asm_at (String.append "b #0x" (format_X patch_target)) patch_off ;;
            let data := slice_assign data patch_off (patch_off + 4) enc in
            wrote data
      end
  end.

Definition patch_launchd_jetsam (file : bytes) : result outcome :=
  let data := file in
  sections <- parse_macho_sections data ;;
  match find_section sections [of_string "__TEXT,__text"] with
  | None => fail_
  | Some (text_va, text_size, text_foff) =>
    let code := slice data text_foff (text_foff + text_size) in
    patch_launchd_jetsam_loop data code sections text_va text_size text_foff
      [B "jetsam property category (Daemon) is not initialized";
       B "jetsam property category";
       B "initproc exited -- exit reason namespace 7 subcode 0x1"]
  end.

(** *** 5. Mach-O dylib injection *)

Definition _align (n alignment : Z) : Z :=
  Z.land (n + alignment - 1) (Z.lnot (alignment - 1)).

Fixpoint first_section_sects (data : bytes) (nsects : nat) (sect_off earliest : Z)
    : result Z :=
  match nsects with
  | O => Ok earliest
  | S n =>
    file_off <- unpack_I data (sect_off + 48) ;;
    size <- unpack_Q data (sect_off + 40) ;;
    let earliest :=
      if (file_off >? 0) && (size >? 0) && (file_off <? earliest)
      then file_off else earliest in
    first_section_sects data n (sect_off + 80) earliest
  end.

Fixpoint first_section_cmds (data : bytes) (ncmds : nat) (offset earliest : Z)
    : result Z :=
  match ncmds with
  | O => Ok earliest
  | S n =>
    '(cmd, cmdsize) <- unpack_II data offset ;;
    earliest <-
      (if cmd =? 0x19 then
         nsects <- unpack_I data (offset + 64) ;;
         first_section_sects data (Z.to_nat nsects) (offset + 72) earliest
       else Ok earliest) ;;
    first_section_cmds data n (offset + cmdsize) earliest
  end.

Definition _find_first_section_offset (data : bytes) : result Z :=
  magic <- unpack_I data 0 ;;
  if negb (magic =? 0xFEEDFACF) then Ok (-1)
  else
    ncmds <- unpack_I data 16 ;;
    first_section_cmds data (Z.to_nat ncmds) 32 (len data).

Fixpoint fat_slices_loop (data : bytes) (wide : bool) (idxs : list Z)
    : result (list (Z * Z)) :=
  match idxs with
  | [] => Ok []
  | i :: rest =>
    sl <-
      (if wide then
         let off := 8 + i * 32 in
         slice_off <- unpack_Q_be data (off + 8) ;;
         slice_size <- unpack_Q_be data (off + 16) ;;
         Ok (slice_off, slice_size)
       else
         let off := 8 + i * 20 in
         slice_off <- unpack_I_be data (off + 8) ;;
         slice_size <- unpack_I_be data (off + 12) ;;
         Ok (slice_off, slice_size)) ;;
    r <- fat_slices_loop data wide rest ;;
    Ok (sl :: r)
  end.

Definition _get_fat_slices (data : bytes) : result (list (Z * Z)) :=
  magic <- unpack_I_be data 0 ;;
  if magic =? 0xCAFEBABE then
    nfat <- unpack_I_be data 4 ;;
    fat_slices_loop data false (range 0 nfat 1)
  else if magic =? 0xBEBAFECA then
    nfat <- unpack_I_be data 4 ;;
    fat_slices_loop data true (range 0 nfat 1)
  else Ok [(0, len data)].

Definition is_dylib_cmd (cmd : Z) : bool :=
  existsb (Z.eqb cmd) [0xC; 0xD; 0x18; 0x1F; 0x80000018].

Fixpoint _check_existing_dylib_loop (data : bytes) (dylib_path : pystr)
    (ncmds : nat) (offset : Z) : result bool :=
  match ncmds with
  | O => Ok false
  | S n =>
    '(cmd, cmdsize) <- unpack_II data offset ;;
    if is_dylib_cmd cmd then
      name_offset <- unpack_I data (offset + 8) ;;
      name_end <- index data 0 (offset + name_offset) ;;
      let name := decode_ascii_replace (slice data (offset + name_offset) name_end) in
      if pystr_eqb name dylib_path then Ok true
      else _check_existing_dylib_loop data dylib_path n (offset + cmdsize)
    else _check_existing_dylib_loop data dylib_path n (offset + cmdsize)
  end.

Definition _check_existing_dylib (data : bytes) (base : Z) (dylib_path : pystr)
    : result bool :=
  magic <- unpack_I data base ;;
  if negb (magic =? 0xFEEDFACF) then Ok false
  else
    ncmds <- unpack_I data (base + 16) ;;
    _check_existing_dylib_loop data dylib_path (Z.to_nat ncmds) (base + 32).

(** The scan of [_strip_codesig]: [(last_offset, last_cmd, last_cmdsize)]. *)
Fixpoint last_cmd_loop (data : bytes) (ncmds : Z) (idxs : list Z) (offset : Z)
    (last : Z * Z * Z) : result (Z * Z * Z) :=
  match idxs with
  | [] => Ok last
  | i :: rest =>
    '(cmd, cmdsize) <- unpack_II data offset ;;
    let last := if i =? ncmds - 1 then (offset, cmd, cmdsize) else last in
    last_cmd_loop data ncmds rest (offset + cmdsize) last
  end.

(** [_strip_codesig]: the value returned and the buffer as it leaves it. *)
Definition _strip_codesig (data : bytes) (base : Z) : result (Z * bytes) :=
  ncmds <- unpack_I data (base + 16) ;;
  sizeofcmds <- unpack_I data (base + 20) ;;
  '(last_offset, last_cmd, last_cmdsize) <-
    last_cmd_loop data ncmds (range 0 ncmds 1) (base + 32) (-1, 0, 0) ;;
  if negb (last_cmd =? 0x1D) then Ok (0, data)
  else
    let data := slice_assign data last_offset (last_offset + last_cmdsize)
                  (repeat x00 (Z.to_nat last_cmdsize)) in
    data <- pack_into_I data (base + 16) (ncmds - 1) ;;
    data <- pack_into_I data (base + 20) (sizeofcmds - last_cmdsize) ;;
    Ok (last_cmdsize, data).

(** [dylib_path.encode("ascii")] *)
Definition encode_ascii (s : pystr) : result bytes :=
  if forallb (fun c => (0 <=? c) && (c <? 128)) s then Ok (map z2b s)
  else Raise UnicodeEncodeError.

(** The LC_LOAD_DYLIB command [_inject_lc_load_dylib] builds. *)
Definition build_lc (dylib_path : pystr) : result (Z * bytes) :=
  enc <- encode_ascii dylib_path ;;
  let name_bytes := enc ++ [x00] in
  let name_offset_in_cmd := 24 in
  let cmd_size := _align (name_offset_in_cmd + len name_bytes) 8 in
  let lc_data := repeat x00 (Z.to_nat cmd_size) in
  lc_data <- pack_into_I lc_data 0 0xC ;;
  lc_data <- pack_into_I lc_data 4 cmd_size ;;
  lc_data <- pack_into_I lc_data 8 name_offset_in_cmd ;;
  lc_data <- pack_into_I lc_data 12 2 ;;
  lc_data <- pack_into_I lc_data 16 0 ;;
  lc_data <- pack_into_I lc_data 20 0 ;;
  let lc_data := slice_assign lc_data name_offset_in_cmd
                   (name_offset_in_cmd + len name_bytes) name_bytes in
  Ok (cmd_size, lc_data).

(** [_inject_lc_load_dylib]: the value returned and the buffer as it leaves
    it. *)
Definition _inject_lc_load_dylib (data : bytes) (base : Z) (dylib_path : pystr)
    : result (bool * bytes) :=
  magic <- unpack_I data base ;;
  if negb (magic =? 0xFEEDFACF) then Ok (false, data)
  else
    ncmds <- unpack_I data (base + 16) ;;
    sizeofcmds <- unpack_I data (base + 20) ;;
    '(cmd_size, lc_data) <- build_lc dylib_path ;;
    let header_end := base + 32 + sizeofcmds in
    first_section <- _find_first_section_offset (slice_from data base) ;;
    if first_section <? 0 then Ok (false, data)
    else
      let first_section_abs := base + first_section in
      let available := first_section_abs - header_end in
      '(data, ncmds, sizeofcmds, header_end, available) <-
        (if available <? cmd_size then
           '(freed, data) <- _strip_codesig data base ;;
           if freed >? 0 then
             ncmds <- unpack_I data (base + 16) ;;
             sizeofcmds <- unpack_I data (base + 20) ;;
             let header_end := base + 32 + sizeofcmds in
             Ok (data, ncmds, sizeofcmds, header_end, first_section_abs - header_end)
           else Ok (data, ncmds, sizeofcmds, header_end, available)
         else Ok (data, ncmds, sizeofcmds, header_end, available)) ;;
      if (available <? cmd_size) && (cmd_size - available >? 256) then Ok (false, data)
      else
        let data := slice_assign data header_end (header_end + cmd_size) lc_data in
        data <- pack_into_I data (base + 16) (ncmds + 1) ;;
        data <- pack_into_I data (base + 20) (sizeofcmds + cmd_size) ;;
        Ok (true, data).

(** The [for slice_off, slice_size in slices] loop of [inject_dylib]:
    the buffer and the count [injected]. *)
Fixpoint inject_dylib_loop (data : bytes) (dylib_path : pystr) (slices : list (Z * Z))
    (injected : Z) : result (bytes * Z) :=
  match slices with
  | [] => Ok (data, injected)
  | (slice_off, slice_size) :: rest =>
    present <- _check_existing_dylib data slice_off dylib_path ;;
    if present then inject_dylib_loop data dylib_path rest (injected + 1)
    else
      '(ok, data) <- _inject_lc_load_dylib data slice_off dylib_path ;;
      inject_dylib_loop data dylib_path rest (if ok then injected + 1 else injected)
  end.

Definition inject_dylib (file : bytes) (dylib_path : pystr) : result outcome :=
  let data := file in
  slices <- _get_fat_slices data ;;
  '(data, injected) <- inject_dylib_loop data dylib_path slices 0 ;;
  if injected =? len slices then wrote data else fail_.

End WithFacades.
End Cfw.

(** ** The patcher object and the rule engine *)

Module Engine.

(** A registered patch: [(offset, bytes, description)]. *)
Definition patch : Type := (Z * bytes * string)%type.

(** The attributes of a patcher object that the modelled methods use. *)
Record patcher : Type := mk_patcher {
  raw : bytes;                     (* immutable snapshot *)
  data : bytes;                    (* working bytearray *)
  size : Z;
  base_va : Z;
  patches : list patch;
  symbols : list (pystr * Z);      (* KernelJBPatcher.symbols *)
  code_ranges : list (Z * Z);
  amfi_text : Z * Z;
  kern_text : Z * Z;
  mode : string                    (* IBootPatcher.mode *)
}.

Definition set_data (p : patcher) (d : bytes) : patcher :=
  mk_patcher (raw p) d (size p) (base_va p) (patches p) (symbols p)
             (code_ranges p) (amfi_text p) (kern_text p) (mode p).

Definition set_patches (p : patcher) (ps : list patch) : patcher :=
  mk_patcher (raw p) (data p) (size p) (base_va p) ps (symbols p)
             (code_ranges p) (amfi_text p) (kern_text p) (mode p).

Definition set_symbols (p : patcher) (sy : list (pystr * Z)) : patcher :=
  mk_patcher (raw p) (data p) (size p) (base_va p) (patches p) sy
             (code_ranges p) (amfi_text p) (kern_text p) (mode p).

(** A method call either returns, leaving the object in a new state, or
    raises. *)
Inductive run (A : Type) : Type :=
| Done (a : A) (p : patcher)
| Fault (e : exn).
Arguments Done {A} a p.
Arguments Fault {A} e.

Definition M (A : Type) : Type := patcher -> run A.

Definition ret {A} (a : A) : M A := fun p => Done a p.

Definition mbind {A B} (m : M A) (k : A -> M B) : M B :=
  fun p => match m p with
           | Done a p' => k a p'
           | Fault e => Fault e
           end.

Definition get : M patcher := fun p => Done p p.

Definition lift {A} (r : result A) : M A :=
  fun p => match r with Ok a => Done a p | Raise e => Fault e end.

(** Modelled from the spec: [emit] of the base patcher classes (kernel.py,
    txm.py and iboot.py are not part of the sources).  A patch is collected
    as [(offset, bytes, description)] and applied to the mutable buffer, so
    that "the mutable buffer reflects prior writes" when a later rule scans
    it for a code cave. *)
Definition emit (off : Z) (patch_bytes : bytes) (desc : string) : M unit :=
  fun p =>
    Done tt (set_data (set_patches p (patches p ++ [(off, patch_bytes, desc)]))
                      (slice_assign (data p) off (off + len patch_bytes) patch_bytes)).

(** [for off, pb, _ in patches: self.data[off:off + len(pb)] = pb] *)
Fixpoint apply_patches (d : bytes) (ps : list patch) : bytes :=
  match ps with
  | [] => d
  | (off, pb, _) :: rest => apply_patches (slice_assign d off (off + len pb) pb) rest
  end.

(** Rules are called one after the other and their results dropped. *)
Fixpoint run_rules (rules : list (M bool)) : M unit :=
  match rules with
  | [] => ret tt
  | r :: rest => mbind r (fun _ => run_rules rest)
  end.

End Engine.

Export Engine.

Declare Scope eng_scope.
Delimit Scope eng_scope with eng.
Notation "x <- c ;; k" := (Engine.mbind c (fun x => k))
  (at level 61, c at next level, right associativity) : eng_scope.
Notation "c ;;; k" := (Engine.mbind c (fun _ => k))
  (at level 61, right associativity) : eng_scope.

(** ** kernel_jb.py *)

Module KernelJB.

Local Open Scope eng_scope.

(** The instruction constants imported from kernel.py and assembled in
    kernel_jb.py: the A64 encodings keystone produces for them. *)
Definition MOV_X0_0 : bytes := [x00; x00; x80; xd2].
Definition MOV_X0_1 : bytes := [x20; x00; x80; xd2].
Definition RET : bytes := [xc0; x03; x5f; xd6].
Definition CBZ_X2_8 : bytes := [x42; x00; x00; xb4].
Definition STR_X0_X2 : bytes := [x40; x00; x00; xf9].

(** Modelled from the spec: [_rd32] of kernel.py, a little-endian 32-bit
    read as [rd32] of cfw.py. *)
Definition _rd32 (data : bytes) (off : Z) : result Z := unpack_I data off.

(** The methods of the base class [KernelPatcher] (kernel.py, not part of the
    sources) that the modelled rules call. *)
Class KernelBase : Type := {
  _disas_at : patcher -> Z -> Z -> list insn;      (* self._disas_at(off, n) *)
  find_function_start : patcher -> Z -> Z;
  _is_bl : patcher -> Z -> Z
}.

(** The rules of the catalog whose bodies are not modelled: any method that
    returns a truth value or raises. *)
Class KernelRules : Type := {
  patch_amfi_execve_kill_path : M bool;
  patch_task_conversion_eval_internal : M bool;
  patch_sandbox_hooks_extended : M bool;
  patch_post_validation_additional : M bool;
  patch_proc_pidinfo : M bool;
  patch_convert_port_to_map : M bool;
  patch_vm_fault_enter_prepare : M bool;
  patch_vm_map_protect : M bool;
  patch_mac_mount : M bool;
  patch_dounmount : M bool;
  patch_bsd_init_auth : M bool;
  patch_spawn_validate_persona : M bool;
  patch_task_for_pid : M bool;
  patch_load_dylinker : M bool;
  patch_shared_region_map : M bool;
  patch_nvram_verify_permission : M bool;
  patch_io_secure_bsd_root : M bool;
  patch_thid_should_crash : M bool;
  patch_cred_label_update_execve : M bool;
  patch_syscallmask_apply_to_proc : M bool;
  patch_hook_cred_label_update_execve : M bool;
  patch_kcall10 : M bool
}.

(** *** Symbol table *)

(** The loop of [_parse_nlist]; [symbols] is [self.symbols]. *)
Fixpoint _parse_nlist_loop (p : patcher) (symoff stroff : Z) (idxs : list Z)
    (symbols : list (pystr * Z)) : result (list (pystr * Z)) :=
  match idxs with
  | [] => Ok symbols
  | i :: rest =>
    let entry_off := symoff + i * 16 in
    if entry_off + 16 >? size p then Ok symbols
    else
      (f <- field 16 (raw p) entry_off ;;       (* "<IBBHQ" *)
       let n_strx := le_decode (firstn 4 f) in
       let n_type := b2z (nth 4 f x00) in
       let n_value := le_decode (skipn 8 f) in
       let continue_ := _parse_nlist_loop p symoff stroff rest symbols in
       if negb (Z.land n_type 0x0E =? 0x0E) then continue_
       else if n_value =? 0 then continue_
       else
         let name_off := stroff + n_strx in
         if name_off >=? size p then continue_
         else
           let name_end := find (raw p) [x00] name_off in
           if (name_end <? 0) || (name_end - name_off >? 512) then continue_
           else
             let name := decode_ascii_replace (slice (raw p) name_off name_end) in
             let foff := n_value - base_va p in
             if (0 <=? foff) && (foff <? size p)
             then _parse_nlist_loop p symoff stroff rest (dict_set symbols name foff)
             else continue_)%py
  end.

Definition _parse_nlist (symoff nsyms stroff : Z) : M unit :=
  fun p =>
    match _parse_nlist_loop p symoff stroff (range 0 nsyms 1) (symbols p) with
    | Ok sy => Done tt (set_symbols p sy)
    | Raise e => Fault e
    end.

(** The load-command walk shared by [_build_symbol_table] (first loop) and
    [_parse_fileset_symtab]: every LC_SYMTAB is handed to [_parse_nlist]. *)
Fixpoint symtab_cmds (ncmds : nat) (off : Z) : M unit :=
  match ncmds with
  | O => ret tt
  | S n =>
    p <- get ;;
    if off + 8 >? size p then ret tt
    else
      cc <- lift (unpack_II (raw p) off) ;;
      let '(cmd, cmdsize) := cc in
      (if cmd =? 0x2 then
         symoff <- lift (unpack_I (raw p) (off + 8)) ;;
         nsyms <- lift (unpack_I (raw p) (off + 12)) ;;
         stroff <- lift (unpack_I (raw p) (off + 16)) ;;
         _parse_nlist symoff nsyms stroff
       else ret tt) ;;;
      symtab_cmds n (off + cmdsize)
  end.

Definition _parse_fileset_symtab (mh_off : Z) : M unit :=
  p <- get ;;
  if (mh_off <? 0) || (mh_off + 32 >? size p) then ret tt
  else
    magic <- lift (_rd32 (raw p) mh_off) ;;
    if negb (magic =? 0xFEEDFACF) then ret tt
    else
      ncmds <- lift (unpack_I (raw p) (mh_off + 16)) ;;
      symtab_cmds (Z.to_nat ncmds) (mh_off + 32).

Fixpoint fileset_cmds (ncmds : nat) (off : Z) : M unit :=
  match ncmds with
  | O => ret tt
  | S n =>
    p <- get ;;
    if off + 8 >? size p then ret tt
    else
      cc <- lift (unpack_II (raw p) off) ;;
      let '(cmd, cmdsize) := cc in
      (if cmd =? 0x80000035 then
         foff_entry <- lift (unpack_Q (raw p) (off + 16)) ;;
         _parse_fileset_symtab foff_entry
       else ret tt) ;;;
      fileset_cmds n (off + cmdsize)
  end.

Definition _build_symbol_table : M unit :=
  (fun p => Done tt (set_symbols p [])) ;;;
  p <- get ;;
  ncmds <- lift (unpack_I (raw p) 16) ;;
  symtab_cmds (Z.to_nat ncmds) 32 ;;;
  fileset_cmds (Z.to_nat ncmds) 32.

Definition _resolve_symbol (name : pystr) : M Z :=
  fun p => Done (match dict_get (symbols p) name with Some f => f | None => -1 end) p.

(** *** Code cave finder *)

Definition is_filler (val : Z) : bool :=
  (val =? 0x00000000) || (val =? 0xFFFFFFFF) || (val =? 0xD4200000).

(** The scan of one code range; [Some c] is [return run_start]. *)
Fixpoint cave_scan (data : bytes) (needed : Z) (offs : list Z) (run_start run_len : Z)
    : result (option Z) :=
  match offs with
  | [] => Ok None
  | off :: rest =>
    (val <- _rd32 data off ;;
     if is_filler val then
       let '(run_start, run_len) :=
         if run_start <? 0 then (off, 4) else (run_start, run_len + 4) in
       if run_len >=? needed then Ok (Some run_start)
       else cave_scan data needed rest run_start run_len
     else cave_scan data needed rest (-1) 0)%py
  end.

Fixpoint cave_ranges (data : bytes) (needed : Z) (ranges : list (Z * Z)) : result Z :=
  match ranges with
  | [] => Ok (-1)
  | (rng_start, rng_end) :: rest =>
    (r <- cave_scan data needed (range rng_start rng_end 4) (-1) 0 ;;
     match r with
     | Some c => Ok c
     | None => cave_ranges data needed rest
     end)%py
  end.

(** [_find_code_cave(size, align=4)]; every call in the file uses the default
    alignment. *)
Definition _find_code_cave (size_ : Z) (align : Z) : M Z :=
  fun p =>
    let needed := (size_ + align - 1) / align * align in
    lift (cave_ranges (data p) needed (code_ranges p)) p.

(** [for i, part in enumerate(parts): self.emit(cave + i * 4, part,
    f"shellcode+{i*4} [tag]")]: the loop with which
    [patch_syscallmask_apply_to_proc], [patch_hook_cred_label_update_execve]
    and [patch_kcall10] write their shellcode into the cave. *)
Fixpoint emit_parts (cave : Z) (parts : list bytes) (i : Z) (tag : string) : M unit :=
  match parts with
  | [] => ret tt
  | part :: rest =>
    emit (cave + i * 4) part
      (String.append "shellcode+"
         (String.append (format_d (i * 4)) (String.append " [" (String.append tag "]")))) ;;;
    emit_parts cave rest (i + 1) tag
  end.

(** *** Branch encoding helpers: [None] is Python's [None]. *)

Definition _encode_b (from_off to_off : Z) : result (option bytes) :=
  let delta := (to_off - from_off) / 4 in
  if (delta <? - (Z.shiftl 1 25)) || (delta >=? Z.shiftl 1 25) then Ok None
  else (b <- pack_I (Z.lor 0x14000000 (Z.land delta 0x3FFFFFF)) ;; Ok (Some b))%py.

Definition _encode_bl (from_off to_off : Z) : result (option bytes) :=
  let delta := (to_off - from_off) / 4 in
  if (delta <? - (Z.shiftl 1 25)) || (delta >=? Z.shiftl 1 25) then Ok None
  else (b <- pack_I (Z.lor 0x94000000 (Z.land delta 0x3FFFFFF)) ;; Ok (Some b))%py.

Section WithBase.
Context {D : Disassembler} {KB : KernelBase} {KR : KernelRules}.

Definition head_is (d : list insn) (m : string) : bool :=
  match d with
  | i :: _ => mn_is i m
  | [] => false
  end.

Fixpoint _find_func_end_loop (p : patcher) (offs : list Z) (limit : Z) : Z :=
  match offs with
  | [] => limit
  | off :: rest =>
    if head_is (_disas_at p off 1) "pacibsp" then off
    else _find_func_end_loop p rest limit
  end.

Definition _find_func_end (func_start max_size : Z) : M Z :=
  fun p =>
    let limit := Z.min (func_start + max_size) (size p) in
    Done (_find_func_end_loop p (range (func_start + 4) limit 4) limit) p.

(** *** AMFIIsCDHashInTrustCache *)

Fixpoint _find_after (insns : list insn) (start : Z) (pred : insn -> bool) (idx : Z) : Z :=
  match insns with
  | [] => -1
  | i :: rest =>
    if (start <=? idx) && pred i then idx else _find_after rest start pred (idx + 1)
  end.

(** [func_end], cut at the next [pacibsp] *)
Fixpoint cdhash_func_end (p : patcher) (ps : list Z) (func_end : Z) : Z :=
  match ps with
  | [] => func_end
  | q :: rest =>
    if head_is (_disas_at p q 1) "pacibsp" then q else cdhash_func_end p rest func_end
  end.

(** [insns]: the instructions of the body up to the first word that does not
    decode *)
Fixpoint cdhash_insns (p : patcher) (ps : list Z) : list insn :=
  match ps with
  | [] => []
  | q :: rest =>
    match _disas_at p q 1 with
    | [] => []
    | d :: _ => d :: cdhash_insns p rest
    end
  end.

Definition cdhash_shape (insns : list insn) : bool :=
  let after start pred := _find_after insns start pred 0 in
  let i1 := after 0 (fun x => mn_is x "mov" && ops_is x "x19, x2") in
  if i1 <? 0 then false else
  let i2 := after (i1 + 1) (fun x => mn_is x "stp" && ops_startswith x "xzr, xzr, [sp") in
  if i2 <? 0 then false else
  let i3 := after (i2 + 1) (fun x => mn_is x "mov" && ops_is x "x2, sp") in
  if i3 <? 0 then false else
  let i4 := after (i3 + 1) (fun x => mn_is x "bl") in
  if i4 <? 0 then false else
  let i5 := after (i4 + 1) (fun x => mn_is x "mov" && ops_is x "x20, x0") in
  if i5 <? 0 then false else
  let i6 := after (i5 + 1) (fun x => mn_is x "cbnz" && ops_startswith x "w0,") in
  if i6 <? 0 then false else
  let i7 := after (i6 + 1) (fun x => mn_is x "cbz" && ops_startswith x "x19,") in
  if i7 <? 0 then false else true.

Fixpoint cdhash_hits (p : patcher) (e : Z) (offs : list Z) : list Z :=
  match offs with
  | [] => []
  | off :: rest =>
    if negb (head_is (_disas_at p off 1) "pacibsp") then cdhash_hits p e rest
    else
      let func_end := Z.min (off + 0x200) e in
      let func_end := cdhash_func_end p (range (off + 4) func_end 4) func_end in
      let insns := cdhash_insns p (range off func_end 4) in
      if cdhash_shape insns then off :: cdhash_hits p e rest
      else cdhash_hits p e rest
  end.

Definition patch_amfi_cdhash_in_trustcache : M bool :=
  p <- get ;;
  let '(s, e) := amfi_text p in
  let hits := cdhash_hits p e (range s (e - 4) 4) in
  match hits with
  | [func_start] =>
    emit func_start MOV_X0_1 "mov x0,#1 [AMFIIsCDHashInTrustCache]" ;;;
    emit (func_start + 4) CBZ_X2_8 "cbz x2,+8 [AMFIIsCDHashInTrustCache]" ;;;
    emit (func_start + 8) STR_X0_X2 "str x0,[x2] [AMFIIsCDHashInTrustCache]" ;;;
    emit (func_start + 12) RET "ret [AMFIIsCDHashInTrustCache]" ;;;
    ret true
  | _ => ret false
  end.

(** *** _proc_security_policy *)

(** The scan for [_proc_info]'s switch: [sub wN, wM, #1; cmp wN, #0x21]. *)
Fixpoint proc_info_scan (p : patcher) (offs : list Z) : Z :=
  match offs with
  | [] => -1
  | off :: rest =>
    match _disas_at p off 2 with
    | i0 :: i1 :: _ =>
      if negb (mn_is i0 "sub") || negb (mn_is i1 "cmp") then proc_info_scan p rest
      else if nops i0 <? 3 then proc_info_scan p rest
      else if negb (op_type (opnd i0 2) =? ARM64_OP_IMM)
              || negb (op_imm (opnd i0 2) =? 1) then proc_info_scan p rest
      else if nops i1 <? 2 then proc_info_scan p rest
      else if negb (op_type (opnd i1 1) =? ARM64_OP_IMM)
              || negb (op_imm (opnd i1 1) =? 0x21) then proc_info_scan p rest
      else if negb (op_reg (opnd i0 0) =? op_reg (opnd i1 0))
      then proc_info_scan p rest
      else find_function_start p off
    | _ => proc_info_scan p rest
    end
  end.

(** [bl_targets[target] += 1] on a [Counter], in insertion order *)
Fixpoint counter_incr (c : list (Z * Z)) (k : Z) : list (Z * Z) :=
  match c with
  | [] => [(k, 1)]
  | (k', n) :: t => if k' =? k then (k', n + 1) :: t else (k', n) :: counter_incr t k
  end.

Fixpoint count_bl_targets (p : patcher) (ks ke : Z) (offs : list Z) (c : list (Z * Z))
    : list (Z * Z) :=
  match offs with
  | [] => c
  | off :: rest =>
    let target := _is_bl p off in
    if (target >=? 0) && (ks <=? target) && (target <? ke)
    then count_bl_targets p ks ke rest (counter_incr c target)
    else count_bl_targets p ks ke rest c
  end.

(** [most_common(1)[0]]: the first entry with the largest count *)
Fixpoint most_common (c : list (Z * Z)) (best : Z * Z) : Z * Z :=
  match c with
  | [] => best
  | (k, n) :: t => most_common t (if n >? snd best then (k, n) else best)
  end.

Definition patch_proc_security_policy : M bool :=
  foff <- _resolve_symbol (of_string "_proc_security_policy") ;;
  if foff >=? 0 then
    emit foff MOV_X0_0 "mov x0,#0 [_proc_security_policy]" ;;;
    emit (foff + 4) RET "ret [_proc_security_policy]" ;;;
    ret true
  else
    p <- get ;;
    let '(ks, ke) := kern_text p in
    let proc_info_func := proc_info_scan p (range ks (ke - 8) 4) in
    if proc_info_func <? 0 then ret false
    else
      proc_info_end <- _find_func_end proc_info_func 0x4000 ;;
      let bl_targets :=
        count_bl_targets p ks ke (range proc_info_func proc_info_end 4) [] in
      match bl_targets with
      | [] => ret false
      | first :: others =>
        let '(foff, count) := most_common others first in
        if count <? 3 then ret false
        else
          emit foff MOV_X0_0 "mov x0,#0 [_proc_security_policy]" ;;;
          emit (foff + 4) RET "ret [_proc_security_policy]" ;;;
          ret true
      end.

(** *** Patch dispatcher *)

Definition find_all : M (list patch) :=
  (fun p => Done tt (set_patches p [])) ;;;
  (* Group A *)
  patch_amfi_cdhash_in_trustcache ;;;
  patch_amfi_execve_kill_path ;;;
  patch_task_conversion_eval_internal ;;;
  patch_sandbox_hooks_extended ;;;
  (* Group B *)
  patch_post_validation_additional ;;;
  patch_proc_security_policy ;;;
  patch_proc_pidinfo ;;;
  patch_convert_port_to_map ;;;
  patch_vm_fault_enter_prepare ;;;
  patch_vm_map_protect ;;;
  patch_mac_mount ;;;
  patch_dounmount ;;;
  patch_bsd_init_auth ;;;
  patch_spawn_validate_persona ;;;
  patch_task_for_pid ;;;
  patch_load_dylinker ;;;
  patch_shared_region_map ;;;
  patch_nvram_verify_permission ;;;
  patch_io_secure_bsd_root ;;;
  patch_thid_should_crash ;;;
  (* Group C *)
  patch_cred_label_update_execve ;;;
  patch_syscallmask_apply_to_proc ;;;
  patch_hook_cred_label_update_execve ;;;
  patch_kcall10 ;;;
  p <- get ;;
  ret (patches p).

Definition apply : M Z :=
  patches <- find_all ;;
  (fun p => Done tt (set_data p (apply_patches (data p) patches))) ;;;
  ret (len patches).

(** The rules in the order [find_all] calls them, and those among them
    whose bodies are not modelled. *)
Definition catalog : list (M bool) :=
  [patch_amfi_cdhash_in_trustcache; patch_amfi_execve_kill_path;
   patch_task_conversion_eval_internal; patch_sandbox_hooks_extended;
   patch_post_validation_additional; patch_proc_security_policy;
   patch_proc_pidinfo; patch_convert_port_to_map; patch_vm_fault_enter_prepare;
   patch_vm_map_protect; patch_mac_mount; patch_dounmount; patch_bsd_init_auth;
   patch_spawn_validate_persona; patch_task_for_pid; patch_load_dylinker;
   patch_shared_region_map; patch_nvram_verify_permission;
   patch_io_secure_bsd_root; patch_thid_should_crash;
   patch_cred_label_update_execve; patch_syscallmask_apply_to_proc;
   patch_hook_cred_label_update_execve; patch_kcall10].

Definition unmodelled_rules : list (M bool) :=
  [patch_amfi_execve_kill_path;
   patch_task_conversion_eval_internal; patch_sandbox_hooks_extended;
   patch_post_validation_additional;
   patch_proc_pidinfo; patch_convert_port_to_map; patch_vm_fault_enter_prepare;
   patch_vm_map_protect; patch_mac_mount; patch_dounmount; patch_bsd_init_auth;
   patch_spawn_validate_persona; patch_task_for_pid; patch_load_dylinker;
   patch_shared_region_map; patch_nvram_verify_permission;
   patch_io_secure_bsd_root; patch_thid_should_crash;
   patch_cred_label_update_execve; patch_syscallmask_apply_to_proc;
   patch_hook_cred_label_update_execve; patch_kcall10].

End WithBase.
End KernelJB.

(** ** txm_jb.py *)

Module TXMJB.

Local Open Scope eng_scope.

(** [_asm("nop")] and the other instruction constants (with [MOV_X0_0] of
    txm.py): the A64 encodings keystone produces for them. *)
Definition NOP : bytes := [x1f; x20; x03; xd5].
Definition MOV_X0_0 : bytes := [x00; x00; x80; xd2].
Definition MOV_X0_1 : bytes := [x20; x00; x80; xd2].
Definition MOV_W0_1 : bytes := [x20; x00; x80; x52].
Definition MOV_X0_X20 : bytes := [xe0; x03; x14; xaa].
Definition STRB_W0_X20_30 : bytes := [x80; xc2; x00; x39].
Definition PACIBSP : bytes := [x7f; x23; x03; xd5].

Section WithFacades.
Context {D : Disassembler} {K : Assembler}.

(** Modelled from the spec: [_disasm_one] of txm.py (not part of the
    sources), "decode [n] instructions starting at a file offset" for
    [n = 1], as [disasm_at(data, off, 1)] of cfw.py does it; [None] when
    nothing decodes. *)
Definition _disasm_one (data : bytes) (off : Z) : option insn :=
  match cs_disasm (slice data off (off + 4)) off with
  | i :: _ => Some i
  | [] => None
  end.

Definition _asm_at (asm_line : string) (addr : Z) : M bytes :=
  lift (match ks_asm asm_line addr with
        | Some (b :: enc) => Ok (b :: enc)
        | _ => Raise RuntimeError
        end).

Fixpoint first_pacibsp (raw_ : bytes) (scans : list Z) : option Z :=
  match scans with
  | [] => None
  | scan :: rest =>
    if bytes_eqb (slice raw_ scan (scan + 4)) PACIBSP then Some scan
    else first_pacibsp raw_ rest
  end.

Definition _find_func_start (p : patcher) (off back : Z) : option Z :=
  let start := Z.max 0 (off - back) in
  first_pacibsp (raw p) (range (and_not off 3) (start - 1) (-4)).

Definition _find_func_end (p : patcher) (func_start forward : Z) : Z :=
  let end_ := Z.min (size p) (func_start + forward) in
  match first_pacibsp (raw p) (range (func_start + 4) end_ 4) with
  | Some scan => scan
  | None => end_
  end.

Fixpoint _find_refs_to_offset_loop (raw_ : bytes) (target_off : Z) (offs : list Z)
    : list (Z * Z) :=
  match offs with
  | [] => []
  | off :: rest =>
    let continue_ := _find_refs_to_offset_loop raw_ target_off rest in
    match _disasm_one raw_ off, _disasm_one raw_ (off + 4) with
    | Some a, Some b =>
      if negb (mn_is a "adrp") || negb (mn_is b "add") then continue_
      else if (nops a <? 2) || (nops b <? 3) then continue_
      else if negb (op_reg (opnd a 0) =? op_reg (opnd b 1)) then continue_
      else if op_imm (opnd a 1) + op_imm (opnd b 2) =? target_off
      then (off, off + 4) :: continue_
      else continue_
    | _, _ => continue_
    end
  end.

Definition _find_refs_to_offset (p : patcher) (target_off : Z) : list (Z * Z) :=
  _find_refs_to_offset_loop (raw p) target_off (range 0 (size p - 8) 4).

Definition mem (x : Z) (l : list Z) : bool := existsb (Z.eqb x) l.

(** The [for r in self._find_refs_to_offset(s_off)] loop. *)
Fixpoint add_refs (s_off : Z) (rs : list (Z * Z)) (seen : list Z) (refs : list (Z * Z * Z))
    : list Z * list (Z * Z * Z) :=
  match rs with
  | [] => (seen, refs)
  | (r0, r1) :: rest =>
    if negb (mem r0 seen) then add_refs s_off rest (r0 :: seen) (refs ++ [(s_off, r0, r1)])
    else add_refs s_off rest seen refs
  end.

(** The [while True] loop of [_find_string_refs]; every round moves [off]
    past the match it found, so [len(raw) + 2] rounds always reach the
    [break]. *)
Fixpoint _find_string_refs_loop (fuel : nat) (p : patcher) (needle : bytes) (off : Z)
    (seen : list Z) (refs : list (Z * Z * Z)) : list (Z * Z * Z) :=
  match fuel with
  | O => refs
  | S f =>
    let s_off := find (raw p) needle off in
    if s_off <? 0 then refs
    else
      let '(seen, refs) := add_refs s_off (_find_refs_to_offset p s_off) seen refs in
      _find_string_refs_loop f p needle (s_off + 1) seen refs
  end.

Definition _find_string_refs (p : patcher) (needle : bytes) : list (Z * Z * Z) :=
  _find_string_refs_loop (List.length (raw p) + 2) p needle 0 [] [].

Definition _ref_in_function (p : patcher) (refs : list (Z * Z * Z)) (func_start : Z)
    : list (Z * Z * Z) :=
  filter (fun '(s_off, adrp_off, add_off) =>
            match _find_func_start p adrp_off 0x1000 with
            | Some fs => fs =? func_start
            | None => false
            end) refs.

(** The shape [mov x0, #0; mov x2, #0; bl ...; tbnz w0, #0, ...] around
    [scan]. *)
Definition debugger_site (p : patcher) (scan : Z) : bool :=
  let i := _disasm_one (raw p) scan in
  let n := _disasm_one (raw p) (scan + 4) in
  let p1 := if scan >=? 4 then _disasm_one (raw p) (scan - 4) else None in
  let p2 := if scan >=? 8 then _disasm_one (raw p) (scan - 8) else None in
  match i, n, p1, p2 with
  | Some i, Some n, Some p1, Some p2 =>
    mn_is i "bl"
    && mn_is n "tbnz" && ops_startswith n "w0, #0,"
    && mn_is p1 "mov" && ops_is p1 "x2, #0"
    && mn_is p2 "mov" && ops_is p2 "x0, #0"
  | _, _, _, _ => false
  end.

Definition set_add (x : Z) (s : list Z) : list Z := if mem x s then s else s ++ [x].

Fixpoint gate_scan (p : patcher) (scans : list Z) (starts : list Z) : list Z :=
  match scans with
  | [] => starts
  | scan :: rest =>
    if debugger_site p scan then
      match _find_func_start p scan 0x1000 with
      | Some fs => gate_scan p rest (set_add fs starts)
      | None => gate_scan p rest starts
      end
    else gate_scan p rest starts
  end.

Fixpoint gate_refs (p : patcher) (refs : list (Z * Z * Z)) (starts : list Z) : list Z :=
  match refs with
  | [] => starts
  | (_, _, add_off) :: rest =>
    gate_refs p rest
      (gate_scan p (range add_off (Z.min (add_off + 0x20) (size p - 8)) 4) starts)
  end.

Definition _find_debugger_gate_func_start (p : patcher) : option Z :=
  let refs := _find_string_refs p (B "com.apple.private.cs.debugger") in
  match gate_refs p refs [] with
  | [fs] => Some fs
  | _ => None
  end.

(** The inner [while] of [_find_udf_cave]: the end of the run of zero words
    that starts at [off]. *)
Fixpoint zero_run (raw_ : bytes) (scans : list Z) (end_ run : Z) : Z :=
  match scans with
  | [] => run
  | scan :: rest =>
    if bytes_eqb (slice raw_ scan (scan + 4)) [x00; x00; x00; x00]
    then zero_run raw_ rest end_ (scan + 4)
    else scan
  end.

Definition cave_prev_mnemonics : list string :=
  ["b"; "b.eq"; "b.ne"; "b.lo"; "b.hs"; "cbz"; "cbnz"; "tbz"; "tbnz"]%string.

(** The outer [while off < end] of [_find_udf_cave]; [off] grows by at least
    4 in every round, so [end - start] rounds are enough. *)
Fixpoint _find_udf_cave_loop (fuel : nat) (raw_ : bytes) (need : Z) (near_off : option Z)
    (end_ off : Z) (best : option (Z * Z)) : option Z :=
  match fuel with
  | O => option_map fst best
  | S f =>
    if negb (off <? end_) then option_map fst best
    else
      let run := zero_run raw_ (range off end_ 4) end_ off in
      let next_off := if run >? off then run + 4 else off + 4 in
      if run - off >=? need then
        let prev := if off >=? 4 then _disasm_one raw_ (off - 4) else None in
        match prev with
        | Some pi =>
          if mn_in pi cave_prev_mnemonics then Some off
          else
            match near_off, _disasm_one raw_ off with
            | Some near, Some _ =>
              let dist := Z.abs (off - near) in
              let best' := match best with
                           | None => Some (off, dist)
                           | Some (_, best_dist) =>
                             if dist <? best_dist then Some (off, dist) else best
                           end in
              _find_udf_cave_loop f raw_ need near_off end_ next_off best'
            | _, _ => _find_udf_cave_loop f raw_ need near_off end_ next_off best
            end
        | None =>
          match near_off, _disasm_one raw_ off with
          | Some near, Some _ =>
            let dist := Z.abs (off - near) in
            let best' := match best with
                         | None => Some (off, dist)
                         | Some (_, best_dist) =>
                           if dist <? best_dist then Some (off, dist) else best
                         end in
            _find_udf_cave_loop f raw_ need near_off end_ next_off best'
          | _, _ => _find_udf_cave_loop f raw_ need near_off end_ next_off best
          end
        end
      else _find_udf_cave_loop f raw_ need near_off end_ next_off best
  end.

Definition _find_udf_cave (p : patcher) (min_insns : Z) (near_off : option Z)
    (max_distance : Z) : option Z :=
  let need := min_insns * 4 in
  let start := match near_off with None => 0 | Some n => Z.max 0 (n - 0x1000) end in
  let end_ := match near_off with
              | None => size p
              | Some n => Z.min (size p) (n + max_distance)
              end in
  _find_udf_cave_loop (S (Z.to_nat (end_ - start))) (raw p) need near_off end_ start None.

(** *** JB patches *)

(** The scan of [patch_selector24_hashcmp_calls]: every site is emitted as
    it is found. *)
Fixpoint hashcmp_scan (offs : list Z) (patched : Z) : M Z :=
  match offs with
  | [] => ret patched
  | off :: rest =>
    p <- get ;;
    match _disasm_one (raw p) off, _disasm_one (raw p) (off + 4),
          _disasm_one (raw p) (off + 8) with
    | Some i0, Some i1, Some i2 =>
      if negb (mn_is i0 "mov" && ops_is i0 "w2, #0x14") then hashcmp_scan rest patched
      else if negb (mn_is i1 "bl" && mn_is i2 "cbz" && ops_startswith i2 "w0,")
      then hashcmp_scan rest patched
      else
        emit (off + 4) MOV_X0_0
          (String.append "selector24 hashcmp bypass #"
             (String.append (format_d (patched + 1)) ": bl -> mov x0,#0")) ;;;
        hashcmp_scan rest (patched + 1)
    | _, _, _ => hashcmp_scan rest patched
    end
  end.

Definition patch_selector24_hashcmp_calls : M bool :=
  p <- get ;;
  patched <- hashcmp_scan (range 0 (size p - 8) 4) 0 ;;
  if patched >? 3 then ret false
  else if patched =? 0 then ret false
  else ret true.

Fixpoint a1_scan (p : patcher) (scans : list Z) : list Z :=
  match scans with
  | [] => []
  | scan :: rest =>
    match _disasm_one (raw p) scan with
    | Some ins =>
      if mn_is ins "mov" && ops_is ins "w0, #0xa1" then
        match _disasm_one (raw p) (scan - 0xC), _disasm_one (raw p) (scan - 0x4) with
        | Some i_blo, Some i_cbz =>
          if mn_is i_blo "b.lo" && mn_is i_cbz "cbz" && ops_startswith i_cbz "x9,"
          then scan :: a1_scan p rest
          else a1_scan p rest
        | _, _ => a1_scan p rest
        end
      else a1_scan p rest
    | None => a1_scan p rest
    end
  end.

Definition patch_selector24_a1_path : M bool :=
  p <- get ;;
  match a1_scan p (range 0 (size p - 4) 4) with
  | [off] =>
    emit (off - 0xC) NOP "selector24 A1: b.lo -> nop" ;;;
    emit (off - 0x4) NOP "selector24 A1: cbz x9 -> nop" ;;;
    ret true
  | _ => ret false
  end.

(** Sites [bl ...; tbnz w0, #0, ...] after a reference. *)
Fixpoint gta_scan (p : patcher) (scans : list Z) : list Z :=
  match scans with
  | [] => []
  | scan :: rest =>
    match _disasm_one (raw p) scan, _disasm_one (raw p) (scan + 4) with
    | Some i, Some n =>
      if mn_is i "bl" && mn_is n "tbnz" && ops_startswith n "w0, #0,"
      then scan :: gta_scan p rest
      else gta_scan p rest
    | _, _ => gta_scan p rest
    end
  end.

Fixpoint gta_refs (p : patcher) (refs : list (Z * Z * Z)) : list Z :=
  match refs with
  | [] => []
  | (_, _, add_off) :: rest =>
    gta_scan p (range add_off (Z.min (add_off + 0x20) (size p - 4)) 4) ++ gta_refs p rest
  end.

Definition patch_get_task_allow_force_true : M bool :=
  p <- get ;;
  match _find_string_refs p (B "get-task-allow") with
  | [] => ret false
  | refs =>
    match gta_refs p refs with
    | [c] => emit c MOV_X0_1 "get-task-allow: bl -> mov x0,#1" ;;; ret true
    | _ => ret false
    end
  end.

Definition stub_site (p : patcher) (fn off : Z) : bool :=
  match _disasm_one (raw p) (off - 4), _disasm_one (raw p) off,
        _disasm_one (raw p) (off + 4), _disasm_one (raw p) (off + 8) with
  | Some q, Some i0, Some i1, Some i2 =>
    match _disasm_one (raw p) (off + 12), _disasm_one (raw p) (off + 16),
          _disasm_one (raw p) (off + 20) with
    | Some i3, Some i4, Some i5 =>
      if negb (mn_is q "bti" && ops_is q "j") then false
      else if negb (mn_is i0 "mov" && ops_is i0 "x0, x20") then false
      else if negb (mn_is i1 "bl" && mn_is i2 "mov" && ops_is i2 "x1, x21") then false
      else if negb (mn_is i3 "mov" && ops_is i3 "x2, x22" && mn_is i4 "bl" && mn_is i5 "b")
      then false
      else match operands i4 with
           | o :: _ => op_imm o =? fn
           | [] => false
           end
    | _, _, _ => false
    end
  | _, _, _, _ => false
  end.

Definition patch_selector42_29_shellcode : M bool :=
  p <- get ;;
  match _find_debugger_gate_func_start p with
  | None => ret false
  | Some fn =>
    match filter (stub_site p fn) (range 4 (size p - 24) 4) with
    | [stub_off] =>
      match _find_udf_cave p 6 (Some stub_off) 0x80000 with
      | None => ret false
      | Some cave =>
        b1 <- _asm_at (String.append "b #0x" (format_X cave)) stub_off ;;
        emit stub_off b1 "selector42|29: branch to shellcode" ;;;
        emit cave NOP "selector42|29 shellcode pad: udf -> nop" ;;;
        emit (cave + 4) MOV_X0_1 "selector42|29 shellcode: mov x0,#1" ;;;
        emit (cave + 8) STRB_W0_X20_30 "selector42|29 shellcode: strb w0,[x20,#0x30]" ;;;
        emit (cave + 12) MOV_X0_X20 "selector42|29 shellcode: mov x0,x20" ;;;
        b2 <- _asm_at (String.append "b #0x" (format_X (stub_off + 4))) (cave + 16) ;;
        emit (cave + 16) b2 "selector42|29 shellcode: branch back" ;;;
        ret true
      end
    | _ => ret false
    end
  end.

Fixpoint dbg_refs (p : patcher) (refs : list (Z * Z * Z)) : list Z :=
  match refs with
  | [] => []
  | (_, _, add_off) :: rest =>
    filter (debugger_site p) (range add_off (Z.min (add_off + 0x20) (size p - 4)) 4)
      ++ dbg_refs p rest
  end.

Definition patch_debugger_entitlement_force_true : M bool :=
  p <- get ;;
  match _find_string_refs p (B "com.apple.private.cs.debugger") with
  | [] => ret false
  | refs =>
    match dbg_refs p refs with
    | [c] => emit c MOV_W0_1 "debugger entitlement: bl -> mov w0,#1" ;;; ret true
    | _ => ret false
    end
  end.

Definition devmode_site (p : patcher) (back : Z) : bool :=
  match _disasm_one (raw p) back with
  | Some ins =>
    mn_in ins ["tbz"; "tbnz"; "cbz"; "cbnz"]%string && ops_startswith ins "w9, #0,"
  | None => false
  end.

Fixpoint devmode_refs (p : patcher) (refs : list (Z * Z * Z)) : list Z :=
  match refs with
  | [] => []
  | (_, _, add_off) :: rest =>
    filter (devmode_site p) (range (add_off - 4) (Z.max (add_off - 0x20) 0) (-4))
      ++ devmode_refs p rest
  end.

Definition patch_developer_mode_bypass : M bool :=
  p <- get ;;
  match _find_string_refs p
          (B "developer mode enabled due to system policy configuration") with
  | [] => ret false
  | refs =>
    match devmode_refs p refs with
    | [c] => emit c NOP "developer mode bypass" ;;; ret true
    | _ => ret false
    end
  end.

Definition find_all : M (list patch) :=
  (fun p => Done tt (set_patches p [])) ;;;
  patch_selector24_hashcmp_calls ;;;
  patch_selector24_a1_path ;;;
  patch_get_task_allow_force_true ;;;
  patch_selector42_29_shellcode ;;;
  patch_debugger_entitlement_force_true ;;;
  patch_developer_mode_bypass ;;;
  p <- get ;;
  ret (patches p).

Definition apply : M Z :=
  find_all ;;;
  (fun p => Done tt (set_data p (apply_patches (data p) (patches p)))) ;;;
  p <- get ;;
  ret (len (patches p)).

(** The rules in the order [find_all] calls them. *)
Definition catalog : list (M bool) :=
  [patch_selector24_hashcmp_calls; patch_selector24_a1_path;
   patch_get_task_allow_force_true; patch_selector42_29_shellcode;
   patch_debugger_entitlement_force_true; patch_developer_mode_bypass].

End WithFacades.
End TXMJB.

(** ** iboot_jb.py *)

Module IBootJB.

Local Open Scope eng_scope.

(** [_chunked_disasm] of the base class [IBootPatcher] (iboot.py, not part of
    the sources): the chunks of decoded instructions it yields. *)
Class IBootBase : Type := { _chunked_disasm : patcher -> list (list insn) }.

Section WithFacades.
Context {D : Disassembler} {K : Assembler} {IB : IBootBase}.

(** Modelled from the spec: [_disasm_one] of iboot.py, as in txm.py. *)
Definition _disasm_one (data : bytes) (off : Z) : option insn :=
  match cs_disasm (slice data off (off + 4)) off with
  | i :: _ => Some i
  | [] => None
  end.

Definition _asm_at (asm_line : string) (addr : Z) : M bytes :=
  lift (match ks_asm asm_line addr with
        | Some (b :: enc) => Ok (b :: enc)
        | _ => Raise RuntimeError
        end).

(** [for i in range(len(insns) - 1): a, b = insns[i], insns[i + 1]] *)
Fixpoint refs_in_chunk (target_off : Z) (insns : list insn) : list (Z * Z * Z) :=
  match insns with
  | a :: ((b :: _) as rest) =>
    let continue_ := refs_in_chunk target_off rest in
    if negb (mn_is a "adrp") || negb (mn_is b "add") then continue_
    else if (nops a <? 2) || (nops b <? 3) then continue_
    else if negb (op_reg (opnd a 0) =? op_reg (opnd b 1)) then continue_
    else if op_imm (opnd a 1) + op_imm (opnd b 2) =? target_off
    then (address a, address b, op_reg (opnd b 0)) :: continue_
    else continue_
  | _ => []
  end.

Definition _find_refs_to_offset (p : patcher) (target_off : Z) : list (Z * Z * Z) :=
  flat_map (refs_in_chunk target_off) (_chunked_disasm p).

Fixpoint add_refs (rs : list (Z * Z * Z)) (seen : list Z) (refs : list (Z * Z * Z))
    : list Z * list (Z * Z * Z) :=
  match rs with
  | [] => (seen, refs)
  | (r0, r1, r2) :: rest =>
    if negb (TXMJB.mem r0 seen) then add_refs rest (r0 :: seen) (refs ++ [(r0, r1, r2)])
    else add_refs rest seen refs
  end.

Fixpoint _find_string_refs_loop (fuel : nat) (p : patcher) (needle : bytes) (off : Z)
    (seen : list Z) (refs : list (Z * Z * Z)) : list (Z * Z * Z) :=
  match fuel with
  | O => refs
  | S f =>
    let s_off := find (raw p) needle off in
    if s_off <? 0 then refs
    else
      let '(seen, refs) := add_refs (_find_refs_to_offset p s_off) seen refs in
      _find_string_refs_loop f p needle (s_off + 1) seen refs
  end.

Definition _find_string_refs (p : patcher) (needle : bytes) : list (Z * Z * Z) :=
  _find_string_refs_loop (List.length (raw p) + 2) p needle 0 [] [].

(** The shape [tbz/tbnz w0, #0, target; mov w0, #0; bl ...] at [scan];
    [Some target] when it is there. *)
Definition nonce_site (p : patcher) (scan : Z) : option Z :=
  match _disasm_one (raw p) scan, _disasm_one (raw p) (scan + 4),
        _disasm_one (raw p) (scan + 8) with
  | Some i0, Some i1, Some i2 =>
    if negb (mn_in i0 ["tbz"; "tbnz"]%string) then None
    else if nops i0 <? 3 then None
    else if negb ((op_type (opnd i0 0) =? ARM64_OP_REG)
                  && (op_reg (opnd i0 0) =? ARM64_REG_W0)) then None
    else if negb ((op_type (opnd i0 1) =? ARM64_OP_IMM)
                  && (op_imm (opnd i0 1) =? 0)) then None
    else if negb (mn_is i1 "mov") || negb (ops_is i1 "w0, #0") then None
    else if negb (mn_is i2 "bl") then None
    else Some (op_imm (opnd i0 2))
  | _, _, _ => None
  end.

Fixpoint nonce_scan (p : patcher) (scans : list Z) : option (Z * Z) :=
  match scans with
  | [] => None
  | scan :: rest =>
    match nonce_site p scan with
    | Some target => Some (scan, target)
    | None => nonce_scan p rest
    end
  end.

Fixpoint nonce_refs (p : patcher) (refs : list (Z * Z * Z)) : option (Z * Z) :=
  match refs with
  | [] => None
  | (_, add_off, _) :: rest =>
    match nonce_scan p (range add_off (Z.min (add_off + 0x100) (size p - 12)) 4) with
    | Some st => Some st
    | None => nonce_refs p rest
    end
  end.

Definition patch_skip_generate_nonce : M bool :=
  p <- get ;;
  match _find_string_refs p (B "boot-nonce") with
  | [] => ret false
  | refs =>
    match nonce_refs p refs with
    | Some (scan, target) =>
      b <- _asm_at (String.append "b #0x" (format_X target)) scan ;;
      emit scan b "JB: skip generate_nonce" ;;;
      ret true
    | None => ret false
    end
  end.

Definition apply : M Z :=
  (fun p => Done tt (set_patches p [])) ;;;
  p <- get ;;
  (if String.eqb (mode p) "ibss" then patch_skip_generate_nonce ;;; ret tt
   else ret tt) ;;;
  (fun p => Done tt (set_data p (apply_patches (data p) (patches p)))) ;;;
  p <- get ;;
  ret (len (patches p)).

End WithFacades.
End IBootJB.

(** ** A reference decoder and assembler for concrete runs

    The facades are instantiated, for the concrete images of Part II, by a
    decoder of the A64 instruction forms that the rules look for (with
    capstone's mnemonics, operand strings and operand lists) and by an
    assembler of [b #0x...]. *)

Module A64.

Definition bits (w lo n : Z) : Z := Z.land (Z.shiftr w lo) (2 ^ n - 1).
Definition sext (v n : Z) : Z := if v <? 2 ^ (n - 1) then v else v - 2 ^ n.

Definition xreg (n : Z) : Z :=
  if n <? 29 then 199 + n else if n =? 29 then 1 else if n =? 30 then 2 else 7.
Definition wreg (n : Z) : Z := if n <? 31 then 168 + n else 6.

Definition lower (a : ascii) : ascii :=
  let n := N_of_ascii a in
  if ((65 <=? n) && (n <=? 70))%N then ascii_of_N (n + 32) else a.

Fixpoint lower_s (s : string) : string :=
  match s with
  | EmptyString => EmptyString
  | String a t => String (lower a) (lower_s t)
  end.

Definition cat (a b : string) : string := String.append a b.

Definition xname (n : Z) : string := if n =? 31 then "xzr"%string else cat "x" (format_d n).
Definition wname (n : Z) : string := if n =? 31 then "wzr"%string else cat "w" (format_d n).

Definition imm_str (v : Z) : string :=
  if (0 <=? v) && (v <=? 9) then cat "#" (format_d v)
  else if v <? 0 then cat "#-0x" (lower_s (format_X (- v)))
  else cat "#0x" (lower_s (format_X v)).

Definition reg_op (r : Z) : operand :=
  {| op_type := 1; op_reg := r; op_imm := r; op_mem_base := 0 |}.
Definition imm_op (v : Z) : operand :=
  {| op_type := 2; op_reg := v mod 2 ^ 32; op_imm := v; op_mem_base := 0 |}.

Definition mk (addr : Z) (m s : string) (ops : list operand) : option insn :=
  Some {| address := addr; mnemonic := m; op_str := s; operands := ops |}.

Definition cond_name (c : Z) : string :=
  nth (Z.to_nat c)
    ["eq"; "ne"; "hs"; "lo"; "mi"; "pl"; "vs"; "vc";
     "hi"; "ls"; "ge"; "lt"; "gt"; "le"; "al"; "nv"]%string "al"%string.

Definition sep : string := ", "%string.

Definition decode (w addr : Z) : option insn :=
  if w =? 0xD503201F then mk addr "nop" EmptyString []
  else if w =? 0xD503237F then mk addr "pacibsp" EmptyString []
  else if w =? 0xD503249F then mk addr "bti" "j" []
  else if w =? 0xD65F03C0 then mk addr "ret" EmptyString []
  else if w =? 0xD65F0FFF then mk addr "retab" EmptyString []
  else if w =? 0 then mk addr "udf" "#0" [imm_op 0]
  else if Z.land w 0xFFE00000 =? 0x52800000 then
    let rd := bits w 0 5 in let imm := bits w 5 16 in
    mk addr "mov" (cat (wname rd) (cat sep (imm_str imm))) [reg_op (wreg rd); imm_op imm]
  else if Z.land w 0xFFE00000 =? 0xD2800000 then
    let rd := bits w 0 5 in let imm := bits w 5 16 in
    mk addr "mov" (cat (xname rd) (cat sep (imm_str imm))) [reg_op (xreg rd); imm_op imm]
  else if Z.land w 0xFFE0FFE0 =? 0xAA0003E0 then
    let rd := bits w 0 5 in let rm := bits w 16 5 in
    mk addr "mov" (cat (xname rd) (cat sep (xname rm))) [reg_op (xreg rd); reg_op (xreg rm)]
  else if Z.land w 0xFC000000 =? 0x14000000 then
    let t := addr + sext (bits w 0 26) 26 * 4 in
    mk addr "b" (imm_str t) [imm_op t]
  else if Z.land w 0xFC000000 =? 0x94000000 then
    let t := addr + sext (bits w 0 26) 26 * 4 in
    mk addr "bl" (imm_str t) [imm_op t]
  else if Z.land w 0x7E000000 =? 0x34000000 then
    let sf := bits w 31 1 in let rt := bits w 0 5 in
    let t := addr + sext (bits w 5 19) 19 * 4 in
    let nm := if sf =? 1 then xname rt else wname rt in
    let r := if sf =? 1 then xreg rt else wreg rt in
    mk addr (if bits w 24 1 =? 1 then "cbnz" else "cbz")
       (cat nm (cat sep (imm_str t))) [reg_op r; imm_op t]
  else if Z.land w 0x7E000000 =? 0x36000000 then
    let b5 := bits w 31 1 in let rt := bits w 0 5 in
    let bit := b5 * 32 + bits w 19 5 in
    let t := addr + sext (bits w 5 14) 14 * 4 in
    let nm := if b5 =? 1 then xname rt else wname rt in
    let r := if b5 =? 1 then xreg rt else wreg rt in
    mk addr (if bits w 24 1 =? 1 then "tbnz" else "tbz")
       (cat nm (cat sep (cat (imm_str bit) (cat sep (imm_str t)))))
       [reg_op r; imm_op bit; imm_op t]
  else if Z.land w 0xFF000010 =? 0x54000000 then
    let t := addr + sext (bits w 5 19) 19 * 4 in
    mk addr (cat "b." (cond_name (bits w 0 4))) (imm_str t) [imm_op t]
  else if Z.land w 0x9F000000 =? 0x90000000 then
    let rd := bits w 0 5 in
    let imm := sext (bits w 5 19 * 4 + bits w 29 2) 21 * 4096 in
    let page := and_not addr 0xFFF + imm in
    mk addr "adrp" (cat (xname rd) (cat sep (imm_str page))) [reg_op (xreg rd); imm_op page]
  else if Z.land w 0xFFC00000 =? 0x91000000 then
    let rd := bits w 0 5 in let rn := bits w 5 5 in let imm := bits w 10 12 in
    mk addr "add" (cat (xname rd) (cat sep (cat (xname rn) (cat sep (imm_str imm)))))
       [reg_op (xreg rd); reg_op (xreg rn); imm_op imm]
  else None.

Fixpoint disasm (code : bytes) (addr : Z) : list insn :=
  match code with
  | b0 :: b1 :: b2 :: b3 :: rest =>
    match decode (le_decode [b0; b1; b2; b3]) addr with
    | Some i => i :: disasm rest (addr + 4)
    | None => []
    end
  | _ => []
  end.

Definition capstone : Disassembler :=
  {| cs_disasm := disasm;
     ARM64_OP_REG := 1; ARM64_OP_IMM := 2; ARM64_OP_MEM := 3;
     ARM64_REG_W0 := 168; ARM64_REG_X0 := 199; ARM64_REG_X1 := 200;
     ARM64_REG_X8 := 207 |}.

Definition hexval (a : ascii) : option Z :=
  let n := Z.of_N (N_of_ascii a) in
  if (48 <=? n) && (n <=? 57) then Some (n - 48)
  else if (65 <=? n) && (n <=? 70) then Some (n - 55)
  else if (97 <=? n) && (n <=? 102) then Some (n - 87)
  else None.

Fixpoint parse_hex (s : string) (acc : Z) : option Z :=
  match s with
  | EmptyString => Some acc
  | String a t =>
    match hexval a with
    | Some d => parse_hex t (acc * 16 + d)
    | None => None
    end
  end.

(** An assembler of [b #0x<target>] placed at [addr]. *)
Definition asm_b (line : string) (addr : Z) : option bytes :=
  if String.prefix "b #0x" line then
    match parse_hex (String.substring 5 (String.length line - 5) line) 0 with
    | Some t =>
      match KernelJB._encode_b addr t with
      | Ok (Some b) => Some b
      | _ => None
      end
    | None => None
    end
  else None.

Definition keystone : Assembler := {| ks_asm := asm_b |}.

(** An assembler that encodes nothing: every request is an encoding
    failure. *)
Definition keystone_failing : Assembler := {| ks_asm := fun _ _ => None |}.

(** An instance of the kernel base class over the reference decoder, and a
    catalog whose unmodelled rules find no anchor. *)
Definition kernel_base : KernelJB.KernelBase :=
  {| KernelJB._disas_at := fun p off n => disasm (slice (raw p) off (off + n * 4)) off;
     KernelJB.find_function_start := fun p off =>
       match TXMJB.first_pacibsp (raw p) (range (and_not off 3) (-1) (-4)) with
       | Some f => f
       | None => -1
       end;
     KernelJB._is_bl := fun p off =>
       match disasm (slice (raw p) off (off + 4)) off with
       | i :: _ => if mn_is i "bl" then op_imm (opnd i 0) else -1
       | [] => -1
       end |}.

Definition rules_not_found : KernelJB.KernelRules :=
  {| KernelJB.patch_amfi_execve_kill_path := ret false;
     KernelJB.patch_task_conversion_eval_internal := ret false;
     KernelJB.patch_sandbox_hooks_extended := ret false;
     KernelJB.patch_post_validation_additional := ret false;
     KernelJB.patch_proc_pidinfo := ret false;
     KernelJB.patch_convert_port_to_map := ret false;
     KernelJB.patch_vm_fault_enter_prepare := ret false;
     KernelJB.patch_vm_map_protect := ret false;
     KernelJB.patch_mac_mount := ret false;
     KernelJB.patch_dounmount := ret false;
     KernelJB.patch_bsd_init_auth := ret false;
     KernelJB.patch_spawn_validate_persona := ret false;
     KernelJB.patch_task_for_pid := ret false;
     KernelJB.patch_load_dylinker := ret false;
     KernelJB.patch_shared_region_map := ret false;
     KernelJB.patch_nvram_verify_permission := ret false;
     KernelJB.patch_io_secure_bsd_root := ret false;
     KernelJB.patch_thid_should_crash := ret false;
     KernelJB.patch_cred_label_update_execve := ret false;
     KernelJB.patch_syscallmask_apply_to_proc := ret false;
     KernelJB.patch_hook_cred_label_update_execve := ret false;
     KernelJB.patch_kcall10 := ret false |}.

(** A 32-bit word as its four little-endian bytes. *)
Definition word (w : Z) : bytes := le_encode 4 w.
Definition words (ws : list Z) : bytes := flat_map word ws.

(** A patcher object over an image, as [__init__] leaves it. *)
Definition image (d : bytes) : patcher :=
  {| raw := d; data := d; size := len d; base_va := 0; patches := [];
     symbols := []; code_ranges := []; amfi_text := (0, 0); kern_text := (0, 0);
     mode := EmptyString |}.

End A64.

(** ** Vocabulary of the statements *)

Module Spec.

(** The [n] bytes of [d] at offset [off], and the byte at [i]. *)
Definition bytes_at (d : bytes) (off : Z) (n : nat) : bytes :=
  firstn n (skipn (Z.to_nat off) d).

Definition byte_at (d : bytes) (i : Z) : Z := b2z (nth (Z.to_nat i) d x00).

(** The buffer [d] with the bytes [v] written in place at [off]. *)
Definition splice (d : bytes) (off : Z) (v : bytes) : bytes :=
  firstn (Z.to_nat off) d ++ v ++ skipn (Z.to_nat (off + len v)) d.

(** [sub] occurs in [d] at offset [s]. *)
Definition occurs_at (d sub : bytes) (s : Z) : Prop :=
  0 <= s /\ startswith byte_eqb (skipn (Z.to_nat s) d) sub = true.

(** A patch that lies inside a buffer of [n] bytes. *)
Definition in_place (n : Z) (pt : patch) : Prop :=
  0 <= fst (fst pt) /\ fst (fst pt) + len (snd (fst pt)) <= n.

(** Offset [i] is covered by the patch. *)
Definition covers (pt : patch) (i : Z) : Prop :=
  fst (fst pt) <= i < fst (fst pt) + len (snd (fst pt)).

(** [apply], started on [p], returned [n] and left [p']: the buffer kept its
    length, [n] counts the registered patches, and the bytes that no patch
    covers are those of [p]. *)
Definition applied_in_place (p : patcher) (n : Z) (p' : patcher) : Prop :=
  len (data p') = len (data p) /\
  n = len (patches p') /\
  forall i, 0 <= i -> (forall pt, In pt (patches p') -> ~ covers pt i) ->
            byte_at (data p') i = byte_at (data p) i.

(** What [apply] does once the rules [rules] have run from the object with
    an empty patch list. *)
Definition apply_outcome (rules : list (M bool)) (p : patcher) : run Z :=
  match run_rules rules (set_patches p []) with
  | Done _ p' =>
    Done (len (patches p')) (set_data p' (apply_patches (data p') (patches p')))
  | Fault e => Fault e
  end.

(** The object after the patches [ps] have been emitted in order. *)
Fixpoint emit_list (ps : list patch) (p : patcher) : patcher :=
  match ps with
  | [] => p
  | (off, pb, desc) :: rest =>
    emit_list rest
      (set_data (set_patches p (patches p ++ [(off, pb, desc)]))
                (slice_assign (data p) off (off + len pb) pb))
  end.

(** A method that changes the object through [emit] only. *)
Definition emits_only {A} (m : M A) : Prop :=
  forall p a p', m p = Done a p' -> exists ps, p' = emit_list ps p.

(** A displacement that a B or BL instruction can hold. *)
Definition in_branch_range (delta : Z) : Prop := - 2 ^ 25 <= delta < 2 ^ 25.

(** The word of [d] at [off] reads as filler. *)
Definition filler_word (d : bytes) (off : Z) : Prop :=
  exists w, KernelJB._rd32 d off = Ok w /\ KernelJB.is_filler w = true.

(** The word of [d] at [off] reads as something other than filler. *)
Definition solid_word (d : bytes) (off : Z) : Prop :=
  exists w, KernelJB._rd32 d off = Ok w /\ KernelJB.is_filler w = false.


(** The bytes a cave request takes: [needed] of [_find_code_cave] at the
    default alignment. *)
Definition cave_needed (size_ : Z) : Z := (size_ + 4 - 1) / 4 * 4.

Section Xref.
Context {D : Disassembler}.
Variables (code : bytes) (base_va tp tpo : Z).

(** The instruction decoded at word index [k] of [code], if any. *)
Definition insn_at (k : Z) : option insn :=
  match cs_disasm (slice code (4 * k) (4 * k + 4)) (base_va + 4 * k) with
  | [] => None
  | i :: _ => Some i
  end.

Definition adrp_like (i : insn) : bool := mn_is i "adrp" && (nops i >=? 2).
Definition add_like (i : insn) : bool := mn_is i "add" && (nops i >=? 3).

(** An ADRP into register [r] at word index [i]. *)
Definition adrp_into (r i : Z) (a : insn) : Prop :=
  insn_at i = Some a /\ adrp_like a = true /\ op_reg (opnd a 0) = r.

(** The ADRP at [i] is the pending page load of [r] when the scan reaches
    word [k]: the last ADRP into [r] before [k]. *)
Definition pending (r k i : Z) (a : insn) : Prop :=
  0 <= i < k /\ adrp_into r i a /\
  forall m a', i < m < k -> ~ adrp_into r m a'.

(** The ADD at word [j] takes the register of the pending ADRP at word [i],
    at most 8 instructions after it, and the two form the target. *)
Definition xref (i j va : Z) : Prop :=
  exists a b,
    insn_at j = Some b /\ add_like b = true /\ adrp_like b = false /\
    pending (op_reg (opnd b 1)) j i a /\
    op_imm (opnd a 1) = tp /\ op_imm (opnd b 2) = tpo /\
    j - i <= 8 /\ va = address a.

(** The cache of [_find_adrp_add_ref] holds, for every register, its pending
    ADRP when the scan reaches word [k]. *)
Definition cache_ok (c : Cfw.adrp_cache_t) (k : Z) : Prop :=
  forall r,
    match Cfw.cache_get c r with
    | Some (va, page, idx) =>
      exists a, pending r k idx a /\ va = address a /\ page = op_imm (opnd a 1)
    | None => forall i a, 0 <= i < k -> ~ adrp_into r i a
    end.

(** Words [a] and [a + 4] of a TXM image are an ADRP and the ADD that
    completes it to [target]. *)
Definition adjacent_pair (raw_ : bytes) (target a : Z) : Prop :=
  exists ia ib,
    TXMJB._disasm_one raw_ a = Some ia /\ TXMJB._disasm_one raw_ (a + 4) = Some ib /\
    adrp_like ia = true /\ add_like ib = true /\
    op_reg (opnd ia 0) = op_reg (opnd ib 1) /\
    op_imm (opnd ia 1) + op_imm (opnd ib 2) = target.

(** A reference [(s, a, b)] of [_find_string_refs]: [needle] occurs at [s]
    and [(a, b)] refers to [s]. *)
Definition sound_ref (p : patcher) (needle : bytes) (r : Z * Z * Z) : Prop :=
  let '(s, a, b) := r in
  occurs_at (raw p) needle s /\ In (a, b) (TXMJB._find_refs_to_offset p s).

End Xref.





(** The last three statements of [_inject_lc_load_dylib]: the new command
    goes to the end of the [sizeofcmds] bytes of load commands and the header
    counts it. *)
Definition lc_write (data : bytes) (base ncmds sizeofcmds cmd_size : Z) (lc_data : bytes)
    : result (bool * bytes) :=
  (let header_end := base + 32 + sizeofcmds in
   let data := slice_assign data header_end (header_end + cmd_size) lc_data in
   data <- pack_into_I data (base + 16) (ncmds + 1) ;;
   data <- pack_into_I data (base + 20) (sizeofcmds + cmd_size) ;;
   Ok (true, data))%py.


End Spec.

Export Spec.

(** ** Concrete images *)

Module Images.

(** Four sites [mov w2, #0x14; bl; cbz w0] in a TXM image. *)
Definition txm_hashcmp4 : bytes :=
  A64.words [0x52800282; 0x94000010; 0x34000040; 0x52800282; 0x94000010; 0x34000040;
             0x52800282; 0x94000010; 0x34000040; 0x52800282; 0x94000010; 0x34000040;
             0xD503201F; 0xD503201F; 0xD503201F].

(** A TXM image with the debugger gate, its selector stub and a cave:
<<
  0x00 pacibsp            0x20 bti j
  0x04 adrp x1, #0        0x24 mov x0, x20
  0x08 add x1, x1, #0x58  0x28 bl #0x2c
  0x0c mov x0, #0         0x2c mov x1, x21
  0x10 mov x2, #0         0x30 mov x2, x22
  0x14 bl #0x54           0x34 bl #0
  0x18 tbnz w0, #0, #0x20 0x38 b #0x38
  0x1c ret                0x3c udf #0 (six times), 0x54 nop
  0x58 "com.apple.private.cs.debugger"
>> *)
Definition txm_debugger : bytes :=
  A64.words [0xD503237F; 0x90000001; 0x91000000 + 0x58 * 1024 + 32 + 1; 0xD2800000;
             0xD2800002; 0x94000010; 0x37000040; 0xD65F03C0; 0xD503249F; 0xAA1403E0;
             0x94000001; 0xAA1503E1; 0xAA1603E2; 0x97FFFFF3; 0x14000000;
             0; 0; 0; 0; 0; 0; 0xD503201F]
  ++ B "com.apple.private.cs.debugger" ++ [x00; x00; x00]
  ++ A64.words [0xD503201F; 0xD503201F; 0xD503201F; 0xD503201F;
                0xD503201F; 0xD503201F; 0xD503201F; 0xD503201F].

(** [adrp x0, #0; nop; add x0, x0, #0x20; nop; nop]: a page load and its ADD
    two instructions apart. *)
Definition code_apart : bytes :=
  A64.words [0x90000000; 0xD503201F; 0x91000000 + 0x20 * 1024; 0xD503201F; 0xD503201F].

(** [adrp x0, #0; add x0, x0, #0x20]: the ADD is the last word of the code. *)
Definition code_last : bytes :=
  A64.words [0x90000000; 0x91000000 + 0x20 * 1024].

(** [adrp x0, #0] and, ten instructions later, [add x0, x0, #0x20]. *)
Definition code_far : bytes :=
  A64.words [0x90000000; 0xD503201F; 0xD503201F; 0xD503201F; 0xD503201F; 0xD503201F;
             0xD503201F; 0xD503201F; 0xD503201F; 0xD503201F;
             0x91000000 + 0x20 * 1024; 0xD503201F].

(** A TXM image whose code refers to the string
    ["com.apple.security.get-task-allow"] at 0x10:
    [adrp x0, #0; add x0, x0, #0x10; nop; nop] and the string. *)
Definition txm_substring : bytes :=
  A64.words [0x90000000; 0x91000000 + 0x10 * 1024; 0xD503201F; 0xD503201F]
  ++ B "com.apple.security.get-task-allow" ++ [x00; x00; x00]
  ++ A64.words [0xD503201F; 0xD503201F; 0xD503201F].

(** A kernel image whose symbol table names [_proc_security_policy] at the
    last word of the file:
<<
  0x00 mach_header_64: magic 0xFEEDFACF, ncmds 1, sizeofcmds 24
  0x20 LC_SYMTAB: symoff 0x38, nsyms 1, stroff 0x48, strsize 24
  0x38 nlist_64: n_strx 1, n_type 0x0F, n_sect 1, n_value base_va + 0x64
  0x48 "\0_proc_security_policy\0", one byte of padding
  0x60 nop
  0x64 ret
>> *)
Definition kernel_base_va : Z := 0xFFFFFE0007004000.

Definition kernel_symtab : bytes :=
  A64.words [0xFEEDFACF; 0x0100000C; 0; 2; 1; 24; 0; 0]
  ++ A64.words [2; 24; 0x38; 1; 0x48; 24]
  ++ A64.words [1] ++ [x0f; x01; x00; x00] ++ le_encode 8 (kernel_base_va + 0x64)
  ++ [x00] ++ B "_proc_security_policy" ++ [x00; x00]
  ++ A64.words [0xD503201F; 0xD65F03C0].

Definition kernel_symtab_object : patcher :=
  {| raw := kernel_symtab; data := kernel_symtab; size := len kernel_symtab;
     base_va := kernel_base_va; patches := []; symbols := [];
     code_ranges := [(0x60, 0x68)]; amfi_text := (0, 0); kern_text := (0x60, 0x68);
     mode := EmptyString |}.

(** A buffer of sixteen zero words, all of it code: room for caves. *)
Definition zero_code : patcher :=
  {| raw := repeat x00 64; data := repeat x00 64; size := 64;
     base_va := 0; patches := []; symbols := [];
     code_ranges := [(0, 64)]; amfi_text := (0, 0); kern_text := (0, 64);
     mode := EmptyString |}.

(** A shellcode in the manner of [patch_syscallmask_apply_to_proc]: a data
    word of 0xFFFFFFFF in front of the code [mov x0, #1; ret]. *)
Definition shell_pad : list bytes := [A64.word 0xFFFFFFFF].
Definition shell_body : list bytes := [KernelJB.MOV_X0_1; KernelJB.RET].

(** [zero_code] once a rule has been given the cave at 0 and has written the
    shellcode there. *)
Definition zero_code_written : patcher :=
  match KernelJB.emit_parts 0 (shell_pad ++ shell_body) 0 "demo" zero_code with
  | Done _ p => p
  | Fault _ => zero_code
  end.

(** The 40 bytes of the load command [LC_LOAD_DYLIB "/a.dylib"]. *)
Definition lc_a_dylib : bytes :=
  A64.words [0xC; 40; 24; 2; 0; 0] ++ B "/a.dylib" ++ repeat x00 8.


Definition name16 (s : string) : bytes :=
  B s ++ repeat x00 (16 - String.length s).

(** A thin Mach-O of 240 bytes: a segment [__TEXT] with one section [__text]
    whose 8 bytes of data are at file offset [first_section], followed by the
    load commands [tail] ([ntail] of them), zero padding up to the section and
    the section data. *)
Definition macho (first_section : Z) (ntail : Z) (tail : bytes) : bytes :=
  let cmds :=
    A64.words [0x19; 152] ++ name16 "__TEXT"
    ++ le_encode 8 0x100000000 ++ le_encode 8 0x4000 ++ le_encode 8 0 ++ le_encode 8 240
    ++ A64.words [5; 5; 1; 0]
    ++ name16 "__text" ++ name16 "__TEXT"
    ++ le_encode 8 (0x100000000 + first_section) ++ le_encode 8 8
    ++ A64.words [first_section; 2; 0; 0; 0x80000400; 0; 0; 0]
    ++ tail in
  let head := A64.words [0xFEEDFACF; 0x0100000C; 0; 2; 1 + ntail; len cmds; 0; 0] ++ cmds in
  head ++ repeat x00 (Z.to_nat (first_section - len head))
  ++ A64.words [0xD503201F; 0xD65F03C0]
  ++ repeat x00 (Z.to_nat (240 - first_section - 8)).

(** Its code signature command (16 bytes) is the last load command and only
    32 bytes of padding follow. *)
Definition macho_codesig : bytes := macho 232 1 (A64.words [0x1D; 16; 240; 0]).


(** 72 bytes of padding after the load commands. *)
Definition macho_padded : bytes := macho 224 0 [].

(** 8 bytes of padding after the load commands and no code signature. *)
Definition macho_tight : bytes := macho 192 0 [].

(** The objects the concrete runs of Part II arrive at. *)
Definition result_of {A} (r : run A) (otherwise : patcher) : patcher :=
  match r with
  | Done _ p => p
  | Fault _ => otherwise
  end.

Definition txm_debugger_applied : patcher :=
  result_of (@TXMJB.apply A64.capstone A64.keystone (A64.image txm_debugger))
            (A64.image txm_debugger).

Definition txm_hashcmp4_ruled : patcher :=
  result_of (@TXMJB.patch_selector24_hashcmp_calls A64.capstone (A64.image txm_hashcmp4))
            (A64.image txm_hashcmp4).

Definition txm_hashcmp4_applied : patcher :=
  result_of (@TXMJB.apply A64.capstone A64.keystone (A64.image txm_hashcmp4))
            (A64.image txm_hashcmp4).

Definition kernel_symtab_ready : patcher :=
  result_of (KernelJB._build_symbol_table kernel_symtab_object) kernel_symtab_object.

Definition kernel_symtab_applied : patcher :=
  result_of (@KernelJB.apply A64.capstone A64.kernel_base A64.rules_not_found
               kernel_symtab_ready)
            kernel_symtab_ready.

End Images.

(** ** More images *)

Module Samples.

(** A seputil-like file: the gigalocker format string after three bytes. *)
Definition seputil : bytes := B "mnt/%s.gl" ++ [x00] ++ B "tail".

(** A thin Mach-O of 184 bytes with a segment that maps the file at
    0x1000 and a symbol table whose one symbol, [_should_hactivate], is at
    0x10B0, file offset 176:
<<
  0x00 mach_header_64: ncmds 2, sizeofcmds 96
  0x20 LC_SEGMENT_64 __TEXT: vmaddr 0x1000, vmsize 0x1000, fileoff 0, nsects 0
  0x68 LC_SYMTAB: symoff 0x80, nsyms 1, stroff 0x90, strsize 32
  0x80 nlist_64: n_strx 1, n_type 0x0F, n_sect 1, n_value 0x10B0
  0x90 "\0_should_hactivate\0", padded to 32 bytes
  0xB0 nop; nop
>> *)
Definition macho_symtab : bytes :=
  A64.words [0xFEEDFACF; 0x0100000C; 0; 2; 2; 96; 0; 0]
  ++ A64.words [0x19; 72] ++ Images.name16 "__TEXT"
  ++ le_encode 8 0x1000 ++ le_encode 8 0x1000 ++ le_encode 8 0 ++ le_encode 8 184
  ++ A64.words [5; 5; 0; 0]
  ++ A64.words [2; 24; 0x80; 1; 0x90; 32]
  ++ A64.words [1] ++ [x0f; x01; x00; x00] ++ le_encode 8 0x10B0
  ++ [x00] ++ B "_should_hactivate" ++ repeat x00 14
  ++ A64.words [0xD503201F; 0xD503201F].

(** [adrp x0, #0; add x0, x0, #0x20; bl #0x48; cbz w0, #0x14; nop]: a string
    reference, the call that takes it and the branch on its result. *)
Definition code_bl_cbz : bytes :=
  A64.words [0x90000000; 0x91000000 + 0x20 * 1024; 0x94000010; 0x34000040; 0xD503201F].

Definition section_64 (sectname segname : string) (addr size offset : Z) : bytes :=
  Images.name16 sectname ++ Images.name16 segname
  ++ le_encode 8 addr ++ le_encode 8 size
  ++ A64.words [offset; 2; 0; 0; 0; 0; 0; 0].

(** A thin Mach-O of 352 bytes, mapped at 0, in the manner of launchd:
<<
  0x000 mach_header_64: ncmds 1, sizeofcmds 232
  0x020 LC_SEGMENT_64 __TEXT with the sections
          __text    at 0x108, 24 bytes
          __cstring at 0x120, 64 bytes
  0x108 cbz w0, #0x118
  0x10c adrp x0, #0
  0x110 add x0, x0, #0x120
  0x114 nop
  0x118 nop
  0x11c ret
  0x120 "jetsam property category (Daemon) is not initialized\0", padded
>> *)
Definition launchd : bytes :=
  A64.words [0xFEEDFACF; 0x0100000C; 0; 2; 1; 232; 0; 0]
  ++ A64.words [0x19; 232] ++ Images.name16 "__TEXT"
  ++ le_encode 8 0 ++ le_encode 8 0x1000 ++ le_encode 8 0 ++ le_encode 8 352
  ++ A64.words [5; 5; 2; 0]
  ++ section_64 "__text" "__TEXT" 0x108 24 0x108
  ++ section_64 "__cstring" "__TEXT" 0x120 64 0x120
  ++ A64.words [0x34000080; 0x90000000; 0x91000000 + 0x120 * 1024;
                0xD503201F; 0xD503201F; 0xD65F03C0]
  ++ B "jetsam property category (Daemon) is not initialized" ++ repeat x00 12.

(** The same layout in the manner of launchd_cache_loader:
<<
  0x108 adrp x0, #0
  0x10c add x0, x0, #0x120
  0x110 bl #0x150
  0x114 cbz w0, #0x11c
  0x118 nop
  0x11c ret
  0x120 "unsecure_cache\0", padded
>> *)
Definition cache_loader : bytes :=
  A64.words [0xFEEDFACF; 0x0100000C; 0; 2; 1; 232; 0; 0]
  ++ A64.words [0x19; 232] ++ Images.name16 "__TEXT"
  ++ le_encode 8 0 ++ le_encode 8 0x1000 ++ le_encode 8 0 ++ le_encode 8 352
  ++ A64.words [5; 5; 2; 0]
  ++ section_64 "__text" "__TEXT" 0x108 24 0x108
  ++ section_64 "__cstring" "__TEXT" 0x120 64 0x120
  ++ A64.words [0x90000000; 0x91000000 + 0x120 * 1024; 0x94000010;
                0x34000040; 0xD503201F; 0xD65F03C0]
  ++ B "unsecure_cache" ++ repeat x00 50.

(** The same file with the string ["launchd_unsecure_cache="] at 0x120 and
    code that refers to its tail ["unsecure_cache="] at 0x128. *)
Definition cache_loader_tail : bytes :=
  A64.words [0xFEEDFACF; 0x0100000C; 0; 2; 1; 232; 0; 0]
  ++ A64.words [0x19; 232] ++ Images.name16 "__TEXT"
  ++ le_encode 8 0 ++ le_encode 8 0x1000 ++ le_encode 8 0 ++ le_encode 8 352
  ++ A64.words [5; 5; 2; 0]
  ++ section_64 "__text" "__TEXT" 0x108 24 0x108
  ++ section_64 "__cstring" "__TEXT" 0x120 64 0x120
  ++ A64.words [0x90000000; 0x91000000 + 0x128 * 1024; 0x94000010;
                0x34000040; 0xD503201F; 0xD65F03C0]
  ++ B "launchd_unsecure_cache=" ++ repeat x00 41.

(** A [b] followed by six zero words: a cave for the TXM patcher. *)
Definition code_b_zeros : bytes :=
  A64.words [0x14000002; 0; 0; 0; 0; 0; 0; 0xD503201F].

(** An iBSS image: a reference to ["boot-nonce"], then
    [tbz w0, #0, #0x10; mov w0, #0; bl #0x50] at 8, and the string at 0x20. *)
Definition ibss_nonce : bytes :=
  A64.words [0x90000000; 0x91000000 + 0x20 * 1024; 0x36000040; 0x52800000;
             0x94000010; 0xD503201F; 0xD503201F; 0xD503201F]
  ++ B "boot-nonce" ++ [x00; x00; x00; x00; x00; x00].

(** One chunk: the instructions that decode from the start of the image. *)
Definition one_chunk : IBootJB.IBootBase :=
  {| IBootJB._chunked_disasm := fun p => [A64.disasm (raw p) 0] |}.


(** [nop; adrp x0, #0; add x0, x0, #0x20]: the ADD is the last word. *)
Definition code_pair_last : bytes :=
  A64.words [0xD503201F; 0x90000000; 0x91000000 + 0x20 * 1024].

End Samples.

(** ** More vocabulary *)

Module Props.

Section WithDisassembler.
Context {D : Disassembler}.

(** [back] holds a conditional branch that [patch_launchd_jetsam] accepts:
    its target [tgt] lies in the text section and starts a return block. *)
Definition jetsam_site (data : bytes) (text_foff text_size back tgt : Z) : Prop :=
  exists insn rest,
    Cfw.disasm_at data back 1 = insn :: rest /\
    mn_in insn Cfw.cond_mnemonics = true /\
    tgt = Cfw._extract_branch_target_off insn /\
    text_foff <= tgt < text_foff + text_size /\ 0 <= tgt /\
    Cfw._is_return_block data tgt text_foff text_size = true.

(** The anchor string is found in [data] at [match_off], inside the section
    of [sections] that starts at file offset [sec_foff] and address
    [sec_va], and [start] is where [_find_cstring_start] puts the start of
    the C string that holds the match. *)
Definition anchor_start (data : bytes) (sections : Cfw.sections_t) (anchor : bytes)
    (match_off sec_va sec_foff start : Z) : Prop :=
  match_off = find data anchor 0 /\ 0 <= match_off /\
  (exists sec_size,
     Cfw.section_containing sections match_off = Some (sec_va, sec_size, sec_foff)) /\
  Cfw._find_cstring_start data match_off sec_foff = Ok start.

(** The reference that [patch_launchd_jetsam] resolves for an anchor: the
    pair that [_find_adrp_add_ref] finds in the text for the address of the
    start of the string, as a file offset. *)
Definition jetsam_ref (data : bytes) (sections : Cfw.sections_t)
    (text_va text_size text_foff : Z) (anchor : bytes) (ref_foff : Z) : Prop :=
  exists match_off sec_va sec_foff start,
    anchor_start data sections anchor match_off sec_va sec_foff start /\
    let code := slice data text_foff (text_foff + text_size) in
    let to_start := Cfw._find_adrp_add_ref code text_va (sec_va + (start - sec_foff)) in
    0 <= to_start /\ ref_foff = text_foff + (to_start - text_va).

(** The reference that [patch_launchd_cache_loader] resolves for an anchor:
    the pair found for the address of the start of the string, or, when
    there is none, the pair found for the address of the match itself. *)
Definition cache_loader_ref (data : bytes) (sections : Cfw.sections_t)
    (text_va text_size text_foff : Z) (anchor : bytes) (ref_foff : Z) : Prop :=
  exists match_off sec_va sec_foff start,
    anchor_start data sections anchor match_off sec_va sec_foff start /\
    let code := slice data text_foff (text_foff + text_size) in
    let to_start := Cfw._find_adrp_add_ref code text_va (sec_va + (start - sec_foff)) in
    let to_match := Cfw._find_adrp_add_ref code text_va (sec_va + (match_off - sec_foff)) in
    (0 <= to_start /\ ref_foff = text_foff + (to_start - text_va)) \/
    (to_start < 0 /\ 0 <= to_match /\ ref_foff = text_foff + (to_match - text_va)).

(** The branch that [patch_launchd_jetsam] rewrites for an anchor: the
    earliest accepted branch of the 0x300 bytes of text before the
    reference. *)
Definition jetsam_patch (data : bytes) (sections : Cfw.sections_t)
    (text_va text_size text_foff : Z) (anchor : bytes) (po pt : Z) : Prop :=
  exists ref_foff,
    jetsam_ref data sections text_va text_size text_foff anchor ref_foff /\
    0 <= po /\ Z.max text_foff (ref_foff - 0x300) <= po < ref_foff /\
    jetsam_site data text_foff text_size po pt /\
    forall b t, Z.max text_foff (ref_foff - 0x300) <= b < po -> (po - b) mod 4 = 0 ->
                ~ jetsam_site data text_foff text_size b t.

(** The branch that [patch_launchd_cache_loader] replaces for an anchor: the
    one [_find_nearby_branch] finds after the reference. *)
Definition cache_loader_branch (data : bytes) (sections : Cfw.sections_t)
    (text_va text_size text_foff : Z) (anchor : bytes) (branch_foff : Z) : Prop :=
  exists ref_foff,
    cache_loader_ref data sections text_va text_size text_foff anchor ref_foff /\
    branch_foff = Cfw._find_nearby_branch data ref_foff text_foff text_size /\
    0 <= branch_foff.

End WithDisassembler.

(** The implementation that [patch_mobileactivationd] patches: the file
    offset of the symbol, when the symbol table has it and a segment maps
    it; else the one the Objective-C metadata gives. *)
Definition hactivate_imp (data : bytes) (imp_foff : Z) : Prop :=
  exists imp_va,
    Cfw.find_symbol_va data (of_string "should_hactivate") = Ok imp_va /\
    ((0 < imp_va /\ Cfw.va_to_foff data imp_va = Ok imp_foff /\ 0 <= imp_foff) \/
     ((imp_va <= 0 \/ exists f, Cfw.va_to_foff data imp_va = Ok f /\ f < 0) /\
      Cfw._find_via_objc_metadata data = Ok imp_foff /\ 0 <= imp_foff)).


(** The anchors of [patch_launchd_cache_loader] and of
    [patch_launchd_jetsam], in the order they are tried. *)
Definition cache_loader_anchors : list bytes :=
  [B "unsecure_cache"; B "unsecure"; B "cache_valid"; B "validation"].

Definition jetsam_anchors : list bytes :=
  [B "jetsam property category (Daemon) is not initialized";
   B "jetsam property category";
   B "initproc exited -- exit reason namespace 7 subcode 0x1"].

(** Where a chain of [ncmds] load commands that starts at [offset] ends,
    when each command holds at least the three words that
    [_check_existing_dylib] reads of it ([cmd], [cmdsize] and the offset of
    the name). *)
Fixpoint commands_end (data : bytes) (ncmds : nat) (offset : Z) : option Z :=
  match ncmds with
  | O => Some offset
  | S n =>
    match unpack_II data offset with
    | Ok (_, cmdsize) =>
      if 12 <=? cmdsize then commands_end data n (offset + cmdsize) else None
    | Raise _ => None
    end
  end.

(** The offset of load command number [k], counted from the command at
    [offset]. *)
Fixpoint command_offset (data : bytes) (k : nat) (offset : Z) : option Z :=
  match k with
  | O => Some offset
  | S n =>
    match unpack_II data offset with
    | Ok (_, cmdsize) => command_offset data n (offset + cmdsize)
    | Raise _ => None
    end
  end.

(** [p] is [p0] but for its symbol table, and every symbol of [p] is an
    offset inside the image. *)
Definition symbols_inv (p0 p : patcher) : Prop :=
  p = set_symbols p0 (symbols p) /\
  Forall (fun kv : pystr * Z => 0 <= snd kv < size p0) (symbols p).

Definition keeps_symbols_inv {A} (m : M A) : Prop :=
  forall p0 p a p', symbols_inv p0 p -> m p = Done a p' -> symbols_inv p0 p'.

(** The count a [Counter] holds for a key; 0 for a key that is absent. *)
Fixpoint counter_get (c : list (Z * Z)) (k : Z) : Z :=
  match c with
  | [] => 0
  | (k', n) :: t => if k' =? k then n else counter_get t k
  end.

(** How many of the offsets [offs] hold a [bl] to [target]. *)
Definition bl_calls {KB : KernelJB.KernelBase} (p : patcher) (offs : list Z) (target : Z)
    : Z :=
  len (filter (fun off => KernelJB._is_bl p off =? target) offs).

End Props.

Export Props.

(* ===================================================================== *)
(** * Part II.  Properties                                                *)
(* ===================================================================== *)

(** ** Lists, slices and [struct] *)

Lemma len_nonneg {A} (l : list A) : 0 <= len l.
Proof. unfold len. lia. Qed.

Lemma len_app {A} (a b : list A) : len (a ++ b) = len a + len b.
Proof. unfold len. rewrite length_app. lia. Qed.

Lemma len_cons {A} (x : A) (l : list A) : len (x :: l) = 1 + len l.
Proof. unfold len. cbn [List.length]. lia. Qed.

Lemma len_firstn {A} (l : list A) (k : Z) :
  0 <= k <= len l -> len (firstn (Z.to_nat k) l) = k.
Proof. unfold len. intros H. rewrite length_firstn. lia. Qed.

Lemma len_skipn {A} (l : list A) (k : Z) :
  0 <= k <= len l -> len (skipn (Z.to_nat k) l) = len l - k.
Proof. unfold len. intros H. rewrite length_skipn. lia. Qed.

Lemma adjust_in {n i} : 0 <= i <= n -> adjust n i = i.
Proof. unfold adjust. intros H. destruct (i <? 0) eqn:E; lia. Qed.

(** An assignment that stays inside the buffer keeps its length. *)
Lemma slice_assign_len {A} (l v : list A) (off : Z) :
  0 <= off -> off + len v <= len l ->
  len (slice_assign l off (off + len v) v) = len l.
Proof.
  intros H0 H1. pose proof (len_nonneg v) as Hv.
  unfold slice_assign. rewrite !adjust_in by lia.
  rewrite Z.max_r by lia.
  rewrite !len_app, len_firstn, len_skipn by lia. lia.
Qed.

Lemma slice_assign_in {A} (l v : list A) (off : Z) :
  0 <= off -> off + len v <= len l ->
  slice_assign l off (off + len v) v
  = firstn (Z.to_nat off) l ++ v ++ skipn (Z.to_nat (off + len v)) l.
Proof.
  intros H0 H1. pose proof (len_nonneg v) as Hv.
  unfold slice_assign. rewrite !adjust_in by lia.
  rewrite Z.max_r by lia. reflexivity.
Qed.

Lemma b2z_range (b : byte) : 0 <= b2z b < 256.
Proof.
  unfold b2z. pose proof (Byte.to_N_bounded b). lia.
Qed.

Lemma b2z_z2b (z : Z) : b2z (z2b z) = z mod 256.
Proof.
  unfold b2z, z2b.
  assert (H : 0 <= z mod 256 < 256) by (apply Z.mod_pos_bound; lia).
  destruct (Byte.of_N (Z.to_N (z mod 256))) eqn:E.
  - apply Byte.to_of_N in E. rewrite E. lia.
  - apply Byte.of_N_None_iff in E. lia.
Qed.

Lemma z2b_b2z (b : byte) : z2b (b2z b) = b.
Proof.
  unfold z2b, b2z. pose proof (Byte.to_N_bounded b).
  rewrite Z.mod_small by lia. rewrite N2Z.id, Byte.of_to_N. reflexivity.
Qed.

Lemma le_decode_range (bs : bytes) : 0 <= le_decode bs < 256 ^ len bs.
Proof.
  induction bs as [|b t IH].
  - simpl. unfold len. simpl. lia.
  - rewrite len_cons. cbn [le_decode]. pose proof (b2z_range b) as Hb.
    pose proof (len_nonneg t).
    rewrite Z.pow_add_r by lia. change (256 ^ 1) with 256. lia.
Qed.

Lemma length_le_encode n v : List.length (le_encode n v) = n.
Proof. revert v. induction n; intros; simpl; auto. Qed.

Lemma le_decode_encode (n : nat) (v : Z) :
  le_decode (le_encode n v) = v mod 256 ^ Z.of_nat n.
Proof.
  revert v. induction n as [|n IH]; intros v.
  - simpl. rewrite Z.mod_1_r. reflexivity.
  - cbn [le_encode le_decode]. rewrite b2z_z2b, IH.
    rewrite Nat2Z.inj_succ, Z.pow_succ_r by lia.
    rewrite (Z.rem_mul_r v 256 (256 ^ Z.of_nat n)) by lia. lia.
Qed.

(** [range] facts *)
Lemma range_up_S (n : nat) (a step : Z) :
  range_up (S n) a step = a :: range_up n (a + step) step.
Proof. reflexivity. Qed.

Lemma in_range_up (n : nat) (a step x : Z) :
  In x (range_up n a step) <-> exists k, (k < n)%nat /\ x = a + Z.of_nat k * step.
Proof.
  revert a. induction n as [|n IH]; intros a; cbn [range_up].
  - split; [intros [] | intros (k & Hk & _); lia].
  - cbn [In]. rewrite IH. split.
    + intros [<- | (k & Hk & ->)].
      * exists 0%nat. split; [lia|]. lia.
      * exists (S k). split; [lia|]. lia.
    + intros (k & Hk & ->). destruct k as [|k].
      * left. lia.
      * right. exists k. split; [lia|]. lia.
Qed.

Lemma range4_length (a b : Z) :
  range a b 4 = range_up (Z.to_nat ((b - a + 3) / 4)) a 4.
Proof. unfold range. cbn. replace (b - a + 4 - 1) with (b - a + 3) by lia. reflexivity. Qed.

Lemma in_range4 (a b x : Z) :
  In x (range a b 4) <-> a <= x < b /\ (x - a) mod 4 = 0.
Proof.
  rewrite range4_length, in_range_up. split.
  - intros (k & Hk & ->).
    assert (Hq : Z.of_nat k < (b - a + 3) / 4) by lia.
    split; [|replace (a + Z.of_nat k * 4 - a) with (Z.of_nat k * 4) by lia;
              apply Z.mod_mul; lia].
    pose proof (Z.mul_div_le (b - a + 3) 4 ltac:(lia)). lia.
  - intros (Hx & Hm).
    exists (Z.to_nat ((x - a) / 4)).
    pose proof (Z.div_mod (x - a) 4 ltac:(lia)) as Hd. rewrite Hm in Hd.
    assert (0 <= (x - a) / 4) by (apply Z.div_pos; lia).
    split; [|lia].
    assert ((x - a) / 4 < (b - a + 3) / 4); [|lia].
    apply Z.div_lt_upper_bound; [lia|].
    pose proof (Z.mod_pos_bound (b - a + 3) 4 ltac:(lia)).
    pose proof (Z.div_mod (b - a + 3) 4 ltac:(lia)). lia.
Qed.


Lemma field_in (size off : Z) (d : bytes) :
  0 <= off -> off + size <= len d ->
  field size d off = Ok (bytes_at d off (Z.to_nat size)).
Proof.
  intros H0 H1. unfold field, bytes_at.
  destruct (off <? 0) eqn:E; [apply Z.ltb_lt in E; lia|].
  replace ((off <? 0) || (len d - off <? size)) with false; [reflexivity|].
  symmetry. apply orb_false_iff. split; [exact E | apply Z.ltb_ge; lia].
Qed.

Lemma field_ok_inv (size off : Z) (d bs : bytes) :
  0 <= off -> field size d off = Ok bs ->
  off + size <= len d /\ bs = bytes_at d off (Z.to_nat size).
Proof.
  intros H0. unfold field, bytes_at.
  destruct (off <? 0) eqn:E; [apply Z.ltb_lt in E; lia|].
  destruct ((off <? 0) || (len d - off <? size)) eqn:E2; [discriminate|].
  apply orb_false_iff in E2. destruct E2 as [_ E2]. apply Z.ltb_ge in E2.
  intros H. injection H as <-. split; [lia | reflexivity].
Qed.

Lemma unpack_I_in (d : bytes) (off : Z) :
  0 <= off -> off + 4 <= len d -> unpack_I d off = Ok (le_decode (bytes_at d off 4)).
Proof. intros H0 H1. unfold unpack_I. rewrite field_in by lia. reflexivity. Qed.

Lemma unpack_I_ok_inv (d : bytes) (off w : Z) :
  0 <= off -> unpack_I d off = Ok w ->
  off + 4 <= len d /\ w = le_decode (bytes_at d off 4).
Proof.
  intros H0. unfold unpack_I. destruct (field 4 d off) as [bs|e] eqn:E; [|discriminate].
  apply field_ok_inv in E; [|exact H0]. destruct E as [E1 ->].
  cbn [bind]. intros H. injection H as <-. split; [exact E1 | reflexivity].
Qed.


Lemma splice_len (d v : bytes) (off : Z) :
  0 <= off -> off + len v <= len d -> len (splice d off v) = len d.
Proof.
  intros H0 H1. pose proof (len_nonneg v). unfold splice.
  rewrite !len_app, len_firstn, len_skipn by lia. lia.
Qed.

Lemma bytes_at_splice_same (d v : bytes) (off : Z) :
  0 <= off -> off + len v <= len d ->
  bytes_at (splice d off v) off (List.length v) = v.
Proof.
  intros H0 H1. unfold bytes_at, splice.
  rewrite skipn_app. rewrite skipn_all2 by (rewrite length_firstn; unfold len in *; lia).
  rewrite length_firstn.
  replace (Z.to_nat off - Nat.min (Z.to_nat off) (List.length d))%nat with 0%nat
    by (unfold len in *; lia).
  cbn [skipn app]. rewrite firstn_app, firstn_all, Nat.sub_diag. cbn [firstn].
  apply app_nil_r.
Qed.

Lemma bytes_at_app_l (a b : bytes) (off' : Z) (n : nat) :
  0 <= off' -> off' + Z.of_nat n <= len a ->
  bytes_at (a ++ b) off' n = bytes_at a off' n.
Proof.
  intros H0 H1. unfold bytes_at. rewrite skipn_app, firstn_app, length_skipn.
  replace (n - (List.length a - Z.to_nat off'))%nat with 0%nat
    by (unfold len in *; lia).
  cbn [firstn]. apply app_nil_r.
Qed.

Lemma bytes_at_splice_before (d v : bytes) (off off' : Z) (n : nat) :
  0 <= off' -> off' + Z.of_nat n <= off -> off + len v <= len d ->
  bytes_at (splice d off v) off' n = bytes_at d off' n.
Proof.
  intros H0 H1 H2. pose proof (len_nonneg v). unfold splice.
  rewrite bytes_at_app_l by (rewrite ?len_firstn; lia).
  rewrite <- (firstn_skipn (Z.to_nat off) d) at 2.
  rewrite bytes_at_app_l by (rewrite ?len_firstn; lia). reflexivity.
Qed.

Lemma bytes_at_splice_after (d v : bytes) (off off' : Z) (n : nat) :
  0 <= off -> off + len v <= off' -> off + len v <= len d ->
  bytes_at (splice d off v) off' n = bytes_at d off' n.
Proof.
  intros H0 H1 H2. pose proof (len_nonneg v). unfold bytes_at, splice. f_equal.
  rewrite app_assoc, skipn_app.
  rewrite skipn_all2 by (rewrite length_app, length_firstn; unfold len in *; lia).
  cbn [app]. rewrite length_app, length_firstn, skipn_skipn. f_equal.
  unfold len in *. lia.
Qed.

Lemma slice_assign_splice (d v : bytes) (off : Z) :
  0 <= off -> off + len v <= len d ->
  slice_assign d off (off + len v) v = splice d off v.
Proof. intros. unfold splice. apply slice_assign_in; assumption. Qed.

(** ** Branch encoding (kernel_jb.py) *)

Lemma lor_high_low (hi m : Z) :
  0 <= m < 2 ^ 26 -> Z.lor (Z.shiftl hi 26) m = hi * 2 ^ 26 + m.
Proof.
  intros Hm.
  assert (Hl : Z.land (Z.shiftl hi 26) m = 0).
  { apply Z.bits_inj'. intros n Hn. rewrite Z.land_spec, Z.bits_0.
    destruct (Z.ltb_spec n 26).
    - rewrite Z.shiftl_spec_low by lia. reflexivity.
    - destruct (Z.eq_dec m 0) as [->|Hne].
      + rewrite Z.bits_0. apply andb_false_r.
      + rewrite (Z.bits_above_log2 m n); [apply andb_false_r | lia |].
        apply Z.log2_lt_pow2; [lia|].
        apply Z.lt_le_trans with (2 ^ 26); [lia|]. apply Z.pow_le_mono_r; lia. }
  rewrite <- Z.lxor_lor, <- Z.add_nocarry_lxor by exact Hl.
  rewrite Z.shiftl_mul_pow2 by lia. reflexivity.
Qed.

Lemma pack_I_decode (v : Z) :
  0 <= v < 2 ^ 32 ->
  exists b, pack_I v = Ok b /\ List.length b = 4%nat /\ le_decode b = v.
Proof.
  intros Hv. unfold pack_I.
  replace ((0 <=? v) && (v <? 2 ^ 32)) with true
    by (symmetry; apply andb_true_iff; split; [apply Z.leb_le | apply Z.ltb_lt]; lia).
  eexists; split; [reflexivity|]. split; [apply length_le_encode|].
  rewrite le_decode_encode. change (256 ^ Z.of_nat 4) with (2 ^ 32).
  apply Z.mod_small; lia.
Qed.

Lemma encode_branch (op from_off to_off : Z) :
  0 <= op < 64 ->
  let delta := (to_off - from_off) / 4 in
  let enc :=
    if (delta <? - (Z.shiftl 1 25)) || (delta >=? Z.shiftl 1 25) then Ok None
    else (b <- pack_I (Z.lor (Z.shiftl op 26) (Z.land delta 0x3FFFFFF)) ;; Ok (Some b))%py in
  (enc = Ok None <-> ~ in_branch_range delta) /\
  (in_branch_range delta ->
   exists b, enc = Ok (Some b) /\ List.length b = 4%nat /\
             le_decode b = op * 2 ^ 26 + delta mod 2 ^ 26 /\
             Z.shiftr (le_decode b) 26 = op /\
             A64.sext (A64.bits (le_decode b) 0 26) 26 = delta).
Proof.
  intros Hop delta enc. unfold in_branch_range.
  change (Z.shiftl 1 25) with (2 ^ 25) in enc.
  assert (Hm : 0 <= delta mod 2 ^ 26 < 2 ^ 26) by (apply Z.mod_pos_bound; lia).
  assert (Hland : Z.land delta 0x3FFFFFF = delta mod 2 ^ 26).
  { change 0x3FFFFFF with (Z.ones 26). apply Z.land_ones. lia. }
  destruct ((delta <? - 2 ^ 25) || (delta >=? 2 ^ 25)) eqn:E; subst enc; cbv beta.
  - split; [split; [intros _| reflexivity] | intros H; exfalso];
      apply orb_true_iff in E; destruct E as [E|E];
      [apply Z.ltb_lt in E | apply Z.geb_le in E | apply Z.ltb_lt in E | apply Z.geb_le in E]; lia.
  - apply orb_false_iff in E. destruct E as [E1 E2].
    apply Z.ltb_ge in E1. rewrite Z.geb_leb in E2. apply Z.leb_gt in E2.
    rewrite Hland, lor_high_low by exact Hm.
    destruct (pack_I_decode (op * 2 ^ 26 + delta mod 2 ^ 26)) as (b & Hb & Hlen & Hdec);
      [lia|].
    rewrite Hb. cbn [bind].
    split; [split; [discriminate | intros H; exfalso; apply H; lia] |].
    intros _. exists b. split; [reflexivity|]. split; [exact Hlen|].
    split; [exact Hdec|]. rewrite Hdec. split.
    + rewrite Z.shiftr_div_pow2 by lia.
      rewrite Z.add_comm, Z.div_add by lia. rewrite Z.div_small by lia. lia.
    + unfold A64.bits. rewrite Z.shiftr_0_r.
      change (2 ^ 26 - 1) with (Z.ones 26). rewrite Z.land_ones by lia.
      rewrite Z.add_comm, Z.mod_add by lia. rewrite Z.mod_mod by lia.
      unfold A64.sext. change (26 - 1) with 25.
      destruct (Z.ltb_spec (delta mod 2 ^ 26) (2 ^ 25)).
      * destruct (Z.le_gt_cases 0 delta).
        -- apply Z.mod_small; lia.
        -- exfalso. replace delta with ((delta + 2 ^ 26) + (-1) * 2 ^ 26) in H by lia.
           rewrite Z.mod_add in H by lia. rewrite Z.mod_small in H by lia. lia.
      * destruct (Z.le_gt_cases 0 delta).
        -- rewrite Z.mod_small in H by lia. lia.
        -- replace delta with ((delta + 2 ^ 26) + (-1) * 2 ^ 26) at 1 by lia.
           rewrite Z.mod_add by lia. rewrite Z.mod_small by lia. lia.
Qed.

(** C8.  [_encode_b] and [_encode_bl] return [None] exactly when the word
    displacement [(to_off - from_off) // 4] lies outside [-2^25, 2^25);
    otherwise they return the four little-endian bytes of the B (opcode
    0x14000000) and BL (opcode 0x94000000) instruction whose 26-bit field,
    read back with its sign, is that displacement: nothing is truncated or
    wrapped. *)
Theorem encode_b_range_validated (from_off to_off : Z) :
  let delta := (to_off - from_off) / 4 in
  (KernelJB._encode_b from_off to_off = Ok None <-> ~ in_branch_range delta) /\
  (KernelJB._encode_bl from_off to_off = Ok None <-> ~ in_branch_range delta) /\
  (in_branch_range delta ->
   exists b bl,
     KernelJB._encode_b from_off to_off = Ok (Some b) /\
     KernelJB._encode_bl from_off to_off = Ok (Some bl) /\
     List.length b = 4%nat /\ List.length bl = 4%nat /\
     le_decode b = 0x14000000 + delta mod 2 ^ 26 /\
     le_decode bl = 0x94000000 + delta mod 2 ^ 26 /\
     A64.sext (A64.bits (le_decode b) 0 26) 26 = delta /\
     A64.sext (A64.bits (le_decode bl) 0 26) 26 = delta).
Proof.
  intros delta.
  pose proof (encode_branch 5 from_off to_off ltac:(lia)) as [Hb1 Hb2].
  pose proof (encode_branch 37 from_off to_off ltac:(lia)) as [Hl1 Hl2].
  split; [exact Hb1|]. split; [exact Hl1|].
  intros Hr. destruct (Hb2 Hr) as (b & Eb & Lb & Db & _ & Sb).
  destruct (Hl2 Hr) as (bl & Ebl & Lbl & Dbl & _ & Sbl).
  exists b, bl. repeat split; assumption.
Qed.

Lemma encode_b_range_validated_witness :
  in_branch_range ((0x3c - 0x24) / 4) /\
  exists b bl,
    KernelJB._encode_b 0x24 0x3c = Ok (Some b) /\
    KernelJB._encode_bl 0x24 0x3c = Ok (Some bl) /\
    List.length b = 4%nat /\ List.length bl = 4%nat /\
    le_decode b = 0x14000000 + ((0x3c - 0x24) / 4) mod 2 ^ 26 /\
    le_decode bl = 0x94000000 + ((0x3c - 0x24) / 4) mod 2 ^ 26 /\
    A64.sext (A64.bits (le_decode b) 0 26) 26 = (0x3c - 0x24) / 4 /\
    A64.sext (A64.bits (le_decode bl) 0 26) 26 = (0x3c - 0x24) / 4.
Proof.
  assert (H : in_branch_range ((0x3c - 0x24) / 4)) by (unfold in_branch_range; cbn; lia).
  split; [exact H|].
  exact (proj2 (proj2 (encode_b_range_validated 0x24 0x3c)) H).
Defined.

(** ** String anchors *)

Lemma getitem_in (data : bytes) (i : Z) :
  0 <= i < len data -> getitem data i = Ok (byte_at data i).
Proof.
  intros H. unfold getitem, byte_at.
  destruct (i <? 0) eqn:E; [apply Z.ltb_lt in E; lia|].
  replace ((0 <=? i) && (i <? len data)) with true; [reflexivity|].
  symmetry. apply andb_true_iff. split; [apply Z.leb_le | apply Z.ltb_lt]; lia.
Qed.

Lemma find_cstring_start_loop_spec (data : bytes) (sec : Z) :
  0 <= sec ->
  forall (fuel : nat) (pos : Z),
    sec - 1 <= pos < len data ->
    pos - sec + 1 < Z.of_nat fuel ->
    exists p,
      Cfw._find_cstring_start_loop fuel data pos sec = Ok p /\
      sec <= p <= pos + 1 /\
      (forall i, p <= i <= pos -> byte_at data i <> 0) /\
      (p = sec \/ byte_at data (p - 1) = 0).
Proof.
  intros Hsec. induction fuel as [|f IH]; intros pos Hpos Hfuel; [lia|].
  cbn [Cfw._find_cstring_start_loop].
  destruct (pos >=? sec) eqn:E.
  - rewrite Z.geb_leb in E. apply Z.leb_le in E.
    rewrite getitem_in by lia. cbn [bind].
    destruct (byte_at data pos =? 0) eqn:Eb; cbn [negb].
    + apply Z.eqb_eq in Eb. exists (pos + 1). split; [reflexivity|].
      split; [lia|]. split; [intros i Hi; lia|].
      right. replace (pos + 1 - 1) with pos by lia. exact Eb.
    + apply Z.eqb_neq in Eb.
      destruct (IH (pos - 1)) as (p & Hp & Hr & Hnz & Hst); [lia|lia|].
      exists p. split; [exact Hp|]. split; [lia|]. split; [|exact Hst].
      intros i Hi. destruct (Z.eq_dec i pos) as [->|Hne]; [exact Eb|].
      apply Hnz. lia.
  - rewrite Z.geb_leb in E. apply Z.leb_gt in E.
    exists (pos + 1). split; [reflexivity|]. split; [lia|].
    split; [intros i Hi; lia|]. left. lia.
Qed.

Lemma find_cstring_start_spec (data : bytes) (match_off sec : Z) :
  0 <= sec <= match_off -> match_off <= len data ->
  exists p,
    Cfw._find_cstring_start data match_off sec = Ok p /\
    sec <= p <= match_off /\
    (forall i, p <= i < match_off -> byte_at data i <> 0) /\
    (p = sec \/ byte_at data (p - 1) = 0).
Proof.
  intros Hs Hm. unfold Cfw._find_cstring_start.
  destruct (find_cstring_start_loop_spec data sec ltac:(lia)
              (S (Z.to_nat (match_off - sec))) (match_off - 1))
    as (p & Hp & Hr & Hnz & Hst); [lia|lia|].
  exists p. split; [exact Hp|]. split; [lia|]. split; [|exact Hst].
  intros i Hi. apply Hnz. lia.
Qed.


Lemma startswith_nil_sub (l : bytes) : startswith byte_eqb l [] = true.
Proof. destruct l; reflexivity. Qed.

Lemma find_aux_spec (sub : bytes) (l : bytes) :
  forall pos,
    find_aux sub l pos = -1 \/
    exists k, (k <= List.length l)%nat /\ find_aux sub l pos = pos + Z.of_nat k /\
              startswith byte_eqb (skipn k l) sub = true.
Proof.
  induction l as [|x t IH]; intros pos; cbn [find_aux].
  - destruct (startswith byte_eqb [] sub) eqn:E; [|left; reflexivity].
    right. exists 0%nat. cbn [skipn List.length]. split; [lia|]. split; [lia | exact E].
  - destruct (startswith byte_eqb (x :: t) sub) eqn:E.
    + right. exists 0%nat. cbn [skipn List.length]. split; [lia|]. split; [lia | exact E].
    + destruct (IH (pos + 1)) as [H | (k & Hk & Hr & Hs)]; [left; exact H|].
      right. exists (S k). cbn [skipn List.length]. split; [lia|]. split; [lia | exact Hs].
Qed.

(** A non-negative result of [find] is the offset of an occurrence. *)
Lemma find_occurs (d sub : bytes) (start : Z) :
  0 <= find d sub start -> occurs_at d sub (find d sub start).
Proof.
  unfold find.
  set (s := if start <? 0 then Z.max 0 (start + len d) else start).
  destruct (len d <? s) eqn:E; [lia|]. intros Hr.
  destruct (find_aux_spec sub (skipn (Z.to_nat s) d) s) as [H | (k & Hk & Hres & Hs)];
    [lia|].
  rewrite Hres in *. split; [exact Hr|].
  rewrite skipn_skipn in Hs.
  assert (0 <= s \/ s < 0) as [Hs0|Hs0] by lia.
  - replace (Z.to_nat (s + Z.of_nat k)) with (k + Z.to_nat s)%nat by lia. exact Hs.
  - (* a negative start is clamped to 0 by [find] *)
    exfalso. subst s. destruct (start <? 0) eqn:E0; [lia|]. apply Z.ltb_ge in E0. lia.
Qed.

Section StringRefs.
Context {D : Disassembler}.

Lemma add_refs_sound (p : patcher) (needle : bytes) (s_off : Z) (rs : list (Z * Z)) :
  occurs_at (raw p) needle s_off ->
  (forall r, In r rs -> In r (TXMJB._find_refs_to_offset p s_off)) ->
  forall seen refs,
    Forall (sound_ref p needle) refs ->
    Forall (sound_ref p needle) (snd (TXMJB.add_refs s_off rs seen refs)).
Proof.
  intros Hocc. induction rs as [|[r0 r1] rest IH]; intros Hin seen refs Hrefs;
    cbn [TXMJB.add_refs].
  - exact Hrefs.
  - destruct (negb (TXMJB.mem r0 seen)).
    + apply IH; [intros r Hr; apply Hin; right; exact Hr|].
      apply Forall_app. split; [exact Hrefs|].
      constructor; [|constructor]. split; [exact Hocc|]. apply Hin. left. reflexivity.
    + apply IH; [intros r Hr; apply Hin; right; exact Hr | exact Hrefs].
Qed.

Lemma find_string_refs_loop_sound (p : patcher) (needle : bytes) (fuel : nat) :
  forall off seen refs,
    Forall (sound_ref p needle) refs ->
    Forall (sound_ref p needle)
           (TXMJB._find_string_refs_loop fuel p needle off seen refs).
Proof.
  induction fuel as [|f IH]; intros off seen refs Hrefs;
    cbn [TXMJB._find_string_refs_loop]; [exact Hrefs|].
  destruct (find (raw p) needle off <? 0) eqn:E; [exact Hrefs|].
  apply Z.ltb_ge in E.
  pose proof (add_refs_sound p needle (find (raw p) needle off)
                (TXMJB._find_refs_to_offset p (find (raw p) needle off))
                (find_occurs _ _ _ E) (fun r H => H) seen refs Hrefs) as Hadd.
  destruct (TXMJB.add_refs _ _ seen refs) as [seen' refs']. cbn [snd] in Hadd.
  apply IH. exact Hadd.
Qed.

Lemma find_string_refs_sound (p : patcher) (needle : bytes) (s a b : Z) :
  In (s, a, b) (TXMJB._find_string_refs p needle) ->
  occurs_at (raw p) needle s /\ In (a, b) (TXMJB._find_refs_to_offset p s).
Proof.
  intros Hin.
  pose proof (find_string_refs_loop_sound p needle (List.length (raw p) + 2) 0 [] []
                (Forall_nil _)) as H.
  rewrite Forall_forall in H. exact (H _ Hin).
Qed.

End StringRefs.

(** ** Cross-reference resolution *)

Section XrefLoop.
Context {D : Disassembler}.
Variables (code : bytes) (base_va tp tpo : Z).

Local Abbreviation insn_at := (insn_at code base_va).
Local Abbreviation adrp_into := (adrp_into code base_va).
Local Abbreviation pending := (pending code base_va).
Local Abbreviation xref := (xref code base_va tp tpo).
Local Abbreviation cache_ok := (cache_ok code base_va).

Lemma adrp_not_add (i : insn) : adrp_like i = true -> add_like i = false.
Proof.
  unfold adrp_like, add_like, mn_is. intros H. apply andb_true_iff in H.
  destruct H as [H _]. apply String.eqb_eq in H. rewrite H. reflexivity.
Qed.

Lemma pending_unique r k i a i' a' :
  pending r k i a -> pending r k i' a' -> i = i' /\ a = a'.
Proof.
  intros (Hi & Ha & Hn) (Hi' & Ha' & Hn').
  assert (i = i').
  { destruct (Z.lt_trichotomy i i') as [H|[H|H]]; [|exact H|].
    - exfalso. apply (Hn i' a'); [lia | exact Ha'].
    - exfalso. apply (Hn' i a); [lia | exact Ha]. }
  subst i'. split; [reflexivity|].
  destruct Ha as (E & _), Ha' as (E' & _). congruence.
Qed.

Lemma loop_spec (n : nat) :
  forall (k : Z) (c : Cfw.adrp_cache_t),
    0 <= k -> cache_ok c k ->
    match Cfw._find_adrp_add_ref_loop code base_va tp tpo (range_up n (4 * k) 4) c with
    | Some va =>
      exists i j, k <= j < k + Z.of_nat n /\ xref i j va /\
                  forall i' j' va', k <= j' < j -> ~ xref i' j' va'
    | None => forall i j va, k <= j < k + Z.of_nat n -> ~ xref i j va
    end.
Proof.
  induction n as [|n IH]; intros k c Hk Hc.
  - cbn. intros i j va Hj. lia.
  - cbn [range_up Cfw._find_adrp_add_ref_loop].
    replace (range_up n (4 * k + 4) 4) with (range_up n (4 * (k + 1)) 4)
      by (f_equal; lia).
    assert (Hidx : 4 * k / 4 = k) by (rewrite Z.mul_comm; apply Z.div_mul; lia).
    rewrite Hidx.
    (* what the three ways of going on have in common *)
    assert (Hgo : forall c', cache_ok c' (k + 1) ->
              (forall i va, ~ xref i k va) ->
              match Cfw._find_adrp_add_ref_loop code base_va tp tpo
                      (range_up n (4 * (k + 1)) 4) c' with
              | Some va =>
                exists i j, k <= j < k + Z.of_nat (S n) /\ xref i j va /\
                            forall i' j' va', k <= j' < j -> ~ xref i' j' va'
              | None => forall i j va, k <= j < k + Z.of_nat (S n) -> ~ xref i j va
              end).
    { intros c' Hc' Hno. specialize (IH (k + 1) c' ltac:(lia) Hc').
      destruct (Cfw._find_adrp_add_ref_loop code base_va tp tpo
                  (range_up n (4 * (k + 1)) 4) c') as [va|].
      - destruct IH as (i & j & Hj & Hx & Hmin). exists i, j.
        split; [lia|]. split; [exact Hx|].
        intros i' j' va' Hj'. destruct (Z.eq_dec j' k) as [->|Hne]; [apply Hno|].
        apply Hmin. lia.
      - intros i j va Hj. destruct (Z.eq_dec j k) as [->|Hne]; [apply Hno|].
        apply IH. lia. }
    (* the cache stays right when word [k] is no ADRP *)
    assert (Hkeep : (forall a, insn_at k = Some a -> adrp_like a = false) ->
                    cache_ok c (k + 1)).
    { intros Hna r. specialize (Hc r).
      destruct (Cfw.cache_get c r) as [[[va page] idx]|].
      - destruct Hc as (a & (Hi & Ha & Hn) & Hva & Hpg). exists a.
        split; [|split; assumption]. split; [lia|]. split; [exact Ha|].
        intros m a' Hm Hm'. destruct (Z.eq_dec m k) as [->|Hne].
        + destruct Hm' as (E & E' & _). rewrite (Hna _ E) in E'. discriminate.
        + apply (Hn m a'); [lia | exact Hm'].
      - intros i a Hi Ha. destruct (Z.eq_dec i k) as [->|Hne].
        + destruct Ha as (E & E' & _). rewrite (Hna _ E) in E'. discriminate.
        + apply (Hc i a); [lia | exact Ha]. }
    pose proof (eq_refl (insn_at k)) as Hins. unfold insn_at at 2 in Hins.
    destruct (cs_disasm (slice code (4 * k) (4 * k + 4)) (base_va + 4 * k))
      as [|insn tl].
    + (* nothing decodes *)
      apply Hgo.
      * apply Hkeep. intros a Ha. congruence.
      * intros i va (a & b & Hb & _). congruence.
    + fold (adrp_like insn). fold (add_like insn).
      destruct (adrp_like insn) eqn:Eadrp.
      * (* ADRP: it becomes the pending load of its register *)
        apply Hgo.
        -- intros r. unfold Cfw.cache_set. cbn [Cfw.cache_get].
           destruct (op_reg (opnd insn 0) =? r) eqn:Er.
           ++ apply Z.eqb_eq in Er. exists insn.
              split; [|split; reflexivity]. split; [lia|].
              split; [split; [exact Hins | split; [exact Eadrp | exact Er]]|].
              intros m a' Hm. lia.
           ++ apply Z.eqb_neq in Er. specialize (Hc r).
              destruct (Cfw.cache_get c r) as [[[va page] idx]|].
              ** destruct Hc as (a & (Hi & Ha & Hn) & Hva & Hpg). exists a.
                 split; [|split; assumption]. split; [lia|]. split; [exact Ha|].
                 intros m a' Hm Hm'. destruct (Z.eq_dec m k) as [->|Hne].
                 --- destruct Hm' as (E & _ & E''). congruence.
                 --- apply (Hn m a'); [lia | exact Hm'].
              ** intros i a Hi Ha. destruct (Z.eq_dec i k) as [->|Hne].
                 --- destruct Ha as (E & _ & E''). congruence.
                 --- apply (Hc i a); [lia | exact Ha].
        -- intros i va (a & b & Hb & _ & Hnb & _). congruence.
      * destruct (add_like insn) eqn:Eadd.
        -- (* ADD *)
           pose proof (Hc (op_reg (opnd insn 1))) as Hsrc.
           destruct (Cfw.cache_get c (op_reg (opnd insn 1))) as [[[va page] idx]|].
           ++ destruct Hsrc as (a & Hpend & Hva & Hpg).
              destruct ((page =? tp) && (op_imm (opnd insn 2) =? tpo)
                        && (k - idx <=? 8)) eqn:Ehit.
              ** apply andb_true_iff in Ehit. destruct Ehit as [Ehit E3].
                 apply andb_true_iff in Ehit. destruct Ehit as [E1 E2].
                 apply Z.eqb_eq in E1, E2. apply Z.leb_le in E3.
                 exists idx, k. split; [lia|]. split.
                 --- exists a, insn. repeat split; try assumption; try congruence;
                       try apply Hpend.
                 --- intros i' j' va' Hj'. lia.
              ** apply Hgo.
                 --- apply Hkeep. intros a' Ha'. congruence.
                 --- intros i va' (a' & b & Hb & _ & _ & Hp & Hpg' & Himm & Hw & _).
                     assert (b = insn) by congruence. subst b.
                     destruct (pending_unique _ _ _ _ _ _ Hpend Hp) as [-> ->].
                     rewrite <- Hpg in Hpg'.
                     assert (Hf : (page =? tp) && (op_imm (opnd insn 2) =? tpo)
                                  && (k - i <=? 8) = true).
                     { repeat (apply andb_true_iff; split);
                         [apply Z.eqb_eq | apply Z.eqb_eq | apply Z.leb_le]; assumption. }
                     congruence.
           ++ apply Hgo.
              ** apply Hkeep. intros a' Ha'. congruence.
              ** intros i va' (a' & b & Hb & _ & _ & (Hi & Hp & _) & _).
                 assert (b = insn) by congruence. subst b.
                 apply (Hsrc i a'); assumption.
        -- (* neither *)
           apply Hgo.
           ++ apply Hkeep. intros a' Ha'. congruence.
           ++ intros i va' (a' & b & Hb & Hadd & _). congruence.
Qed.


Lemma xref_functional (i i' j va va' : Z) :
  xref i j va -> xref i' j va' -> va = va'.
Proof.
  intros (a & b & Hb & _ & _ & Hp & _ & _ & _ & ->)
         (a' & b' & Hb' & _ & _ & Hp' & _ & _ & _ & ->).
  assert (b' = b) by congruence. subst b'.
  destruct (pending_unique _ _ _ _ _ _ Hp Hp') as [_ ->]. reflexivity.
Qed.

End XrefLoop.

Lemma scanned_iff (L j : Z) :
  0 <= j -> (j < Z.of_nat (Z.to_nat ((L - 4 - 0 + 3) / 4)) <-> 4 * j < L - 4).
Proof.
  intros Hj.
  pose proof (Z.div_mod (L - 4 - 0 + 3) 4 ltac:(lia)) as Hd.
  pose proof (Z.mod_pos_bound (L - 4 - 0 + 3) 4 ltac:(lia)) as Hm.
  split; intros H; lia.
Qed.

Lemma find_adrp_add_ref_loop_top {D : Disassembler} (code : bytes) (base_va tp tpo : Z) :
  match Cfw._find_adrp_add_ref_loop code base_va tp tpo (range 0 (len code - 4) 4) [] with
  | Some va =>
    exists i j, (0 <= j /\ 4 * j < len code - 4) /\ xref code base_va tp tpo i j va /\
                forall i' j' va', 0 <= j' < j -> ~ xref code base_va tp tpo i' j' va'
  | None => forall i j va, 0 <= j /\ 4 * j < len code - 4 ->
                           ~ xref code base_va tp tpo i j va
  end.
Proof.
  rewrite range4_length.
  pose proof (loop_spec code base_va tp tpo (Z.to_nat ((len code - 4 - 0 + 3) / 4)) 0 []
                ltac:(lia)) as H.
  change (4 * 0) with 0 in H.
  assert (Hc : cache_ok code base_va [] 0).
  { intros r. cbn. intros i a Hi. lia. }
  specialize (H Hc).
  destruct (Cfw._find_adrp_add_ref_loop _ _ _ _ _ _) as [va|].
  - destruct H as (i & j & Hj & Hx & Hmin). exists i, j.
    split; [split; [lia | apply scanned_iff; lia]|]. split; [exact Hx | exact Hmin].
  - intros i j va [Hj1 Hj2]. apply H. split; [lia|]. rewrite Z.add_0_l.
    apply scanned_iff; lia.
Qed.

Lemma txm_refs_loop_spec {D : Disassembler} (raw_ : bytes) (target : Z) (offs : list Z)
    (a b : Z) :
  In (a, b) (TXMJB._find_refs_to_offset_loop raw_ target offs) <->
  In a offs /\ b = a + 4 /\ adjacent_pair raw_ target a.
Proof.
  induction offs as [|off rest IH]; cbn [TXMJB._find_refs_to_offset_loop In].
  - tauto.
  - assert (Hskip : (In (a, b) (TXMJB._find_refs_to_offset_loop raw_ target rest) <->
                     (off = a \/ In a rest) /\ b = a + 4 /\ adjacent_pair raw_ target a)
                    \/ adjacent_pair raw_ target off -> True) by tauto.
    clear Hskip.
    assert (Hno : ~ adjacent_pair raw_ target off ->
              (In (a, b) (TXMJB._find_refs_to_offset_loop raw_ target rest) <->
               (off = a \/ In a rest) /\ b = a + 4 /\ adjacent_pair raw_ target a)).
    { intros Hn. rewrite IH. split; [tauto|].
      intros ([<-|Hin] & Hb & Hp); [contradiction | tauto]. }
    destruct (TXMJB._disasm_one raw_ off) as [ia|] eqn:Ea;
      [|apply Hno; intros (x & y & H & _); congruence].
    destruct (TXMJB._disasm_one raw_ (off + 4)) as [ib|] eqn:Eb;
      [|apply Hno; intros (x & y & _ & H & _); congruence].
    destruct (mn_is ia "adrp") eqn:E1; cbn [negb orb];
      [|apply Hno; intros (x & y & Hx & Hy & H1 & _);
        assert (x = ia) by congruence; subst x; unfold adrp_like in H1;
        rewrite E1 in H1; discriminate].
    destruct (mn_is ib "add") eqn:E2; cbn [negb orb];
      [|apply Hno; intros (x & y & Hx & Hy & _ & H2 & _);
        assert (y = ib) by congruence; subst y; unfold add_like in H2;
        rewrite E2 in H2; discriminate].
    destruct (nops ia <? 2) eqn:E3; cbn [orb];
      [apply Hno; intros (x & y & Hx & Hy & H1 & _);
        assert (x = ia) by congruence; subst x; unfold adrp_like in H1;
        rewrite E1 in H1; cbn [andb] in H1; rewrite Z.geb_leb in H1;
        apply Z.leb_le in H1; apply Z.ltb_lt in E3; lia|].
    destruct (nops ib <? 3) eqn:E4;
      [apply Hno; intros (x & y & Hx & Hy & _ & H2 & _);
        assert (y = ib) by congruence; subst y; unfold add_like in H2;
        rewrite E2 in H2; cbn [andb] in H2; rewrite Z.geb_leb in H2;
        apply Z.leb_le in H2; apply Z.ltb_lt in E4; lia|].
    destruct (op_reg (opnd ia 0) =? op_reg (opnd ib 1)) eqn:E5; cbn [negb];
      [|apply Hno; intros (x & y & Hx & Hy & _ & _ & H5 & _);
        assert (x = ia) by congruence; assert (y = ib) by congruence; subst x y;
        apply Z.eqb_neq in E5; contradiction].
    destruct (op_imm (opnd ia 1) + op_imm (opnd ib 2) =? target) eqn:E6;
      [|apply Hno; intros (x & y & Hx & Hy & _ & _ & _ & H6);
        assert (x = ia) by congruence; assert (y = ib) by congruence; subst x y;
        apply Z.eqb_neq in E6; contradiction].
    assert (Hyes : adjacent_pair raw_ target off).
    { exists ia, ib. apply Z.ltb_ge in E3, E4. apply Z.eqb_eq in E5, E6.
      unfold adrp_like, add_like. rewrite E1, E2. cbn [andb].
      repeat split; try assumption; rewrite Z.geb_leb; apply Z.leb_le; lia. }
    cbn [In]. rewrite IH. split.
    + intros [H | H]; [injection H as <- <-; tauto | tauto].
    + intros ([<-|Hin] & -> & Hp); [left; reflexivity | right; tauto].
Qed.

(** C4 (as amended).  [_find_adrp_add_ref] of cfw.py tracks one pending page
    load per destination register, so an ADRP and its ADD need not be
    adjacent.  When the first ADD of the code that takes as source the
    register of a pending ADRP at most 8 instructions before it, the ADRP's
    page and the ADD's immediate being the target's, is not the last word of
    the code, the address of that ADRP is returned; when the code has no
    such ADD the result is -1; and a result other than -1 is the address of
    an ADRP that is 1 to 8 instructions before such an ADD.
    [_find_refs_to_offset] of txm_jb.py looks at the word-aligned offsets
    below [size - 8] and returns exactly the pairs there of an ADRP and the
    ADD immediately after it, on the ADRP's register, that form the target:
    adjacent pairs only, and not the pair whose ADD is the last word of the
    image. *)
Theorem xref_resolution :
  (forall (D : Disassembler) (code : bytes) (base_va target_va : Z),
     let tp := and_not target_va 0xFFF in
     let tpo := Z.land target_va 0xFFF in
     let scanned j := 0 <= j /\ 4 * j < len code - 4 in
     (forall i j va,
        scanned j -> xref code base_va tp tpo i j va ->
        (forall i' j' va', 0 <= j' < j -> ~ xref code base_va tp tpo i' j' va') ->
        Cfw._find_adrp_add_ref code base_va target_va = va) /\
     ((forall i j va, 0 <= j -> ~ xref code base_va tp tpo i j va) ->
      Cfw._find_adrp_add_ref code base_va target_va = -1) /\
     (Cfw._find_adrp_add_ref code base_va target_va <> -1 ->
      exists i j, (0 <= j /\ 4 * j + 4 <= len code) /\ 1 <= j - i <= 8 /\
        xref code base_va tp tpo i j (Cfw._find_adrp_add_ref code base_va target_va))) /\
  (forall (D : Disassembler) (p : patcher) (target a b : Z),
     In (a, b) (TXMJB._find_refs_to_offset p target) <->
     In a (range 0 (size p - 8) 4) /\ b = a + 4 /\ adjacent_pair (raw p) target a).
Proof.
  split.
  - intros D code base_va target_va tp tpo scanned.
    pose proof (find_adrp_add_ref_loop_top code base_va tp tpo) as H.
    unfold Cfw._find_adrp_add_ref. fold tp. fold tpo.
    destruct (Cfw._find_adrp_add_ref_loop code base_va tp tpo
                (range 0 (len code - 4) 4) []) as [va0|].
    + destruct H as (i0 & j0 & Hj0 & Hx0 & Hmin0). split; [|split].
      * intros i j va Hj Hx Hmin.
        destruct (Z.lt_trichotomy j j0) as [Hlt|[->|Hgt]].
        -- exfalso. apply (Hmin0 i j va); [destruct Hj; lia | exact Hx].
        -- exact (xref_functional code base_va tp tpo _ _ _ _ _ Hx0 Hx).
        -- exfalso. apply (Hmin i0 j0 va0); [destruct Hj0; lia | exact Hx0].
      * intros Hnone. exfalso. exact (Hnone i0 j0 va0 (proj1 Hj0) Hx0).
      * intros _. exists i0, j0. split; [destruct Hj0; lia|]. split; [|exact Hx0].
        destruct Hx0 as (a & b & _ & _ & _ & (Hi & _) & _ & _ & Hw & _). lia.
    + split; [|split].
      * intros i j va Hj Hx _. exfalso. exact (H i j va Hj Hx).
      * intros _. reflexivity.
      * intros Hne. contradiction.
  - intros D p target a b. unfold TXMJB._find_refs_to_offset. apply txm_refs_loop_spec.
Qed.

Lemma xref_resolution_witness :
  exists i j,
    (0 <= j /\ 4 * j + 4 <= len Images.code_apart) /\ 1 <= j - i <= 8 /\
    xref (D := A64.capstone) Images.code_apart 0 (and_not 0x20 0xFFF) (Z.land 0x20 0xFFF)
      i j (@Cfw._find_adrp_add_ref A64.capstone Images.code_apart 0 0x20).
Proof.
  apply (proj1 xref_resolution A64.capstone Images.code_apart 0 0x20).
  vm_compute. discriminate.
Defined.

(** The claim fails in txm_jb.py.  In [code_apart] the ADD at word 2 takes
    the register of the ADRP at word 0, two instructions before it, and the
    two form the target 0x20: [_find_adrp_add_ref] of cfw.py returns the
    ADRP's address, [_find_refs_to_offset] of txm_jb.py finds no
    reference. *)
Lemma xref_window_not_honoured :
  xref (D := A64.capstone) Images.code_apart 0 0 0x20 0 2 0 /\
  @Cfw._find_adrp_add_ref A64.capstone Images.code_apart 0 0x20 = 0 /\
  @TXMJB._find_refs_to_offset A64.capstone (A64.image Images.code_apart) 0x20 = [].
Proof.
  split; [|split; vm_compute; reflexivity].
  eexists; eexists. split; [vm_compute; reflexivity|].
  split; [vm_compute; reflexivity|]. split; [vm_compute; reflexivity|].
  split.
  - split; [vm_compute; split; congruence|]. split.
    + eexists; [vm_compute; reflexivity | split; vm_compute; reflexivity].
    + intros m a' Hm (Hi & Hl & _).
      assert (m = 1) by lia. subst m. vm_compute in Hi. injection Hi as <-.
      vm_compute in Hl. discriminate.
  - vm_compute. repeat split; congruence.
Qed.

(** The window itself, run: ten instructions apart is too far. *)
Example xref_beyond_window :
  @Cfw._find_adrp_add_ref A64.capstone Images.code_far 0 0x20 = -1.
Proof. vm_compute. reflexivity. Qed.

(** The loop of [_find_adrp_add_ref] runs over [range(0, len(code) - 4, 4)]:
    an ADD that is the last word of the code is not looked at. *)
Example xref_last_word_not_scanned :
  @Cfw._find_adrp_add_ref A64.capstone Images.code_last 0 0x20 = -1.
Proof. vm_compute. reflexivity. Qed.

(** The loop of [_find_refs_to_offset] runs over [range(0, size - 8, 4)]:
    in [nop; adrp x0, #0; add x0, x0, #0x20] the pair forms the target 0x20
    and its ADD is the last word, so the ADRP at 4 is not looked at. *)
Example txm_last_pair_not_scanned :
  adjacent_pair (D := A64.capstone) Samples.code_pair_last 0x20 4 /\
  ~ In 4 (range 0 (size (A64.image Samples.code_pair_last) - 8) 4) /\
  @TXMJB._find_refs_to_offset A64.capstone (A64.image Samples.code_pair_last) 0x20 = [].
Proof.
  split; [|split].
  - eexists; eexists. split; [vm_compute; reflexivity|].
    split; [vm_compute; reflexivity|]. vm_compute. repeat split; reflexivity.
  - vm_compute. intros [H|[]]. discriminate.
  - vm_compute. reflexivity.
Qed.

(** ** Code caves (kernel_jb.py) *)

Lemma cave_scan_sound (d : bytes) (needed : Z) (n : nat) :
  forall a rs rl c,
    (0 <= rs -> exists m, 0 < m /\ rl = 4 * m /\ a = rs + rl /\
                          forall k, 0 <= k < m -> filler_word d (rs + 4 * k)) ->
    KernelJB.cave_scan d needed (range_up n a 4) rs rl = Ok (Some c) -> 0 <= c ->
    (c - a) mod 4 = 0 /\
    exists m, needed <= 4 * m /\ forall k, 0 <= k < m -> filler_word d (c + 4 * k).
Proof.
  induction n as [|n IH]; intros a rs rl c Hinv Hscan Hc; [discriminate|].
  cbn [range_up KernelJB.cave_scan] in Hscan.
  destruct (KernelJB._rd32 d a) as [val|e] eqn:Erd; [|discriminate].
  cbn [bind] in Hscan.
  destruct (KernelJB.is_filler val) eqn:Efil.
  - assert (Hnew : forall rs' rl', (rs', rl') = (if rs <? 0 then (a, 4) else (rs, rl + 4)) ->
              0 <= rs' -> exists m, 0 < m /\ rl' = 4 * m /\ a + 4 = rs' + rl' /\
                                    forall k, 0 <= k < m -> filler_word d (rs' + 4 * k)).
    { intros rs' rl' E Hrs'. destruct (rs <? 0) eqn:Er.
      - injection E as -> ->. exists 1. split; [lia|]. split; [lia|]. split; [lia|].
        intros k Hk. replace k with 0 by lia. rewrite Z.add_0_r.
        exists val. split; assumption.
      - injection E as -> ->. apply Z.ltb_ge in Er.
        destruct (Hinv Er) as (m & Hm & -> & -> & Hf). exists (m + 1).
        split; [lia|]. split; [lia|]. split; [lia|].
        intros k Hk. destruct (Z.eq_dec k m) as [->|Hne].
        + exists val. split; assumption.
        + apply Hf. lia. }
    destruct (if rs <? 0 then (a, 4) else (rs, rl + 4)) as [rs' rl'] eqn:E.
    specialize (Hnew rs' rl' eq_refl).
    destruct (rl' >=? needed) eqn:Ege.
    + injection Hscan as <-. rewrite Z.geb_leb in Ege. apply Z.leb_le in Ege.
      destruct (Hnew Hc) as (m & Hm & -> & Ha & Hf). split.
      * replace (rs' - a) with ((1 - m) * 4) by lia. apply Z.mod_mul. lia.
      * exists m. split; [lia | exact Hf].
    + destruct (IH (a + 4) rs' rl' c Hnew Hscan Hc) as [Hmod Hm].
      split; [|exact Hm].
      replace (c - a) with ((c - (a + 4)) + 1 * 4) by lia.
      rewrite Z.mod_add by lia. exact Hmod.
  - destruct (IH (a + 4) (-1) 0 c ltac:(lia) Hscan Hc) as [Hmod Hm].
    split; [|exact Hm].
    replace (c - a) with ((c - (a + 4)) + 1 * 4) by lia.
    rewrite Z.mod_add by lia. exact Hmod.
Qed.

(** Where a run starts: at the start of its range or after a word that is
    no filler; and the [needed] bytes end within the words scanned. *)
Lemma cave_scan_start (d : bytes) (needed s : Z) (n : nat) :
  forall a rs rl c,
    0 <= a ->
    (0 <= rs -> 0 < rl /\ rs + rl = a) ->
    (let start := if rs <? 0 then a else rs in
     s <= start /\ (start = s \/ solid_word d (start - 4))) ->
    KernelJB.cave_scan d needed (range_up n a 4) rs rl = Ok (Some c) ->
    s <= c /\ (c = s \/ solid_word d (c - 4)) /\ c + needed <= a + 4 * Z.of_nat n.
Proof.
  induction n as [|n IH]; intros a rs rl c Ha Hrun Hst Hscan; [discriminate|].
  cbn [range_up KernelJB.cave_scan] in Hscan.
  destruct (KernelJB._rd32 d a) as [val|e] eqn:Erd; [|discriminate].
  cbn [bind] in Hscan. cbv zeta in Hst.
  destruct (KernelJB.is_filler val) eqn:Efil.
  - destruct (rs <? 0) eqn:Er.
    + destruct (4 >=? needed) eqn:Ege.
      * injection Hscan as <-. rewrite Z.geb_leb in Ege. apply Z.leb_le in Ege.
        destruct Hst as [H1 H2]. split; [exact H1|]. split; [exact H2|]. lia.
      * destruct (IH (a + 4) a 4 c) as (I1 & I2 & I3); try assumption; try lia.
        { cbv zeta. destruct (a <? 0) eqn:E; [apply Z.ltb_lt in E; lia|]. exact Hst. }
        split; [exact I1|]. split; [exact I2|]. lia.
    + apply Z.ltb_ge in Er. destruct (Hrun Er) as [Hrl Hsum].
      destruct (rl + 4 >=? needed) eqn:Ege.
      * injection Hscan as <-. rewrite Z.geb_leb in Ege. apply Z.leb_le in Ege.
        destruct Hst as [H1 H2]. split; [exact H1|]. split; [exact H2|]. lia.
      * destruct (IH (a + 4) rs (rl + 4) c) as (I1 & I2 & I3); try assumption; try lia.
        { cbv zeta. destruct (rs <? 0) eqn:E; [apply Z.ltb_lt in E; lia|]. exact Hst. }
        split; [exact I1|]. split; [exact I2|]. lia.
  - destruct (IH (a + 4) (-1) 0 c) as (I1 & I2 & I3); try assumption; try lia.
    { cbv zeta. change (-1 <? 0) with true. cbv iota.
      assert (s <= a).
      { destruct (rs <? 0) eqn:E; [lia|]. apply Z.ltb_ge in E. destruct (Hrun E). lia. }
      split; [lia|]. right. replace (a + 4 - 4) with a by lia.
      exists val. split; assumption. }
    split; [exact I1|]. split; [exact I2|]. lia.
Qed.

(** The range in which [cave_ranges] found its cave. *)
Lemma cave_ranges_inv (d : bytes) (needed : Z) (ranges : list (Z * Z)) (c : Z) :
  KernelJB.cave_ranges d needed ranges = Ok c -> 0 <= c ->
  exists s e, In (s, e) ranges /\
    KernelJB.cave_scan d needed (range s e 4) (-1) 0 = Ok (Some c).
Proof.
  induction ranges as [|[s e] rest IH]; intros H Hc; cbn [KernelJB.cave_ranges] in H.
  - injection H as <-. lia.
  - destruct (KernelJB.cave_scan d needed (range s e 4) (-1) 0) as [[c'|]|err] eqn:E;
      cbn [bind] in H; [| |discriminate].
    + injection H as ->. exists s, e. split; [left; reflexivity | exact E].
    + destruct (IH H Hc) as (s' & e' & Hin & Hrest). exists s', e'.
      split; [right; exact Hin | exact Hrest].
Qed.

Lemma cave_ranges_sound (d : bytes) (needed : Z) (ranges : list (Z * Z)) (c : Z) :
  KernelJB.cave_ranges d needed ranges = Ok c -> 0 <= c ->
  exists s e, In (s, e) ranges /\ (c - s) mod 4 = 0 /\
    (exists m, needed <= 4 * m /\ forall k, 0 <= k < m -> filler_word d (c + 4 * k)) /\
    (0 <= s -> 0 < needed ->
     s <= c /\ (c = s \/ solid_word d (c - 4)) /\ c < e /\
     forall y, c <= y < c + needed -> (y - s) mod 4 = 0 -> y < e).
Proof.
  intros H Hc. destruct (cave_ranges_inv d needed ranges c H Hc) as (s & e & Hin & E).
  exists s, e. split; [exact Hin|]. rewrite range4_length in E.
  destruct (cave_scan_sound d needed _ s (-1) 0 c ltac:(lia) E Hc) as [Hmod Hm].
  split; [exact Hmod|]. split; [exact Hm|].
  intros Hs Hn.
  destruct (cave_scan_start d needed s _ s (-1) 0 c Hs ltac:(lia)
              ltac:(cbv zeta; change (-1 <? 0) with true; cbv iota; split; [lia|left; reflexivity])
              E)
    as (I1 & I2 & I3).
  split; [exact I1|]. split; [exact I2|].
  pose proof (Z.div_mod (e - s + 3) 4 ltac:(lia)) as Hd.
  pose proof (Z.mod_pos_bound (e - s + 3) 4 ltac:(lia)) as Hr.
  assert (Hq : 0 < (e - s + 3) / 4).
  { destruct (Z_lt_le_dec 0 ((e - s + 3) / 4)) as [Hp|Hp]; [exact Hp|].
    replace (Z.to_nat ((e - s + 3) / 4)) with 0%nat in I3 by lia. lia. }
  rewrite Z2Nat.id in I3 by lia.
  assert (Hy : forall y, c <= y < c + needed -> (y - s) mod 4 = 0 -> y < e).
  { intros y Hy Hym.
    pose proof (Z.div_mod (y - s) 4 ltac:(lia)) as Hdy. rewrite Hym in Hdy. lia. }
  split; [apply Hy; [lia | exact Hmod] | exact Hy].
Qed.




Lemma find_code_cave_run (size_ c : Z) (p p' : patcher) :
  KernelJB._find_code_cave size_ 4 p = Done c p' ->
  KernelJB.cave_ranges (data p) ((size_ + 4 - 1) / 4 * 4) (code_ranges p) = Ok c /\ p' = p.
Proof.
  unfold KernelJB._find_code_cave, lift.
  destruct (KernelJB.cave_ranges _ _ _); [|discriminate].
  intros H. injection H as -> ->. split; reflexivity.
Qed.

Lemma needed_bounds (s : Z) : s <= (s + 4 - 1) / 4 * 4 /\ ((s + 4 - 1) / 4 * 4) mod 4 = 0.
Proof.
  split; [|apply Z.mod_mul; lia].
  pose proof (Z.div_mod (s + 4 - 1) 4 ltac:(lia)).
  pose proof (Z.mod_pos_bound (s + 4 - 1) 4 ltac:(lia)). lia.
Qed.






(** The bound on the second request is needed as well: after a shellcode
    with one data word in front of its code, a request of one word is given
    the data word again.  No request of the catalog is that small. *)
Example cave_pad_word_reoffered :
  KernelJB._find_code_cave 4 4 Images.zero_code_written = Done 0 Images.zero_code_written.
Proof. vm_compute. reflexivity. Qed.

(** ** The rule engine *)

Lemma emit_list_app (a b : list patch) (p : patcher) :
  emit_list (a ++ b) p = emit_list b (emit_list a p).
Proof.
  revert p. induction a as [|[[off pb] desc] rest IH]; intros p; cbn [emit_list app].
  - reflexivity.
  - apply IH.
Qed.

Lemma emit_list_fields (ps : list patch) (p : patcher) :
  patches (emit_list ps p) = patches p ++ ps /\
  data (emit_list ps p) = apply_patches (data p) ps /\
  raw (emit_list ps p) = raw p /\ size (emit_list ps p) = size p.
Proof.
  revert p. induction ps as [|[[off pb] desc] rest IH]; intros p;
    cbn [emit_list apply_patches].
  - rewrite app_nil_r. repeat split; reflexivity.
  - destruct (IH (set_data (set_patches p (patches p ++ [(off, pb, desc)]))
                           (slice_assign (data p) off (off + len pb) pb)))
      as (H1 & H2 & H3 & H4).
    rewrite H1, H2, H3, H4. cbn. rewrite <- app_assoc. repeat split; reflexivity.
Qed.

Lemma emits_only_ret {A} (a : A) : emits_only (ret a).
Proof. intros p a' p' H. injection H as <- <-. exists []. reflexivity. Qed.

Lemma emits_only_get : emits_only get.
Proof. intros p a' p' H. injection H as <- <-. exists []. reflexivity. Qed.

Lemma emits_only_read {A} (f : patcher -> A) : emits_only (fun p => Done (f p) p).
Proof. intros p a' p' H. injection H as <- <-. exists []. reflexivity. Qed.

Lemma emits_only_lift {A} (r : result A) : emits_only (lift r).
Proof.
  intros p a' p' H. unfold lift in H. destruct r; [|discriminate].
  injection H as <- <-. exists []. reflexivity.
Qed.

Lemma emits_only_emit (off : Z) (pb : bytes) (desc : string) :
  emits_only (emit off pb desc).
Proof.
  intros p a' p' H. unfold emit in H. injection H as <- <-.
  exists [(off, pb, desc)]. reflexivity.
Qed.

Lemma emits_only_bind {A B} (m : M A) (k : A -> M B) :
  emits_only m -> (forall a, emits_only (k a)) -> emits_only (mbind m k).
Proof.
  intros Hm Hk p b p' H. unfold mbind in H.
  destruct (m p) as [a p1|e] eqn:E; [|discriminate].
  destruct (Hm _ _ _ E) as (ps1 & ->).
  destruct (Hk a _ _ _ H) as (ps2 & ->).
  exists (ps1 ++ ps2). symmetry. apply emit_list_app.
Qed.

Lemma emits_only_run_rules (rules : list (M bool)) :
  Forall emits_only rules -> emits_only (run_rules rules).
Proof.
  induction 1 as [|r rest Hr Hrest IH]; cbn [run_rules].
  - apply emits_only_ret.
  - apply emits_only_bind; [exact Hr | intros _; exact IH].
Qed.

(** Building blocks of a rule are recognised one after the other. *)
Ltac emits_step :=
  first
    [ apply emits_only_ret
    | apply emits_only_get
    | apply emits_only_emit
    | apply emits_only_lift
    | apply emits_only_read
    | apply emits_only_bind; [|intros ?]
    | match goal with
      | |- emits_only (match ?x with _ => _ end) => destruct x
      | |- emits_only (if ?x then _ else _) => destruct x
      end ].

Ltac emits := repeat emits_step.

Section TXMRules.
Context {D : Disassembler} {K : Assembler}.

Lemma hashcmp_scan_emits (offs : list Z) :
  forall patched, emits_only (TXMJB.hashcmp_scan offs patched).
Proof.
  induction offs as [|off rest IH]; intros patched; cbn [TXMJB.hashcmp_scan].
  - apply emits_only_ret.
  - apply emits_only_bind; [apply emits_only_get|]. intros p.
    destruct (TXMJB._disasm_one (raw p) off); [|apply IH].
    destruct (TXMJB._disasm_one (raw p) (off + 4)); [|apply IH].
    destruct (TXMJB._disasm_one (raw p) (off + 8)); [|apply IH].
    destruct (negb _); [apply IH|].
    destruct (negb _); [apply IH|].
    apply emits_only_bind; [apply emits_only_emit | intros _; apply IH].
Qed.

Lemma txm_catalog_emits : Forall emits_only TXMJB.catalog.
Proof.
  unfold TXMJB.catalog. repeat constructor.
  - unfold TXMJB.patch_selector24_hashcmp_calls.
    apply emits_only_bind; [apply emits_only_get|]. intros p.
    apply emits_only_bind; [apply hashcmp_scan_emits|]. intros n. emits.
  - unfold TXMJB.patch_selector24_a1_path. emits.
  - unfold TXMJB.patch_get_task_allow_force_true. emits.
  - unfold TXMJB.patch_selector42_29_shellcode, TXMJB._asm_at. emits.
  - unfold TXMJB.patch_debugger_entitlement_force_true. emits.
  - unfold TXMJB.patch_developer_mode_bypass. emits.
Qed.

Lemma txm_apply_outcome (p : patcher) :
  TXMJB.apply p = apply_outcome TXMJB.catalog p.
Proof.
  unfold TXMJB.apply, TXMJB.find_all, apply_outcome, TXMJB.catalog.
  cbn [run_rules]. unfold mbind, ret, get.
  repeat match goal with
         | |- context [match ?r ?q with Done _ _ => _ | Fault _ => _ end] =>
           destruct (r q); try reflexivity
         end.
Qed.

End TXMRules.

Section IBootRules.
Context {D : Disassembler} {K : Assembler} {IB : IBootJB.IBootBase}.

Lemma iboot_rule_emits : emits_only IBootJB.patch_skip_generate_nonce.
Proof. unfold IBootJB.patch_skip_generate_nonce, IBootJB._asm_at. emits. Qed.

Lemma iboot_apply_outcome (p : patcher) :
  IBootJB.apply p
  = apply_outcome (if String.eqb (mode p) "ibss"
                   then [IBootJB.patch_skip_generate_nonce] else []) p.
Proof.
  unfold IBootJB.apply, apply_outcome. unfold mbind at 1 2. unfold get at 1.
  change (mode (set_patches p [])) with (mode p).
  destruct (String.eqb (mode p) "ibss"); cbn [run_rules]; unfold mbind, ret, get.
  - destruct (IBootJB.patch_skip_generate_nonce (set_patches p [])); reflexivity.
  - reflexivity.
Qed.

End IBootRules.

Section KernelRules.
Context {D : Disassembler} {KB : KernelJB.KernelBase} {KR : KernelJB.KernelRules}.

Lemma kernel_cdhash_emits : emits_only KernelJB.patch_amfi_cdhash_in_trustcache.
Proof. unfold KernelJB.patch_amfi_cdhash_in_trustcache. emits. Qed.

Lemma kernel_proc_security_policy_emits : emits_only KernelJB.patch_proc_security_policy.
Proof.
  unfold KernelJB.patch_proc_security_policy, KernelJB._resolve_symbol,
    KernelJB._find_func_end.
  emits.
Qed.

Lemma kernel_catalog_emits :
  Forall emits_only KernelJB.unmodelled_rules -> Forall emits_only KernelJB.catalog.
Proof.
  unfold KernelJB.unmodelled_rules, KernelJB.catalog. intros H.
  repeat match goal with
         | H : Forall _ (_ :: _) |- _ => inversion H; clear H; subst
         end.
  repeat (constructor;
          try assumption;
          try apply kernel_cdhash_emits;
          try apply kernel_proc_security_policy_emits).
Qed.

Lemma kernel_apply_outcome (p : patcher) :
  KernelJB.apply p = apply_outcome KernelJB.catalog p.
Proof.
  unfold KernelJB.apply, KernelJB.find_all, apply_outcome, KernelJB.catalog.
  cbn [run_rules]. unfold mbind, ret, get.
  repeat match goal with
         | |- context [match ?r ?q with Done _ _ => _ | Fault _ => _ end] =>
           destruct (r q); try reflexivity
         end.
Qed.

End KernelRules.

(** *** Patches that lie inside the buffer *)

Lemma byte_at_splice_outside (d v : bytes) (off i : Z) :
  0 <= off -> off + len v <= len d -> 0 <= i ->
  i < off \/ off + len v <= i ->
  byte_at (splice d off v) i = byte_at d i.
Proof.
  intros H0 H1 Hi Hout. pose proof (len_nonneg v) as Hv.
  unfold byte_at, splice. f_equal. destruct Hout as [Hb|Ha].
  - rewrite app_nth1 by (rewrite length_firstn; unfold len in *; lia).
    rewrite nth_firstn.
    destruct (Nat.ltb_spec (Z.to_nat i) (Z.to_nat off)); [reflexivity | lia].
  - rewrite app_nth2 by (rewrite length_firstn; unfold len in *; lia).
    rewrite app_nth2 by (rewrite length_firstn; unfold len in *; lia).
    rewrite nth_skipn. f_equal. rewrite length_firstn. unfold len in *. lia.
Qed.

Lemma apply_patches_in_place (ps : list patch) :
  forall d,
    Forall (in_place (len d)) ps ->
    len (apply_patches d ps) = len d /\
    forall i, 0 <= i -> (forall pt, In pt ps -> ~ covers pt i) ->
              byte_at (apply_patches d ps) i = byte_at d i.
Proof.
  induction ps as [|[[off pb] desc] rest IH]; intros d Hall; cbn [apply_patches].
  - split; [reflexivity | intros; reflexivity].
  - inversion Hall as [|? ? Hpt Hrest]; subst. destruct Hpt as [H0 H1]. cbn [fst snd] in *.
    rewrite slice_assign_splice by assumption.
    pose proof (splice_len d pb off H0 H1) as Hlen.
    rewrite <- Hlen in Hrest.
    destruct (IH _ Hrest) as [IH1 IH2]. split; [lia|].
    intros i Hi Hnc. rewrite IH2; [|exact Hi | intros pt Hin; apply Hnc; right; exact Hin].
    apply byte_at_splice_outside; try assumption.
    assert (Hn : ~ covers (off, pb, desc) i) by (apply Hnc; left; reflexivity).
    unfold covers in Hn. cbn [fst snd] in Hn. lia.
Qed.

(** [apply] over rules that change the object through [emit] only. *)
Lemma apply_outcome_in_place (rules : list (M bool)) (p : patcher) (n : Z) (p' : patcher) :
  Forall emits_only rules ->
  apply_outcome rules p = Done n p' ->
  Forall (in_place (len (data p))) (patches p') ->
  applied_in_place p n p'.
Proof.
  intros Hrules Happly Hin. unfold apply_outcome in Happly.
  destruct (run_rules rules (set_patches p [])) as [[] q|e] eqn:E; [|discriminate].
  injection Happly as <- <-.
  destruct (emits_only_run_rules rules Hrules _ _ _ E) as (ps & ->).
  destruct (emit_list_fields ps (set_patches p [])) as (Hp & Hd & _ & _).
  cbn [patches data set_patches set_data] in Hp, Hd, Hin.
  unfold applied_in_place. cbn [patches data set_patches set_data].
  rewrite Hp, Hd in *. cbn [app] in *.
  destruct (apply_patches_in_place ps (data p) Hin) as [L1 B1].
  rewrite <- L1 in Hin.
  destruct (apply_patches_in_place ps _ Hin) as [L2 B2].
  split; [lia|]. split; [reflexivity|].
  intros i Hi Hnc. rewrite B2, B1 by assumption. reflexivity.
Qed.

(** C1 (as amended).  For each of the three patchers, when every patch that
    [apply] registered lies inside the buffer ([0 <= offset] and
    [offset + len(bytes) <= len(data)]), [apply] preserves the length of the
    buffer, returns the number of registered patches, and changes no byte
    outside the spans [[offset, offset + len(bytes))] of the patches.  (The
    kernel rules whose bodies are not modelled are taken to act on the object
    through [emit] only.) *)
Theorem apply_length_preserving :
  (forall (D : Disassembler) (K : Assembler) (p : patcher) (n : Z) (p' : patcher),
     TXMJB.apply p = Done n p' ->
     Forall (in_place (len (data p))) (patches p') ->
     applied_in_place p n p') /\
  (forall (D : Disassembler) (K : Assembler) (IB : IBootJB.IBootBase)
          (p : patcher) (n : Z) (p' : patcher),
     IBootJB.apply p = Done n p' ->
     Forall (in_place (len (data p))) (patches p') ->
     applied_in_place p n p') /\
  (forall (D : Disassembler) (KB : KernelJB.KernelBase) (KR : KernelJB.KernelRules)
          (p : patcher) (n : Z) (p' : patcher),
     Forall emits_only KernelJB.unmodelled_rules ->
     KernelJB.apply p = Done n p' ->
     Forall (in_place (len (data p))) (patches p') ->
     applied_in_place p n p').
Proof.
  split; [|split].
  - intros D K p n p' Happly Hin. rewrite txm_apply_outcome in Happly.
    exact (apply_outcome_in_place _ _ _ _ txm_catalog_emits Happly Hin).
  - intros D K IB p n p' Happly Hin. rewrite iboot_apply_outcome in Happly.
    refine (apply_outcome_in_place _ _ _ _ _ Happly Hin).
    destruct (String.eqb (mode p) "ibss"); repeat constructor. apply iboot_rule_emits.
  - intros D KB KR p n p' Hun Happly Hin. rewrite kernel_apply_outcome in Happly.
    exact (apply_outcome_in_place _ _ _ _ (kernel_catalog_emits Hun) Happly Hin).
Qed.

Lemma apply_length_preserving_witness :
  @TXMJB.apply A64.capstone A64.keystone (A64.image Images.txm_debugger)
  = Done 7 Images.txm_debugger_applied /\
  Forall (in_place (len (data (A64.image Images.txm_debugger))))
         (patches Images.txm_debugger_applied) /\
  applied_in_place (A64.image Images.txm_debugger) 7 Images.txm_debugger_applied.
Proof.
  assert (E : @TXMJB.apply A64.capstone A64.keystone (A64.image Images.txm_debugger)
              = Done 7 Images.txm_debugger_applied) by (vm_compute; reflexivity).
  assert (H : Forall (in_place (len (data (A64.image Images.txm_debugger))))
                     (patches Images.txm_debugger_applied))
    by (vm_compute; repeat constructor; discriminate).
  split; [exact E|]. split; [exact H|].
  exact (proj1 apply_length_preserving A64.capstone A64.keystone
           (A64.image Images.txm_debugger) 7 Images.txm_debugger_applied E H).
Defined.

(** The claim fails as stated: the symbol table of [Images.kernel_symtab]
    places [_proc_security_policy] at the last word of the 104-byte image;
    [patch_proc_security_policy] registers [(100, mov x0, #0)] and
    [(104, ret)], and the second lies past the end of the buffer, so the slice
    assignment appends it: the buffer [apply] leaves has 108 bytes. *)
Lemma apply_grows_buffer :
  KernelJB._build_symbol_table Images.kernel_symtab_object
  = Done tt Images.kernel_symtab_ready /\
  symbols Images.kernel_symtab_ready = [(of_string "_proc_security_policy", 100)] /\
  @KernelJB.apply A64.capstone A64.kernel_base A64.rules_not_found
     Images.kernel_symtab_ready
  = Done 2 Images.kernel_symtab_applied /\
  map (fun pt => (fst (fst pt), snd (fst pt))) (patches Images.kernel_symtab_applied)
  = [(100, KernelJB.MOV_X0_0); (104, KernelJB.RET)] /\
  len (data Images.kernel_symtab_ready) = 104 /\
  len (data Images.kernel_symtab_applied) = 108.
Proof. vm_compute. repeat split; reflexivity. Qed.

(** ** Rules that fail *)

(** C2, at the failing input.  With four sites
    [mov w2, #0x14; bl; cbz w0] in the image,
    [patch_selector24_hashcmp_calls] returns [False] ("sites too many") and
    yet has registered a patch for each of the four sites: [apply] writes them
    and counts them. *)
Theorem hashcmp_registers_before_validating :
  @TXMJB.patch_selector24_hashcmp_calls A64.capstone (A64.image Images.txm_hashcmp4)
  = Done false Images.txm_hashcmp4_ruled /\
  map (fun pt => (fst (fst pt), snd (fst pt))) (patches Images.txm_hashcmp4_ruled)
  = [(4, TXMJB.MOV_X0_0); (16, TXMJB.MOV_X0_0); (28, TXMJB.MOV_X0_0);
     (40, TXMJB.MOV_X0_0)] /\
  @TXMJB.apply A64.capstone A64.keystone (A64.image Images.txm_hashcmp4)
  = Done 4 Images.txm_hashcmp4_applied /\
  bytes_at (data Images.txm_hashcmp4_applied) 4 4 = TXMJB.MOV_X0_0 /\
  bytes_at Images.txm_hashcmp4 4 4 = A64.word 0x94000010.
Proof. vm_compute. repeat split; reflexivity. Qed.

Section FailClosed.
Context {D : Disassembler} {K : Assembler}.

(** The other rules of the TXM catalog validate their match set first: when
    they return [False] the object is as they found it. *)
Lemma txm_siblings_fail_closed (p p' : patcher) :
  (TXMJB.patch_selector24_a1_path p = Done false p' -> p' = p) /\
  (TXMJB.patch_get_task_allow_force_true p = Done false p' -> p' = p) /\
  (TXMJB.patch_selector42_29_shellcode p = Done false p' -> p' = p) /\
  (TXMJB.patch_debugger_entitlement_force_true p = Done false p' -> p' = p) /\
  (TXMJB.patch_developer_mode_bypass p = Done false p' -> p' = p).
Proof.
  unfold TXMJB.patch_selector24_a1_path, TXMJB.patch_get_task_allow_force_true,
    TXMJB.patch_selector42_29_shellcode, TXMJB.patch_debugger_entitlement_force_true,
    TXMJB.patch_developer_mode_bypass, TXMJB._asm_at, mbind, get, ret, emit, lift.
  repeat split; intros H;
    repeat match type of H with
           | context [match ?x with _ => _ end] => destruct x
           end;
    congruence.
Qed.

End FailClosed.

(** A rule that returns does not stop the rules after it; a rule that raises
    does. *)
Lemma run_rules_app (pre post : list (M bool)) (p : patcher) :
  run_rules (pre ++ post) p
  = match run_rules pre p with
    | Done _ p1 => run_rules post p1
    | Fault e => Fault e
    end.
Proof.
  revert p. induction pre as [|r rest IH]; intros p; cbn [app run_rules].
  - reflexivity.
  - unfold mbind. destruct (r p) as [b q|e]; [apply IH | reflexivity].
Qed.

(** C9 (as amended).  [apply] of each patcher runs the rules of its catalog in
    order from an empty patch list and returns the number of registered
    patches; a rule that returns, whatever it returns, is followed by the
    rules after it; a rule that raises ends [apply] with its exception, so
    the rules after it do not run and no count is returned.  An encoding
    failure in [_asm_at] is such an exception (RuntimeError). *)
Theorem rule_failure_semantics :
  (forall (D : Disassembler) (K : Assembler) (p : patcher),
     TXMJB.apply p = apply_outcome TXMJB.catalog p) /\
  (forall (D : Disassembler) (K : Assembler) (IB : IBootJB.IBootBase) (p : patcher),
     IBootJB.apply p
     = apply_outcome (if String.eqb (mode p) "ibss"
                      then [IBootJB.patch_skip_generate_nonce] else []) p) /\
  (forall (D : Disassembler) (KB : KernelJB.KernelBase) (KR : KernelJB.KernelRules)
          (p : patcher),
     KernelJB.apply p = apply_outcome KernelJB.catalog p) /\
  (forall (rules : list (M bool)) (p : patcher) (n : Z) (p' : patcher),
     apply_outcome rules p = Done n p' -> n = len (patches p')) /\
  (forall (pre post : list (M bool)) (r : M bool) (p p1 p2 : patcher) (b : bool),
     run_rules pre p = Done tt p1 -> r p1 = Done b p2 ->
     run_rules (pre ++ r :: post) p = run_rules post p2) /\
  (forall (pre post : list (M bool)) (r : M bool) (p p1 : patcher) (e : exn),
     run_rules pre (set_patches p []) = Done tt p1 -> r p1 = Fault e ->
     apply_outcome (pre ++ r :: post) p = Fault e) /\
  (forall (K : Assembler) (asm_line : string) (addr : Z) (p : patcher),
     ks_asm asm_line addr = None -> TXMJB._asm_at asm_line addr p = Fault RuntimeError).
Proof.
  split; [intros; apply txm_apply_outcome|].
  split; [intros; apply iboot_apply_outcome|].
  split; [intros; apply kernel_apply_outcome|].
  split.
  { intros rules p n p' H. unfold apply_outcome in H.
    destruct (run_rules rules (set_patches p [])); [|discriminate].
    injection H as <- <-. reflexivity. }
  split.
  { intros pre post r p p1 p2 b Hpre Hr. rewrite run_rules_app, Hpre.
    cbn [run_rules]. unfold mbind. rewrite Hr. reflexivity. }
  split.
  { intros pre post r p p1 e Hpre Hr. unfold apply_outcome.
    rewrite run_rules_app, Hpre. cbn [run_rules]. unfold mbind. rewrite Hr. reflexivity. }
  intros K asm_line addr p H. unfold TXMJB._asm_at, lift. rewrite H. reflexivity.
Qed.

Lemma rule_failure_semantics_witness :
  run_rules [@TXMJB.patch_selector24_hashcmp_calls A64.capstone;
             @TXMJB.patch_selector24_a1_path A64.capstone;
             @TXMJB.patch_get_task_allow_force_true A64.capstone]
            (set_patches (A64.image Images.txm_debugger) [])
  = Done tt (A64.image Images.txm_debugger) /\
  @TXMJB.patch_selector42_29_shellcode A64.capstone A64.keystone_failing
     (A64.image Images.txm_debugger) = Fault RuntimeError /\
  apply_outcome (@TXMJB.catalog A64.capstone A64.keystone_failing)
                (A64.image Images.txm_debugger) = Fault RuntimeError.
Proof.
  assert (E1 : run_rules [@TXMJB.patch_selector24_hashcmp_calls A64.capstone;
                          @TXMJB.patch_selector24_a1_path A64.capstone;
                          @TXMJB.patch_get_task_allow_force_true A64.capstone]
                         (set_patches (A64.image Images.txm_debugger) [])
               = Done tt (A64.image Images.txm_debugger)) by (vm_compute; reflexivity).
  assert (E2 : @TXMJB.patch_selector42_29_shellcode A64.capstone A64.keystone_failing
                 (A64.image Images.txm_debugger) = Fault RuntimeError)
    by (vm_compute; reflexivity).
  split; [exact E1|]. split; [exact E2|].
  exact (proj1 (proj2 (proj2 (proj2 (proj2 (proj2 rule_failure_semantics)))))
           [@TXMJB.patch_selector24_hashcmp_calls A64.capstone;
            @TXMJB.patch_selector24_a1_path A64.capstone;
            @TXMJB.patch_get_task_allow_force_true A64.capstone]
           [@TXMJB.patch_debugger_entitlement_force_true A64.capstone;
            @TXMJB.patch_developer_mode_bypass A64.capstone]
           (@TXMJB.patch_selector42_29_shellcode A64.capstone A64.keystone_failing)
           (A64.image Images.txm_debugger) (A64.image Images.txm_debugger)
           RuntimeError E1 E2).
Defined.

(** The claim fails as stated: in [Images.txm_debugger] the rule
    [patch_selector42_29_shellcode] reaches [_asm_at]; with an assembler that
    fails, [apply] raises RuntimeError instead of returning a count, and
    [patch_debugger_entitlement_force_true], which comes next and whose patch
    at offset 20 is among the seven of the run with a working assembler, does
    not run. *)
Lemma encoding_failure_aborts_apply :
  @TXMJB.apply A64.capstone A64.keystone_failing (A64.image Images.txm_debugger)
  = Fault RuntimeError /\
  @TXMJB.apply A64.capstone A64.keystone (A64.image Images.txm_debugger)
  = Done 7 Images.txm_debugger_applied /\
  In (20, TXMJB.MOV_W0_1, "debugger entitlement: bl -> mov w0,#1"%string)
     (patches Images.txm_debugger_applied).
Proof.
  split; [vm_compute; reflexivity|]. split; [vm_compute; reflexivity|].
  vm_compute. do 6 right. left. reflexivity.
Qed.

(** ** The firmware patch commands *)








Section CfwCommands.
Context {D : Disassembler} {K : Assembler}.






End CfwCommands.


(** *** Dylib injection *)

Lemma unpack_I_out (d : bytes) (off : Z) :
  0 <= off -> len d < off + 4 -> unpack_I d off = Raise StructError.
Proof.
  intros H0 H1. unfold unpack_I, field.
  destruct (off <? 0) eqn:E; [apply Z.ltb_lt in E; lia|].
  replace ((off <? 0) || (len d - off <? 4)) with true; [reflexivity|].
  symmetry. rewrite E. cbn. apply Z.ltb_lt. lia.
Qed.

Lemma pack_into_I_ok_inv (d d' : bytes) (off v : Z) :
  0 <= off -> pack_into_I d off v = Ok d' ->
  0 <= v < 2 ^ 32 /\ off + 4 <= len d /\ d' = splice d off (le_encode 4 v).
Proof.
  intros H0. unfold pack_into_I, pack_I.
  destruct ((0 <=? v) && (v <? 2 ^ 32)) eqn:Ev; cbn [bind]; [|discriminate].
  apply andb_true_iff in Ev. destruct Ev as [Ev1 Ev2].
  apply Z.leb_le in Ev1. apply Z.ltb_lt in Ev2.
  destruct (field 4 d off) as [bs|e] eqn:E; cbn [bind]; [|discriminate].
  apply field_ok_inv in E; [|exact H0]. destruct E as [E1 _].
  destruct (off <? 0) eqn:E; [apply Z.ltb_lt in E; lia|].
  intros H. injection H as <-. split; [lia|]. split; [exact E1|].
  unfold splice. do 3 f_equal.
  change (len (le_encode 4 v)) with 4. rewrite Z2Nat.inj_add by lia. reflexivity.
Qed.

Lemma unpack_I_pack_same (d d' : bytes) (off v : Z) :
  0 <= off -> pack_into_I d off v = Ok d' -> unpack_I d' off = Ok v.
Proof.
  intros H0 H. apply pack_into_I_ok_inv in H; [|exact H0].
  destruct H as (Hv & Hl & ->).
  assert (Hlen : len (le_encode 4 v) = 4) by reflexivity.
  rewrite unpack_I_in; [|exact H0|rewrite splice_len; lia].
  change 4%nat with (List.length (le_encode 4 v)).
  rewrite bytes_at_splice_same by lia.
  rewrite le_decode_encode. f_equal. apply Z.mod_small.
  change (256 ^ Z.of_nat 4) with (2 ^ 32). lia.
Qed.

Lemma unpack_I_pack_other (d d' : bytes) (off off' v : Z) :
  0 <= off -> 0 <= off' -> off' + 4 <= off \/ off + 4 <= off' ->
  pack_into_I d off v = Ok d' -> unpack_I d' off' = unpack_I d off'.
Proof.
  intros H0 H0' Hdis H. apply pack_into_I_ok_inv in H; [|exact H0].
  destruct H as (Hv & Hl & ->).
  assert (Hlen : len (le_encode 4 v) = 4) by reflexivity.
  assert (Hs : len (splice d off (le_encode 4 v)) = len d) by (apply splice_len; lia).
  destruct (Z_le_gt_dec (off' + 4) (len d)) as [Hin|Hout].
  - rewrite !unpack_I_in by lia. f_equal. f_equal.
    destruct Hdis as [Hb|Ha].
    + apply bytes_at_splice_before; lia.
    + apply bytes_at_splice_after; lia.
  - rewrite !unpack_I_out by lia. reflexivity.
Qed.



Lemma pystr_eqb_eq (a b : pystr) : pystr_eqb a b = true -> a = b.
Proof. unfold pystr_eqb. destruct (list_eq_dec Z.eq_dec a b); [trivial|discriminate]. Qed.



Lemma inject_dylib_loop_present (data : bytes) (path : pystr) (slices : list (Z * Z))
    (injected : Z) :
  (forall so ss, In (so, ss) slices -> Cfw._check_existing_dylib data so path = Ok true) ->
  Cfw.inject_dylib_loop data path slices injected = Ok (data, injected + len slices).
Proof.
  revert injected. induction slices as [|[so ss] rest IH]; intros injected H;
    cbn [Cfw.inject_dylib_loop].
  - f_equal. f_equal. unfold len. cbn. lia.
  - rewrite (H so ss) by (left; reflexivity). cbn [bind].
    rewrite IH by (intros so' ss' Hin; apply (H so' ss'); right; exact Hin).
    rewrite len_cons. do 2 f_equal. lia.
Qed.



(** What [lc_write] leaves: the command at the end of the old load
    commands, the header counting it, the length of the buffer and every
    byte after the command as they were. *)
Lemma lc_write_spec (d d' lc : bytes) (base n s c : Z) (ok : bool) :
  0 <= base -> 0 <= s -> len lc = c -> base + 32 + s + c <= len d ->
  lc_write d base n s c lc = Ok (ok, d') ->
  ok = true /\ len d' = len d /\
  bytes_at d' (base + 32 + s) (List.length lc) = lc /\
  unpack_I d' (base + 16) = Ok (n + 1) /\
  unpack_I d' (base + 20) = Ok (s + c) /\
  (forall i, base + 32 + s + c <= i -> byte_at d' i = byte_at d i).
Proof.
  intros H0 Hs Hc Hfit. unfold lc_write. cbv zeta. subst c.
  pose proof (len_nonneg lc) as Hlc.
  rewrite slice_assign_splice by lia.
  assert (Hl0 : len (splice d (base + 32 + s) lc) = len d) by (apply splice_len; lia).
  destruct (pack_into_I _ (base + 16) _) as [d1|e] eqn:E1; cbn [bind]; [|discriminate].
  destruct (pack_into_I d1 (base + 20) _) as [d2|e] eqn:E2; cbn [bind]; [|discriminate].
  intros H. injection H as <- <-.
  assert (R2 : unpack_I d2 (base + 20) = Ok (s + len lc))
    by (eapply unpack_I_pack_same; [|exact E2]; lia).
  assert (R1 : unpack_I d2 (base + 16) = Ok (n + 1)).
  { rewrite (unpack_I_pack_other d1 d2 (base + 20) (base + 16) (s + len lc))
      by (try lia; exact E2).
    eapply unpack_I_pack_same; [|exact E1]; lia. }
  apply pack_into_I_ok_inv in E1; [|lia]. destruct E1 as (_ & L1 & ->).
  assert (Hl1 : len (splice (splice d (base + 32 + s) lc) (base + 16) (le_encode 4 (n + 1)))
                = len d) by (rewrite splice_len; [exact Hl0 | lia | exact L1]).
  apply pack_into_I_ok_inv in E2; [|lia]. destruct E2 as (_ & L2 & ->).
  assert (H4 : forall v, len (le_encode 4 v) = 4) by reflexivity.
  split; [reflexivity|]. split; [rewrite splice_len; [exact Hl1 | lia | exact L2]|].
  split; [|split; [exact R1|split; [exact R2|]]].
  - rewrite bytes_at_splice_after by (rewrite ?H4; lia).
    rewrite bytes_at_splice_after by (rewrite ?H4; lia).
    apply bytes_at_splice_same; lia.
  - intros i Hi.
    rewrite byte_at_splice_outside by (rewrite ?H4; lia).
    rewrite byte_at_splice_outside by (rewrite ?H4; lia).
    apply byte_at_splice_outside; lia.
Qed.



(** The three ways out, run: the padding suffices; nothing to strip and the
    command overruns the section by 32 bytes; a path so long that it would
    overrun by 272 bytes. *)
Example lc_fits_in_padding :
  Cfw._inject_lc_load_dylib Images.macho_padded 0 (of_string "/a.dylib")
  = lc_write Images.macho_padded 0 1 152 40 Images.lc_a_dylib.
Proof. vm_compute. reflexivity. Qed.

Example lc_overflows_within_ceiling :
  Cfw._inject_lc_load_dylib Images.macho_tight 0 (of_string "/a.dylib")
  = lc_write Images.macho_tight 0 1 152 40 Images.lc_a_dylib.
Proof. vm_compute. reflexivity. Qed.

Example lc_overflow_refused :
  Cfw._inject_lc_load_dylib Images.macho_tight 0 (repeat 97 256)
  = Ok (false, Images.macho_tight).
Proof. vm_compute. reflexivity. Qed.

(** ** More of cfw.py *)

Lemma byte_eqb_eq (a b : byte) : byte_eqb a b = true <-> a = b.
Proof.
  unfold byte_eqb. split.
  - intros H. apply Byte.byte_dec_bl in H. exact H.
  - intros ->. apply Byte.byte_dec_lb. reflexivity.
Qed.

Lemma startswith_firstn (l sub : bytes) :
  startswith byte_eqb l sub = true <-> firstn (List.length sub) l = sub.
Proof.
  revert l. induction sub as [|y sub IH]; intros l.
  - rewrite startswith_nil_sub. cbn. split; reflexivity.
  - destruct l as [|x l]; cbn [startswith List.length firstn].
    + split; discriminate.
    + rewrite andb_true_iff, byte_eqb_eq, IH. split.
      * intros [-> ->]. reflexivity.
      * intros H. injection H as -> H. split; [reflexivity | exact H].
Qed.

(** An occurrence, read as bytes of the buffer. *)
Lemma occurs_at_bytes (d sub : bytes) (s : Z) :
  occurs_at d sub s <-> 0 <= s /\ bytes_at d s (List.length sub) = sub.
Proof. unfold occurs_at, bytes_at. rewrite startswith_firstn. reflexivity. Qed.

Lemma occurs_at_inside (d sub : bytes) (s : Z) :
  sub <> [] -> occurs_at d sub s -> s + len sub <= len d.
Proof.
  intros Hne H. apply occurs_at_bytes in H. destruct H as [H0 H].
  pose proof (f_equal (@List.length byte) H) as HL. unfold bytes_at in HL.
  rewrite length_firstn, length_skipn in HL.
  destruct sub as [|b sub]; [congruence|]. cbn [List.length] in HL.
  unfold len. cbn [List.length]. lia.
Qed.

Lemma find_aux_first (sub : bytes) (l : bytes) :
  forall pos,
    (find_aux sub l pos = -1 /\
     forall k, (k <= List.length l)%nat -> startswith byte_eqb (skipn k l) sub = false) \/
    exists k, (k <= List.length l)%nat /\ find_aux sub l pos = pos + Z.of_nat k /\
              startswith byte_eqb (skipn k l) sub = true /\
              forall k', (k' < k)%nat -> startswith byte_eqb (skipn k' l) sub = false.
Proof.
  induction l as [|x t IH]; intros pos; cbn [find_aux].
  - destruct (startswith byte_eqb [] sub) eqn:E.
    + right. exists 0%nat. cbn [skipn List.length]. repeat split; try lia; try exact E.
    + left. split; [reflexivity|]. intros k Hk. cbn in Hk.
      replace k with 0%nat by lia. exact E.
  - destruct (startswith byte_eqb (x :: t) sub) eqn:E.
    + right. exists 0%nat. cbn [skipn List.length]. repeat split; try lia; try exact E.
    + destruct (IH (pos + 1)) as [[H Hn] | (k & Hk & Hr & Hs & Hmin)].
      * left. split; [exact H|]. intros [|k] Hk; [exact E|].
        cbn [skipn]. apply Hn. cbn in Hk. lia.
      * right. exists (S k). cbn [skipn List.length]. split; [lia|]. split; [lia|].
        split; [exact Hs|]. intros [|k'] Hk'; [exact E|]. cbn [skipn]. apply Hmin. lia.
Qed.

(** [find] from a position inside the buffer: the first occurrence at or
    after [start], or [-1] when there is none. *)
Lemma find_first (d sub : bytes) (start : Z) :
  0 <= start <= len d ->
  (find d sub start = -1 /\ forall j, start <= j -> ~ occurs_at d sub j) \/
  (start <= find d sub start /\ occurs_at d sub (find d sub start) /\
   forall j, start <= j < find d sub start -> ~ occurs_at d sub j).
Proof.
  intros Hs. unfold find.
  destruct (start <? 0) eqn:E0; [apply Z.ltb_lt in E0; lia|].
  destruct (len d <? start) eqn:E; [apply Z.ltb_lt in E; lia|].
  assert (Hsk : forall k, skipn k (skipn (Z.to_nat start) d)
                          = skipn (Z.to_nat (start + Z.of_nat k)) d).
  { intros k. rewrite skipn_skipn. f_equal. lia. }
  assert (Hlen : List.length (skipn (Z.to_nat start) d) = Z.to_nat (len d - start)).
  { rewrite length_skipn. unfold len. lia. }
  destruct (find_aux_first sub (skipn (Z.to_nat start) d) start)
    as [[H Hn] | (k & Hk & Hr & Hocc & Hmin)].
  - left. split; [exact H|]. intros j Hj [_ Hoc].
    destruct (Z_le_gt_dec j (len d)) as [Hin|Hout].
    + specialize (Hn (Z.to_nat (j - start)) ltac:(lia)). rewrite Hsk in Hn.
      replace (start + Z.of_nat (Z.to_nat (j - start))) with j in Hn by lia. congruence.
    + specialize (Hn (Z.to_nat (len d - start)) ltac:(lia)). rewrite Hsk in Hn.
      rewrite skipn_all2 in Hn, Hoc by (unfold len in *; lia). congruence.
  - right. rewrite Hr. split; [lia|]. split.
    + split; [lia|]. rewrite <- Hsk. exact Hocc.
    + intros j Hj [_ Hoc].
      specialize (Hmin (Z.to_nat (j - start)) ltac:(lia)). rewrite Hsk in Hmin.
      replace (start + Z.of_nat (Z.to_nat (j - start))) with j in Hmin by lia. congruence.
Qed.

Lemma splice_splice_adjacent (d a b : bytes) (off : Z) :
  0 <= off -> off + len a + len b <= len d ->
  splice (splice d off a) (off + len a) b = splice d off (a ++ b).
Proof.
  intros H0 H1. pose proof (len_nonneg a) as Ha. pose proof (len_nonneg b) as Hb.
  unfold splice. rewrite len_app.
  rewrite firstn_app, firstn_firstn.
  replace (Init.Nat.min (Z.to_nat (off + len a)) (Z.to_nat off)) with (Z.to_nat off) by lia.
  rewrite length_firstn.
  replace (Z.to_nat (off + len a) - Init.Nat.min (Z.to_nat off) (List.length d))%nat
    with (List.length a) by (unfold len in *; lia).
  rewrite firstn_app, firstn_all, Nat.sub_diag, firstn_O, app_nil_r.
  rewrite <- !app_assoc. do 3 f_equal.
  rewrite app_assoc, skipn_app.
  rewrite skipn_all2 by (rewrite length_app, length_firstn; unfold len in *; lia).
  cbn [app]. rewrite length_app, length_firstn, skipn_skipn. f_equal.
  unfold len in *. lia.
Qed.

Lemma setitem_splice (d : bytes) (i v : Z) :
  0 <= i < len d -> 0 <= v < 256 -> setitem d i v = Ok (splice d i [z2b v]).
Proof.
  intros Hi Hv. unfold setitem, splice.
  destruct (i <? 0) eqn:E; [apply Z.ltb_lt in E; lia|].
  replace ((0 <=? i) && (i <? len d)) with true
    by (symmetry; apply andb_true_iff; split; [apply Z.leb_le | apply Z.ltb_lt]; lia).
  replace ((0 <=? v) && (v <? 256)) with true
    by (symmetry; apply andb_true_iff; split; [apply Z.leb_le | apply Z.ltb_lt]; lia).
  cbn [negb]. f_equal. f_equal. cbn [app]. f_equal. f_equal.
  change (len [z2b v]) with 1. lia.
Qed.

Lemma bytes_at_split (d : bytes) (off : Z) (n m : nat) :
  0 <= off ->
  bytes_at d off (n + m) = bytes_at d off n ++ bytes_at d (off + Z.of_nat n) m.
Proof.
  intros H0. unfold bytes_at.
  replace (Z.to_nat (off + Z.of_nat n)) with (n + Z.to_nat off)%nat by lia.
  rewrite <- skipn_skipn.
  rewrite <- (firstn_skipn n (skipn (Z.to_nat off) d)) at 1.
  rewrite firstn_app, length_firstn.
  destruct (Nat.le_gt_cases n (List.length (skipn (Z.to_nat off) d))) as [Hle|Hgt].
  - rewrite Nat.min_l by exact Hle.
    replace (n + m - n)%nat with m by lia.
    rewrite firstn_firstn. f_equal. f_equal. lia.
  - rewrite (skipn_all2 (n := n)) by lia. rewrite !firstn_nil, !app_nil_r.
    rewrite firstn_firstn. f_equal. lia.
Qed.

(** X1. [patch_seputil] returns [False] and writes nothing exactly when the
    file has no ["/%s.gl\0"]; otherwise it returns [True] and the file it
    writes is the file it read with the two bytes ["%s"] of the first
    occurrence turned into ["AA"]: same length, ["/AA.gl\0"] at the
    occurrence.  It never raises. *)
Theorem patch_seputil_effect (file : bytes) :
  let anchor := B "/%s.gl" ++ [x00] in
  ((forall j, 0 <= j -> ~ occurs_at file anchor j) /\
   Cfw.patch_seputil file = Cfw.fail_) \/
  exists offset,
    occurs_at file anchor offset /\
    (forall j, 0 <= j < offset -> ~ occurs_at file anchor j) /\
    Cfw.patch_seputil file = Cfw.wrote (splice file (offset + 1) (B "AA")) /\
    len (splice file (offset + 1) (B "AA")) = len file /\
    bytes_at (splice file (offset + 1) (B "AA")) offset 7 = B "/AA.gl" ++ [x00].
Proof.
  intros anchor. unfold Cfw.patch_seputil. cbv zeta. fold anchor.
  pose proof (len_nonneg file) as Hn.
  destruct (find_first file anchor 0 ltac:(lia)) as [[Hf Hnone] | (Hge & Hocc & Hmin)].
  - left. split; [exact Hnone|]. rewrite Hf. reflexivity.
  - right. set (offset := find file anchor 0) in *. exists offset.
    pose proof (occurs_at_inside file anchor offset ltac:(discriminate) Hocc) as Hin.
    change (len anchor) with 7 in Hin.
    apply occurs_at_bytes in Hocc as Hb. destruct Hb as [_ Hb].
    change (List.length anchor) with 7%nat in Hb.
    assert (Hl2 : len (B "AA") = 2) by reflexivity.
    assert (Hlen : len (splice file (offset + 1) (B "AA")) = len file)
      by (apply splice_len; lia).
    split; [exact Hocc|]. split; [exact Hmin|]. split; [|split; [exact Hlen|]].
    + destruct (offset <? 0) eqn:E; [apply Z.ltb_lt in E; lia|].
      rewrite setitem_splice by lia. cbn [bind].
      rewrite setitem_splice by (rewrite ?splice_len; change (len [z2b 65]) with 1; lia).
      cbn [bind]. unfold Cfw.wrote. do 3 f_equal.
      replace (offset + 1 + 1) with (offset + 1 + len [z2b 65]) by reflexivity.
      rewrite splice_splice_adjacent by (change (len [z2b 65]) with 1; lia).
      reflexivity.
    + change 7%nat with (1 + (2 + 4))%nat in Hb |- *.
      rewrite bytes_at_split in Hb |- * by lia. rewrite bytes_at_split in Hb |- * by lia.
      change (Z.of_nat 1) with 1 in *. change (Z.of_nat 2) with 2 in *.
      rewrite bytes_at_splice_before by lia.
      change 2%nat with (List.length (B "AA")) at 1.
      rewrite bytes_at_splice_same by lia.
      rewrite bytes_at_splice_after by lia.
      assert (H1 : List.length (bytes_at file offset 1) = 1%nat).
      { unfold bytes_at. rewrite length_firstn, length_skipn. unfold len in *. lia. }
      assert (H2 : List.length (bytes_at file (offset + 1) 2) = 2%nat).
      { unfold bytes_at. rewrite length_firstn, length_skipn. unfold len in *. lia. }
      remember (bytes_at file (offset + 1 + 2) 4) as rest eqn:Erest.
      destruct (bytes_at file offset 1) as [|b1 [|? ?]]; try discriminate.
      destruct (bytes_at file (offset + 1) 2) as [|b2 [|b3 [|? ?]]]; try discriminate.
      cbn [app] in Hb |- *. subst anchor. cbn in Hb. injection Hb as -> _ _ Hrest.
      rewrite Hrest. reflexivity.
Qed.

Lemma patch_mobileactivationd_imp (file : bytes) (o : Cfw.outcome) :
  Cfw.patch_mobileactivationd file = Ok o -> Cfw.returned o = true ->
  exists imp_foff,
    hactivate_imp file imp_foff /\ 0 <= imp_foff /\ imp_foff + 8 <= len file /\
    Cfw.written o
    = Some (slice_assign (slice_assign file imp_foff (imp_foff + 4) Cfw.MOV_X0_1)
              (imp_foff + 4) (imp_foff + 8) Cfw.RET).
Proof.
  unfold Cfw.patch_mobileactivationd. cbv zeta.
  destruct (Cfw.find_symbol_va file (of_string "should_hactivate")) as [imp_va|e] eqn:Eva;
    cbn [bind]; [|discriminate].
  destruct (if imp_va >? 0 then Cfw.va_to_foff file imp_va else Ok (-1)) as [f1|e] eqn:E1;
    cbn [bind]; [|discriminate].
  destruct (if f1 <? 0 then Cfw._find_via_objc_metadata file else Ok f1) as [imp_foff|e]
    eqn:E2; cbn [bind]; [|discriminate].
  destruct (imp_foff <? 0) eqn:E0; [intros H; injection H as <-; discriminate|].
  destruct (imp_foff + 8 >? len file) eqn:E8; [intros H; injection H as <-; discriminate|].
  apply Z.ltb_ge in E0. rewrite Z.gtb_ltb in E8. apply Z.ltb_ge in E8.
  intros H _. injection H as <-. cbn [Cfw.written].
  exists imp_foff. split; [|split; [exact E0|split; [exact E8|reflexivity]]].
  exists imp_va. split; [exact Eva|].
  destruct (f1 <? 0) eqn:Ef1.
  - apply Z.ltb_lt in Ef1. right. split; [|split; [exact E2 | exact E0]].
    destruct (imp_va >? 0) eqn:Epos.
    + right. exists f1. split; [exact E1 | exact Ef1].
    + left. rewrite Z.gtb_ltb in Epos. apply Z.ltb_ge in Epos. exact Epos.
  - apply Z.ltb_ge in Ef1. injection E2 as ->. left.
    destruct (imp_va >? 0) eqn:Epos.
    + rewrite Z.gtb_ltb in Epos. apply Z.ltb_lt in Epos.
      split; [exact Epos|]. split; [exact E1 | exact E0].
    + injection E1 as <-. lia.
Qed.

(** X2. When [patch_mobileactivationd] returns [True], the implementation
    it patches is the one its search gives: the file offset that
    [va_to_foff] gives for the address that [find_symbol_va] returns for
    ["should_hactivate"], when that address is positive and the offset not
    negative, and else the offset that [_find_via_objc_metadata] returns.
    It lies with its first 8 bytes inside the file, and the file written is
    the file read with those 8 bytes replaced by [mov x0, #1; ret]: the
    length is kept. *)
Theorem patch_mobileactivationd_effect (file : bytes) (o : Cfw.outcome) :
  Cfw.patch_mobileactivationd file = Ok o -> Cfw.returned o = true ->
  exists imp_foff,
    hactivate_imp file imp_foff /\
    0 <= imp_foff /\ imp_foff + 8 <= len file /\
    Cfw.written o = Some (splice file imp_foff (Cfw.MOV_X0_1 ++ Cfw.RET)) /\
    len (splice file imp_foff (Cfw.MOV_X0_1 ++ Cfw.RET)) = len file.
Proof.
  intros H Hr.
  destruct (patch_mobileactivationd_imp file o H Hr) as (imp_foff & Himp & E0 & E1 & Hw).
  exists imp_foff. split; [exact Himp|]. split; [exact E0|]. split; [exact E1|].
  assert (H4 : len Cfw.MOV_X0_1 = 4) by reflexivity.
  assert (H4' : len Cfw.RET = 4) by reflexivity.
  split.
  - rewrite Hw. f_equal.
    replace (imp_foff + 4) with (imp_foff + len Cfw.MOV_X0_1) at 1 by lia.
    rewrite slice_assign_splice by lia.
    replace (imp_foff + 8) with (imp_foff + 4 + len Cfw.RET) by lia.
    rewrite slice_assign_splice by (rewrite ?splice_len; lia).
    replace (imp_foff + 4) with (imp_foff + len Cfw.MOV_X0_1) by lia.
    apply splice_splice_adjacent; lia.
  - apply splice_len; [lia|]. rewrite len_app. lia.
Qed.

Lemma patch_mobileactivationd_effect_witness :
  exists imp_foff,
    Cfw.va_to_foff Samples.macho_symtab 0x10B0 = Ok imp_foff /\
    0 <= imp_foff /\ imp_foff + 8 <= len Samples.macho_symtab /\
    Cfw.patch_mobileactivationd Samples.macho_symtab
    = Cfw.wrote (splice Samples.macho_symtab imp_foff (Cfw.MOV_X0_1 ++ Cfw.RET)).
Proof.
  destruct (Cfw.patch_mobileactivationd Samples.macho_symtab) as [o|e] eqn:E;
    [|vm_compute in E; discriminate].
  destruct (patch_mobileactivationd_effect Samples.macho_symtab o E)
    as (f & (va & Hva & Hcase) & H0 & H1 & Hw & _).
  - vm_compute in E. injection E as <-. reflexivity.
  - assert (Hv : va = 0x10B0) by (vm_compute in Hva; injection Hva as <-; reflexivity).
    subst va.
    assert (Hf : Cfw.va_to_foff Samples.macho_symtab 0x10B0 = Ok f).
    { destruct Hcase as [(_ & Hf & _) | ([Hle | (f' & Hf' & Hneg)] & _)].
      - exact Hf.
      - lia.
      - vm_compute in Hf'. injection Hf' as <-. lia. }
    exists f. split; [exact Hf|]. split; [exact H0|]. split; [exact H1|].
    destruct o as [r w]. cbn [Cfw.written] in Hw. subst w.
    vm_compute in E. injection E as <- _. reflexivity.
Defined.

Lemma land_lnot_ones (x k : Z) :
  0 <= k -> Z.land x (Z.lnot (2 ^ k - 1)) = x / 2 ^ k * 2 ^ k.
Proof.
  intros Hk. replace (2 ^ k - 1) with (Z.ones k) by (rewrite Z.ones_equiv; lia).
  rewrite <- Z.ldiff_land, Z.ldiff_ones_r by exact Hk.
  rewrite Z.shiftl_mul_pow2, Z.shiftr_div_pow2 by exact Hk. reflexivity.
Qed.

(** X3. For an alignment that is a power of two, [_align] gives the least
    multiple of the alignment that is not below [n]. *)
Theorem align_least_multiple (n k : Z) :
  0 <= k ->
  Cfw._align n (2 ^ k) mod 2 ^ k = 0 /\
  n <= Cfw._align n (2 ^ k) < n + 2 ^ k /\
  (forall m, m mod 2 ^ k = 0 -> n <= m -> Cfw._align n (2 ^ k) <= m).
Proof.
  intros Hk. unfold Cfw._align. rewrite land_lnot_ones by exact Hk.
  assert (Hp : 0 < 2 ^ k) by (apply Z.pow_pos_nonneg; lia).
  set (a := 2 ^ k) in *.
  pose proof (Z.div_mod (n + a - 1) a ltac:(lia)) as Hd.
  pose proof (Z.mod_pos_bound (n + a - 1) a Hp) as Hr.
  split; [apply Z.mod_mul; lia|]. split; [lia|].
  intros m Hm Hnm.
  pose proof (Z.div_mod m a ltac:(lia)) as Hdm. rewrite Hm in Hdm.
  assert ((n + a - 1) / a <= m / a); [|nia].
  apply Z.div_le_lower_bound; [lia|].
  assert (m / a * a <= m) by lia.
  destruct (Z_le_gt_dec ((n + a - 1) / a) (m / a)) as [H'|H']; [nia|].
  exfalso. nia.
Qed.

Lemma align_least_multiple_witness :
  Cfw._align 33 (2 ^ 3) mod 2 ^ 3 = 0 /\ 33 <= Cfw._align 33 (2 ^ 3) < 33 + 2 ^ 3.
Proof.
  destruct (align_least_multiple 33 3 ltac:(lia)) as (H1 & H2 & _).
  split; assumption.
Defined.

Lemma dict_set_In {V} (d : list (pystr * V)) (k : pystr) (v : V) (x : pystr * V) :
  In x (dict_set d k v) -> x = (k, v) \/ In x d.
Proof.
  induction d as [|[k' v'] t IH]; cbn [dict_set In].
  - intros [<-|[]]. left. reflexivity.
  - destruct (pystr_eqb k' k) eqn:E; cbn [In].
    + apply pystr_eqb_eq in E. subst k'. intros [<-|H]; [left; reflexivity | right; right; exact H].
    + intros [<-|H]; [right; left; reflexivity|].
      destruct (IH H) as [->|H']; [left; reflexivity | right; right; exact H'].
Qed.

Lemma first_section_sects_le (data : bytes) (n : nat) :
  forall sect_off e r,
    Cfw.first_section_sects data n sect_off e = Ok r ->
    r <= e /\
    (r = e \/ exists so size, unpack_I data (so + 48) = Ok r /\
                              unpack_Q data (so + 40) = Ok size /\ 0 < size /\ 0 < r).
Proof.
  induction n as [|n IH]; intros sect_off e r; cbn [Cfw.first_section_sects].
  - intros H. injection H as <-. split; [lia | left; reflexivity].
  - destruct (unpack_I data (sect_off + 48)) as [fo|err] eqn:Ef; cbn [bind]; [|discriminate].
    destruct (unpack_Q data (sect_off + 40)) as [sz|err] eqn:Es; cbn [bind]; [|discriminate].
    cbv zeta. intros H. apply IH in H. destruct H as [Hle Hor].
    destruct ((fo >? 0) && (sz >? 0) && (fo <? e)) eqn:Ec.
    + apply andb_true_iff in Ec. destruct Ec as [Ec E3].
      apply andb_true_iff in Ec. destruct Ec as [E1 E2].
      rewrite Z.gtb_ltb in E1, E2. apply Z.ltb_lt in E1, E2, E3.
      split; [lia|]. destruct Hor as [->|Hex]; [|right; exact Hex].
      right. exists sect_off, sz. repeat split; assumption.
    + split; [exact Hle | exact Hor].
Qed.

Lemma first_section_cmds_le (data : bytes) (n : nat) :
  forall offset e r,
    Cfw.first_section_cmds data n offset e = Ok r ->
    r <= e /\
    (r = e \/ exists so size, unpack_I data (so + 48) = Ok r /\
                              unpack_Q data (so + 40) = Ok size /\ 0 < size /\ 0 < r).
Proof.
  induction n as [|n IH]; intros offset e r; cbn [Cfw.first_section_cmds].
  - intros H. injection H as <-. split; [lia | left; reflexivity].
  - destruct (unpack_II data offset) as [[cmd cmdsize]|err]; cbn [bind]; [|discriminate].
    destruct (cmd =? 25).
    + destruct (unpack_I data (offset + 64)) as [ns|err]; cbn [bind]; [|discriminate].
      destruct (Cfw.first_section_sects data (Z.to_nat ns) (offset + 72) e) as [e'|err] eqn:E;
        cbn [bind]; [|discriminate].
      apply first_section_sects_le in E. destruct E as [Hle Hor].
      intros H. apply IH in H. destruct H as [Hle' Hor'].
      split; [lia|]. destruct Hor' as [->|Hex]; [exact Hor | right; exact Hex].
    + cbn [bind]. apply IH.
Qed.

Lemma sections_after_first_sects (data : bytes) (n : nat) :
  forall segname sect_off acc secs e r,
    Cfw.parse_sects data n segname sect_off acc = Ok secs ->
    Cfw.first_section_sects data n sect_off e = Ok r ->
    forall name addr size foff,
      In (name, (addr, size, foff)) secs ->
      In (name, (addr, size, foff)) acc \/ (0 < size -> 0 < foff -> r <= foff).
Proof.
  induction n as [|n IH]; intros segname sect_off acc secs e r;
    cbn [Cfw.parse_sects Cfw.first_section_sects].
  - intros H _. injection H as <-. intros name addr size foff Hin. left. exact Hin.
  - destruct (decode _) as [sectname|err]; cbn [bind]; [|discriminate].
    destruct (unpack_Q data (sect_off + 32)) as [ad|err]; cbn [bind]; [|discriminate].
    destruct (unpack_Q data (sect_off + 40)) as [sz|err]; cbn [bind]; [|discriminate].
    destruct (unpack_I data (sect_off + 48)) as [fo|err]; cbn [bind]; [|discriminate].
    cbv zeta. intros Hp Hf name addr size foff Hin.
    pose proof (first_section_sects_le _ _ _ _ _ Hf) as [Hle _].
    destruct (IH _ _ _ _ _ _ Hp Hf name addr size foff Hin) as [Hacc|Hr]; [|right; exact Hr].
    apply dict_set_In in Hacc. destruct Hacc as [E|Hacc]; [|left; exact Hacc].
    injection E as _ -> -> ->. right. intros Hs Hfo.
    destruct ((fo >? 0) && (sz >? 0) && (fo <? e)) eqn:Ec; [lia|].
    apply andb_false_iff in Ec. destruct Ec as [Ec|Ec].
    + apply andb_false_iff in Ec. rewrite !Z.gtb_ltb in Ec.
      destruct Ec as [Ec|Ec]; apply Z.ltb_ge in Ec; lia.
    + apply Z.ltb_ge in Ec. lia.
Qed.

Lemma sections_after_first_cmds (data : bytes) (n : nat) :
  forall offset acc secs e r,
    Cfw.parse_cmds data n offset acc = Ok secs ->
    Cfw.first_section_cmds data n offset e = Ok r ->
    forall name addr size foff,
      In (name, (addr, size, foff)) secs ->
      In (name, (addr, size, foff)) acc \/ (0 < size -> 0 < foff -> r <= foff).
Proof.
  induction n as [|n IH]; intros offset acc secs e r;
    cbn [Cfw.parse_cmds Cfw.first_section_cmds].
  - intros H _. injection H as <-. intros name addr size foff Hin. left. exact Hin.
  - destruct (unpack_II data offset) as [[cmd cmdsize]|err]; cbn [bind]; [|discriminate].
    destruct (cmd =? 25).
    + destruct (decode _) as [segname|err]; cbn [bind]; [|discriminate].
      destruct (unpack_I data (offset + 64)) as [ns|err]; cbn [bind]; [|discriminate].
      destruct (Cfw.parse_sects data (Z.to_nat ns) segname (offset + 72) acc)
        as [acc'|err] eqn:Ep; cbn [bind]; [|discriminate].
      destruct (Cfw.first_section_sects data (Z.to_nat ns) (offset + 72) e)
        as [e'|err] eqn:Ef; cbn [bind]; [|discriminate].
      intros Hp Hf name addr size foff Hin.
      pose proof (first_section_cmds_le _ _ _ _ _ Hf) as [Hle _].
      destruct (IH _ _ _ _ _ Hp Hf name addr size foff Hin) as [Hacc|Hr]; [|right; exact Hr].
      destruct (sections_after_first_sects _ _ _ _ _ _ _ _ Ep Ef name addr size foff Hacc)
        as [H|H]; [left; exact H|].
      right. intros Hs Hfo. specialize (H Hs Hfo). lia.
    + cbn [bind]. apply IH.
Qed.

(** X4. On a 64-bit Mach-O, [_find_first_section_offset] returns an offset
    in [(0, len(data)]]: the length of the file, or the file offset of a
    section that is not empty; and no section that [parse_macho_sections]
    reports with a size and a file offset other than 0 starts before it.  On
    another magic it returns -1. *)
Theorem first_section_offset_bounds (data : bytes) (r : Z) :
  Cfw._find_first_section_offset data = Ok r ->
  (unpack_I data 0 <> Ok 0xFEEDFACF -> r = -1) /\
  (unpack_I data 0 = Ok 0xFEEDFACF ->
   0 < r <= len data /\
   (r = len data \/
    exists so size, unpack_I data (so + 48) = Ok r /\
                    unpack_Q data (so + 40) = Ok size /\ 0 < size) /\
   forall sections name addr size foff,
     Cfw.parse_macho_sections data = Ok sections ->
     In (name, (addr, size, foff)) sections ->
     0 < size -> 0 < foff -> r <= foff).
Proof.
  unfold Cfw._find_first_section_offset, Cfw.parse_macho_sections.
  destruct (unpack_I data 0) as [magic|err] eqn:Em; cbn [bind]; [|discriminate].
  destruct (magic =? 0xFEEDFACF) eqn:E; cbn [negb].
  - apply Z.eqb_eq in E. subst magic.
    destruct (unpack_I data 16) as [ncmds|err]; cbn [bind]; [|discriminate].
    intros H. split; [congruence|]. intros _.
    apply unpack_I_ok_inv in Em; [|lia]. destruct Em as [Hlen _].
    pose proof (first_section_cmds_le _ _ _ _ _ H) as [Hle Hor].
    split; [|split].
    + destruct Hor as [->|(so & size & _ & _ & _ & Hr)]; lia.
    + destruct Hor as [->|(so & size & H1 & H2 & H3 & _)]; [left; reflexivity|].
      right. exists so, size. repeat split; assumption.
    + intros sections name addr size foff Hp Hin Hs Hf.
      destruct (sections_after_first_cmds _ _ _ _ _ _ _ Hp H name addr size foff Hin)
        as [[]|Hr].
      exact (Hr Hs Hf).
  - apply Z.eqb_neq in E. intros H. injection H as <-.
    split; [reflexivity|]. intros H. congruence.
Qed.

Lemma first_section_offset_bounds_witness :
  0 < 224 <= len Images.macho_padded /\
  forall sections name addr size foff,
    Cfw.parse_macho_sections Images.macho_padded = Ok sections ->
    In (name, (addr, size, foff)) sections -> 0 < size -> 0 < foff -> 224 <= foff.
Proof.
  destruct (first_section_offset_bounds Images.macho_padded 224) as [_ H].
  - vm_compute. reflexivity.
  - destruct H as (H1 & _ & H3); [vm_compute; reflexivity|].
    split; [exact H1 | exact H3].
Defined.

Lemma unpack_Q_nonneg (data : bytes) (off v : Z) : unpack_Q data off = Ok v -> 0 <= v.
Proof.
  unfold unpack_Q. destruct (field 8 data off) as [bs|e]; cbn [bind]; [|discriminate].
  intros H. injection H as <-. apply le_decode_range.
Qed.

Lemma va_to_foff_loop_sound (data : bytes) (va : Z) (n : nat) :
  forall offset f,
    Cfw.va_to_foff_loop data n offset va = Ok f ->
    f = -1 \/
    exists off cmdsize vmaddr vmsize fileoff,
      unpack_II data off = Ok (0x19, cmdsize) /\
      unpack_Q data (off + 24) = Ok vmaddr /\
      unpack_Q data (off + 32) = Ok vmsize /\
      unpack_Q data (off + 40) = Ok fileoff /\
      vmaddr <= va < vmaddr + vmsize /\ f = fileoff + (va - vmaddr).
Proof.
  induction n as [|n IH]; intros offset f; cbn [Cfw.va_to_foff_loop].
  - intros H. injection H as <-. left. reflexivity.
  - destruct (unpack_II data offset) as [[cmd cmdsize]|err] eqn:Ec; cbn [bind]; [|discriminate].
    destruct (cmd =? 25) eqn:E; [|apply IH].
    apply Z.eqb_eq in E. subst cmd.
    destruct (unpack_Q data (offset + 24)) as [vmaddr|err] eqn:E1; cbn [bind]; [|discriminate].
    destruct (unpack_Q data (offset + 32)) as [vmsize|err] eqn:E2; cbn [bind]; [|discriminate].
    destruct (unpack_Q data (offset + 40)) as [fileoff|err] eqn:E3; cbn [bind]; [|discriminate].
    destruct ((vmaddr <=? va) && (va <? vmaddr + vmsize)) eqn:Ein; [|apply IH].
    apply andb_true_iff in Ein. destruct Ein as [Ea Eb].
    apply Z.leb_le in Ea. apply Z.ltb_lt in Eb.
    intros H. injection H as <-. right.
    exists offset, cmdsize, vmaddr, vmsize, fileoff. repeat split; assumption.
Qed.

(** X5. [va_to_foff] returns -1 or the file offset of [va] in a segment that
    contains it: an [LC_SEGMENT_64] command with
    [vmaddr <= va < vmaddr + vmsize], and the result is
    [fileoff + (va - vmaddr)], which lies in
    [[fileoff, fileoff + vmsize)] and is not negative. *)
Theorem va_to_foff_sound (data : bytes) (va f : Z) :
  Cfw.va_to_foff data va = Ok f -> f <> -1 ->
  exists off cmdsize vmaddr vmsize fileoff,
    unpack_II data off = Ok (0x19, cmdsize) /\
    unpack_Q data (off + 24) = Ok vmaddr /\
    unpack_Q data (off + 32) = Ok vmsize /\
    unpack_Q data (off + 40) = Ok fileoff /\
    vmaddr <= va < vmaddr + vmsize /\
    f = fileoff + (va - vmaddr) /\ 0 <= fileoff <= f /\ f < fileoff + vmsize.
Proof.
  unfold Cfw.va_to_foff.
  destruct (unpack_I data 16) as [ncmds|err]; cbn [bind]; [|discriminate].
  intros H Hne. apply va_to_foff_loop_sound in H.
  destruct H as [H|(off & cmdsize & vmaddr & vmsize & fileoff & H1 & H2 & H3 & H4 & H5 & H6)];
    [contradiction|].
  exists off, cmdsize, vmaddr, vmsize, fileoff.
  pose proof (unpack_Q_nonneg _ _ _ H4).
  repeat split; try assumption; lia.
Qed.

Lemma va_to_foff_sound_witness :
  exists off cmdsize vmaddr vmsize fileoff,
    unpack_II Samples.macho_symtab off = Ok (0x19, cmdsize) /\
    unpack_Q Samples.macho_symtab (off + 24) = Ok vmaddr /\
    unpack_Q Samples.macho_symtab (off + 32) = Ok vmsize /\
    unpack_Q Samples.macho_symtab (off + 40) = Ok fileoff /\
    vmaddr <= 0x10B0 < vmaddr + vmsize /\
    176 = fileoff + (0x10B0 - vmaddr) /\ 0 <= fileoff <= 176 /\ 176 < fileoff + vmsize.
Proof.
  apply (va_to_foff_sound Samples.macho_symtab 0x10B0 176).
  - vm_compute. reflexivity.
  - discriminate.
Defined.

Lemma find_symbol_va_loop_sound (data : bytes) (fragment : pystr)
    (symoff stroff strsize : Z) (n : nat) :
  forall i v,
    Cfw.find_symbol_va_loop data fragment symoff stroff strsize n i = Ok v ->
    v = -1 \/
    exists j n_strx end_,
      i <= j < i + Z.of_nat n /\
      unpack_I data (symoff + j * 16) = Ok n_strx /\
      unpack_Q data (symoff + j * 16 + 8) = Ok v /\
      n_strx < strsize /\ 0 < v /\
      index data 0 (stroff + n_strx) = Ok end_ /\
      contains (decode_ascii_replace (slice data (stroff + n_strx) end_)) fragment = true.
Proof.
  induction n as [|n IH]; intros i v; cbn [Cfw.find_symbol_va_loop].
  - intros H. injection H as <-. left. reflexivity.
  - cbv zeta.
    destruct (unpack_I data (symoff + i * 16)) as [n_strx|err] eqn:E1; cbn [bind];
      [|discriminate].
    destruct (unpack_Q data (symoff + i * 16 + 8)) as [n_value|err] eqn:E2; cbn [bind];
      [|discriminate].
    assert (Hnext : forall v,
              Cfw.find_symbol_va_loop data fragment symoff stroff strsize n (i + 1) = Ok v ->
              v = -1 \/
              exists j n_strx end_,
                i <= j < i + Z.of_nat (S n) /\
                unpack_I data (symoff + j * 16) = Ok n_strx /\
                unpack_Q data (symoff + j * 16 + 8) = Ok v /\
                n_strx < strsize /\ 0 < v /\
                index data 0 (stroff + n_strx) = Ok end_ /\
                contains (decode_ascii_replace (slice data (stroff + n_strx) end_)) fragment
                = true).
    { intros v' H. apply IH in H.
      destruct H as [H|(j & s & e & Hj & Hrest)]; [left; exact H|].
      right. exists j, s, e. split; [lia | exact Hrest]. }
    destruct ((n_strx >=? strsize) || (n_value =? 0)) eqn:Eskip; [apply Hnext|].
    apply orb_false_iff in Eskip. destruct Eskip as [Ea Eb].
    rewrite Z.geb_leb in Ea. apply Z.leb_gt in Ea. apply Z.eqb_neq in Eb.
    destruct (index data 0 (stroff + n_strx)) as [end_|err] eqn:E3; cbn [bind]; [|discriminate].
    destruct (contains _ fragment) eqn:Ec; [|apply Hnext].
    intros H. injection H as <-. right. exists i, n_strx, end_.
    pose proof (unpack_Q_nonneg _ _ _ E2).
    repeat split; try assumption; lia.
Qed.

(** X6. [find_symbol_va] returns -1 or the value, which is positive, of an
    entry of the symbol table whose name lies in the string table and
    contains the fragment. *)
Theorem find_symbol_va_sound (data : bytes) (fragment : pystr) (v : Z) :
  Cfw.find_symbol_va data fragment = Ok v -> v <> -1 ->
  0 < v /\
  exists symoff nsyms stroff strsize j n_strx end_,
    Cfw.find_symtab data = Ok (Some (symoff, nsyms, stroff, strsize)) /\
    0 <= j < nsyms /\
    unpack_I data (symoff + j * 16) = Ok n_strx /\
    unpack_Q data (symoff + j * 16 + 8) = Ok v /\
    n_strx < strsize /\
    index data 0 (stroff + n_strx) = Ok end_ /\
    contains (decode_ascii_replace (slice data (stroff + n_strx) end_)) fragment = true.
Proof.
  unfold Cfw.find_symbol_va.
  destruct (Cfw.find_symtab data) as [[[[[symoff nsyms] stroff] strsize]|]|err];
    cbn [bind]; [| |discriminate].
  - intros H Hne. apply find_symbol_va_loop_sound in H.
    destruct H as [H|(j & s & e & Hj & H1 & H2 & H3 & H4 & H5 & H6)]; [contradiction|].
    split; [exact H4|]. exists symoff, nsyms, stroff, strsize, j, s, e.
    repeat split; try assumption; lia.
  - intros H Hne. injection H as <-. contradiction.
Qed.

Lemma find_symbol_va_sound_witness :
  0 < 0x10B0 /\
  exists symoff nsyms stroff strsize j n_strx end_,
    Cfw.find_symtab Samples.macho_symtab = Ok (Some (symoff, nsyms, stroff, strsize)) /\
    0 <= j < nsyms /\
    unpack_I Samples.macho_symtab (symoff + j * 16) = Ok n_strx /\
    unpack_Q Samples.macho_symtab (symoff + j * 16 + 8) = Ok 0x10B0 /\
    n_strx < strsize /\
    index Samples.macho_symtab 0 (stroff + n_strx) = Ok end_ /\
    contains (decode_ascii_replace (slice Samples.macho_symtab (stroff + n_strx) end_))
      (of_string "should_hactivate") = true.
Proof.
  apply (find_symbol_va_sound Samples.macho_symtab (of_string "should_hactivate") 0x10B0).
  - vm_compute. reflexivity.
  - discriminate.
Defined.

Section NearbyBranch.
Context {D : Disassembler}.

Lemma find_nearby_branch_after_bl_sound (data : bytes) (check_foff text_end : Z)
    (d2s : list Z) (f : Z) :
  Cfw._find_nearby_branch_after_bl data check_foff text_end d2s = Some f ->
  exists d2 i rest,
    In d2 d2s /\ f = check_foff + d2 * 4 /\ f < text_end /\
    Cfw.disasm_at data f 1 = i :: rest /\ Cfw.is_cond_branch i = true.
Proof.
  induction d2s as [|d2 t IH]; cbn [Cfw._find_nearby_branch_after_bl]; [discriminate|].
  cbv zeta. destruct (check_foff + d2 * 4 >=? text_end) eqn:E; [discriminate|].
  rewrite Z.geb_leb in E. apply Z.leb_gt in E.
  assert (Hnext : Cfw._find_nearby_branch_after_bl data check_foff text_end t = Some f ->
                  exists d2' i rest,
                    In d2' (d2 :: t) /\ f = check_foff + d2' * 4 /\ f < text_end /\
                    Cfw.disasm_at data f 1 = i :: rest /\ Cfw.is_cond_branch i = true).
  { intros H. destruct (IH H) as (d & i & rest & Hin & Hrest).
    exists d, i, rest. split; [right; exact Hin | exact Hrest]. }
  destruct (Cfw.disasm_at data (check_foff + d2 * 4) 1) as [|i rest] eqn:Ed; [exact Hnext|].
  destruct (Cfw.is_cond_branch i) eqn:Ec; [|exact Hnext].
  intros H. injection H as <-. exists d2, i, rest.
  split; [left; reflexivity|]. repeat split; assumption.
Qed.

Lemma find_nearby_branch_A_sound (data : bytes) (ref_foff text_end : Z)
    (deltas : list Z) (f : Z) :
  Cfw._find_nearby_branch_A data ref_foff text_end deltas = Some f ->
  exists delta d2 i rest,
    In delta deltas /\ 1 <= d2 < 9 /\ f = ref_foff + (delta + d2) * 4 /\ f < text_end /\
    Cfw.disasm_at data f 1 = i :: rest /\ Cfw.is_cond_branch i = true.
Proof.
  induction deltas as [|delta t IH]; cbn [Cfw._find_nearby_branch_A]; [discriminate|].
  cbv zeta. destruct (ref_foff + delta * 4 >=? text_end); [discriminate|].
  assert (Hnext : Cfw._find_nearby_branch_A data ref_foff text_end t = Some f ->
                  exists delta' d2 i rest,
                    In delta' (delta :: t) /\ 1 <= d2 < 9 /\
                    f = ref_foff + (delta' + d2) * 4 /\ f < text_end /\
                    Cfw.disasm_at data f 1 = i :: rest /\ Cfw.is_cond_branch i = true).
  { intros H. destruct (IH H) as (d & d2 & i & rest & Hin & Hrest).
    exists d, d2, i, rest. split; [right; exact Hin | exact Hrest]. }
  destruct (Cfw.disasm_at data (ref_foff + delta * 4) 1) as [|i0 rest0]; [exact Hnext|].
  destruct (mn_is i0 "bl"); [|exact Hnext].
  intros H. apply find_nearby_branch_after_bl_sound in H.
  destruct H as (d2 & i & rest & Hin & Hf & Hlt & Hd & Hc).
  exists delta, d2, i, rest. split; [left; reflexivity|].
  split; [|split; [lia|repeat split; assumption]].
  vm_compute in Hin. repeat (destruct Hin as [<-|Hin]; [lia|]). contradiction.
Qed.

Lemma find_nearby_branch_B_sound (data : bytes) (ref_foff text_end : Z)
    (deltas : list Z) (f : Z) :
  Cfw._find_nearby_branch_B data ref_foff text_end deltas = Some f ->
  exists delta i rest,
    In delta deltas /\ f = ref_foff + delta * 4 /\ f < text_end /\
    Cfw.disasm_at data f 1 = i :: rest /\ Cfw.is_cond_branch i = true.
Proof.
  induction deltas as [|delta t IH]; cbn [Cfw._find_nearby_branch_B]; [discriminate|].
  cbv zeta. destruct (ref_foff + delta * 4 >=? text_end) eqn:E; [discriminate|].
  rewrite Z.geb_leb in E. apply Z.leb_gt in E.
  assert (Hnext : Cfw._find_nearby_branch_B data ref_foff text_end t = Some f ->
                  exists delta' i rest,
                    In delta' (delta :: t) /\ f = ref_foff + delta' * 4 /\ f < text_end /\
                    Cfw.disasm_at data f 1 = i :: rest /\ Cfw.is_cond_branch i = true).
  { intros H. destruct (IH H) as (d & i & rest & Hin & Hrest).
    exists d, i, rest. split; [right; exact Hin | exact Hrest]. }
  destruct (Cfw.disasm_at data (ref_foff + delta * 4) 1) as [|i rest] eqn:Ed; [exact Hnext|].
  destruct (Cfw.is_cond_branch i) eqn:Ec; [|exact Hnext].
  intros H. injection H as <-. exists delta, i, rest.
  split; [left; reflexivity|]. repeat split; assumption.
Qed.

Lemma find_nearby_branch_inv (data : bytes) (ref_foff text_foff text_size : Z) :
  0 <= Cfw._find_nearby_branch data ref_foff text_foff text_size ->
  exists i rest,
    Cfw._find_nearby_branch data ref_foff text_foff text_size < text_foff + text_size /\
    Cfw.disasm_at data (Cfw._find_nearby_branch data ref_foff text_foff text_size) 1
    = i :: rest /\
    Cfw.is_cond_branch i = true.
Proof.
  unfold Cfw._find_nearby_branch.
  destruct (Cfw._find_nearby_branch_A data ref_foff (text_foff + text_size) (range 0 16 1))
    as [f|] eqn:EA.
  - intros _. apply find_nearby_branch_A_sound in EA.
    destruct EA as (delta & d2 & i & rest & _ & _ & _ & Hlt & Hd & Hc).
    exists i, rest. repeat split; assumption.
  - destruct (Cfw._find_nearby_branch_B data ref_foff (text_foff + text_size) (range 1 33 1))
      as [f|] eqn:EB; [|lia].
    intros _. apply find_nearby_branch_B_sound in EB.
    destruct EB as (delta & i & rest & _ & _ & Hlt & Hd & Hc).
    exists i, rest. repeat split; assumption.
Qed.

(** X7. An offset that [_find_nearby_branch] returns, other than -1, is at
    1 to 32 instructions after the reference and before the end of the text
    section, and the instruction decoded there is a conditional branch
    ([cbz], [cbnz], [tbz], [tbnz] or [b.cond]). *)
Theorem find_nearby_branch_sound (data : bytes) (ref_foff text_foff text_size : Z) :
  Cfw._find_nearby_branch data ref_foff text_foff text_size <> -1 ->
  exists k i rest,
    1 <= k <= 32 /\
    Cfw._find_nearby_branch data ref_foff text_foff text_size = ref_foff + k * 4 /\
    ref_foff + k * 4 < text_foff + text_size /\
    Cfw.disasm_at data (ref_foff + k * 4) 1 = i :: rest /\ Cfw.is_cond_branch i = true.
Proof.
  unfold Cfw._find_nearby_branch.
  destruct (Cfw._find_nearby_branch_A data ref_foff (text_foff + text_size) (range 0 16 1))
    as [f|] eqn:EA.
  - intros _. apply find_nearby_branch_A_sound in EA.
    destruct EA as (delta & d2 & i & rest & Hin & Hd2 & -> & Hlt & Hd & Hc).
    exists (delta + d2), i, rest. split; [|repeat split; assumption].
    vm_compute in Hin. repeat (destruct Hin as [<-|Hin]; [lia|]). contradiction.
  - destruct (Cfw._find_nearby_branch_B data ref_foff (text_foff + text_size) (range 1 33 1))
      as [f|] eqn:EB; [|congruence].
    intros _. apply find_nearby_branch_B_sound in EB.
    destruct EB as (delta & i & rest & Hin & -> & Hlt & Hd & Hc).
    exists delta, i, rest. split; [|repeat split; assumption].
    vm_compute in Hin. repeat (destruct Hin as [<-|Hin]; [lia|]). contradiction.
Qed.

End NearbyBranch.

Lemma find_nearby_branch_sound_witness :
  exists k i rest,
    1 <= k <= 32 /\
    @Cfw._find_nearby_branch A64.capstone Samples.code_bl_cbz 0 0 20 = 0 + k * 4 /\
    0 + k * 4 < 0 + 20 /\
    @Cfw.disasm_at A64.capstone Samples.code_bl_cbz (0 + k * 4) 1 = i :: rest /\
    @Cfw.is_cond_branch i = true.
Proof.
  apply (@find_nearby_branch_sound A64.capstone Samples.code_bl_cbz 0 0 20).
  vm_compute. discriminate.
Defined.

Lemma range_up_split (n : nat) (s : Z) :
  forall a l1 x l2,
    range_up n a s = l1 ++ x :: l2 ->
    x = a + Z.of_nat (List.length l1) * s /\
    l2 = range_up (n - List.length l1 - 1) (x + s) s /\ (List.length l1 < n)%nat.
Proof.
  induction n as [|n IH]; intros a l1 x l2 H; cbn [range_up] in H.
  - destruct l1; discriminate.
  - destruct l1 as [|y l1]; cbn [app List.length] in *.
    + injection H as <- <-. split; [lia|]. split; [|lia].
      replace (S n - 0 - 1)%nat with n by lia. reflexivity.
    + injection H as <- H. apply IH in H. destruct H as (Hx & Hl & Hn).
      split; [lia|]. split; [|lia].
      replace (S n - S (List.length l1) - 1)%nat with (n - List.length l1 - 1)%nat by lia.
      exact Hl.
Qed.

(** The offsets a backward scan still has to visit after [x]. *)
Lemma range_down4_after (a lo x : Z) (l1 l2 : list Z) :
  range a (lo - 1) (-4) = l1 ++ x :: l2 ->
  lo <= x <= a /\ (a - x) mod 4 = 0 /\
  forall b, lo <= b < x -> (x - b) mod 4 = 0 -> In b l2.
Proof.
  unfold range. change (0 <? -4) with false. change (-4 <? 0) with true. cbv iota.
  replace ((a - (lo - 1) - -4 - 1) / - -4) with ((a - lo + 4) / 4) by (f_equal; lia).
  intros H. apply range_up_split in H. destruct H as (Hx & Hl & Hn).
  pose proof (Z.div_mod (a - lo + 4) 4 ltac:(lia)) as Hd.
  pose proof (Z.mod_pos_bound (a - lo + 4) 4 ltac:(lia)) as Hr.
  assert (Hq : 0 < (a - lo + 4) / 4) by lia.
  split; [lia|]. split.
  - replace (a - x) with (Z.of_nat (List.length l1) * 4) by lia. apply Z.mod_mul. lia.
  - intros b Hb Hm. rewrite Hl. apply in_range_up.
    pose proof (Z.div_mod (x - b) 4 ltac:(lia)) as Hdb. rewrite Hm in Hdb.
    exists (Z.to_nat ((x - b) / 4 - 1)). split; [|lia].
    assert (4 * ((x - b) / 4) + 4 * Z.of_nat (List.length l1) <= a - lo) by lia.
    lia.
Qed.

Section Launchd.
Context {D : Disassembler} {K : Assembler}.

(** The backward scan keeps the last branch it accepts, which is the
    earliest in the code. *)
Lemma jetsam_scan_last (data : bytes) (text_foff text_size : Z) (backs : list Z) :
  forall init,
    (Cfw.jetsam_scan data text_foff text_size backs init = init /\
     forall b t, In b backs -> ~ jetsam_site data text_foff text_size b t) \/
    exists l1 l2 po pt,
      Cfw.jetsam_scan data text_foff text_size backs init = (po, pt) /\
      backs = l1 ++ po :: l2 /\
      jetsam_site data text_foff text_size po pt /\
      forall b t, In b l2 -> ~ jetsam_site data text_foff text_size b t.
Proof.
  induction backs as [|back rest IH]; intros init; cbn [Cfw.jetsam_scan].
  - left. split; [reflexivity|]. intros b t [].
  - cbv zeta.
    assert (Hskip : (forall t, ~ jetsam_site data text_foff text_size back t) ->
              (Cfw.jetsam_scan data text_foff text_size rest init = init /\
               forall b t, In b (back :: rest) -> ~ jetsam_site data text_foff text_size b t) \/
              exists l1 l2 po pt,
                Cfw.jetsam_scan data text_foff text_size rest init = (po, pt) /\
                back :: rest = l1 ++ po :: l2 /\
                jetsam_site data text_foff text_size po pt /\
                forall b t, In b l2 -> ~ jetsam_site data text_foff text_size b t).
    { intros Hno. destruct (IH init) as [[He Hn] | (l1 & l2 & po & pt & He & Hb & Hs & Hn)].
      - left. split; [exact He|]. intros b t [<-|Hin]; [apply Hno | apply Hn; exact Hin].
      - right. exists (back :: l1), l2, po, pt.
        split; [exact He|]. split; [rewrite Hb; reflexivity|]. split; assumption. }
    destruct (Cfw.disasm_at data back 1) as [|insn irest] eqn:Ed.
    { apply Hskip. intros t (i & r & Hi & _). congruence. }
    destruct (mn_in insn Cfw.cond_mnemonics) eqn:Em; cbn [negb].
    2:{ apply Hskip. intros t (i & r & Hi & Hm & _). congruence. }
    destruct (Cfw._extract_branch_target_off insn <? 0) eqn:E0.
    { apply Z.ltb_lt in E0. apply Hskip. intros t (i & r & Hi & _ & Ht & _ & Hpos & _).
      rewrite Ed in Hi. injection Hi as <- <-. lia. }
    apply Z.ltb_ge in E0.
    destruct ((Cfw._extract_branch_target_off insn <? text_foff)
              || (Cfw._extract_branch_target_off insn >=? text_foff + text_size)) eqn:E1.
    { apply Hskip. intros t (i & r & Hi & _ & Ht & Hr & _).
      rewrite Ed in Hi. injection Hi as <- <-. subst t.
      apply orb_true_iff in E1. rewrite Z.geb_leb in E1.
      destruct E1 as [E1|E1]; [apply Z.ltb_lt in E1 | apply Z.leb_le in E1]; lia. }
    apply orb_false_iff in E1. rewrite Z.geb_leb in E1. destruct E1 as [E1 E2].
    apply Z.ltb_ge in E1. apply Z.leb_gt in E2.
    destruct (Cfw._is_return_block data _ text_foff text_size) eqn:Er.
    2:{ apply Hskip. intros t (i & r & Hi & _ & Ht & _ & _ & Hrb).
        rewrite Ed in Hi. injection Hi as <- <-. subst t. congruence. }
    right.
    destruct (IH (back, Cfw._extract_branch_target_off insn))
      as [[He Hn] | (l1 & l2 & po & pt & He & Hb & Hs & Hn)].
    + exists [], rest, back, (Cfw._extract_branch_target_off insn).
      split; [exact He|]. split; [reflexivity|]. split; [|exact Hn].
      exists insn, irest. repeat split; try assumption; lia.
    + exists (back :: l1), l2, po, pt.
      split; [exact He|]. split; [rewrite Hb; reflexivity|]. split; assumption.
Qed.

Lemma patch_launchd_jetsam_loop_patch (data : bytes) (sections : Cfw.sections_t)
    (text_va text_size text_foff : Z) (anchors : list bytes) (o : Cfw.outcome) :
  Cfw.patch_launchd_jetsam_loop data (slice data text_foff (text_foff + text_size))
    sections text_va text_size text_foff anchors = Ok o ->
  Cfw.returned o = true ->
  exists anchor po pt enc,
    In anchor anchors /\
    jetsam_patch data sections text_va text_size text_foff anchor po pt /\
    Cfw.asm_at (String.append "b #0x" (format_X pt)) po = Ok enc /\
    Cfw.written o = Some (slice_assign data po (po + 4) enc).
Proof.
  induction anchors as [|a rest IH]; cbn [Cfw.patch_launchd_jetsam_loop].
  - intros H. injection H as <-. discriminate.
  - assert (Hnext :
      Cfw.patch_launchd_jetsam_loop data (slice data text_foff (text_foff + text_size))
        sections text_va text_size text_foff rest = Ok o ->
      Cfw.returned o = true ->
      exists anchor po pt enc,
        In anchor (a :: rest) /\
        jetsam_patch data sections text_va text_size text_foff anchor po pt /\
        Cfw.asm_at (String.append "b #0x" (format_X pt)) po = Ok enc /\
        Cfw.written o = Some (slice_assign data po (po + 4) enc)).
    { intros H Hr. destruct (IH H Hr) as (anchor & po & pt & enc & Hin & Hrest).
      exists anchor, po, pt, enc. split; [right; exact Hin | exact Hrest]. }
    cbv zeta. destruct (find data a 0 <? 0) eqn:Efind; [exact Hnext|].
    apply Z.ltb_ge in Efind.
    destruct (Cfw.section_containing sections (find data a 0)) as [[[sva ssz] sfoff]|] eqn:Esec;
      [|exact Hnext].
    destruct (Cfw._find_cstring_start data (find data a 0) sfoff) as [ss|err] eqn:Ess;
      cbn [bind]; [|discriminate].
    destruct (Cfw._find_adrp_add_ref (slice data text_foff (text_foff + text_size))
                text_va (sva + (ss - sfoff)) <? 0) eqn:Eref; [exact Hnext|].
    apply Z.ltb_ge in Eref.
    set (ref_foff := text_foff
                     + (Cfw._find_adrp_add_ref (slice data text_foff (text_foff + text_size))
                          text_va (sva + (ss - sfoff)) - text_va)).
    set (lo := Z.max text_foff (ref_foff - 768)).
    set (backs := range (ref_foff - 4) (lo - 1) (-4)).
    destruct (jetsam_scan_last data text_foff text_size backs (-1, -1))
      as [[He Hn] | (l1 & l2 & po & pt & He & Hb & Hs & Hn)]; rewrite He.
    + change (-1 <? 0) with true. cbv iota. exact Hnext.
    + destruct (po <? 0) eqn:Ep; [exact Hnext|]. apply Z.ltb_ge in Ep.
      destruct (Cfw.asm_at _ po) as [enc|err] eqn:Ea; cbn [bind]; [|discriminate].
      intros H _. injection H as <-.
      apply range_down4_after in Hb. destruct Hb as (Hr & _ & Hin).
      exists a, po, pt, enc. split; [left; reflexivity|]. split; [|split; [exact Ea | reflexivity]].
      exists ref_foff. split.
      * exists (find data a 0), sva, sfoff, ss. split.
        -- split; [reflexivity|]. split; [exact Efind|]. split; [|exact Ess].
           exists ssz. exact Esec.
        -- cbv zeta. split; [exact Eref | reflexivity].
      * fold lo. split; [exact Ep|]. split; [lia|]. split; [exact Hs|].
        intros b t Hb Hm. apply Hn, Hin; assumption.
Qed.

(** X8. When [patch_launchd_jetsam] returns [True], the file written is
    the file read with one instruction replaced.  For one of the anchor
    strings, found in a section of the file, the reference is the pair that
    [_find_adrp_add_ref] finds in [__TEXT,__text] for the address of the
    start of the string that holds the anchor; the instruction replaced is
    a conditional branch in the 0x300 bytes of text before that reference
    whose target lies in [__TEXT,__text] and starts a return block, and the
    earliest such branch of that window; it is rewritten to the
    unconditional [b] to the same target. *)
Theorem patch_launchd_jetsam_effect (file : bytes) (o : Cfw.outcome) :
  Cfw.patch_launchd_jetsam file = Ok o -> Cfw.returned o = true ->
  exists sections text_va text_size text_foff anchor ref_foff po pt enc,
    Cfw.parse_macho_sections file = Ok sections /\
    Cfw.find_section sections [of_string "__TEXT,__text"]
    = Some (text_va, text_size, text_foff) /\
    In anchor jetsam_anchors /\
    jetsam_ref file sections text_va text_size text_foff anchor ref_foff /\
    0 <= po /\ Z.max text_foff (ref_foff - 0x300) <= po < ref_foff /\
    jetsam_site file text_foff text_size po pt /\
    (forall b t, Z.max text_foff (ref_foff - 0x300) <= b < po -> (po - b) mod 4 = 0 ->
                 ~ jetsam_site file text_foff text_size b t) /\
    Cfw.asm_at (String.append "b #0x" (format_X pt)) po = Ok enc /\
    Cfw.written o = Some (slice_assign file po (po + 4) enc).
Proof.
  unfold Cfw.patch_launchd_jetsam. cbv zeta.
  destruct (Cfw.parse_macho_sections file) as [sections|err]; cbn [bind]; [|discriminate].
  destruct (Cfw.find_section sections _) as [[[tv ts] tf]|] eqn:Ef.
  - intros H Hr.
    destruct (patch_launchd_jetsam_loop_patch _ _ _ _ _ _ _ H Hr)
      as (anchor & po & pt & enc & Hin & (rf & Href & H0 & Hw & Hs & Hmin) & Ha & Hwr).
    exists sections, tv, ts, tf, anchor, rf, po, pt, enc.
    split; [reflexivity|]. split; [exact Ef|]. split; [exact Hin|].
    split; [exact Href|]. split; [exact H0|]. split; [exact Hw|]. split; [exact Hs|].
    split; [exact Hmin|]. split; [exact Ha | exact Hwr].
  - intros H. injection H as <-. discriminate.
Qed.

Lemma patch_launchd_cache_loader_loop_effect (data : bytes) (sections : Cfw.sections_t)
    (text_va text_size text_foff : Z) (anchors : list bytes) (o : Cfw.outcome) :
  Cfw.patch_launchd_cache_loader_loop data sections text_va text_size text_foff anchors = Ok o ->
  Cfw.returned o = true ->
  exists branch_foff i rest,
    0 <= branch_foff < text_foff + text_size /\
    Cfw.disasm_at data branch_foff 1 = i :: rest /\ Cfw.is_cond_branch i = true /\
    Cfw.written o = Some (slice_assign data branch_foff (branch_foff + 4) Cfw.NOP).
Proof.
  induction anchors as [|a rest IH]; cbn [Cfw.patch_launchd_cache_loader_loop].
  - intros H. injection H as <-. discriminate.
  - cbv zeta. destruct (find data a 0 <? 0); [exact IH|].
    destruct (Cfw.section_containing sections (find data a 0)) as [[[sva ssz] sfoff]|];
      [|exact IH].
    destruct (Cfw._find_cstring_start data (find data a 0) sfoff) as [ss|err]; cbn [bind];
      [|discriminate].
    destruct (if negb (ss =? find data a 0) then index data 0 ss else Ok 0) as [x|err];
      cbn [bind]; [|discriminate].
    match goal with
    | |- context [if ?r <? 0
                  then Cfw.patch_launchd_cache_loader_loop _ _ _ _ _ _ else _] =>
      set (ref_off := r)
    end.
    destruct (ref_off <? 0); [exact IH|].
    set (ref_foff := text_foff + (ref_off - text_va)).
    destruct (Cfw._find_nearby_branch data ref_foff text_foff text_size >=? 0) eqn:Eb;
      [|exact IH].
    rewrite Z.geb_leb in Eb. apply Z.leb_le in Eb.
    intros H _. injection H as <-.
    destruct (find_nearby_branch_inv data ref_foff text_foff text_size Eb)
      as (i & irest & Hlt & Hd & Hc).
    exists (Cfw._find_nearby_branch data ref_foff text_foff text_size), i, irest.
    repeat split; assumption.
Qed.

Lemma patch_launchd_cache_loader_loop_branch (data : bytes) (sections : Cfw.sections_t)
    (text_va text_size text_foff : Z) (anchors : list bytes) (o : Cfw.outcome) :
  Cfw.patch_launchd_cache_loader_loop data sections text_va text_size text_foff anchors = Ok o ->
  Cfw.returned o = true ->
  exists anchor branch_foff,
    In anchor anchors /\
    cache_loader_branch data sections text_va text_size text_foff anchor branch_foff /\
    Cfw.written o = Some (slice_assign data branch_foff (branch_foff + 4) Cfw.NOP).
Proof.
  induction anchors as [|a rest IH]; cbn [Cfw.patch_launchd_cache_loader_loop].
  - intros H. injection H as <-. discriminate.
  - assert (Hnext :
      Cfw.patch_launchd_cache_loader_loop data sections text_va text_size text_foff rest
      = Ok o ->
      Cfw.returned o = true ->
      exists anchor branch_foff,
        In anchor (a :: rest) /\
        cache_loader_branch data sections text_va text_size text_foff anchor branch_foff /\
        Cfw.written o = Some (slice_assign data branch_foff (branch_foff + 4) Cfw.NOP)).
    { intros H Hr. destruct (IH H Hr) as (anchor & bf & Hin & Hrest).
      exists anchor, bf. split; [right; exact Hin | exact Hrest]. }
    cbv zeta. destruct (find data a 0 <? 0) eqn:Efind; [exact Hnext|].
    apply Z.ltb_ge in Efind.
    destruct (Cfw.section_containing sections (find data a 0)) as [[[sva ssz] sfoff]|] eqn:Esec;
      [|exact Hnext].
    destruct (Cfw._find_cstring_start data (find data a 0) sfoff) as [ss|err] eqn:Ess;
      cbn [bind]; [|discriminate].
    destruct (if negb (ss =? find data a 0) then index data 0 ss else Ok 0) as [x|err];
      cbn [bind]; [|discriminate].
    remember (Cfw._find_adrp_add_ref (slice data text_foff (text_foff + text_size))
                text_va (sva + (ss - sfoff))) as to_start eqn:Ets.
    remember (Cfw._find_adrp_add_ref (slice data text_foff (text_foff + text_size))
                text_va (sva + (find data a 0 - sfoff))) as to_match eqn:Etm.
    remember (if to_start <? 0 then to_match else to_start) as ref_off eqn:Ero.
    destruct (ref_off <? 0) eqn:Eneg; [exact Hnext|]. apply Z.ltb_ge in Eneg.
    destruct (Cfw._find_nearby_branch data (text_foff + (ref_off - text_va))
                text_foff text_size >=? 0) eqn:Eb; [|exact Hnext].
    rewrite Z.geb_leb in Eb. apply Z.leb_le in Eb.
    intros H _. injection H as <-.
    exists a, (Cfw._find_nearby_branch data (text_foff + (ref_off - text_va))
                 text_foff text_size).
    split; [left; reflexivity|]. split; [|reflexivity].
    exists (text_foff + (ref_off - text_va)). split; [|split; [reflexivity | exact Eb]].
    exists (find data a 0), sva, sfoff, ss. split.
    + split; [reflexivity|]. split; [exact Efind|]. split; [|exact Ess].
      exists ssz. exact Esec.
    + cbv zeta. rewrite <- Ets, <- Etm.
      destruct (to_start <? 0) eqn:E1.
      * apply Z.ltb_lt in E1. right. subst ref_off. split; [exact E1|]. split; [exact Eneg|].
        reflexivity.
      * apply Z.ltb_ge in E1. left. subst ref_off. split; [exact E1 | reflexivity].
Qed.

(** X9. When [patch_launchd_cache_loader] returns [True], the file written
    is the file read with one instruction replaced by [nop]: a conditional
    branch that lies before the end of [__TEXT,__text]. *)
Theorem patch_launchd_cache_loader_effect (file : bytes) (o : Cfw.outcome) :
  Cfw.patch_launchd_cache_loader file = Ok o -> Cfw.returned o = true ->
  exists sections text_va text_size text_foff branch_foff i rest,
    Cfw.parse_macho_sections file = Ok sections /\
    Cfw.find_section sections [of_string "__TEXT,__text"]
    = Some (text_va, text_size, text_foff) /\
    0 <= branch_foff < text_foff + text_size /\
    Cfw.disasm_at file branch_foff 1 = i :: rest /\ Cfw.is_cond_branch i = true /\
    Cfw.written o = Some (slice_assign file branch_foff (branch_foff + 4) Cfw.NOP).
Proof.
  unfold Cfw.patch_launchd_cache_loader. cbv zeta.
  destruct (Cfw.parse_macho_sections file) as [sections|err]; cbn [bind]; [|discriminate].
  destruct (Cfw.find_section sections _) as [[[tv ts] tf]|] eqn:Ef.
  - intros H Hr.
    destruct (patch_launchd_cache_loader_loop_effect _ _ _ _ _ _ _ H Hr)
      as (bf & i & rest & H0 & Hd & Hc & Hw).
    exists sections, tv, ts, tf, bf, i, rest. repeat split; try assumption; lia.
  - intros H. injection H as <-. discriminate.
Qed.

End Launchd.

Lemma patch_launchd_jetsam_effect_witness :
  exists o,
    @Cfw.patch_launchd_jetsam A64.capstone A64.keystone Samples.launchd = Ok o /\
    Cfw.returned o = true /\
    exists sections text_va text_size text_foff anchor ref_foff po pt enc,
      Cfw.parse_macho_sections Samples.launchd = Ok sections /\
      Cfw.find_section sections [of_string "__TEXT,__text"]
      = Some (text_va, text_size, text_foff) /\
      In anchor jetsam_anchors /\
      @jetsam_ref A64.capstone Samples.launchd sections text_va text_size text_foff
        anchor ref_foff /\
      0 <= po /\ Z.max text_foff (ref_foff - 0x300) <= po < ref_foff /\
      @jetsam_site A64.capstone Samples.launchd text_foff text_size po pt /\
      (forall b t, Z.max text_foff (ref_foff - 0x300) <= b < po -> (po - b) mod 4 = 0 ->
                   ~ @jetsam_site A64.capstone Samples.launchd text_foff text_size b t) /\
      @Cfw.asm_at A64.keystone (String.append "b #0x" (format_X pt)) po = Ok enc /\
      Cfw.written o = Some (slice_assign Samples.launchd po (po + 4) enc).
Proof.
  destruct (@Cfw.patch_launchd_jetsam A64.capstone A64.keystone Samples.launchd)
    as [o|e] eqn:E; [|vm_compute in E; discriminate].
  assert (Hr : Cfw.returned o = true) by (vm_compute in E; injection E as <-; reflexivity).
  exists o. split; [reflexivity|]. split; [exact Hr|].
  exact (@patch_launchd_jetsam_effect A64.capstone A64.keystone Samples.launchd o E Hr).
Defined.

Lemma patch_launchd_cache_loader_effect_witness :
  exists o,
    @Cfw.patch_launchd_cache_loader A64.capstone Samples.cache_loader = Ok o /\
    Cfw.returned o = true /\
    exists sections text_va text_size text_foff branch_foff i rest,
      Cfw.parse_macho_sections Samples.cache_loader = Ok sections /\
      Cfw.find_section sections [of_string "__TEXT,__text"]
      = Some (text_va, text_size, text_foff) /\
      0 <= branch_foff < text_foff + text_size /\
      @Cfw.disasm_at A64.capstone Samples.cache_loader branch_foff 1 = i :: rest /\
      Cfw.is_cond_branch i = true /\
      Cfw.written o
      = Some (slice_assign Samples.cache_loader branch_foff (branch_foff + 4) Cfw.NOP).
Proof.
  destruct (@Cfw.patch_launchd_cache_loader A64.capstone Samples.cache_loader)
    as [o|e] eqn:E; [|vm_compute in E; discriminate].
  assert (Hr : Cfw.returned o = true) by (vm_compute in E; injection E as <-; reflexivity).
  exists o. split; [reflexivity|]. split; [exact Hr|].
  exact (@patch_launchd_cache_loader_effect A64.capstone Samples.cache_loader o E Hr).
Defined.

(** ** More of the dylib injection *)

Lemma bytes_at_sub (d l : bytes) (off k : Z) (n m : nat) :
  bytes_at d off n = l -> 0 <= off -> 0 <= k -> (Z.to_nat k + m <= n)%nat ->
  bytes_at d (off + k) m = bytes_at l k m.
Proof.
  intros H H0 Hk Hm. subst l. unfold bytes_at.
  rewrite skipn_firstn_comm, firstn_firstn, skipn_skipn.
  replace (Init.Nat.min m (n - Z.to_nat k)) with m by lia.
  f_equal. f_equal. lia.
Qed.

Lemma unpack_I_sub (d l : bytes) (off k v : Z) (n : nat) :
  bytes_at d off n = l -> 0 <= off -> 0 <= k -> (Z.to_nat k + 4 <= n)%nat ->
  unpack_I l k = Ok v -> unpack_I d (off + k) = Ok v.
Proof.
  intros H H0 Hk Hn Hv.
  apply unpack_I_ok_inv in Hv; [|exact Hk]. destruct Hv as [Hl ->].
  assert (Hlen : off + k + 4 <= len d).
  { pose proof (f_equal (@List.length byte) H) as HL. unfold bytes_at in HL.
    rewrite length_firstn, length_skipn in HL. unfold len in *. lia. }
  rewrite unpack_I_in by lia. f_equal. f_equal.
  apply (bytes_at_sub d l off k n 4 H H0 Hk Hn).
Qed.

Lemma unpack_I_splice_other (d v : bytes) (off off' : Z) :
  0 <= off -> 0 <= off' -> off + len v <= len d ->
  off' + 4 <= off \/ off + len v <= off' ->
  unpack_I (splice d off v) off' = unpack_I d off'.
Proof.
  intros H0 H0' Hin Hdis.
  assert (Hs : len (splice d off v) = len d) by (apply splice_len; lia).
  destruct (Z_le_gt_dec (off' + 4) (len d)) as [Hi|Ho].
  - rewrite !unpack_I_in by lia. f_equal. f_equal.
    destruct Hdis as [Hb|Ha].
    + apply bytes_at_splice_before; lia.
    + apply bytes_at_splice_after; lia.
  - rewrite !unpack_I_out by lia. reflexivity.
Qed.

Lemma byte_at_repeat0 (n : nat) (i : Z) : byte_at (repeat x00 n) i = 0.
Proof.
  unfold byte_at. destruct (Nat.lt_ge_cases (Z.to_nat i) n) as [H|H].
  - rewrite nth_repeat_lt by exact H. reflexivity.
  - rewrite nth_overflow by (rewrite repeat_length; exact H). reflexivity.
Qed.

Lemma encode_ascii_ok (s : pystr) (enc : bytes) :
  Cfw.encode_ascii s = Ok enc ->
  Forall (fun c => 0 <= c < 128) s /\ enc = map z2b s.
Proof.
  unfold Cfw.encode_ascii.
  destruct (forallb _ s) eqn:E; [|discriminate].
  intros H. injection H as <-. split; [|reflexivity].
  rewrite forallb_forall in E. apply Forall_forall. intros c Hc.
  specialize (E c Hc). apply andb_true_iff in E. destruct E as [E1 E2].
  apply Z.leb_le in E1. apply Z.ltb_lt in E2. lia.
Qed.

Lemma align8 (n : Z) : Cfw._align n 8 = (n + 7) / 8 * 8.
Proof.
  unfold Cfw._align. change 8 with (2 ^ 3) at 1 2.
  rewrite land_lnot_ones by lia. change (2 ^ 3) with 8. f_equal. f_equal. lia.
Qed.

(** The load command [_inject_lc_load_dylib] builds for a path. *)
Lemma build_lc_spec (path : pystr) (cmd_size : Z) (lc : bytes) :
  Cfw.build_lc path = Ok (cmd_size, lc) ->
  Forall (fun c => 0 <= c < 128) path /\
  cmd_size = Cfw._align (24 + (len path + 1)) 8 /\
  cmd_size mod 8 = 0 /\ 25 + len path <= cmd_size < 33 + len path /\
  len lc = cmd_size /\
  unpack_I lc 0 = Ok 0xC /\ unpack_I lc 4 = Ok cmd_size /\ unpack_I lc 8 = Ok 24 /\
  unpack_I lc 12 = Ok 2 /\ unpack_I lc 16 = Ok 0 /\ unpack_I lc 20 = Ok 0 /\
  bytes_at lc 24 (List.length path) = map z2b path /\
  (forall i, 24 + len path <= i -> byte_at lc i = 0).
Proof.
  unfold Cfw.build_lc.
  destruct (Cfw.encode_ascii path) as [enc|e] eqn:Ee; cbv beta iota delta [bind]; [|discriminate].
  apply encode_ascii_ok in Ee. destruct Ee as [Hascii ->]. cbv zeta.
  assert (Hnb : len (map z2b path ++ [x00]) = len path + 1).
  { rewrite len_app. unfold len. rewrite length_map. reflexivity. }
  rewrite Hnb.
  remember (24 + (len path + 1)) as nb24 eqn:Enb.
  set (cs := Cfw._align nb24 8).
  pose proof (len_nonneg path) as Hp.
  assert (Hcs : cs mod 8 = 0 /\ 25 + len path <= cs < 33 + len path).
  { subst cs. rewrite align8.
    pose proof (Z.div_mod (nb24 + 7) 8 ltac:(lia)).
    pose proof (Z.mod_pos_bound (nb24 + 7) 8 ltac:(lia)).
    split; [apply Z.mod_mul; lia | lia]. }
  destruct Hcs as [Hmod Hrange].
  set (z := repeat x00 (Z.to_nat cs)).
  assert (Hz : len z = cs) by (subst z; unfold len; rewrite repeat_length; lia).
  destruct (pack_into_I z 0 12) as [l1|e] eqn:E1; cbv beta iota delta [bind]; [|discriminate].
  destruct (pack_into_I l1 4 cs) as [l2|e] eqn:E2; cbv beta iota delta [bind]; [|discriminate].
  destruct (pack_into_I l2 8 24) as [l3|e] eqn:E3; cbv beta iota delta [bind]; [|discriminate].
  destruct (pack_into_I l3 12 2) as [l4|e] eqn:E4; cbv beta iota delta [bind]; [|discriminate].
  destruct (pack_into_I l4 16 0) as [l5|e] eqn:E5; cbv beta iota delta [bind]; [|discriminate].
  destruct (pack_into_I l5 20 0) as [l6|e] eqn:E6; cbv beta iota delta [bind]; [|discriminate].
  intros H. injection H as <- <-.
  assert (R1 : unpack_I l6 0 = Ok 12).
  { rewrite (unpack_I_pack_other l5 l6 20 0 0) by (try lia; exact E6).
    rewrite (unpack_I_pack_other l4 l5 16 0 0) by (try lia; exact E5).
    rewrite (unpack_I_pack_other l3 l4 12 0 2) by (try lia; exact E4).
    rewrite (unpack_I_pack_other l2 l3 8 0 24) by (try lia; exact E3).
    rewrite (unpack_I_pack_other l1 l2 4 0 cs) by (try lia; exact E2).
    eapply unpack_I_pack_same; [|exact E1]; lia. }
  assert (R2 : unpack_I l6 4 = Ok cs).
  { rewrite (unpack_I_pack_other l5 l6 20 4 0) by (try lia; exact E6).
    rewrite (unpack_I_pack_other l4 l5 16 4 0) by (try lia; exact E5).
    rewrite (unpack_I_pack_other l3 l4 12 4 2) by (try lia; exact E4).
    rewrite (unpack_I_pack_other l2 l3 8 4 24) by (try lia; exact E3).
    eapply unpack_I_pack_same; [|exact E2]; lia. }
  assert (R3 : unpack_I l6 8 = Ok 24).
  { rewrite (unpack_I_pack_other l5 l6 20 8 0) by (try lia; exact E6).
    rewrite (unpack_I_pack_other l4 l5 16 8 0) by (try lia; exact E5).
    rewrite (unpack_I_pack_other l3 l4 12 8 2) by (try lia; exact E4).
    eapply unpack_I_pack_same; [|exact E3]; lia. }
  assert (R4 : unpack_I l6 12 = Ok 2).
  { rewrite (unpack_I_pack_other l5 l6 20 12 0) by (try lia; exact E6).
    rewrite (unpack_I_pack_other l4 l5 16 12 0) by (try lia; exact E5).
    eapply unpack_I_pack_same; [|exact E4]; lia. }
  assert (R5 : unpack_I l6 16 = Ok 0).
  { rewrite (unpack_I_pack_other l5 l6 20 16 0) by (try lia; exact E6).
    eapply unpack_I_pack_same; [|exact E5]; lia. }
  assert (R6 : unpack_I l6 20 = Ok 0) by (eapply unpack_I_pack_same; [|exact E6]; lia).
  assert (H4 : forall v, len (le_encode 4 v) = 4) by reflexivity.
  apply pack_into_I_ok_inv in E1; [|lia]. destruct E1 as (_ & L1 & E1).
  assert (Hl1 : len l1 = cs) by (rewrite E1, splice_len; rewrite ?H4; lia).
  apply pack_into_I_ok_inv in E2; [|lia]. destruct E2 as (_ & L2 & E2).
  assert (Hl2 : len l2 = cs) by (rewrite E2, splice_len; rewrite ?H4; lia).
  apply pack_into_I_ok_inv in E3; [|lia]. destruct E3 as (_ & L3 & E3).
  assert (Hl3 : len l3 = cs) by (rewrite E3, splice_len; rewrite ?H4; lia).
  apply pack_into_I_ok_inv in E4; [|lia]. destruct E4 as (_ & L4 & E4).
  assert (Hl4 : len l4 = cs) by (rewrite E4, splice_len; rewrite ?H4; lia).
  apply pack_into_I_ok_inv in E5; [|lia]. destruct E5 as (_ & L5 & E5).
  assert (Hl5 : len l5 = cs) by (rewrite E5, splice_len; rewrite ?H4; lia).
  apply pack_into_I_ok_inv in E6; [|lia]. destruct E6 as (_ & L6 & E6).
  assert (Hl6 : len l6 = cs) by (rewrite E6, splice_len; rewrite ?H4; lia).
  assert (Hsa : slice_assign l6 24 nb24 (map z2b path ++ [x00])
                = splice l6 24 (map z2b path ++ [x00])).
  { replace nb24 with (24 + len (map z2b path ++ [x00])) by lia.
    apply slice_assign_splice; lia. }
  rewrite !Hsa.
  assert (Hfin : len (splice l6 24 (map z2b path ++ [x00])) = cs)
    by (rewrite splice_len; lia).
  split; [exact Hascii|]. split; [unfold cs; rewrite Enb; reflexivity|].
  split; [exact Hmod|]. split; [exact Hrange|]. split; [exact Hfin|].
  rewrite !unpack_I_splice_other by lia.
  do 6 (split; [assumption|]). split.
  - replace (List.length path) with (List.length (map z2b path)) by apply length_map.
    transitivity (bytes_at (map z2b path ++ [x00]) 0 (List.length (map z2b path))).
    + replace 24 with (24 + 0) at 1 by lia.
      apply (bytes_at_sub _ _ 24 0 (List.length (map z2b path ++ [x00]))); try lia.
      * apply bytes_at_splice_same; lia.
      * rewrite length_app. cbn. lia.
    + unfold bytes_at. cbn [Z.to_nat skipn]. rewrite firstn_app, firstn_all, Nat.sub_diag.
      cbn. apply app_nil_r.
  - intros i Hi. destruct (Z.eq_dec i (24 + len path)) as [->|Hne].
    + unfold byte_at, splice.
      rewrite app_nth2 by (rewrite length_firstn; unfold len in *; lia).
      rewrite length_firstn.
      rewrite app_nth1
        by (rewrite length_app, length_map; cbn [List.length]; unfold len in *; lia).
      rewrite app_nth2 by (rewrite length_map; unfold len in *; lia).
      rewrite length_map.
      replace (Z.to_nat (24 + len path) - Init.Nat.min (Z.to_nat 24) (List.length l6)
               - List.length path)%nat with 0%nat by (unfold len in *; lia).
      reflexivity.
    + rewrite byte_at_splice_outside by lia.
      rewrite E6, byte_at_splice_outside by (rewrite ?H4; lia).
      rewrite E5, byte_at_splice_outside by (rewrite ?H4; lia).
      rewrite E4, byte_at_splice_outside by (rewrite ?H4; lia).
      rewrite E3, byte_at_splice_outside by (rewrite ?H4; lia).
      rewrite E2, byte_at_splice_outside by (rewrite ?H4; lia).
      rewrite E1, byte_at_splice_outside by (rewrite ?H4; lia).
      apply byte_at_repeat0.
Qed.

Lemma unpack_II_of_I (d : bytes) (off a b : Z) :
  0 <= off -> unpack_I d off = Ok a -> unpack_I d (off + 4) = Ok b ->
  unpack_II d off = Ok (a, b).
Proof.
  intros H0 Ha Hb.
  apply unpack_I_ok_inv in Ha; [|lia]. destruct Ha as [_ ->].
  apply unpack_I_ok_inv in Hb; [|lia]. destruct Hb as [Hl ->].
  unfold unpack_II. rewrite field_in by lia. cbn [bind]. do 2 f_equal.
  - change (Z.to_nat 8) with (4 + 4)%nat. rewrite bytes_at_split by lia.
    rewrite firstn_app.
    assert (HL : List.length (bytes_at d off 4) = 4%nat).
    { unfold bytes_at. rewrite length_firstn, length_skipn. unfold len in *. lia. }
    rewrite HL, firstn_all2 by lia. cbn [Nat.sub firstn]. rewrite app_nil_r. reflexivity.
  - change (Z.to_nat 8) with (4 + 4)%nat. rewrite bytes_at_split by lia.
    assert (HL : List.length (bytes_at d off 4) = 4%nat).
    { unfold bytes_at. rewrite length_firstn, length_skipn. unfold len in *. lia. }
    rewrite skipn_app, HL, skipn_all2 by lia. cbn [Nat.sub skipn app]. reflexivity.
Qed.

Lemma first_section_le_len (d : bytes) (r : Z) :
  Cfw._find_first_section_offset d = Ok r -> r <= len d.
Proof.
  unfold Cfw._find_first_section_offset.
  destruct (unpack_I d 0) as [magic|e]; cbn [bind]; [|discriminate].
  destruct (negb (magic =? 4277009103)).
  - intros H. injection H as <-. pose proof (len_nonneg d). lia.
  - destruct (unpack_I d 16) as [n|e]; cbn [bind]; [|discriminate].
    intros H. apply first_section_cmds_le in H. lia.
Qed.

Lemma lc_write_frame (d d' lc : bytes) (base n s c : Z) (ok : bool) :
  0 <= base -> 0 <= s -> len lc = c -> base + 32 + s + c <= len d ->
  lc_write d base n s c lc = Ok (ok, d') ->
  forall i, 0 <= i -> ~ (base + 16 <= i < base + 24) ->
            ~ (base + 32 + s <= i < base + 32 + s + c) ->
            byte_at d' i = byte_at d i.
Proof.
  intros H0 Hs Hc Hfit. unfold lc_write. cbv zeta. subst c.
  pose proof (len_nonneg lc) as Hlc.
  rewrite slice_assign_splice by lia.
  assert (Hl0 : len (splice d (base + 32 + s) lc) = len d) by (apply splice_len; lia).
  destruct (pack_into_I _ (base + 16) _) as [d1|e] eqn:E1; cbn [bind]; [|discriminate].
  destruct (pack_into_I d1 (base + 20) _) as [d2|e] eqn:E2; cbn [bind]; [|discriminate].
  intros H. injection H as <- <-.
  assert (H4 : forall v, len (le_encode 4 v) = 4) by reflexivity.
  apply pack_into_I_ok_inv in E1; [|lia]. destruct E1 as (_ & L1 & E1).
  assert (Hl1 : len d1 = len d) by (rewrite E1, splice_len; rewrite ?H4; lia).
  apply pack_into_I_ok_inv in E2; [|lia]. destruct E2 as (_ & L2 & E2).
  intros i Hi Hh Hcmd.
  rewrite E2, byte_at_splice_outside by (rewrite ?H4; lia).
  rewrite E1, byte_at_splice_outside by (rewrite ?H4; lia).
  apply byte_at_splice_outside; lia.
Qed.

Lemma byte_at_sub (d l : bytes) (off k : Z) (n : nat) :
  bytes_at d off n = l -> 0 <= off -> 0 <= k -> (Z.to_nat k < n)%nat ->
  k < len l -> byte_at d (off + k) = byte_at l k.
Proof.
  intros H H0 Hk Hn Hl.
  assert (Hone : bytes_at d (off + k) 1 = bytes_at l k 1)
    by (apply (bytes_at_sub d l off k n 1 H); lia).
  unfold byte_at. unfold bytes_at in Hone.
  destruct (skipn (Z.to_nat (off + k)) d) as [|x xs] eqn:E1;
    destruct (skipn (Z.to_nat k) l) as [|y ys] eqn:E2;
    cbn [firstn] in Hone; try discriminate.
  - apply (f_equal (@List.length byte)) in E2. rewrite length_skipn in E2.
    cbn [List.length] in E2. unfold len in *. lia.
  - injection Hone as ->.
    rewrite <- (Nat.add_0_r (Z.to_nat (off + k))).
    rewrite <- (Nat.add_0_r (Z.to_nat k)).
    rewrite <- !nth_skipn, E1, E2. reflexivity.
Qed.

(** In the padding case the work of [_inject_lc_load_dylib] is the write of
    the command that [build_lc] made. *)
Lemma inject_padding_lc_write (data : bytes) (base : Z) (path : pystr)
    (ncmds sizeofcmds first_section : Z) (ok : bool) (d' : bytes) :
  0 <= base ->
  unpack_I data base = Ok 0xFEEDFACF ->
  unpack_I data (base + 16) = Ok ncmds ->
  unpack_I data (base + 20) = Ok sizeofcmds ->
  Cfw._find_first_section_offset (slice_from data base) = Ok first_section ->
  base + 32 + sizeofcmds + Cfw._align (24 + (len path + 1)) 8 <= base + first_section ->
  Cfw._inject_lc_load_dylib data base path = Ok (ok, d') ->
  exists lc,
    Cfw.build_lc path = Ok (Cfw._align (24 + (len path + 1)) 8, lc) /\
    lc_write data base ncmds sizeofcmds (Cfw._align (24 + (len path + 1)) 8) lc
    = Ok (ok, d') /\
    0 <= sizeofcmds /\
    base + 32 + sizeofcmds + Cfw._align (24 + (len path + 1)) 8 <= len data.
Proof.
  intros H0 Hm Hn Hs Hfs Hpad.
  unfold Cfw._inject_lc_load_dylib. rewrite Hm, Hn, Hs. cbn [bind].
  change (4277009103 =? 4277009103) with true. cbn [negb].
  destruct (Cfw.build_lc path) as [[cs lc]|e] eqn:Elc; cbn [bind]; [|discriminate].
  pose proof (build_lc_spec _ _ _ Elc) as (_ & Ecs & _ & Hrange & _).
  subst cs. remember (Cfw._align (24 + (len path + 1)) 8) as cmd_size eqn:Ecs.
  cbv zeta. rewrite Hfs. cbn [bind].
  pose proof (len_nonneg path) as Hp.
  assert (Hs0 : 0 <= sizeofcmds).
  { apply unpack_I_ok_inv in Hs; [|lia]. destruct Hs as [_ ->]. apply le_decode_range. }
  assert (Hbl : base + 4 <= len data) by (apply unpack_I_ok_inv in Hm; lia).
  assert (Hfl : base + first_section <= len data).
  { apply first_section_le_len in Hfs. unfold slice_from in Hfs.
    rewrite adjust_in, len_skipn in Hfs by lia. lia. }
  destruct (first_section <? 0) eqn:E0; [apply Z.ltb_lt in E0; lia|].
  destruct (base + first_section - (base + 32 + sizeofcmds) <? cmd_size) eqn:Ea;
    [apply Z.ltb_lt in Ea; lia|].
  cbn [bind andb].
  change (bind _ _) with (lc_write data base ncmds sizeofcmds cmd_size lc).
  intros H. rewrite Ea in H. cbn [andb] in H.
  exists lc. split; [reflexivity|]. split; [exact H|]. split; lia.
Qed.

(** What reads back from a buffer that holds, at [off], the command that
    [build_lc] makes for [path]. *)
Lemma built_lc_reads (d lc : bytes) (path : pystr) (off cmd_size : Z) :
  Cfw.build_lc path = Ok (cmd_size, lc) ->
  0 <= off -> bytes_at d off (List.length lc) = lc ->
  unpack_II d off = Ok (0xC, cmd_size) /\
  unpack_I d (off + 8) = Ok 24 /\
  bytes_at d (off + 24) (List.length path) = map z2b path /\
  (forall k, 24 + len path <= k < cmd_size -> byte_at d (off + k) = 0).
Proof.
  intros Elc H0 Hb. apply build_lc_spec in Elc.
  destruct Elc as (_ & _ & _ & Hrange & Hlen & R0 & R4 & R8 & _ & _ & _ & Hname & Hz).
  pose proof (len_nonneg path) as Hp.
  assert (Hnl : List.length lc = Z.to_nat cmd_size) by (unfold len in Hlen; lia).
  assert (U0 : unpack_I d off = Ok 12).
  { replace off with (off + 0) by lia.
    apply (unpack_I_sub d lc off 0 12 _ Hb); try lia; exact R0. }
  assert (U4 : unpack_I d (off + 4) = Ok cmd_size).
  { apply (unpack_I_sub d lc off 4 cmd_size _ Hb); try lia; exact R4. }
  split; [apply unpack_II_of_I; assumption|].
  split; [apply (unpack_I_sub d lc off 8 24 _ Hb); try lia; exact R8|].
  split.
  - rewrite <- Hname.
    apply (bytes_at_sub d lc off 24 _ _ Hb); unfold len in *; lia.
  - intros k Hk. rewrite <- (Hz k) by lia.
    apply (byte_at_sub d lc off k _ Hb); lia.
Qed.

(** X10. Injection into the padding.  When the padding between the load
    commands and the first section holds the new command,
    [_inject_lc_load_dylib] returns [True] and keeps the length of the
    buffer; the header then counts one command more and [cmd_size] bytes
    more; the bytes at the old end of the load commands read as an
    [LC_LOAD_DYLIB] command of [cmd_size] bytes whose name, at offset 24, is
    the path followed by a null byte; and no other byte of the buffer
    changes, so the data of every section is as it was. *)
Theorem inject_into_padding_effect (data : bytes) (base : Z) (path : pystr)
    (ncmds sizeofcmds first_section : Z) (ok : bool) (d' : bytes) :
  0 <= base ->
  unpack_I data base = Ok 0xFEEDFACF ->
  unpack_I data (base + 16) = Ok ncmds ->
  unpack_I data (base + 20) = Ok sizeofcmds ->
  Cfw._find_first_section_offset (slice_from data base) = Ok first_section ->
  let cmd_size := Cfw._align (24 + (len path + 1)) 8 in
  let header_end := base + 32 + sizeofcmds in
  header_end + cmd_size <= base + first_section ->
  Cfw._inject_lc_load_dylib data base path = Ok (ok, d') ->
  ok = true /\ len d' = len data /\
  unpack_I d' (base + 16) = Ok (ncmds + 1) /\
  unpack_I d' (base + 20) = Ok (sizeofcmds + cmd_size) /\
  unpack_II d' header_end = Ok (0xC, cmd_size) /\
  unpack_I d' (header_end + 8) = Ok 24 /\
  bytes_at d' (header_end + 24) (List.length path) = map z2b path /\
  byte_at d' (header_end + 24 + len path) = 0 /\
  (forall i, 0 <= i -> ~ (base + 16 <= i < base + 24) ->
             ~ (header_end <= i < header_end + cmd_size) ->
             byte_at d' i = byte_at data i).
Proof.
  intros H0 Hm Hn Hs Hfs cmd_size header_end Hpad H.
  destruct (inject_padding_lc_write data base path ncmds sizeofcmds first_section ok d'
              H0 Hm Hn Hs Hfs Hpad H) as (lc & Elc & Hw & Hs0 & Hfit).
  fold cmd_size in Elc, Hw, Hfit.
  pose proof (build_lc_spec _ _ _ Elc) as (_ & _ & _ & Hrange & Hlen & _).
  destruct (lc_write_spec data d' lc base ncmds sizeofcmds cmd_size ok H0 Hs0 Hlen Hfit Hw)
    as (Hok & Hl & Hb & Hr1 & Hr2 & _).
  pose proof (lc_write_frame data d' lc base ncmds sizeofcmds cmd_size ok H0 Hs0 Hlen Hfit Hw)
    as Hframe.
  fold header_end in Hb, Hframe.
  assert (Hhe : 0 <= header_end) by (unfold header_end; lia).
  destruct (built_lc_reads d' lc path header_end cmd_size Elc Hhe Hb)
    as (HII & H8 & Hname & Hz).
  pose proof (len_nonneg path) as Hp.
  split; [exact Hok|]. split; [exact Hl|]. split; [exact Hr1|]. split; [exact Hr2|].
  split; [exact HII|]. split; [exact H8|]. split; [exact Hname|]. split.
  - replace (header_end + 24 + len path) with (header_end + (24 + len path)) by lia.
    apply Hz. lia.
  - intros i Hi Hh Hc. apply Hframe; assumption.
Qed.

Lemma inject_into_padding_effect_witness :
  exists d',
    Cfw._inject_lc_load_dylib Images.macho_padded 0 (of_string "/a.dylib") = Ok (true, d') /\
    len d' = len Images.macho_padded /\
    unpack_I d' (0 + 16) = Ok (1 + 1) /\
    unpack_II d' (0 + 32 + 152) = Ok (0xC, 40) /\
    bytes_at d' (0 + 32 + 152 + 24) 8 = B "/a.dylib".
Proof.
  destruct (Cfw._inject_lc_load_dylib Images.macho_padded 0 (of_string "/a.dylib"))
    as [[ok d']|e] eqn:E; [|vm_compute in E; discriminate].
  destruct (inject_into_padding_effect Images.macho_padded 0 (of_string "/a.dylib")
              1 152 224 ok d')
    as (Hok & Hl & H16 & _ & HII & _ & Hname & _).
  - lia.
  - vm_compute. reflexivity.
  - vm_compute. reflexivity.
  - vm_compute. reflexivity.
  - vm_compute. reflexivity.
  - vm_compute. discriminate.
  - exact E.
  - exists d'. subst ok. split; [reflexivity|]. split; [exact Hl|]. split; [exact H16|].
    split; [exact HII | exact Hname].
Defined.

(** ** Injection, then the check *)

Lemma b2z_inj (a b : byte) : b2z a = b2z b -> a = b.
Proof. intros H. rewrite <- (z2b_b2z a), <- (z2b_b2z b), H. reflexivity. Qed.

Lemma bytes_at_ext (d d' : bytes) (a : Z) (n : nat) :
  len d' = len d -> 0 <= a ->
  (forall i, a <= i < a + Z.of_nat n -> byte_at d' i = byte_at d i) ->
  bytes_at d' a n = bytes_at d a n.
Proof.
  intros Hl Ha H. unfold bytes_at.
  apply (nth_ext _ _ x00 x00).
  - rewrite !length_firstn, !length_skipn. unfold len in Hl. lia.
  - intros k Hk. rewrite length_firstn in Hk.
    rewrite !nth_firstn.
    destruct (k <? n)%nat eqn:E; [|reflexivity].
    apply Nat.ltb_lt in E. rewrite !nth_skipn.
    apply b2z_inj.
    specialize (H (a + Z.of_nat k) ltac:(lia)). unfold byte_at in H.
    replace (Z.to_nat (a + Z.of_nat k)) with (Z.to_nat a + k)%nat in H by lia.
    exact H.
Qed.

Lemma field_ext (size off : Z) (d d' : bytes) :
  len d' = len d -> 0 <= off -> 0 <= size ->
  (forall i, off <= i < off + size -> byte_at d' i = byte_at d i) ->
  field size d' off = field size d off.
Proof.
  intros Hl H0 Hs H. unfold field. rewrite Hl.
  destruct (off <? 0) eqn:E; [apply Z.ltb_lt in E; lia|].
  destruct ((off <? 0) || (len d - off <? size)); [reflexivity|].
  f_equal. apply (bytes_at_ext d d' off (Z.to_nat size) Hl H0).
  intros i Hi. apply H. lia.
Qed.

Lemma unpack_I_ext (d d' : bytes) (off : Z) :
  len d' = len d -> 0 <= off ->
  (forall i, off <= i < off + 4 -> byte_at d' i = byte_at d i) ->
  unpack_I d' off = unpack_I d off.
Proof. intros Hl H0 H. unfold unpack_I. rewrite (field_ext 4 off d d'); auto. lia. Qed.

Lemma unpack_II_ext (d d' : bytes) (off : Z) :
  len d' = len d -> 0 <= off ->
  (forall i, off <= i < off + 8 -> byte_at d' i = byte_at d i) ->
  unpack_II d' off = unpack_II d off.
Proof. intros Hl H0 H. unfold unpack_II. rewrite (field_ext 8 off d d'); auto. lia. Qed.

Lemma unpack_I_be_ext (d d' : bytes) (off : Z) :
  len d' = len d -> 0 <= off ->
  (forall i, off <= i < off + 4 -> byte_at d' i = byte_at d i) ->
  unpack_I_be d' off = unpack_I_be d off.
Proof. intros Hl H0 H. unfold unpack_I_be. rewrite (field_ext 4 off d d'); auto. lia. Qed.

Lemma occurs_at_zero (d : bytes) (j : Z) :
  occurs_at d [x00] j <-> 0 <= j < len d /\ byte_at d j = 0.
Proof.
  rewrite occurs_at_bytes. cbn [List.length]. unfold bytes_at, byte_at.
  split.
  - intros [H0 H].
    destruct (skipn (Z.to_nat j) d) as [|x xs] eqn:E; cbn [firstn] in H; [discriminate|].
    injection H as ->.
    assert (Hlen : (Z.to_nat j < List.length d)%nat).
    { apply (f_equal (@List.length byte)) in E. rewrite length_skipn in E.
      cbn [List.length] in E. lia. }
    split; [unfold len; lia|].
    rewrite <- (Nat.add_0_r (Z.to_nat j)), <- nth_skipn, E. reflexivity.
  - intros [[H0 Hl] H]. split; [exact H0|].
    destruct (skipn (Z.to_nat j) d) as [|x xs] eqn:E.
    + apply (f_equal (@List.length byte)) in E. rewrite length_skipn in E.
      cbn [List.length] in E. unfold len in Hl. lia.
    + cbn [firstn]. f_equal.
      rewrite <- (Nat.add_0_r (Z.to_nat j)), <- nth_skipn, E in H. cbn [nth] in H.
      apply b2z_inj. exact H.
Qed.

Lemma index_zero_inv (d : bytes) (start p : Z) :
  0 <= start -> index d 0 start = Ok p ->
  start <= p < len d /\ byte_at d p = 0 /\
  forall j, start <= j < p -> byte_at d j <> 0.
Proof.
  intros H0. unfold index. cbn [negb andb Z.leb Z.ltb Z.compare].
  change (z2b 0) with x00.
  destruct (find d [x00] start <? 0) eqn:E; [discriminate|].
  apply Z.ltb_ge in E. intros H. injection H as <-.
  destruct (Z_le_gt_dec start (len d)) as [Hle|Hgt].
  - destruct (find_first d [x00] start ltac:(lia)) as [[Hm _]|(Hs & Ho & Hfirst)]; [lia|].
    apply occurs_at_zero in Ho. destruct Ho as [Hr Hz].
    split; [lia|]. split; [exact Hz|].
    intros j Hj Hzj. apply (Hfirst j Hj). apply occurs_at_zero. split; [lia|exact Hzj].
  - exfalso. unfold find in E.
    destruct (start <? 0) eqn:E1; [apply Z.ltb_lt in E1; lia|].
    destruct (len d <? start) eqn:E2; [lia|]. apply Z.ltb_ge in E2. lia.
Qed.

Lemma index_zero_ex (d : bytes) (start q : Z) :
  0 <= start <= q -> q < len d -> byte_at d q = 0 ->
  exists p, index d 0 start = Ok p /\ start <= p <= q.
Proof.
  intros Hs Hq Hz. unfold index. cbn [negb andb Z.leb Z.ltb Z.compare].
  change (z2b 0) with x00.
  destruct (find_first d [x00] start ltac:(lia)) as [[_ Hno]|(Hge & Ho & Hfirst)].
  - exfalso. apply (Hno q ltac:(lia)). apply occurs_at_zero. split; [lia|exact Hz].
  - destruct (find d [x00] start <? 0) eqn:E; [apply Z.ltb_lt in E; lia|].
    eexists. split; [reflexivity|]. split; [exact Hge|].
    destruct (Z_le_gt_dec (find d [x00] start) q) as [|Hgt]; [assumption|].
    exfalso. apply (Hfirst q ltac:(lia)). apply occurs_at_zero. split; [lia|exact Hz].
Qed.

Lemma slice_bytes_at (d : bytes) (a b : Z) :
  0 <= a <= b -> b <= len d -> slice d a b = bytes_at d a (Z.to_nat (b - a)).
Proof.
  intros Ha Hb. unfold slice, bytes_at. rewrite !adjust_in by lia. reflexivity.
Qed.

Lemma decode_ascii_map (s : pystr) :
  Forall (fun c => 0 <= c < 128) s -> decode_ascii_replace (map z2b s) = s.
Proof.
  unfold decode_ascii_replace. induction 1 as [|c t Hc _ IH]; [reflexivity|].
  cbn [map]. rewrite IH, b2z_z2b, Z.mod_small by lia.
  destruct (c <? 128) eqn:E; [reflexivity|apply Z.ltb_ge in E; lia].
Qed.

Lemma commands_end_ge (data : bytes) (n : nat) :
  forall off e, commands_end data n off = Some e -> off <= e.
Proof.
  induction n as [|n IH]; intros off e; cbn [commands_end].
  - intros H. injection H as <-. lia.
  - destruct (unpack_II data off) as [[c cs]|]; [|discriminate].
    destruct (12 <=? cs) eqn:E; [|discriminate]. apply Z.leb_le in E.
    intros H. apply IH in H. lia.
Qed.

(** The check finds a command that [build_lc] made for [path]. *)
Lemma check_loop_finds_built (d lc : bytes) (path : pystr) (off cmd_size : Z) (m : nat) :
  Cfw.build_lc path = Ok (cmd_size, lc) ->
  0 <= off -> bytes_at d off (List.length lc) = lc ->
  ~ In 0 path ->
  Cfw._check_existing_dylib_loop d path (S m) off = Ok true.
Proof.
  intros Elc H0 Hb Hnz.
  pose proof (build_lc_spec _ _ _ Elc) as (Hascii & _ & _ & Hrange & Hlen & _).
  destruct (built_lc_reads d lc path off cmd_size Elc H0 Hb) as (HII & H8 & Hname & Hz).
  pose proof (len_nonneg path) as Hp.
  assert (Hld : off + cmd_size <= len d).
  { pose proof (f_equal (@List.length byte) Hb) as HL. unfold bytes_at in HL.
    rewrite length_firstn, length_skipn in HL. unfold len in *. lia. }
  assert (Hnonzero : forall j, off + 24 <= j < off + 24 + len path -> byte_at d j <> 0).
  { intros j Hj.
    assert (Hone : byte_at d j = nth (Z.to_nat (j - (off + 24))) path 0).
    { unfold byte_at.
      replace (Z.to_nat j) with (Z.to_nat (off + 24) + Z.to_nat (j - (off + 24)))%nat by lia.
      rewrite <- nth_skipn.
      assert (Hf : nth (Z.to_nat (j - (off + 24))) (bytes_at d (off + 24) (List.length path)) x00
                   = nth (Z.to_nat (j - (off + 24))) (skipn (Z.to_nat (off + 24)) d) x00).
      { unfold bytes_at. rewrite nth_firstn.
        destruct (Z.to_nat (j - (off + 24)) <? List.length path)%nat eqn:E; [reflexivity|].
        apply Nat.ltb_ge in E. unfold len in Hj. lia. }
      rewrite <- Hf, Hname.
      change x00 with (z2b 0). rewrite map_nth.
      assert (Hin : In (nth (Z.to_nat (j - (off + 24))) path 0) path)
        by (apply nth_In; unfold len in Hj; lia).
      rewrite Forall_forall in Hascii. specialize (Hascii _ Hin). cbv beta in Hascii.
      rewrite b2z_z2b. apply Z.mod_small.
      destruct Hascii as [Ha1 Ha2]. split; [exact Ha1|].
      eapply Z.lt_trans; [exact Ha2|reflexivity]. }
    rewrite Hone. intros Hzero. apply Hnz. rewrite <- Hzero.
    apply nth_In. unfold len in Hj. lia. }
  assert (Hzero : byte_at d (off + (24 + len path)) = 0) by (apply Hz; lia).
  destruct (index_zero_ex d (off + 24) (off + (24 + len path))) as (p & Hp1 & Hp2);
    [lia | lia | exact Hzero |].
  assert (p = off + 24 + len path).
  { destruct (index_zero_inv d (off + 24) p ltac:(lia) Hp1) as (_ & Hzp & _).
    destruct (Z_lt_ge_dec p (off + 24 + len path)) as [Hlt|]; [|lia].
    exfalso. apply (Hnonzero p ltac:(lia)). exact Hzp. }
  subst p.
  cbn [Cfw._check_existing_dylib_loop]. rewrite HII. cbn [bind].
  change (Cfw.is_dylib_cmd 12) with true. cbv iota. rewrite H8. cbn [bind].
  rewrite Hp1. cbn [bind].
  rewrite slice_bytes_at by lia.
  replace (Z.to_nat (off + 24 + len path - (off + 24))) with (List.length path)
    by (unfold len; lia).
  rewrite Hname, decode_ascii_map by exact Hascii.
  unfold pystr_eqb. destruct (list_eq_dec Z.eq_dec path path); [reflexivity|contradiction].
Qed.

Lemma check_existing_dylib_loop_S (data : bytes) (path : pystr) (n : nat) (offset : Z) :
  Cfw._check_existing_dylib_loop data path (S n) offset
  = ('(cmd, cmdsize) <- unpack_II data offset ;;
     if Cfw.is_dylib_cmd cmd then
       name_offset <- unpack_I data (offset + 8) ;;
       name_end <- index data 0 (offset + name_offset) ;;
       let name := decode_ascii_replace (slice data (offset + name_offset) name_end) in
       if pystr_eqb name path then Ok true
       else Cfw._check_existing_dylib_loop data path n (offset + cmdsize)
     else Cfw._check_existing_dylib_loop data path n (offset + cmdsize)).
Proof. reflexivity. Qed.

(** A check that found nothing finds the command written after the old
    load commands: the commands before it read as they did, and a name that
    ran into the rewritten bytes still ends, at the latest with the last
    byte of the new command. *)
Lemma check_loop_after_write (d d' : bytes) (path : pystr) (lo he cs : Z) :
  len d' = len d -> 0 <= lo ->
  (forall i, lo <= i -> ~ (he <= i < he + cs) -> byte_at d' i = byte_at d i) ->
  1 <= cs -> he + cs <= len d -> byte_at d' (he + cs - 1) = 0 ->
  (forall m, Cfw._check_existing_dylib_loop d' path (S m) he = Ok true) ->
  forall (n : nat) (off : Z),
    lo <= off -> commands_end d n off = Some he ->
    Cfw._check_existing_dylib_loop d path n off = Ok false ->
    Cfw._check_existing_dylib_loop d' path (S n) off = Ok true.
Proof.
  intros Hl Hlo Hframe Hcs Hfit Hlast Hfound.
  induction n as [|n IH]; intros off Hoff Hce Hold.
  - cbn [commands_end] in Hce. injection Hce as ->. apply Hfound.
  - cbn [commands_end] in Hce.
    rewrite check_existing_dylib_loop_S in Hold.
    rewrite check_existing_dylib_loop_S.
    destruct (unpack_II d off) as [[cmd cmdsize]|e] eqn:EII; [|discriminate].
    destruct (12 <=? cmdsize) eqn:E12; [|discriminate]. apply Z.leb_le in E12.
    pose proof (commands_end_ge _ _ _ _ Hce) as Hle.
    assert (HII' : unpack_II d' off = Ok (cmd, cmdsize)).
    { rewrite <- EII. apply unpack_II_ext; [exact Hl|lia|].
      intros i Hi. apply Hframe; lia. }
    rewrite HII'. cbn [bind] in Hold |- *.
    destruct (Cfw.is_dylib_cmd cmd).
    + destruct (unpack_I d (off + 8)) as [name_offset|e] eqn:E8; [|discriminate].
      assert (H8' : unpack_I d' (off + 8) = Ok name_offset).
      { rewrite <- E8. apply unpack_I_ext; [exact Hl|lia|].
        intros i Hi. apply Hframe; lia. }
      rewrite H8'. cbn [bind] in Hold |- *.
      assert (Hno : 0 <= name_offset).
      { apply unpack_I_ok_inv in E8; [|lia]. destruct E8 as [_ ->]. apply le_decode_range. }
      destruct (index d 0 (off + name_offset)) as [q|e] eqn:Ei; [|discriminate].
      cbn [bind] in Hold.
      destruct (index_zero_inv d (off + name_offset) q ltac:(lia) Ei) as (Hq & Hzq & _).
      assert (Hex : exists q', off + name_offset <= q' /\ q' < len d' /\ byte_at d' q' = 0).
      { destruct (Z_lt_ge_dec q he) as [Hb|Ha].
        - exists q. split; [lia|]. split; [lia|]. rewrite Hframe by lia. exact Hzq.
        - destruct (Z_lt_ge_dec q (he + cs)) as [Hin|Hout].
          + exists (he + cs - 1). split; [lia|]. split; [lia|exact Hlast].
          + exists q. split; [lia|]. split; [lia|]. rewrite Hframe by lia. exact Hzq. }
      destruct Hex as (q' & Hq1 & Hq2 & Hq3).
      destruct (index_zero_ex d' (off + name_offset) q') as (p & Hp & _);
        [lia | lia | exact Hq3 |].
      rewrite Hp. cbn [bind]. cbv zeta in Hold |- *.
      destruct (pystr_eqb (decode_ascii_replace (slice d' _ _)) path); [reflexivity|].
      destruct (pystr_eqb _ path); [discriminate|].
      apply IH; [lia | exact Hce | exact Hold].
    + apply IH; [lia | exact Hce | exact Hold].
Qed.

Lemma slice_from_0 {A} (l : list A) : slice_from l 0 = l.
Proof.
  unfold slice_from, adjust. cbn [Z.ltb Z.compare].
  pose proof (len_nonneg l). rewrite Z.min_l by lia. reflexivity.
Qed.

(** A file that starts with the magic of a 64-bit Mach-O is not a FAT file:
    it is its own single slice. *)
Lemma thin_slices (data : bytes) :
  unpack_I data 0 = Ok 0xFEEDFACF -> Cfw._get_fat_slices data = Ok [(0, len data)].
Proof.
  intros H. unfold unpack_I in H.
  destruct (field 4 data 0) as [bs|e] eqn:E; cbn [bind] in H; [|discriminate].
  injection H as H.
  unfold Cfw._get_fat_slices, unpack_I_be. rewrite E. cbn [bind].
  apply field_ok_inv in E; [|lia]. destruct E as [Hlen ->].
  change (Z.to_nat 4) with 4%nat in *.
  assert (HL : List.length (bytes_at data 0 4) = 4%nat).
  { unfold bytes_at. rewrite length_firstn, length_skipn. unfold len in Hlen. lia. }
  destruct (bytes_at data 0 4) as [|a [|b [|c [|e [|x t]]]]]; try discriminate.
  unfold be_decode. cbn [rev app le_decode] in H |- *.
  pose proof (b2z_range a). pose proof (b2z_range b).
  pose proof (b2z_range c). pose proof (b2z_range e).
  assert (Hv : b2z e + 256 * (b2z c + 256 * (b2z b + 256 * (b2z a + 256 * 0)))
               = 0xCFFAEDFE) by lia.
  rewrite Hv. reflexivity.
Qed.

(** X11. Injection, then the check, on a thin Mach-O.  Let the file be a
    64-bit Mach-O whose load commands fill [sizeofcmds] exactly, none of
    them naming [path], with padding enough for the new command, and let
    [path] have no null character.  If [inject_dylib] returns at all it
    returns [True]; the file it writes has the length of the file it read;
    [_check_existing_dylib] answers [True] on it; and a second run on the
    file written returns [True] and writes the same bytes again. *)
Theorem inject_dylib_twice (file : bytes) (path : pystr)
    (ncmds sizeofcmds first_section : Z) (o : Cfw.outcome) :
  unpack_I file 0 = Ok 0xFEEDFACF ->
  unpack_I file 16 = Ok ncmds ->
  unpack_I file 20 = Ok sizeofcmds ->
  Cfw._find_first_section_offset file = Ok first_section ->
  commands_end file (Z.to_nat ncmds) 32 = Some (32 + sizeofcmds) ->
  32 + sizeofcmds + Cfw._align (24 + (len path + 1)) 8 <= first_section ->
  ~ In 0 path ->
  Cfw._check_existing_dylib file 0 path = Ok false ->
  Cfw.inject_dylib file path = Ok o ->
  exists d',
    o = {| Cfw.returned := true; Cfw.written := Some d' |} /\
    len d' = len file /\
    Cfw._check_existing_dylib d' 0 path = Ok true /\
    Cfw.inject_dylib d' path = Ok o.
Proof.
  intros Hm Hn Hs Hfs Hce Hpad Hnz Hchk Hrun.
  unfold Cfw.inject_dylib in Hrun. rewrite (thin_slices file Hm) in Hrun.
  cbn [bind Cfw.inject_dylib_loop] in Hrun. rewrite Hchk in Hrun. cbn [bind] in Hrun.
  destruct (Cfw._inject_lc_load_dylib file 0 path) as [[ok d']|e] eqn:Einj;
    cbn [bind] in Hrun; [|discriminate].
  rewrite <- (slice_from_0 file) in Hfs.
  destruct (inject_padding_lc_write file 0 path ncmds sizeofcmds first_section ok d'
              (Z.le_refl 0) Hm Hn Hs Hfs Hpad Einj) as (lc & Elc & Hw & Hs0 & Hfit).
  remember (Cfw._align (24 + (len path + 1)) 8) as cmd_size eqn:Ecs.
  pose proof (build_lc_spec _ _ _ Elc) as (_ & _ & _ & Hrange & Hlen & _).
  pose proof (len_nonneg path) as Hp.
  destruct (lc_write_spec file d' lc 0 ncmds sizeofcmds cmd_size ok
              (Z.le_refl 0) Hs0 Hlen Hfit Hw) as (Hok & Hl & Hb & Hr1 & _).
  pose proof (lc_write_frame file d' lc 0 ncmds sizeofcmds cmd_size ok
                (Z.le_refl 0) Hs0 Hlen Hfit Hw) as Hframe.
  change (0 + 32 + sizeofcmds) with (32 + sizeofcmds) in Hb, Hframe, Hfit.
  change (0 + 16) with 16 in Hr1, Hframe. change (0 + 24) with 24 in Hframe.
  subst ok.
  assert (Hn0 : 0 <= ncmds).
  { apply unpack_I_ok_inv in Hn; [|lia]. destruct Hn as [_ ->]. apply le_decode_range. }
  assert (Hm' : unpack_I d' 0 = Ok 0xFEEDFACF).
  { rewrite <- Hm. apply unpack_I_ext; [exact Hl|lia|].
    intros i Hi. apply Hframe; lia. }
  assert (Hlast : byte_at d' (32 + sizeofcmds + cmd_size - 1) = 0).
  { destruct (built_lc_reads d' lc path (32 + sizeofcmds) cmd_size Elc ltac:(lia) Hb)
      as (_ & _ & _ & Hz).
    replace (32 + sizeofcmds + cmd_size - 1) with (32 + sizeofcmds + (cmd_size - 1)) by lia.
    apply Hz. lia. }
  assert (Hfound : Cfw._check_existing_dylib d' 0 path = Ok true).
  { unfold Cfw._check_existing_dylib. rewrite Hm'. cbn [bind].
    change (4277009103 =? 4277009103) with true. cbn [negb].
    change (0 + 16) with 16. rewrite Hr1. cbn [bind].
    replace (Z.to_nat (ncmds + 1)) with (S (Z.to_nat ncmds)) by lia.
    change (0 + 32) with 32.
    apply (check_loop_after_write file d' path 32 (32 + sizeofcmds) cmd_size Hl);
      [lia | | lia | lia | exact Hlast | | lia | |].
    - intros i Hi Hout. apply Hframe; lia.
    - intros m. apply (check_loop_finds_built d' lc path (32 + sizeofcmds) cmd_size m Elc);
        [lia | exact Hb | exact Hnz].
    - exact Hce.
    - unfold Cfw._check_existing_dylib in Hchk. rewrite Hm in Hchk. cbn [bind] in Hchk.
      change (4277009103 =? 4277009103) with true in Hchk. cbn [negb] in Hchk.
      change (0 + 16) with 16 in Hchk. rewrite Hn in Hchk. exact Hchk. }
  change (len [(0, len file)]) with 1 in Hrun. cbn [Z.add Z.eqb Pos.eqb] in Hrun.
  unfold Cfw.wrote in Hrun. injection Hrun as <-.
  exists d'. split; [reflexivity|]. split; [exact Hl|]. split; [exact Hfound|].
  unfold Cfw.inject_dylib. rewrite (thin_slices d' Hm'). cbn [bind].
  rewrite (inject_dylib_loop_present d' path [(0, len d')] 0).
  - cbn [bind]. change (0 + len [(0, len d')]) with 1.
    change (len [(0, len d')]) with 1. reflexivity.
  - intros so ss [Heq|[]]. injection Heq as <- <-. exact Hfound.
Qed.

Lemma inject_dylib_twice_witness :
  exists d',
    Cfw.inject_dylib Images.macho_padded (of_string "/a.dylib") = Cfw.wrote d' /\
    len d' = len Images.macho_padded /\
    Cfw.inject_dylib d' (of_string "/a.dylib") = Cfw.wrote d'.
Proof.
  destruct (Cfw.inject_dylib Images.macho_padded (of_string "/a.dylib")) as [o|e] eqn:E;
    [|vm_compute in E; discriminate].
  destruct (inject_dylib_twice Images.macho_padded (of_string "/a.dylib") 1 152 224 o)
    as (d' & Ho & Hl & _ & Hagain).
  - vm_compute. reflexivity.
  - vm_compute. reflexivity.
  - vm_compute. reflexivity.
  - vm_compute. reflexivity.
  - vm_compute. reflexivity.
  - vm_compute. discriminate.
  - vm_compute. intros [H|[H|[H|[H|[H|[H|[H|[H|[]]]]]]]]]; discriminate.
  - vm_compute. reflexivity.
  - exact E.
  - exists d'. subst o. split; [reflexivity|]. split; [exact Hl | exact Hagain].
Defined.

(** ** The symbol table of kernel_jb.py *)

Lemma dict_set_Forall {V} (P : pystr * V -> Prop) (d : list (pystr * V)) (k : pystr) (v : V) :
  Forall P d -> P (k, v) -> Forall P (dict_set d k v).
Proof.
  intros Hd Hkv. apply Forall_forall. intros x Hx.
  apply dict_set_In in Hx. destruct Hx as [->|Hx]; [exact Hkv|].
  rewrite Forall_forall in Hd. apply Hd. exact Hx.
Qed.

Lemma dict_get_In {V} (d : list (pystr * V)) (k : pystr) (v : V) :
  dict_get d k = Some v -> In (k, v) d.
Proof.
  induction d as [|[k' v'] t IH]; cbn [dict_get In]; [discriminate|].
  destruct (pystr_eqb k' k) eqn:E.
  - apply pystr_eqb_eq in E. subst k'. intros H. injection H as ->. left. reflexivity.
  - intros H. right. apply IH. exact H.
Qed.

Lemma parse_nlist_loop_in_image (p : patcher) (symoff stroff : Z) (idxs : list Z) :
  forall sy sy',
    Forall (fun kv : pystr * Z => 0 <= snd kv < size p) sy ->
    KernelJB._parse_nlist_loop p symoff stroff idxs sy = Ok sy' ->
    Forall (fun kv : pystr * Z => 0 <= snd kv < size p) sy'.
Proof.
  induction idxs as [|i rest IH]; intros sy sy' Hsy; cbn [KernelJB._parse_nlist_loop].
  - intros H. injection H as <-. exact Hsy.
  - cbv zeta.
    destruct (symoff + i * 16 + 16 >? size p); [intros H; injection H as <-; exact Hsy|].
    destruct (field 16 (raw p) (symoff + i * 16)) as [f|e]; cbn [bind]; [|discriminate].
    destruct (negb _); [apply IH; exact Hsy|].
    destruct (_ =? 0); [apply IH; exact Hsy|].
    destruct (_ >=? size p); [apply IH; exact Hsy|].
    destruct (_ || _); [apply IH; exact Hsy|].
    destruct ((0 <=? le_decode (skipn 8 f) - base_va p)
              && (le_decode (skipn 8 f) - base_va p <? size p)) eqn:E;
      [|apply IH; exact Hsy].
    apply andb_true_iff in E. destruct E as [E1 E2].
    apply Z.leb_le in E1. apply Z.ltb_lt in E2.
    apply IH. apply dict_set_Forall; [exact Hsy|]. cbn [snd]. lia.
Qed.

Lemma symbols_inv_size (p0 p : patcher) :
  symbols_inv p0 p -> size p = size p0 /\ raw p = raw p0 /\ base_va p = base_va p0.
Proof. intros [-> _]. repeat split. Qed.

Lemma keeps_ret {A} (a : A) : keeps_symbols_inv (ret a).
Proof. intros p0 p a' p' H E. unfold ret in E. injection E as <- <-. exact H. Qed.

Lemma keeps_lift {A} (r : result A) : keeps_symbols_inv (lift r).
Proof.
  intros p0 p a p' H E. unfold lift in E. destruct r; [|discriminate].
  injection E as <- <-. exact H.
Qed.

Lemma keeps_bind {A B} (m : M A) (k : A -> M B) :
  keeps_symbols_inv m -> (forall a, keeps_symbols_inv (k a)) -> keeps_symbols_inv (mbind m k).
Proof.
  intros Hm Hk p0 p b p' H E. unfold mbind in E.
  destruct (m p) as [a p1|e] eqn:Em; [|discriminate].
  apply (Hk a p0 p1 b p'); [|exact E]. apply (Hm p0 p a p1); assumption.
Qed.

Lemma keeps_get {B} (k : patcher -> M B) :
  (forall a, keeps_symbols_inv (k a)) -> keeps_symbols_inv (mbind get k).
Proof.
  intros Hk. apply keeps_bind; [|exact Hk].
  intros p0 p a p' H E. unfold get in E. injection E as <- <-. exact H.
Qed.

Lemma keeps_parse_nlist (symoff nsyms stroff : Z) :
  keeps_symbols_inv (KernelJB._parse_nlist symoff nsyms stroff).
Proof.
  intros p0 p a p' H E. unfold KernelJB._parse_nlist in E.
  destruct (KernelJB._parse_nlist_loop p symoff stroff (range 0 nsyms 1) (symbols p))
    as [sy|e] eqn:El; [|discriminate].
  injection E as <- <-.
  destruct (symbols_inv_size _ _ H) as (Hsz & _).
  destruct H as [Hp Hall].
  split.
  - rewrite Hp. reflexivity.
  - cbn [symbols set_symbols]. rewrite <- Hsz.
    eapply parse_nlist_loop_in_image; [|exact El].
    rewrite Hsz. exact Hall.
Qed.

Lemma keeps_symtab_cmds (n : nat) :
  forall off, keeps_symbols_inv (KernelJB.symtab_cmds n off).
Proof.
  induction n as [|n IH]; intros off; cbn [KernelJB.symtab_cmds].
  - apply keeps_ret.
  - apply keeps_get. intros p.
    destruct (off + 8 >? size p); [apply keeps_ret|].
    apply keeps_bind; [apply keeps_lift|]. intros [cmd cmdsize].
    apply keeps_bind; [|intros _; apply IH].
    destruct (cmd =? 2); [|apply keeps_ret].
    apply keeps_bind; [apply keeps_lift|]. intros symoff.
    apply keeps_bind; [apply keeps_lift|]. intros nsyms.
    apply keeps_bind; [apply keeps_lift|]. intros stroff.
    apply keeps_parse_nlist.
Qed.

Lemma keeps_parse_fileset_symtab (mh_off : Z) :
  keeps_symbols_inv (KernelJB._parse_fileset_symtab mh_off).
Proof.
  unfold KernelJB._parse_fileset_symtab. apply keeps_get. intros p.
  destruct (_ || _); [apply keeps_ret|].
  apply keeps_bind; [apply keeps_lift|]. intros magic.
  destruct (negb _); [apply keeps_ret|].
  apply keeps_bind; [apply keeps_lift|]. intros ncmds.
  apply keeps_symtab_cmds.
Qed.

Lemma keeps_fileset_cmds (n : nat) :
  forall off, keeps_symbols_inv (KernelJB.fileset_cmds n off).
Proof.
  induction n as [|n IH]; intros off; cbn [KernelJB.fileset_cmds].
  - apply keeps_ret.
  - apply keeps_get. intros p.
    destruct (off + 8 >? size p); [apply keeps_ret|].
    apply keeps_bind; [apply keeps_lift|]. intros [cmd cmdsize].
    apply keeps_bind; [|intros _; apply IH].
    destruct (cmd =? 2147483701); [|apply keeps_ret].
    apply keeps_bind; [apply keeps_lift|]. intros foff_entry.
    apply keeps_parse_fileset_symtab.
Qed.

(** X12. The symbol table stays inside the image.  [_build_symbol_table]
    changes nothing of the patcher but [symbols]; every offset it records
    lies in [[0, size)]; so [_resolve_symbol] answers -1 or an offset inside
    the image, and leaves the patcher as it is. *)
Theorem symbol_table_in_image (p p' : patcher) :
  KernelJB._build_symbol_table p = Done tt p' ->
  p' = set_symbols p (symbols p') /\
  (forall name f, In (name, f) (symbols p') -> 0 <= f < size p) /\
  (forall name, exists f,
     KernelJB._resolve_symbol name p' = Done f p' /\
     (f = -1 /\ dict_get (symbols p') name = None \/
      0 <= f < size p /\ In (name, f) (symbols p'))).
Proof.
  intros H.
  assert (Hinv : symbols_inv p p').
  { unfold KernelJB._build_symbol_table in H.
    unfold mbind at 1 in H.
    assert (Hrest : keeps_symbols_inv
              (mbind get (fun p1 =>
                 mbind (lift (unpack_I (raw p1) 16)) (fun ncmds =>
                   mbind (KernelJB.symtab_cmds (Z.to_nat ncmds) 32) (fun _ =>
                     KernelJB.fileset_cmds (Z.to_nat ncmds) 32))))).
    { apply keeps_get. intros p1.
      apply keeps_bind; [apply keeps_lift|]. intros ncmds.
      apply keeps_bind; [apply keeps_symtab_cmds|]. intros _.
      apply keeps_fileset_cmds. }
    apply (Hrest p (set_symbols p []) tt p'); [|exact H].
    split; [reflexivity|]. cbn [symbols set_symbols]. constructor. }
  destruct Hinv as [Hp Hall]. rewrite Forall_forall in Hall.
  split; [exact Hp|]. split.
  - intros name f Hin. apply (Hall (name, f) Hin).
  - intros name. unfold KernelJB._resolve_symbol.
    destruct (dict_get (symbols p') name) as [f|] eqn:E.
    + exists f. split; [reflexivity|]. right.
      apply dict_get_In in E. split; [apply (Hall (name, f) E) | exact E].
    + exists (-1). split; [reflexivity|]. left. split; reflexivity.
Qed.

Lemma symbol_table_in_image_witness :
  Images.kernel_symtab_ready
  = set_symbols Images.kernel_symtab_object (symbols Images.kernel_symtab_ready) /\
  exists f,
    KernelJB._resolve_symbol (of_string "_proc_security_policy") Images.kernel_symtab_ready
    = Done f Images.kernel_symtab_ready /\ f = 0x64.
Proof.
  destruct (symbol_table_in_image Images.kernel_symtab_object Images.kernel_symtab_ready)
    as (Hp & _ & Hres).
  - vm_compute. reflexivity.
  - split; [exact Hp|].
    destruct (Hres (of_string "_proc_security_policy")) as (f & Hf & _).
    exists f. split; [exact Hf|].
    vm_compute in Hf. injection Hf as <-. reflexivity.
Defined.

(** ** The caves of kernel_jb.py *)

(** X13. What [_find_code_cave] hands out.  A cave it returns lies in one of
    the code ranges, at a whole number of words from the start of the range
    and with its last word before the end; the request is rounded up to
    whole words; every word of the cave reads as filler (zero, all ones or
    [0xD4200000]) in the buffer as it is now; the cave starts the run, at the
    start of the range or after a word that is not filler; and the search
    changes nothing of the patcher. *)
Theorem find_code_cave_sound (p p' : patcher) (size_ c : Z) :
  0 < size_ ->
  Forall (fun r : Z * Z => 0 <= fst r) (code_ranges p) ->
  KernelJB._find_code_cave size_ 4 p = Done c p' -> 0 <= c ->
  p' = p /\
  exists s e, In (s, e) (code_ranges p) /\
    s <= c /\ (c - s) mod 4 = 0 /\ c + cave_needed size_ - 4 < e /\
    size_ <= cave_needed size_ < size_ + 4 /\ cave_needed size_ mod 4 = 0 /\
    (forall k, 0 <= k -> 4 * k < cave_needed size_ -> filler_word (data p) (c + 4 * k)) /\
    (c = s \/ solid_word (data p) (c - 4)).
Proof.
  intros Hsize Hranges Hrun Hc.
  apply find_code_cave_run in Hrun. destruct Hrun as [Hrun ->].
  fold (cave_needed size_) in Hrun.
  destruct (needed_bounds size_) as [Hge Hmod]. fold (cave_needed size_) in Hge, Hmod.
  assert (Hlt : cave_needed size_ < size_ + 4).
  { unfold cave_needed. pose proof (Z.div_mod (size_ + 4 - 1) 4 ltac:(lia)).
    pose proof (Z.mod_pos_bound (size_ + 4 - 1) 4 ltac:(lia)). lia. }
  assert (Hn4 : 4 <= cave_needed size_).
  { pose proof Hmod as Hd. apply Z.mod_divide in Hd; [|lia]. destruct Hd as [q Hq]. lia. }
  destruct (cave_ranges_sound _ _ _ _ Hrun Hc)
    as (s & e & Hin & Hal & (m & Hm & Hfill) & Hpos).
  rewrite Forall_forall in Hranges. pose proof (Hranges _ Hin) as Hs. cbn [fst] in Hs.
  destruct (Hpos Hs ltac:(lia)) as (Hsc & Hfirst & _ & Hend).
  split; [reflexivity|]. exists s, e.
  split; [exact Hin|]. split; [exact Hsc|]. split; [exact Hal|]. split.
  - apply Hend; [lia|].
    apply Z.mod_divide in Hal; [|lia]. apply Z.mod_divide in Hmod; [|lia].
    destruct Hal as [q1 Hq1]. destruct Hmod as [q2 Hq2].
    replace (c + cave_needed size_ - 4 - s) with ((q1 + q2 - 1) * 4) by lia.
    apply Z.mod_mul. lia.
  - split; [lia|]. split; [exact Hmod|]. split; [|exact Hfirst].
    intros k Hk0 Hk. apply Hfill. lia.
Qed.

Lemma find_code_cave_sound_witness :
  KernelJB._find_code_cave 10 4 Images.zero_code = Done 0 Images.zero_code /\
  cave_needed 10 = 12 /\
  filler_word (data Images.zero_code) (0 + 4 * 2).
Proof.
  destruct (find_code_cave_sound Images.zero_code Images.zero_code 10 0)
    as (_ & s & e & _ & _ & _ & _ & _ & _ & Hfill & _).
  - lia.
  - repeat constructor; cbn; lia.
  - vm_compute. reflexivity.
  - lia.
  - split; [vm_compute; reflexivity|]. split; [reflexivity|].
    apply Hfill; [lia|]. vm_compute. reflexivity.
Defined.

(** ** Function bounds and caves of txm_jb.py *)

Lemma bytes_eqb_eq (a b : bytes) : bytes_eqb a b = true <-> a = b.
Proof.
  revert b. induction a as [|x a IH]; intros [|y b]; cbn [bytes_eqb];
    try (split; [discriminate|discriminate]); [split; reflexivity|].
  rewrite andb_true_iff, byte_eqb_eq, IH. split.
  - intros [-> ->]. reflexivity.
  - intros H. injection H as -> ->. split; reflexivity.
Qed.

Lemma range_up_prefix (s : Z) (l1 : list Z) :
  forall n a x l2, range_up n a s = l1 ++ x :: l2 -> l1 = range_up (List.length l1) a s.
Proof.
  induction l1 as [|y l1 IH]; intros n a x l2 H; [reflexivity|].
  destruct n as [|n]; [discriminate|].
  cbn [range_up app] in H. injection H as <- H.
  cbn [List.length range_up]. f_equal. apply (IH n _ x l2). exact H.
Qed.

Lemma first_pacibsp_spec (raw_ : bytes) (scans : list Z) :
  match TXMJB.first_pacibsp raw_ scans with
  | Some s => exists l1 l2, scans = l1 ++ s :: l2 /\
                slice raw_ s (s + 4) = TXMJB.PACIBSP /\
                forall b, In b l1 -> slice raw_ b (b + 4) <> TXMJB.PACIBSP
  | None => forall b, In b scans -> slice raw_ b (b + 4) <> TXMJB.PACIBSP
  end.
Proof.
  induction scans as [|x rest IH]; cbn [TXMJB.first_pacibsp].
  - intros b [].
  - destruct (bytes_eqb (slice raw_ x (x + 4)) TXMJB.PACIBSP) eqn:E.
    + apply bytes_eqb_eq in E. exists [], rest. split; [reflexivity|].
      split; [exact E|]. intros b [].
    + assert (Hx : slice raw_ x (x + 4) <> TXMJB.PACIBSP).
      { intros H. apply bytes_eqb_eq in H. congruence. }
      destruct (TXMJB.first_pacibsp raw_ rest) as [s|].
      * destruct IH as (l1 & l2 & -> & Hs & Hno). exists (x :: l1), l2.
        split; [reflexivity|]. split; [exact Hs|].
        intros b [<-|Hb]; [exact Hx | apply Hno; exact Hb].
      * intros b [<-|Hb]; [exact Hx | apply IH; exact Hb].
Qed.

Lemma range_down4 (a lo : Z) :
  range a (lo - 1) (-4) = range_up (Z.to_nat ((a - lo + 4) / 4)) a (-4).
Proof.
  unfold range. cbn [Z.ltb Z.compare Z.opp].
  do 2 f_equal. f_equal. lia.
Qed.

Lemma in_range_down4 (a lo x : Z) :
  In x (range a (lo - 1) (-4)) <-> lo <= x <= a /\ (a - x) mod 4 = 0.
Proof.
  rewrite range_down4, in_range_up. split.
  - intros (k & Hk & ->).
    assert (Hd : Z.of_nat k < (a - lo + 4) / 4) by lia.
    assert (Hle : Z.of_nat k + 1 <= (a - lo + 4) / 4) by lia.
    pose proof (Z.mul_div_le (a - lo + 4) 4 ltac:(lia)) as Hm.
    split; [lia|].
    replace (a - (a + Z.of_nat k * -4)) with (Z.of_nat k * 4) by lia.
    apply Z.mod_mul. lia.
  - intros [Hx Hm]. apply Z.mod_divide in Hm; [|lia]. destruct Hm as [q Hq].
    exists (Z.to_nat q). split; [|lia].
    assert (Hq4 : q + 1 <= (a - lo + 4) / 4).
    { apply Z.div_le_lower_bound; lia. }
    lia.
Qed.

(** X14. [_find_func_start] of the TXM patcher returns the nearest
    [PACIBSP] at or before [off]: a word-aligned offset of the window
    [[max(0, off - back), off]] at which the four bytes are [PACIBSP], with
    no [PACIBSP] at a word-aligned offset between it and [off]; and it
    returns [None] only when no word-aligned offset of the window holds
    one. *)
Theorem txm_find_func_start_nearest (p : patcher) (off back : Z) :
  0 <= off ->
  match TXMJB._find_func_start p off back with
  | Some s =>
    Z.max 0 (off - back) <= s <= off /\ s mod 4 = 0 /\
    s + 4 <= len (raw p) /\
    slice (raw p) s (s + 4) = TXMJB.PACIBSP /\
    forall b, s < b <= off -> b mod 4 = 0 -> slice (raw p) b (b + 4) <> TXMJB.PACIBSP
  | None =>
    forall b, Z.max 0 (off - back) <= b <= off -> b mod 4 = 0 ->
              slice (raw p) b (b + 4) <> TXMJB.PACIBSP
  end.
Proof.
  intros Hoff. unfold TXMJB._find_func_start. cbv zeta.
  assert (Ha : and_not off 3 = off / 4 * 4).
  { unfold and_not. apply (land_lnot_ones off 2). lia. }
  rewrite Ha. set (a := off / 4 * 4). set (lo := Z.max 0 (off - back)).
  assert (Ha4 : a mod 4 = 0) by (apply Z.mod_mul; lia).
  assert (Hao : a <= off < a + 4).
  { unfold a. pose proof (Z.div_mod off 4 ltac:(lia)).
    pose proof (Z.mod_pos_bound off 4 ltac:(lia)). lia. }
  assert (Hal : forall b, b mod 4 = 0 -> (a - b) mod 4 = 0).
  { intros b Hb. apply Z.mod_divide in Hb; [|lia]. apply Z.mod_divide in Ha4; [|lia].
    destruct Hb as [q1 H1]. destruct Ha4 as [q2 H2].
    replace (a - b) with ((q2 - q1) * 4) by lia. apply Z.mod_mul. lia. }
  assert (Hla : forall b, (a - b) mod 4 = 0 -> b mod 4 = 0).
  { intros b Hb. apply Z.mod_divide in Hb; [|lia]. apply Z.mod_divide in Ha4; [|lia].
    destruct Hb as [q1 H1]. destruct Ha4 as [q2 H2].
    replace b with ((q2 - q1) * 4) by lia. apply Z.mod_mul. lia. }
  assert (Hup : forall b, b <= off -> b mod 4 = 0 -> b <= a).
  { intros b Hb Hm. apply Z.mod_divide in Hm; [|lia]. apply Z.mod_divide in Ha4; [|lia].
    destruct Hm as [q1 H1]. destruct Ha4 as [q2 H2]. lia. }
  pose proof (first_pacibsp_spec (raw p) (range a (lo - 1) (-4))) as H.
  destruct (TXMJB.first_pacibsp (raw p) (range a (lo - 1) (-4))) as [s|].
  - destruct H as (l1 & l2 & Hsplit & Hs & Hno).
    assert (Hin : In s (range a (lo - 1) (-4)))
      by (rewrite Hsplit; apply in_or_app; right; left; reflexivity).
    apply in_range_down4 in Hin. destruct Hin as [Hr Hm].
    split; [lia|]. split; [apply Hla; exact Hm|]. split; [|split; [exact Hs|]].
    + assert (HL : len (slice (raw p) s (s + 4)) = 4) by (rewrite Hs; reflexivity).
      unfold slice, adjust in HL. unfold len in *.
      rewrite length_firstn, length_skipn in HL.
      destruct (s <? 0) eqn:E1; [apply Z.ltb_lt in E1; lia|].
      destruct (s + 4 <? 0) eqn:E2; [apply Z.ltb_lt in E2; lia|]. lia.
    + intros b Hb Hbm. apply Hno.
      pose proof Hsplit as Hpre. rewrite range_down4 in Hpre.
      pose proof (range_up_split _ _ _ _ _ _ Hpre) as (Hsx & _ & _).
      rewrite (range_up_prefix _ _ _ _ _ _ Hpre). apply in_range_up.
      pose proof (Hal b Hbm) as Hab. apply Z.mod_divide in Hab; [|lia].
      destruct Hab as [q Hq]. pose proof (Hup b ltac:(lia) Hbm).
      exists (Z.to_nat q). split; lia.
  - intros b Hb Hbm. apply H. apply in_range_down4.
    split; [split; [lia | apply Hup; [lia | exact Hbm]] | apply Hal; exact Hbm].
Qed.

Lemma txm_find_func_start_nearest_witness :
  exists s,
    TXMJB._find_func_start (A64.image (TXMJB.NOP ++ TXMJB.PACIBSP ++ TXMJB.NOP ++ TXMJB.NOP))
                           10 0x1000 = Some s /\
    s mod 4 = 0 /\
    slice (TXMJB.NOP ++ TXMJB.PACIBSP ++ TXMJB.NOP ++ TXMJB.NOP) s (s + 4) = TXMJB.PACIBSP.
Proof.
  pose proof (txm_find_func_start_nearest
                (A64.image (TXMJB.NOP ++ TXMJB.PACIBSP ++ TXMJB.NOP ++ TXMJB.NOP))
                10 0x1000 ltac:(lia)) as H.
  destruct (TXMJB._find_func_start _ 10 0x1000) as [s|] eqn:E.
  - exists s. destruct H as (_ & Hm & _ & Hs & _).
    split; [reflexivity|]. split; [exact Hm | exact Hs].
  - exfalso. apply (H 4); [lia | reflexivity | reflexivity].
Defined.

(** X15. [_find_func_end] of the TXM patcher returns the first [PACIBSP]
    after the start of the function, at a whole number of words from it and
    before [min(size, func_start + forward)]; or that bound itself, when no
    such word holds one. *)
Theorem txm_find_func_end_first (p : patcher) (func_start forward : Z) :
  let end_ := Z.min (size p) (func_start + forward) in
  let e := TXMJB._find_func_end p func_start forward in
  (e = end_ /\
   forall b, func_start + 4 <= b < end_ -> (b - func_start) mod 4 = 0 ->
             slice (raw p) b (b + 4) <> TXMJB.PACIBSP) \/
  (func_start + 4 <= e < end_ /\ (e - func_start) mod 4 = 0 /\
   slice (raw p) e (e + 4) = TXMJB.PACIBSP /\
   forall b, func_start + 4 <= b < e -> (b - func_start) mod 4 = 0 ->
             slice (raw p) b (b + 4) <> TXMJB.PACIBSP).
Proof.
  intros end_ e. unfold e, TXMJB._find_func_end. cbv zeta. fold end_.
  assert (Hshift : forall b, (b - func_start) mod 4 = 0 <-> (b - (func_start + 4)) mod 4 = 0).
  { intros b. split; intros H; apply Z.mod_divide in H; try lia; destruct H as [q Hq].
    - replace (b - (func_start + 4)) with ((q - 1) * 4) by lia. apply Z.mod_mul. lia.
    - replace (b - func_start) with ((q + 1) * 4) by lia. apply Z.mod_mul. lia. }
  pose proof (first_pacibsp_spec (raw p) (range (func_start + 4) end_ 4)) as H.
  destruct (TXMJB.first_pacibsp (raw p) (range (func_start + 4) end_ 4)) as [s|].
  - right. destruct H as (l1 & l2 & Hsplit & Hs & Hno).
    assert (Hin : In s (range (func_start + 4) end_ 4))
      by (rewrite Hsplit; apply in_or_app; right; left; reflexivity).
    apply in_range4 in Hin. destruct Hin as [Hr Hm].
    split; [exact Hr|]. split; [apply Hshift; exact Hm|]. split; [exact Hs|].
    intros b Hb Hbm. apply Hno.
    pose proof Hsplit as Hpre. rewrite range4_length in Hpre.
    pose proof (range_up_split _ _ _ _ _ _ Hpre) as (Hsx & _ & _).
    rewrite (range_up_prefix _ _ _ _ _ _ Hpre). apply in_range_up.
    apply Hshift in Hbm. apply Z.mod_divide in Hbm; [|lia]. destruct Hbm as [q Hq].
    exists (Z.to_nat q). split; lia.
  - left. split; [reflexivity|].
    intros b Hb Hbm. apply H. apply in_range4. split; [exact Hb | apply Hshift; exact Hbm].
Qed.

Lemma zero_run_spec (raw_ : bytes) (end_ : Z) (n : nat) :
  forall a, exists j,
    0 <= j <= Z.of_nat n /\
    TXMJB.zero_run raw_ (range_up n a 4) end_ a = a + 4 * j /\
    forall i, 0 <= i < j -> slice raw_ (a + 4 * i) (a + 4 * i + 4) = [x00; x00; x00; x00].
Proof.
  induction n as [|n IH]; intros a; cbn [range_up TXMJB.zero_run].
  - exists 0. split; [lia|]. split; [lia|]. intros i Hi. lia.
  - destruct (bytes_eqb (slice raw_ a (a + 4)) [x00; x00; x00; x00]) eqn:E.
    + apply bytes_eqb_eq in E. destruct (IH (a + 4)) as (j & Hj & Hr & Hz).
      exists (j + 1). split; [lia|]. split; [rewrite Hr; lia|].
      intros i Hi. destruct (Z.eq_dec i 0) as [->|Hne].
      * replace (a + 4 * 0) with a by lia. exact E.
      * replace (a + 4 * i) with (a + 4 + 4 * (i - 1)) by lia. apply Hz. lia.
    + exists 0. split; [lia|]. split; [lia|]. intros i Hi. lia.
Qed.

Lemma udf_cave_loop_sound {D : Disassembler} (raw_ : bytes) (need : Z)
    (near_off : option Z) (end_ lo : Z) (fuel : nat) :
  forall off best c,
    lo <= off ->
    (forall b d, best = Some (b, d) ->
       lo <= b < end_ /\
       forall i, 0 <= i -> 4 * i < need ->
                 slice raw_ (b + 4 * i) (b + 4 * i + 4) = [x00; x00; x00; x00]) ->
    TXMJB._find_udf_cave_loop fuel raw_ need near_off end_ off best = Some c ->
    lo <= c < end_ /\
    forall i, 0 <= i -> 4 * i < need ->
              slice raw_ (c + 4 * i) (c + 4 * i + 4) = [x00; x00; x00; x00].
Proof.
  assert (Hbest0 : forall (best : option (Z * Z)) c,
            (forall b d, best = Some (b, d) ->
               lo <= b < end_ /\
               forall i, 0 <= i -> 4 * i < need ->
                 slice raw_ (b + 4 * i) (b + 4 * i + 4) = [x00; x00; x00; x00]) ->
            option_map fst best = Some c ->
            lo <= c < end_ /\
            forall i, 0 <= i -> 4 * i < need ->
              slice raw_ (c + 4 * i) (c + 4 * i + 4) = [x00; x00; x00; x00]).
  { intros [[b d]|] c Hb H; cbn in H; [|discriminate]. injection H as <-.
    apply (Hb b d). reflexivity. }
  induction fuel as [|fuel IH]; intros off best c Hlo Hbest; cbn [TXMJB._find_udf_cave_loop].
  - apply Hbest0. exact Hbest.
  - destruct (negb (off <? end_)) eqn:Eend; [apply Hbest0; exact Hbest|].
    apply negb_false_iff, Z.ltb_lt in Eend. cbv zeta.
    rewrite range4_length.
    destruct (zero_run_spec raw_ end_ (Z.to_nat ((end_ - off + 3) / 4)) off)
      as (j & Hj & -> & Hz).
    set (next_off := if off + 4 * j >? off then off + 4 * j + 4 else off + 4).
    assert (Hnext : lo <= next_off).
    { unfold next_off. destruct (off + 4 * j >? off); lia. }
    assert (Hgood : off + 4 * j - off >= need ->
              lo <= off < end_ /\
              forall i, 0 <= i -> 4 * i < need ->
                slice raw_ (off + 4 * i) (off + 4 * i + 4) = [x00; x00; x00; x00]).
    { intros Hn. split; [lia|]. intros i Hi Hin. apply Hz. lia. }
    assert (Hbest' : forall dist b d,
              off + 4 * j - off >= need ->
              match best with
              | None => Some (off, dist)
              | Some (_, best_dist) => if dist <? best_dist then Some (off, dist) else best
              end = Some (b, d) ->
              lo <= b < end_ /\
              forall i, 0 <= i -> 4 * i < need ->
                slice raw_ (b + 4 * i) (b + 4 * i + 4) = [x00; x00; x00; x00]).
    { intros dist b d Hn H. destruct best as [[b0 d0]|].
      - destruct (dist <? d0).
        + injection H as <- <-. apply Hgood. exact Hn.
        + apply (Hbest b d). exact H.
      - injection H as <- <-. apply Hgood. exact Hn. }
    destruct (off + 4 * j - off >=? need) eqn:En; [|apply IH; assumption].
    assert (Hn : off + 4 * j - off >= need) by (apply Z.geb_le in En; lia).
    destruct (if off >=? 4 then TXMJB._disasm_one raw_ (off - 4) else None) as [pi|].
    + destruct (mn_in pi TXMJB.cave_prev_mnemonics).
      * intros H. injection H as <-. apply Hgood. exact Hn.
      * destruct near_off as [near|]; [|apply IH; assumption].
        destruct (TXMJB._disasm_one raw_ off); [|apply IH; assumption].
        apply IH; [exact Hnext|]. intros b d. apply Hbest'. exact Hn.
    + destruct near_off as [near|]; [|apply IH; assumption].
      destruct (TXMJB._disasm_one raw_ off); [|apply IH; assumption].
      apply IH; [exact Hnext|]. intros b d. apply Hbest'. exact Hn.
Qed.

(** The cave that [_find_udf_cave] gives for six instructions near an
    offset. *)
Lemma txm_find_udf_cave_sound_core {D : Disassembler} (p : patcher) (near c : Z) :
  TXMJB._find_udf_cave p 6 (Some near) 0x80000 = Some c ->
  0 <= c < size p /\ near - 0x1000 <= c < near + 0x80000 /\
  forall i, 0 <= i < 6 ->
    slice (raw p) (c + 4 * i) (c + 4 * i + 4) = [x00; x00; x00; x00].
Proof.
  unfold TXMJB._find_udf_cave. cbv zeta. intros H.
  apply (udf_cave_loop_sound (raw p) (6 * 4) (Some near) _ (Z.max 0 (near - 0x1000))) in H;
    [| lia | intros b d Hb; discriminate].
  destruct H as [Hr Hz].
  split; [lia|]. split; [lia|]. intros i Hi. apply Hz; lia.
Qed.

(** X16. The cave of the TXM patcher is made of zero words.  An offset that
    [_find_udf_cave] returns lies in the window it searched
    ([[0, size)] without [near_off], else
    [[max(0, near_off - 0x1000), min(size, near_off + max_distance))]), and
    the [min_insns] words from it are zero words that lie inside the image
    bytes. *)
Theorem txm_find_udf_cave_sound {D : Disassembler} (p : patcher) (min_insns : Z)
    (near_off : option Z) (max_distance c : Z) :
  TXMJB._find_udf_cave p min_insns near_off max_distance = Some c ->
  0 <= c < size p /\
  match near_off with
  | None => True
  | Some n => n - 0x1000 <= c < n + max_distance
  end /\
  forall i, 0 <= i < min_insns ->
    slice (raw p) (c + 4 * i) (c + 4 * i + 4) = [x00; x00; x00; x00] /\
    c + 4 * i + 4 <= len (raw p).
Proof.
  unfold TXMJB._find_udf_cave. cbv zeta. intros H.
  apply (udf_cave_loop_sound (raw p) (min_insns * 4) near_off _
           (match near_off with None => 0 | Some n => Z.max 0 (n - 0x1000) end)) in H;
    [| lia | intros b d Hb; discriminate].
  destruct H as [Hr Hz].
  assert (Hwords : forall i, 0 <= i < min_insns ->
            slice (raw p) (c + 4 * i) (c + 4 * i + 4) = [x00; x00; x00; x00] /\
            c + 4 * i + 4 <= len (raw p)).
  { intros i Hi. pose proof (Hz i ltac:(lia) ltac:(lia)) as Hs. split; [exact Hs|].
    assert (HL : len (slice (raw p) (c + 4 * i) (c + 4 * i + 4)) = 4)
      by (rewrite Hs; reflexivity).
    assert (Hc0 : 0 <= c) by (destruct near_off; lia).
    unfold slice, adjust in HL. unfold len in *.
    rewrite length_firstn, length_skipn in HL.
    destruct (c + 4 * i <? 0) eqn:E1; [apply Z.ltb_lt in E1; lia|].
    destruct (c + 4 * i + 4 <? 0) eqn:E2; [apply Z.ltb_lt in E2; lia|]. lia. }
  destruct near_off as [n|].
  - split; [lia|]. split; [lia | exact Hwords].
  - split; [lia|]. split; [exact I | exact Hwords].
Qed.

Lemma txm_find_udf_cave_sound_witness :
  @TXMJB._find_udf_cave A64.capstone (A64.image Samples.code_b_zeros) 6 (Some 8) 0x80000
  = Some 4 /\
  slice Samples.code_b_zeros (4 + 4 * 5) (4 + 4 * 5 + 4) = [x00; x00; x00; x00].
Proof.
  assert (E : @TXMJB._find_udf_cave A64.capstone (A64.image Samples.code_b_zeros)
                6 (Some 8) 0x80000 = Some 4) by (vm_compute; reflexivity).
  split; [exact E|].
  destruct (@txm_find_udf_cave_sound A64.capstone (A64.image Samples.code_b_zeros)
              6 (Some 8) 0x80000 4 E) as (_ & _ & Hz).
  apply (Hz 5). lia.
Defined.

(** ** Stripping the code signature *)

Lemma unpack_II_nonneg (d : bytes) (off c cs : Z) :
  unpack_II d off = Ok (c, cs) -> 0 <= c /\ 0 <= cs.
Proof.
  unfold unpack_II. destruct (field 8 d off) as [bs|e]; cbn [bind]; [|discriminate].
  intros H. injection H as <- <-. split; apply le_decode_range.
Qed.

Lemma last_cmd_loop_last (data : bytes) (ncmds : Z) (n : nat) :
  forall i offset last r,
    i + Z.of_nat n = ncmds ->
    Cfw.last_cmd_loop data ncmds (range_up n i 1) offset last = Ok r ->
    match n with
    | O => r = last
    | S m => exists lo c cs,
               r = (lo, c, cs) /\ command_offset data m offset = Some lo /\
               offset <= lo /\ unpack_II data lo = Ok (c, cs)
    end.
Proof.
  induction n as [|n IH]; intros i offset last r Hi; cbn [range_up Cfw.last_cmd_loop].
  - intros H. injection H as <-. reflexivity.
  - destruct (unpack_II data offset) as [[cmd cmdsize]|e] eqn:E; cbn [bind]; [|discriminate].
    intros H. pose proof (unpack_II_nonneg _ _ _ _ E) as [_ Hcs].
    specialize (IH (i + 1) (offset + cmdsize) _ r ltac:(lia) H).
    destruct n as [|m].
    + subst r. destruct (i =? ncmds - 1) eqn:Ei; [|apply Z.eqb_neq in Ei; lia].
      exists offset, cmd, cmdsize. cbn [command_offset].
      split; [reflexivity|]. split; [reflexivity|]. split; [lia | exact E].
    + destruct IH as (lo & c & cs & -> & Hoff & Hle & Hread).
      exists lo, c, cs. split; [reflexivity|]. split; [|split; [lia | exact Hread]].
      cbn [command_offset]. rewrite E. exact Hoff.
Qed.

(** X17. What [_strip_codesig] strips.  It returns 0 and leaves the buffer
    as it is unless the last load command, the one numbered [ncmds - 1], is
    [LC_CODE_SIGNATURE]; then it returns the size of that command, and the
    header counts one command and that many bytes less.  When the command
    lies inside the buffer, the length is kept, the bytes of the command are
    zero and no byte outside the command and the two counters changes. *)
Theorem strip_codesig_effect (data stripped : bytes) (base ncmds sizeofcmds freed : Z) :
  0 <= base ->
  unpack_I data (base + 16) = Ok ncmds ->
  unpack_I data (base + 20) = Ok sizeofcmds ->
  Cfw._strip_codesig data base = Ok (freed, stripped) ->
  (freed = 0 /\ stripped = data /\
   (ncmds = 0 \/
    exists last_offset c cs,
      command_offset data (Z.to_nat (ncmds - 1)) (base + 32) = Some last_offset /\
      unpack_II data last_offset = Ok (c, cs) /\ c <> 0x1D)) \/
  (exists last_offset,
     0 < ncmds /\
     command_offset data (Z.to_nat (ncmds - 1)) (base + 32) = Some last_offset /\
     base + 32 <= last_offset /\
     unpack_II data last_offset = Ok (0x1D, freed) /\
     unpack_I stripped (base + 16) = Ok (ncmds - 1) /\
     unpack_I stripped (base + 20) = Ok (sizeofcmds - freed) /\
     (last_offset + freed <= len data ->
      len stripped = len data /\
      (forall i, last_offset <= i < last_offset + freed -> byte_at stripped i = 0) /\
      (forall i, 0 <= i -> ~ (base + 16 <= i < base + 24) ->
                 ~ (last_offset <= i < last_offset + freed) ->
                 byte_at stripped i = byte_at data i))).
Proof.
  intros H0 Hn Hs. unfold Cfw._strip_codesig. rewrite Hn, Hs. cbn [bind].
  assert (Hn0 : 0 <= ncmds).
  { apply unpack_I_ok_inv in Hn; [|lia]. destruct Hn as [_ ->]. apply le_decode_range. }
  assert (Hrange : range 0 ncmds 1 = range_up (Z.to_nat ncmds) 0 1).
  { unfold range. cbn [Z.ltb Z.compare]. f_equal. f_equal.
    replace (ncmds - 0 + 1 - 1) with ncmds by lia. apply Z.div_1_r. }
  rewrite Hrange.
  destruct (Cfw.last_cmd_loop data ncmds (range_up (Z.to_nat ncmds) 0 1) (base + 32) (-1, 0, 0))
    as [[[lo c] cs]|e] eqn:El; cbn [bind]; [|discriminate].
  pose proof (last_cmd_loop_last data ncmds (Z.to_nat ncmds) 0 (base + 32) _ _
                ltac:(lia) El) as Hlast.
  destruct (Z.to_nat ncmds) as [|m] eqn:Em.
  - injection Hlast as -> -> ->. cbn [negb Z.eqb]. intros H. injection H as <- <-.
    left. split; [reflexivity|]. split; [reflexivity|]. left. lia.
  - destruct Hlast as (lo' & c' & cs' & Heq & Hoff & Hle & Hread).
    injection Heq as <- <- <-.
    replace (Z.to_nat (ncmds - 1)) with m by lia.
    destruct (c =? 29) eqn:Ec; cbn [negb].
    + apply Z.eqb_eq in Ec. subst c.
      destruct (pack_into_I _ (base + 16) _) as [d1|e] eqn:E1; cbn [bind]; [|discriminate].
      destruct (pack_into_I d1 (base + 20) _) as [d2|e] eqn:E2; cbn [bind]; [|discriminate].
      intros H. injection H as <- <-. right. exists lo.
      pose proof (unpack_II_nonneg _ _ _ _ Hread) as [_ Hcs].
      split; [lia|]. split; [exact Hoff|]. split; [exact Hle|]. split; [exact Hread|].
      split; [|split].
      * rewrite (unpack_I_pack_other d1 d2 (base + 20) (base + 16) _) by (try lia; exact E2).
        eapply unpack_I_pack_same; [|exact E1]. lia.
      * eapply unpack_I_pack_same; [|exact E2]. lia.
      * intros Hfit.
        assert (Hz : len (repeat x00 (Z.to_nat cs)) = cs)
          by (unfold len; rewrite repeat_length; lia).
        assert (Hsa : slice_assign data lo (lo + cs) (repeat x00 (Z.to_nat cs))
                      = splice data lo (repeat x00 (Z.to_nat cs))).
        { rewrite <- Hz at 1. apply slice_assign_splice; lia. }
        rewrite Hsa in E1.
        assert (Hl0 : len (splice data lo (repeat x00 (Z.to_nat cs))) = len data)
          by (apply splice_len; lia).
        assert (H4 : forall v, len (le_encode 4 v) = 4) by reflexivity.
        apply pack_into_I_ok_inv in E1; [|lia]. destruct E1 as (_ & L1 & E1).
        assert (Hl1 : len d1 = len data) by (rewrite E1, splice_len; rewrite ?H4; lia).
        apply pack_into_I_ok_inv in E2; [|lia]. destruct E2 as (_ & L2 & E2).
        split; [|split].
        -- rewrite E2, splice_len; rewrite ?H4; lia.
        -- intros i Hi.
           rewrite E2, byte_at_splice_outside by (rewrite ?H4; lia).
           rewrite E1, byte_at_splice_outside by (rewrite ?H4; lia).
           assert (Hb : bytes_at (splice data lo (repeat x00 (Z.to_nat cs))) lo
                          (List.length (repeat x00 (Z.to_nat cs)))
                        = repeat x00 (Z.to_nat cs))
             by (apply bytes_at_splice_same; lia).
           replace i with (lo + (i - lo)) by lia.
           rewrite (byte_at_sub _ _ lo (i - lo) _ Hb) by (rewrite ?repeat_length; lia).
           apply byte_at_repeat0.
        -- intros i Hi Hh Hc.
           rewrite E2, byte_at_splice_outside by (rewrite ?H4; lia).
           rewrite E1, byte_at_splice_outside by (rewrite ?H4; lia).
           apply byte_at_splice_outside; lia.
    + apply Z.eqb_neq in Ec. intros H. injection H as <- <-.
      left. split; [reflexivity|]. split; [reflexivity|]. right.
      exists lo, c, cs. split; [exact Hoff|]. split; [exact Hread | exact Ec].
Qed.

Lemma strip_codesig_effect_witness :
  exists stripped,
    Cfw._strip_codesig Images.macho_codesig 0 = Ok (16, stripped) /\
    len stripped = len Images.macho_codesig /\
    unpack_I stripped (0 + 16) = Ok (2 - 1) /\
    byte_at stripped 184 = 0.
Proof.
  destruct (Cfw._strip_codesig Images.macho_codesig 0) as [[freed stripped]|e] eqn:E;
    [|vm_compute in E; discriminate].
  assert (Hf : freed = 16) by (vm_compute in E; injection E as <- _; reflexivity).
  subst freed.
  destruct (strip_codesig_effect Images.macho_codesig stripped 0 2 168 16)
    as [(Hfreed & _)|(lo & _ & Hoff & _ & _ & H16 & _ & Hin)].
  - lia.
  - vm_compute. reflexivity.
  - vm_compute. reflexivity.
  - exact E.
  - discriminate.
  - vm_compute in Hoff. injection Hoff as <-.
    destruct Hin as (Hl & Hz & _); [vm_compute; discriminate|].
    exists stripped. split; [reflexivity|]. split; [exact Hl|]. split; [exact H16|].
    apply Hz. lia.
Defined.

(** ** The shellcode rule of txm_jb.py *)

Lemma filter_singleton {A} (f : A -> bool) (l : list A) (x : A) :
  filter f l = [x] ->
  In x l /\ f x = true /\
  exists l1 l2, l = l1 ++ x :: l2 /\
    (forall y, In y l1 -> f y = false) /\ (forall y, In y l2 -> f y = false).
Proof.
  induction l as [|a l IH]; cbn [filter]; [discriminate|].
  destruct (f a) eqn:E.
  - intros H. injection H as -> Hnil.
    split; [left; reflexivity|]. split; [exact E|].
    exists [], l. split; [reflexivity|]. split; [intros y []|].
    intros y Hy. destruct (f y) eqn:Ey; [|reflexivity].
    assert (Hin : In y (filter f l)) by (apply filter_In; split; assumption).
    rewrite Hnil in Hin. destruct Hin.
  - intros H. destruct (IH H) as (Hin & Hx & l1 & l2 & -> & H1 & H2).
    split; [right; exact Hin|]. split; [exact Hx|].
    exists (a :: l1), l2. split; [reflexivity|]. split; [|exact H2].
    intros y [<-|Hy]; [exact E | apply H1; exact Hy].
Qed.

Section Shellcode.
Context {D : Disassembler} {K : Assembler}.

Lemma asm_at_done (asm_line : string) (addr : Z) (p p' : patcher) (b : bytes) :
  TXMJB._asm_at asm_line addr p = Done b p' ->
  p' = p /\ ks_asm asm_line addr = Some b /\ b <> [].
Proof.
  unfold TXMJB._asm_at, lift.
  destruct (ks_asm asm_line addr) as [[|x enc]|]; try discriminate.
  intros H. injection H as <- <-. split; [reflexivity|]. split; [reflexivity|discriminate].
Qed.

(** X18. The shellcode of [patch_selector42_29_shellcode] goes to zero
    words.  When the rule returns [True] there is one stub in the image, at
    a word-aligned offset, that passes its checks; the cave is the one
    [_find_udf_cave] gives for six instructions near the stub, so it lies
    inside the image, from 0x1000 bytes before the stub to 0x80000 bytes
    after it, on six zero words; and the rule has emitted, in this order, a
    branch to the cave at the stub and at the cave [nop], [mov x0, #1],
    [strb w0, [x20, #0x30]], [mov x0, x20] and the branch back to the
    instruction after the stub.  When it returns [False] it has emitted
    nothing. *)
Theorem selector42_29_shellcode_effect (p p' : patcher) (r : bool) :
  TXMJB.patch_selector42_29_shellcode p = Done r p' ->
  (r = false -> p' = p) /\
  (r = true ->
   exists fn stub_off cave b1 b2,
     TXMJB._find_debugger_gate_func_start p = Some fn /\
     TXMJB.stub_site p fn stub_off = true /\
     4 <= stub_off < size p - 24 /\ stub_off mod 4 = 0 /\
     (forall x, 4 <= x < size p - 24 -> x mod 4 = 0 -> x <> stub_off ->
                TXMJB.stub_site p fn x = false) /\
     TXMJB._find_udf_cave p 6 (Some stub_off) 0x80000 = Some cave /\
     0 <= cave < size p /\ stub_off - 0x1000 <= cave < stub_off + 0x80000 /\
     (forall i, 0 <= i < 6 ->
        slice (raw p) (cave + 4 * i) (cave + 4 * i + 4) = [x00; x00; x00; x00]) /\
     ks_asm (String.append "b #0x" (format_X cave)) stub_off = Some b1 /\ b1 <> [] /\
     ks_asm (String.append "b #0x" (format_X (stub_off + 4))) (cave + 16) = Some b2 /\
     b2 <> [] /\
     p' = emit_list
            [(stub_off, b1, "selector42|29: branch to shellcode"%string);
             (cave, TXMJB.NOP, "selector42|29 shellcode pad: udf -> nop"%string);
             (cave + 4, TXMJB.MOV_X0_1, "selector42|29 shellcode: mov x0,#1"%string);
             (cave + 8, TXMJB.STRB_W0_X20_30,
              "selector42|29 shellcode: strb w0,[x20,#0x30]"%string);
             (cave + 12, TXMJB.MOV_X0_X20, "selector42|29 shellcode: mov x0,x20"%string);
             (cave + 16, b2, "selector42|29 shellcode: branch back"%string)] p).
Proof.
  unfold TXMJB.patch_selector42_29_shellcode. unfold mbind at 1. unfold get at 1.
  destruct (TXMJB._find_debugger_gate_func_start p) as [fn|] eqn:Efn.
  2:{ unfold ret. intros H. injection H as <- <-. split; [reflexivity|discriminate]. }
  destruct (filter (TXMJB.stub_site p fn) (range 4 (size p - 24) 4))
    as [|stub_off [|y rest]] eqn:Ef.
  1,3: unfold ret; intros H; injection H as <- <-; split; [reflexivity|discriminate].
  destruct (TXMJB._find_udf_cave p 6 (Some stub_off) 524288) as [cave|] eqn:Ecave.
  2:{ unfold ret. intros H. injection H as <- <-. split; [reflexivity|discriminate]. }
  unfold mbind at 1.
  destruct (TXMJB._asm_at (String.append "b #0x" (format_X cave)) stub_off p)
    as [b1 p1|e] eqn:E1; [|discriminate].
  apply asm_at_done in E1. destruct E1 as (-> & Hb1 & Hne1).
  unfold mbind, emit.
  match goal with
  | |- context [TXMJB._asm_at ?l ?a ?q] =>
    destruct (TXMJB._asm_at l a q) as [b2 p2|e] eqn:E2; [|discriminate]
  end.
  apply asm_at_done in E2. destruct E2 as (-> & Hb2 & Hne2).
  unfold ret. intros H. injection H as <- <-.
  split; [discriminate|]. intros _.
  destruct (filter_singleton _ _ _ Ef) as (Hin & Hsite & l1 & l2 & Hsplit & H1 & H2).
  apply in_range4 in Hin. destruct Hin as [Hr Hm].
  assert (Hmod : forall x, (x - 4) mod 4 = 0 <-> x mod 4 = 0).
  { intros x. split; intros Hx; apply Z.mod_divide in Hx; try lia; destruct Hx as [q Hq].
    - replace x with ((q + 1) * 4) by lia. apply Z.mod_mul. lia.
    - replace (x - 4) with ((q - 1) * 4) by lia. apply Z.mod_mul. lia. }
  destruct (txm_find_udf_cave_sound_core p stub_off cave Ecave) as (Hc & Hnear & Hz).
  exists fn, stub_off, cave, b1, b2.
  split; [reflexivity|]. split; [exact Hsite|]. split; [exact Hr|].
  split; [apply Hmod; exact Hm|]. split.
  - intros x Hx Hxm Hne.
    assert (Hxin : In x (range 4 (size p - 24) 4))
      by (apply in_range4; split; [exact Hx | apply Hmod; exact Hxm]).
    rewrite Hsplit in Hxin. apply in_app_or in Hxin.
    destruct Hxin as [Hx1|[Heq|Hx2]]; [apply H1; exact Hx1 | congruence | apply H2; exact Hx2].
  - split; [exact Ecave|]. split; [exact Hc|]. split; [exact Hnear|]. split; [exact Hz|].
    split; [exact Hb1|]. split; [exact Hne1|]. split; [exact Hb2|]. split; [exact Hne2|].
    cbn [emit_list]. reflexivity.
Qed.

End Shellcode.

Lemma selector42_29_shellcode_effect_witness :
  exists p' cave,
    @TXMJB.patch_selector42_29_shellcode A64.capstone A64.keystone
      (A64.image Images.txm_debugger) = Done true p' /\
    @TXMJB._find_udf_cave A64.capstone (A64.image Images.txm_debugger) 6 (Some 0x24) 0x80000
    = Some cave /\
    slice Images.txm_debugger (cave + 4 * 5) (cave + 4 * 5 + 4) = [x00; x00; x00; x00].
Proof.
  destruct (@TXMJB.patch_selector42_29_shellcode A64.capstone A64.keystone
              (A64.image Images.txm_debugger)) as [r p'|e] eqn:E;
    [|vm_compute in E; discriminate].
  assert (Hr : r = true) by (vm_compute in E; injection E as <- _; reflexivity).
  subst r.
  destruct (@selector42_29_shellcode_effect A64.capstone A64.keystone
              (A64.image Images.txm_debugger) p' true E) as [_ H].
  destruct (H eq_refl) as (fn & stub_off & cave & b1 & b2 & Hfn & Hsite & Hrng & Hm & Hu
                           & Hcave & _ & _ & Hz & _).
  assert (Hfn0 : fn = 0) by (vm_compute in Hfn; injection Hfn as <-; reflexivity).
  subst fn.
  assert (Hs : stub_off = 0x24).
  { destruct (Z.eq_dec 0x24 stub_off) as [Heq|Hne]; [symmetry; exact Heq|].
    exfalso.
    assert (Hf : @TXMJB.stub_site A64.capstone (A64.image Images.txm_debugger) 0 0x24 = false)
      by (apply Hu; [vm_compute; split; [discriminate|reflexivity] | reflexivity | exact Hne]).
    vm_compute in Hf. discriminate. }
  subst stub_off.
  exists p', cave. split; [reflexivity|]. split; [exact Hcave|]. apply (Hz 5). lia.
Defined.

(** ** [_proc_security_policy] in kernel_jb.py *)

Lemma counter_incr_get (c : list (Z * Z)) (k k' : Z) :
  counter_get (KernelJB.counter_incr c k) k'
  = counter_get c k' + (if k =? k' then 1 else 0).
Proof.
  induction c as [|[k0 n] t IH]; cbn [KernelJB.counter_incr counter_get].
  - destruct (k =? k'); lia.
  - destruct (k0 =? k) eqn:E0; cbn [counter_get].
    + apply Z.eqb_eq in E0. subst k0. destruct (k =? k'); lia.
    + destruct (k0 =? k') eqn:E1.
      * apply Z.eqb_eq in E1. subst k0. rewrite Z.eqb_sym, E0. lia.
      * exact IH.
Qed.

Lemma counter_incr_keys (c : list (Z * Z)) (k : Z) :
  NoDup (map fst c) ->
  NoDup (map fst (KernelJB.counter_incr c k)) /\
  forall x, In x (map fst (KernelJB.counter_incr c k)) -> x = k \/ In x (map fst c).
Proof.
  induction c as [|[k0 n] t IH]; cbn [KernelJB.counter_incr map fst].
  - intros _. split; [repeat constructor; intros []|].
    intros x [<-|[]]. left. reflexivity.
  - intros Hnd. inversion Hnd as [|? ? Hnotin Hnd']; subst.
    destruct (k0 =? k) eqn:E0; cbn [map fst].
    + split; [exact Hnd|]. intros x Hx. right. exact Hx.
    + destruct (IH Hnd') as [IH1 IH2]. split.
      * constructor; [|exact IH1]. intros Hin.
        destruct (IH2 _ Hin) as [->|Hin']; [rewrite Z.eqb_refl in E0; discriminate|].
        apply Hnotin. exact Hin'.
      * intros x [<-|Hx]; [right; left; reflexivity|].
        destruct (IH2 _ Hx) as [->|Hx']; [left; reflexivity | right; right; exact Hx'].
Qed.

Lemma counter_get_In (c : list (Z * Z)) (k n : Z) :
  NoDup (map fst c) -> In (k, n) c -> counter_get c k = n.
Proof.
  induction c as [|[k0 n0] t IH]; cbn [counter_get map fst In]; [intros _ []|].
  intros Hnd Hin. inversion Hnd as [|? ? Hnotin Hnd']; subst.
  destruct Hin as [Heq|Hin].
  - injection Heq as -> ->. rewrite Z.eqb_refl. reflexivity.
  - destruct (k0 =? k) eqn:E; [|apply IH; assumption].
    apply Z.eqb_eq in E. subst k0. exfalso. apply Hnotin.
    apply (in_map fst) in Hin. exact Hin.
Qed.

Lemma counter_get_absent (c : list (Z * Z)) (k : Z) :
  ~ In k (map fst c) -> counter_get c k = 0.
Proof.
  induction c as [|[k0 n0] t IH]; cbn [counter_get map fst In]; [reflexivity|].
  intros H. destruct (k0 =? k) eqn:E.
  - apply Z.eqb_eq in E. exfalso. apply H. left. exact E.
  - apply IH. intros Hin. apply H. right. exact Hin.
Qed.

Section ProcSecurityPolicy.
Context {D : Disassembler} {KB : KernelJB.KernelBase} {KR : KernelJB.KernelRules}.

Lemma bl_calls_cons (p : patcher) (off : Z) (rest : list Z) (k : Z) :
  bl_calls p (off :: rest) k
  = (if KernelJB._is_bl p off =? k then 1 else 0) + bl_calls p rest k.
Proof.
  unfold bl_calls. cbn [filter]. destruct (KernelJB._is_bl p off =? k).
  - rewrite len_cons. reflexivity.
  - lia.
Qed.

Lemma count_bl_targets_spec (p : patcher) (ks ke : Z) (offs : list Z) :
  forall c,
    NoDup (map fst c) ->
    Forall (fun k => 0 <= k /\ ks <= k < ke) (map fst c) ->
    let c' := KernelJB.count_bl_targets p ks ke offs c in
    NoDup (map fst c') /\
    Forall (fun k => 0 <= k /\ ks <= k < ke) (map fst c') /\
    forall k, 0 <= k -> ks <= k < ke ->
              counter_get c' k = counter_get c k + bl_calls p offs k.
Proof.
  induction offs as [|off rest IH]; intros c Hnd Hkeys; cbn [KernelJB.count_bl_targets].
  - cbv zeta. split; [exact Hnd|]. split; [exact Hkeys|].
    intros k _ _. unfold bl_calls. cbn. lia.
  - cbv zeta.
    destruct ((KernelJB._is_bl p off >=? 0) && (ks <=? KernelJB._is_bl p off)
              && (KernelJB._is_bl p off <? ke)) eqn:E.
    + apply andb_true_iff in E. destruct E as [E E3].
      apply andb_true_iff in E. destruct E as [E1 E2].
      apply Z.geb_le in E1. apply Z.leb_le in E2. apply Z.ltb_lt in E3.
      destruct (counter_incr_keys c (KernelJB._is_bl p off) Hnd) as [Hnd' Hk'].
      assert (Hkeys' : Forall (fun k => 0 <= k /\ ks <= k < ke)
                         (map fst (KernelJB.counter_incr c (KernelJB._is_bl p off)))).
      { apply Forall_forall. intros x Hx. destruct (Hk' x Hx) as [->|Hin]; [lia|].
        rewrite Forall_forall in Hkeys. apply Hkeys. exact Hin. }
      destruct (IH _ Hnd' Hkeys') as (H1 & H2 & H3).
      split; [exact H1|]. split; [exact H2|].
      intros k Hk0 Hk. rewrite (H3 k Hk0 Hk), counter_incr_get, bl_calls_cons. lia.
    + destruct (IH _ Hnd Hkeys) as (H1 & H2 & H3).
      split; [exact H1|]. split; [exact H2|].
      intros k Hk0 Hk. rewrite (H3 k Hk0 Hk), bl_calls_cons.
      destruct (KernelJB._is_bl p off =? k) eqn:Ek; [|lia].
      apply Z.eqb_eq in Ek. exfalso.
      apply andb_false_iff in E. destruct E as [E|E].
      * apply andb_false_iff in E. destruct E as [E|E].
        -- assert (~ KernelJB._is_bl p off >= 0) by (rewrite Z.geb_leb in E; apply Z.leb_gt in E; lia).
           lia.
        -- apply Z.leb_gt in E. lia.
      * apply Z.ltb_ge in E. lia.
Qed.

Lemma most_common_spec (c : list (Z * Z)) :
  forall best k n,
    KernelJB.most_common c best = (k, n) ->
    ((k, n) = best \/ In (k, n) c) /\ snd best <= n /\
    forall k' n', In (k', n') c -> n' <= n.
Proof.
  induction c as [|[k0 n0] t IH]; intros best k n; cbn [KernelJB.most_common].
  - intros ->. cbn [snd]. split; [left; reflexivity|]. split; [lia|]. intros k' n' [].
  - intros H. destruct (IH _ _ _ H) as (Hin & Hge & Hmax).
    destruct (n0 >? snd best) eqn:E.
    + cbn [snd] in Hge. split.
      * destruct Hin as [Heq|Hin]; [right; left; symmetry; exact Heq | right; right; exact Hin].
      * split; [apply Z.gtb_lt in E; lia|].
        intros k' n' [Heq|Hin']; [injection Heq as <- <-; lia | apply (Hmax k'); exact Hin'].
    + split.
      * destruct Hin as [Heq|Hin]; [left; exact Heq | right; right; exact Hin].
      * split; [exact Hge|].
        intros k' n' [Heq|Hin']; [|apply (Hmax k'); exact Hin'].
        injection Heq as <- <-. rewrite Z.gtb_ltb in E. apply Z.ltb_ge in E. lia.
Qed.

(** X19. What [patch_proc_security_policy] stubs.  When the rule returns
    [True] it has emitted [mov x0, #0] at an offset that is not negative and
    [ret] four bytes after it, and nothing else.  The offset is the one the
    symbol table gives for [_proc_security_policy]; or, when the table gives
    none that is not negative, an offset of the kernel text that the [bl]
    instructions of [_proc_info] call at least three times and no less often
    than any other offset of the kernel text.  When it returns [False] it has emitted
    nothing. *)
Theorem proc_security_policy_effect (p p' : patcher) (r : bool) :
  KernelJB.patch_proc_security_policy p = Done r p' ->
  (r = false -> p' = p) /\
  (r = true ->
   exists foff,
     0 <= foff /\
     p' = emit_list [(foff, KernelJB.MOV_X0_0, "mov x0,#0 [_proc_security_policy]"%string);
                     (foff + 4, KernelJB.RET, "ret [_proc_security_policy]"%string)] p /\
     (dict_get (symbols p) (of_string "_proc_security_policy") = Some foff \/
      exists proc_info_end,
        let proc_info_func :=
          KernelJB.proc_info_scan p (range (fst (kern_text p)) (snd (kern_text p) - 8) 4) in
        let calls := bl_calls p (range proc_info_func proc_info_end 4) in
        ~ (exists f, dict_get (symbols p) (of_string "_proc_security_policy") = Some f
                     /\ 0 <= f) /\
        0 <= proc_info_func /\
        KernelJB._find_func_end proc_info_func 0x4000 p = Done proc_info_end p /\
        fst (kern_text p) <= foff < snd (kern_text p) /\
        3 <= calls foff /\
        forall k, 0 <= k -> fst (kern_text p) <= k < snd (kern_text p) ->
                  calls k <= calls foff)).
Proof.
  unfold KernelJB.patch_proc_security_policy. unfold mbind at 1.
  unfold KernelJB._resolve_symbol at 1.
  remember (match dict_get (symbols p) (of_string "_proc_security_policy") with
            | Some f => f
            | None => -1
            end) as v eqn:Ev.
  destruct (v >=? 0) eqn:Epos.
  - assert (Hv : 0 <= v) by (apply Z.geb_le in Epos; lia).
    unfold mbind, emit, ret. intros H. injection H as <- <-.
    split; [discriminate|]. intros _. exists v.
    split; [exact Hv|]. split; [reflexivity|]. left.
    destruct (dict_get (symbols p) (of_string "_proc_security_policy")) as [f|];
      [subst v; reflexivity | lia].
  - assert (Hv : v < 0) by (rewrite Z.geb_leb in Epos; apply Z.leb_gt in Epos; lia).
    assert (Hno : ~ (exists f, dict_get (symbols p) (of_string "_proc_security_policy")
                               = Some f /\ 0 <= f)).
    { intros (f & Hf & Hpos). rewrite Hf in Ev. lia. }
    clear Ev Epos.
    unfold mbind at 1. unfold get at 1.
    destruct (kern_text p) as [ks ke] eqn:Ek. cbn [fst snd].
    remember (KernelJB.proc_info_scan p (range ks (ke - 8) 4)) as pif eqn:Epif.
    destruct (pif <? 0) eqn:Eneg.
    { unfold ret. intros H. injection H as <- <-. split; [reflexivity|discriminate]. }
    apply Z.ltb_ge in Eneg.
    unfold mbind at 1. unfold KernelJB._find_func_end at 1.
    remember (KernelJB._find_func_end_loop p
                (range (pif + 4) (Z.min (pif + 16384) (size p)) 4)
                (Z.min (pif + 16384) (size p))) as pend eqn:Epend.
    pose proof (count_bl_targets_spec p ks ke (range pif pend 4) []
                  (NoDup_nil Z) (Forall_nil _)) as Hcount.
    cbv zeta in Hcount. destruct Hcount as (Hnd & Hkeys & Hget).
    destruct (KernelJB.count_bl_targets p ks ke (range pif pend 4) [])
      as [|first others] eqn:Ec.
    { unfold ret. intros H. injection H as <- <-. split; [reflexivity|discriminate]. }
    pose proof (most_common_spec others first) as Hmc.
    destruct (KernelJB.most_common others first) as [foff count] eqn:Emc.
    specialize (Hmc foff count eq_refl). destruct Hmc as (Hin & Hfirst & Hmax).
    destruct (count <? 3) eqn:E3.
    { unfold ret. intros H. injection H as <- <-. split; [reflexivity|discriminate]. }
    apply Z.ltb_ge in E3.
    unfold mbind, emit, ret. intros H. injection H as <- <-.
    split; [discriminate|]. intros _.
    assert (Hin' : In (foff, count) (first :: others)).
    { destruct Hin as [Heq|Hin]; [left; symmetry; exact Heq | right; exact Hin]. }
    assert (Hkey : 0 <= foff /\ ks <= foff < ke).
    { rewrite Forall_forall in Hkeys. apply Hkeys.
      apply (in_map fst) in Hin'. exact Hin'. }
    assert (Hcalls : bl_calls p (range pif pend 4) foff = count).
    { rewrite <- (counter_get_In _ _ _ Hnd Hin').
      rewrite (Hget foff) by lia. cbn [counter_get]. lia. }
    exists foff. split; [lia|]. split; [reflexivity|]. right.
    exists pend. cbv zeta.
    split; [exact Hno|]. split; [exact Eneg|].
    split; [unfold KernelJB._find_func_end; rewrite Epend; reflexivity|].
    split; [lia|]. split; [lia|].
    intros k Hk0 Hk. rewrite Hcalls.
    assert (Hgk : counter_get (first :: others) k = bl_calls p (range pif pend 4) k).
    { rewrite (Hget k Hk0 Hk). cbn [counter_get]. lia. }
    rewrite <- Hgk.
    destruct (in_dec Z.eq_dec k (map fst (first :: others))) as [Hink|Hnot].
    + apply in_map_iff in Hink. destruct Hink as ([k' n'] & Hfst & Hpair).
      cbn [fst] in Hfst. subst k'.
      rewrite (counter_get_In _ _ _ Hnd Hpair).
      destruct Hpair as [Heq|Hother]; [subst first; cbn [snd] in Hfirst; lia|].
      apply (Hmax k). exact Hother.
    + rewrite (counter_get_absent _ _ Hnot). lia.
Qed.

End ProcSecurityPolicy.

Lemma proc_security_policy_effect_witness :
  exists p',
    @KernelJB.patch_proc_security_policy A64.capstone A64.kernel_base
      Images.kernel_symtab_ready = Done true p' /\
    map (fun pt : patch => (fst (fst pt), snd (fst pt))) (patches p')
    = [(0x64, KernelJB.MOV_X0_0); (0x68, KernelJB.RET)].
Proof.
  destruct (@KernelJB.patch_proc_security_policy A64.capstone A64.kernel_base
              Images.kernel_symtab_ready) as [r p'|e] eqn:E;
    [|vm_compute in E; discriminate].
  assert (Hr : r = true) by (vm_compute in E; injection E as <- _; reflexivity).
  subst r.
  destruct (@proc_security_policy_effect A64.capstone A64.kernel_base
              Images.kernel_symtab_ready p' true E) as [_ H].
  destruct (H eq_refl) as (foff & _ & Hp & Hwhich).
  assert (Hf : foff = 0x64).
  { destruct Hwhich as [Hsym|(pe & Hno & _)].
    - vm_compute in Hsym. injection Hsym as <-. reflexivity.
    - exfalso. apply Hno. exists 0x64. split; [vm_compute; reflexivity | lia]. }
  subst foff. exists p'. split; [reflexivity|].
  rewrite Hp. destruct (emit_list_fields
    [(100, KernelJB.MOV_X0_0, "mov x0,#0 [_proc_security_policy]"%string);
     (100 + 4, KernelJB.RET, "ret [_proc_security_policy]"%string)]
    Images.kernel_symtab_ready) as (Hps & _).
  rewrite Hps. reflexivity.
Defined.

(** ** The nonce rule of iboot_jb.py *)

Section Nonce.
Context {D : Disassembler} {K : Assembler} {IB : IBootJB.IBootBase}.

Lemma iboot_add_refs_sub (rs : list (Z * Z * Z)) :
  forall seen refs r,
    In r (snd (IBootJB.add_refs rs seen refs)) -> In r refs \/ In r rs.
Proof.
  induction rs as [|[[r0 r1] r2] rest IH]; intros seen refs r; cbn [IBootJB.add_refs].
  - intros H. left. exact H.
  - destruct (negb (TXMJB.mem r0 seen)); intros H; apply IH in H.
    + destruct H as [H|H]; [|right; right; exact H].
      apply in_app_or in H. destruct H as [H|[<-|[]]]; [left; exact H | right; left; reflexivity].
    + destruct H as [H|H]; [left; exact H | right; right; exact H].
Qed.

Lemma iboot_string_refs_loop_sound (p : patcher) (needle : bytes) (fuel : nat) :
  forall off seen refs,
    (forall r, In r refs ->
       exists s, occurs_at (raw p) needle s /\ In r (IBootJB._find_refs_to_offset p s)) ->
    forall r, In r (IBootJB._find_string_refs_loop fuel p needle off seen refs) ->
      exists s, occurs_at (raw p) needle s /\ In r (IBootJB._find_refs_to_offset p s).
Proof.
  induction fuel as [|f IH]; intros off seen refs Hrefs;
    cbn [IBootJB._find_string_refs_loop]; [exact Hrefs|].
  destruct (find (raw p) needle off <? 0) eqn:E; [exact Hrefs|].
  apply Z.ltb_ge in E.
  pose proof (iboot_add_refs_sub (IBootJB._find_refs_to_offset p (find (raw p) needle off))
                seen refs) as Hsub.
  destruct (IBootJB.add_refs _ seen refs) as [seen' refs']. cbn [snd] in Hsub.
  apply IH. intros r Hr. destruct (Hsub r Hr) as [Hold|Hnew].
  - apply Hrefs. exact Hold.
  - exists (find (raw p) needle off). split; [apply find_occurs; exact E | exact Hnew].
Qed.

Lemma nonce_scan_first (p : patcher) (scans : list Z) (scan target : Z) :
  IBootJB.nonce_scan p scans = Some (scan, target) ->
  exists l1 l2, scans = l1 ++ scan :: l2 /\
    IBootJB.nonce_site p scan = Some target /\
    forall s, In s l1 -> IBootJB.nonce_site p s = None.
Proof.
  induction scans as [|x rest IH]; cbn [IBootJB.nonce_scan]; [discriminate|].
  destruct (IBootJB.nonce_site p x) as [t|] eqn:E.
  - intros H. injection H as <- <-. exists [], rest.
    split; [reflexivity|]. split; [exact E|]. intros s [].
  - intros H. destruct (IH H) as (l1 & l2 & -> & Hs & Hno).
    exists (x :: l1), l2. split; [reflexivity|]. split; [exact Hs|].
    intros s [<-|Hin]; [exact E | apply Hno; exact Hin].
Qed.

Lemma nonce_refs_first (p : patcher) (refs : list (Z * Z * Z)) (scan target : Z) :
  IBootJB.nonce_refs p refs = Some (scan, target) ->
  exists adrp_off add_off reg,
    In (adrp_off, add_off, reg) refs /\
    IBootJB.nonce_scan p (range add_off (Z.min (add_off + 0x100) (size p - 12)) 4)
    = Some (scan, target).
Proof.
  induction refs as [|[[a b] r] rest IH]; cbn [IBootJB.nonce_refs]; [discriminate|].
  destruct (IBootJB.nonce_scan p (range b (Z.min (b + 256) (size p - 12)) 4))
    as [st|] eqn:E.
  - intros H. injection H as ->. exists a, b, r. split; [left; reflexivity | exact E].
  - intros H. destruct (IH H) as (a' & b' & r' & Hin & Hs).
    exists a', b', r'. split; [right; exact Hin | exact Hs].
Qed.

(** X20. What [patch_skip_generate_nonce] rewrites.  When the rule returns
    [True] it has emitted one patch and nothing else: the branch
    [b target] over an instruction [tbz] or [tbnz] on bit 0 of [w0] that is
    followed by [mov w0, #0] and [bl], where [target] is the target of that
    instruction.  The instruction lies a whole number of words, less than
    0x100 bytes, after the [add] of an [adrp]/[add] pair that refers to an
    occurrence of ["boot-nonce"], with twelve bytes of image from it, and no
    earlier word after that [add] has the shape.  When the rule returns
    [False] it has emitted nothing. *)
Theorem skip_generate_nonce_effect (p p' : patcher) (r : bool) :
  IBootJB.patch_skip_generate_nonce p = Done r p' ->
  (r = false -> p' = p) /\
  (r = true ->
   exists s_off adrp_off add_off reg scan target b,
     occurs_at (raw p) (B "boot-nonce") s_off /\
     In (adrp_off, add_off, reg) (IBootJB._find_refs_to_offset p s_off) /\
     add_off <= scan < add_off + 0x100 /\ scan < size p - 12 /\
     (scan - add_off) mod 4 = 0 /\
     IBootJB.nonce_site p scan = Some target /\
     (forall s, add_off <= s < scan -> (s - add_off) mod 4 = 0 ->
                IBootJB.nonce_site p s = None) /\
     ks_asm (String.append "b #0x" (format_X target)) scan = Some b /\ b <> [] /\
     p' = emit_list [(scan, b, "JB: skip generate_nonce"%string)] p).
Proof.
  unfold IBootJB.patch_skip_generate_nonce. unfold mbind at 1. unfold get at 1.
  pose proof (iboot_string_refs_loop_sound p (B "boot-nonce") (List.length (raw p) + 2)
                0 [] [] (fun r0 (H : In r0 []) => match H with end)) as Hsound.
  fold (IBootJB._find_string_refs p (B "boot-nonce")) in Hsound.
  destruct (IBootJB._find_string_refs p (B "boot-nonce")) as [|r0 refs] eqn:Erefs.
  { unfold ret. intros H. injection H as <- <-. split; [reflexivity|discriminate]. }
  destruct (IBootJB.nonce_refs p (r0 :: refs)) as [[scan target]|] eqn:En.
  2:{ unfold ret. intros H. injection H as <- <-. split; [reflexivity|discriminate]. }
  unfold mbind at 1.
  destruct (IBootJB._asm_at (String.append "b #0x" (format_X target)) scan p)
    as [b p1|e] eqn:Ea; [|discriminate].
  assert (Hasm : p1 = p /\ ks_asm (String.append "b #0x" (format_X target)) scan = Some b
                 /\ b <> []).
  { unfold IBootJB._asm_at, lift in Ea.
    destruct (ks_asm (String.append "b #0x" (format_X target)) scan) as [[|x enc]|];
      try discriminate.
    injection Ea as <- <-. split; [reflexivity|]. split; [reflexivity|discriminate]. }
  destruct Hasm as (-> & Hb & Hne).
  unfold mbind, emit, ret. intros H. injection H as <- <-.
  split; [discriminate|]. intros _.
  destruct (nonce_refs_first _ _ _ _ En) as (adrp_off & add_off & reg & Hin & Hscan).
  destruct (Hsound _ Hin) as (s_off & Hocc & Href).
  destruct (nonce_scan_first _ _ _ _ Hscan) as (l1 & l2 & Hsplit & Hsite & Hno).
  assert (Hins : In scan (range add_off (Z.min (add_off + 256) (size p - 12)) 4))
    by (rewrite Hsplit; apply in_or_app; right; left; reflexivity).
  apply in_range4 in Hins. destruct Hins as [Hr Hm].
  exists s_off, adrp_off, add_off, reg, scan, target, b.
  split; [exact Hocc|]. split; [exact Href|]. split; [lia|]. split; [lia|].
  split; [exact Hm|]. split; [exact Hsite|]. split.
  - intros s Hs Hsm. apply Hno.
    pose proof Hsplit as Hpre. rewrite range4_length in Hpre.
    pose proof (range_up_split _ _ _ _ _ _ Hpre) as (Hsx & _ & _).
    rewrite (range_up_prefix _ _ _ _ _ _ Hpre). apply in_range_up.
    apply Z.mod_divide in Hsm; [|lia]. destruct Hsm as [q Hq].
    exists (Z.to_nat q). split; lia.
  - split; [exact Hb|]. split; [exact Hne|]. cbn [emit_list]. reflexivity.
Qed.

End Nonce.

Lemma skip_generate_nonce_effect_witness :
  exists p',
    @IBootJB.patch_skip_generate_nonce A64.capstone A64.keystone Samples.one_chunk
      (A64.image Samples.ibss_nonce) = Done true p' /\
    map (fun pt : patch => (fst (fst pt), snd (fst pt))) (patches p')
    = [(8, A64.word 0x14000002)].
Proof.
  destruct (@IBootJB.patch_skip_generate_nonce A64.capstone A64.keystone Samples.one_chunk
              (A64.image Samples.ibss_nonce)) as [r p'|e] eqn:E;
    [|vm_compute in E; discriminate].
  assert (Hr : r = true) by (vm_compute in E; injection E as <- _; reflexivity).
  subst r.
  destruct (@skip_generate_nonce_effect A64.capstone A64.keystone Samples.one_chunk
              (A64.image Samples.ibss_nonce) p' true E) as [_ H].
  destruct (H eq_refl) as (s_off & adrp_off & add_off & reg & scan & target & b & _ & _ & _
                           & _ & _ & _ & _ & _ & _ & Hp).
  exists p'. split; [reflexivity|].
  vm_compute in E. injection E as <-. reflexivity.
Defined.

(** ** String anchors in the commands of cfw.py *)

Lemma unpack_I_nonneg (data : bytes) (off v : Z) : unpack_I data off = Ok v -> 0 <= v.
Proof.
  unfold unpack_I. destruct (field 4 data off) as [bs|e]; cbn [bind]; [|discriminate].
  intros H. injection H as <-. apply le_decode_range.
Qed.

Lemma parse_sects_nonneg (data : bytes) (n : nat) :
  forall segname sect_off acc secs,
    Forall (fun kv : pystr * Cfw.section_info => 0 <= snd (snd kv)) acc ->
    Cfw.parse_sects data n segname sect_off acc = Ok secs ->
    Forall (fun kv : pystr * Cfw.section_info => 0 <= snd (snd kv)) secs.
Proof.
  induction n as [|n IH]; intros segname sect_off acc secs Hacc; cbn [Cfw.parse_sects].
  - intros H. injection H as <-. exact Hacc.
  - destruct (decode _) as [sectname|err]; cbn [bind]; [|discriminate].
    destruct (unpack_Q data (sect_off + 32)) as [ad|err]; cbn [bind]; [|discriminate].
    destruct (unpack_Q data (sect_off + 40)) as [sz|err]; cbn [bind]; [|discriminate].
    destruct (unpack_I data (sect_off + 48)) as [fo|err] eqn:Efo; cbn [bind]; [|discriminate].
    apply IH. apply dict_set_Forall; [exact Hacc|]. cbn [snd].
    apply (unpack_I_nonneg _ _ _ Efo).
Qed.

Lemma parse_cmds_nonneg (data : bytes) (n : nat) :
  forall offset acc secs,
    Forall (fun kv : pystr * Cfw.section_info => 0 <= snd (snd kv)) acc ->
    Cfw.parse_cmds data n offset acc = Ok secs ->
    Forall (fun kv : pystr * Cfw.section_info => 0 <= snd (snd kv)) secs.
Proof.
  induction n as [|n IH]; intros offset acc secs Hacc; cbn [Cfw.parse_cmds].
  - intros H. injection H as <-. exact Hacc.
  - destruct (unpack_II data offset) as [[cmd cmdsize]|err]; cbn [bind]; [|discriminate].
    destruct (cmd =? 25).
    + destruct (decode _) as [segname|err]; cbn [bind]; [|discriminate].
      destruct (unpack_I data (offset + 64)) as [nsects|err]; cbn [bind]; [|discriminate].
      destruct (Cfw.parse_sects data (Z.to_nat nsects) segname (offset + 72) acc)
        as [acc'|err] eqn:Es; cbn [bind]; [|discriminate].
      apply IH. apply (parse_sects_nonneg _ _ _ _ _ _ Hacc Es).
    + cbn [bind]. apply IH. exact Hacc.
Qed.

Lemma parse_macho_sections_nonneg (data : bytes) (sections : Cfw.sections_t) :
  Cfw.parse_macho_sections data = Ok sections ->
  Forall (fun kv : pystr * Cfw.section_info => 0 <= snd (snd kv)) sections.
Proof.
  unfold Cfw.parse_macho_sections.
  destruct (unpack_I data 0) as [magic|err]; cbn [bind]; [|discriminate].
  destruct (negb (magic =? 4277009103)); [discriminate|].
  destruct (unpack_I data 16) as [ncmds|err]; cbn [bind]; [|discriminate].
  apply parse_cmds_nonneg. constructor.
Qed.

Lemma section_containing_In (sections : Cfw.sections_t) (off va sz fo : Z) :
  Cfw.section_containing sections off = Some (va, sz, fo) ->
  (exists name, In (name, (va, sz, fo)) sections) /\ fo <= off < fo + sz.
Proof.
  induction sections as [|[name [[sva ssz] sfoff]] t IH]; cbn [Cfw.section_containing];
    [discriminate|].
  destruct ((sfoff <=? off) && (off <? sfoff + ssz)) eqn:E.
  - intros H. injection H as <- <- <-.
    apply andb_true_iff in E. destruct E as [E1 E2].
    apply Z.leb_le in E1. apply Z.ltb_lt in E2.
    split; [exists name; left; reflexivity | lia].
  - intros H. destruct (IH H) as [(nm & Hin) Hr].
    split; [exists nm; right; exact Hin | exact Hr].
Qed.

(** The start that [_find_cstring_start] gives for an anchor found in a
    section of a parsed Mach-O is the start of the C string that holds the
    match. *)
Lemma anchor_start_normalized (data : bytes) (sections : Cfw.sections_t) (anchor : bytes)
    (match_off sec_va sec_foff start : Z) :
  Cfw.parse_macho_sections data = Ok sections -> anchor <> [] ->
  anchor_start data sections anchor match_off sec_va sec_foff start ->
  occurs_at data anchor match_off /\
  0 <= sec_foff <= start /\ start <= match_off /\
  (forall i, start <= i < match_off -> byte_at data i <> 0) /\
  (start = sec_foff \/ byte_at data (start - 1) = 0).
Proof.
  intros Hparse Hne (Hm & H0 & (sz & Hsec) & Hstart).
  assert (Hocc : occurs_at data anchor match_off)
    by (rewrite Hm; apply find_occurs; rewrite <- Hm; exact H0).
  pose proof (occurs_at_inside data anchor match_off Hne Hocc) as Hin.
  pose proof (len_nonneg anchor) as Hla.
  destruct (section_containing_In _ _ _ _ _ Hsec) as [(name & Hname) Hr].
  pose proof (parse_macho_sections_nonneg _ _ Hparse) as Hnn.
  rewrite Forall_forall in Hnn. specialize (Hnn _ Hname). cbn [snd] in Hnn.
  destruct (find_cstring_start_spec data match_off sec_foff ltac:(lia) ltac:(lia))
    as (p & Hp & Hb & Hnz & Hs).
  rewrite Hstart in Hp. injection Hp as <-.
  split; [exact Hocc|]. split; [lia|]. split; [lia|]. split; [exact Hnz | exact Hs].
Qed.

Lemma jetsam_anchors_nonempty (anchor : bytes) : In anchor jetsam_anchors -> anchor <> [].
Proof. intros [<-|[<-|[<-|[]]]]; discriminate. Qed.

Lemma cache_loader_anchors_nonempty (anchor : bytes) :
  In anchor cache_loader_anchors -> anchor <> [].
Proof. intros [<-|[<-|[<-|[<-|[]]]]]; discriminate. Qed.

(** C5 (as amended).  In cfw.py the offset of a string anchor found at
    [match_off] inside a section that starts at [section_foff] is normalized
    by [_find_cstring_start]: the result [p] satisfies
    [section_foff <= p <= match_off], no byte of [[p, match_off)] is null, and
    [p] is the section start or follows a null byte.  When
    [patch_launchd_jetsam] returns [True], the reference before which it
    patches is the one [_find_adrp_add_ref] finds for the address of that
    start [p] of the string that holds the first match of one of its
    anchors.  When [patch_launchd_cache_loader] returns [True], the
    reference after which it patches is the one found for the address of
    [p], or, only when the code has no reference to [p], the one found for
    the address of the match itself.  In txm_jb.py, [_find_string_refs]
    resolves every reference it returns against the offset of the match
    itself. *)
Theorem string_anchor_normalization :
  (forall (data : bytes) (match_off section_foff : Z),
     0 <= section_foff <= match_off -> match_off <= len data ->
     exists p,
       Cfw._find_cstring_start data match_off section_foff = Ok p /\
       section_foff <= p <= match_off /\
       (forall i, p <= i < match_off -> byte_at data i <> 0) /\
       (p = section_foff \/ byte_at data (p - 1) = 0)) /\
  (forall (D : Disassembler) (K : Assembler) (file : bytes) (o : Cfw.outcome),
     Cfw.patch_launchd_jetsam file = Ok o -> Cfw.returned o = true ->
     exists sections text_va text_size text_foff anchor match_off sec_va sec_foff p po enc,
       Cfw.parse_macho_sections file = Ok sections /\
       Cfw.find_section sections [of_string "__TEXT,__text"]
       = Some (text_va, text_size, text_foff) /\
       In anchor jetsam_anchors /\
       anchor_start file sections anchor match_off sec_va sec_foff p /\
       occurs_at file anchor match_off /\
       0 <= sec_foff <= p /\ p <= match_off /\
       (forall i, p <= i < match_off -> byte_at file i <> 0) /\
       (p = sec_foff \/ byte_at file (p - 1) = 0) /\
       let code := slice file text_foff (text_foff + text_size) in
       let to_start := Cfw._find_adrp_add_ref code text_va (sec_va + (p - sec_foff)) in
       let ref_foff := text_foff + (to_start - text_va) in
       0 <= to_start /\
       Z.max text_foff (ref_foff - 0x300) <= po < ref_foff /\
       Cfw.written o = Some (slice_assign file po (po + 4) enc)) /\
  (forall (D : Disassembler) (file : bytes) (o : Cfw.outcome),
     Cfw.patch_launchd_cache_loader file = Ok o -> Cfw.returned o = true ->
     exists sections text_va text_size text_foff anchor match_off sec_va sec_foff p ref_va,
       Cfw.parse_macho_sections file = Ok sections /\
       Cfw.find_section sections [of_string "__TEXT,__text"]
       = Some (text_va, text_size, text_foff) /\
       In anchor cache_loader_anchors /\
       anchor_start file sections anchor match_off sec_va sec_foff p /\
       occurs_at file anchor match_off /\
       0 <= sec_foff <= p /\ p <= match_off /\
       (forall i, p <= i < match_off -> byte_at file i <> 0) /\
       (p = sec_foff \/ byte_at file (p - 1) = 0) /\
       let code := slice file text_foff (text_foff + text_size) in
       let to_start := Cfw._find_adrp_add_ref code text_va (sec_va + (p - sec_foff)) in
       let to_match :=
         Cfw._find_adrp_add_ref code text_va (sec_va + (match_off - sec_foff)) in
       (0 <= to_start /\ ref_va = to_start \/
        to_start < 0 /\ 0 <= to_match /\ ref_va = to_match) /\
       let branch_foff :=
         Cfw._find_nearby_branch file (text_foff + (ref_va - text_va)) text_foff text_size in
       0 <= branch_foff /\
       Cfw.written o = Some (slice_assign file branch_foff (branch_foff + 4) Cfw.NOP)) /\
  (forall (D : Disassembler) (p : patcher) (needle : bytes) (s a b : Z),
     In (s, a, b) (TXMJB._find_string_refs p needle) ->
     occurs_at (raw p) needle s /\ In (a, b) (TXMJB._find_refs_to_offset p s)).
Proof.
  split; [|split; [|split]].
  - intros data match_off section_foff H1 H2. apply find_cstring_start_spec; assumption.
  - intros D K file o. unfold Cfw.patch_launchd_jetsam. cbv zeta.
    destruct (Cfw.parse_macho_sections file) as [sections|err] eqn:Eparse; cbn [bind];
      [|discriminate].
    destruct (Cfw.find_section sections _) as [[[tv ts] tf]|] eqn:Ef;
      [|intros H; injection H as <-; discriminate].
    intros H Hr.
    destruct (patch_launchd_jetsam_loop_patch _ _ _ _ _ _ _ H Hr)
      as (anchor & po & pt & enc & Hin & (rf & Href & _ & Hw & _) & _ & Hwr).
    destruct Href as (m & sva & sfo & st & Hstart & Hto). cbv zeta in Hto.
    destruct Hto as [Hto ->].
    destruct (anchor_start_normalized file sections anchor m sva sfo st Eparse
                (jetsam_anchors_nonempty _ Hin) Hstart) as (Hocc & Hb1 & Hb2 & Hnz & Hs).
    exists sections, tv, ts, tf, anchor, m, sva, sfo, st, po, enc.
    split; [reflexivity|]. split; [exact Ef|]. split; [exact Hin|]. split; [exact Hstart|].
    split; [exact Hocc|]. split; [exact Hb1|]. split; [exact Hb2|]. split; [exact Hnz|].
    split; [exact Hs|]. cbv zeta. split; [exact Hto|]. split; [exact Hw | exact Hwr].
  - intros D file o. unfold Cfw.patch_launchd_cache_loader. cbv zeta.
    destruct (Cfw.parse_macho_sections file) as [sections|err] eqn:Eparse; cbn [bind];
      [|discriminate].
    destruct (Cfw.find_section sections _) as [[[tv ts] tf]|] eqn:Ef;
      [|intros H; injection H as <-; discriminate].
    intros H Hr.
    destruct (patch_launchd_cache_loader_loop_branch _ _ _ _ _ _ _ H Hr)
      as (anchor & bf & Hin & (rf & Href & Hbf & Hpos) & Hwr).
    destruct Href as (m & sva & sfo & st & Hstart & Hto). cbv zeta in Hto.
    destruct (anchor_start_normalized file sections anchor m sva sfo st Eparse
                (cache_loader_anchors_nonempty _ Hin) Hstart)
      as (Hocc & Hb1 & Hb2 & Hnz & Hs).
    exists sections, tv, ts, tf, anchor, m, sva, sfo, st, (rf - tf + tv).
    split; [reflexivity|]. split; [exact Ef|]. split; [exact Hin|]. split; [exact Hstart|].
    split; [exact Hocc|]. split; [exact Hb1|]. split; [exact Hb2|]. split; [exact Hnz|].
    split; [exact Hs|]. cbv zeta.
    replace (tf + (rf - tf + tv - tv)) with rf by lia. rewrite <- Hbf.
    split; [|split; [exact Hpos | exact Hwr]].
    destruct Hto as [[H1 ->] | (H1 & H2 & ->)]; [left | right]; repeat split; try assumption; lia.
  - intros D p needle s a b. apply find_string_refs_sound.
Qed.

Lemma string_anchor_normalization_witness :
  ((0 <= 16 <= 35 /\ 35 <= len Images.txm_substring) /\
   exists p,
     Cfw._find_cstring_start Images.txm_substring 35 16 = Ok p /\
     16 <= p <= 35 /\
     (forall i, p <= i < 35 -> byte_at Images.txm_substring i <> 0) /\
     (p = 16 \/ byte_at Images.txm_substring (p - 1) = 0)) /\
  exists o anchor match_off p,
    @Cfw.patch_launchd_jetsam A64.capstone A64.keystone Samples.launchd = Ok o /\
    Cfw.returned o = true /\
    occurs_at Samples.launchd anchor match_off /\ p <= match_off /\
    (forall i, p <= i < match_off -> byte_at Samples.launchd i <> 0).
Proof.
  split.
  - assert (H1 : 0 <= 16 <= 35) by lia.
    assert (H2 : 35 <= len Images.txm_substring) by (vm_compute; discriminate).
    split; [split; assumption|].
    exact (proj1 string_anchor_normalization Images.txm_substring 35 16 H1 H2).
  - destruct (@Cfw.patch_launchd_jetsam A64.capstone A64.keystone Samples.launchd)
      as [o|e] eqn:E; [|vm_compute in E; discriminate].
    assert (Hr : Cfw.returned o = true) by (vm_compute in E; injection E as <-; reflexivity).
    destruct (proj1 (proj2 string_anchor_normalization) A64.capstone A64.keystone
                Samples.launchd o E Hr)
      as (sections & tv & ts & tf & anchor & m & sva & sfo & p & po & enc & _ & _ & _ & _
          & Hocc & _ & Hle & Hnz & _).
    exists o, anchor, m, p. split; [reflexivity|]. split; [exact Hr|].
    split; [exact Hocc|]. split; [exact Hle | exact Hnz].
Defined.

(** The claim fails in txm_jb.py: the anchor ["get-task-allow"] matches at
    offset 35, inside the string that starts at 16 and that the code refers
    to; [_find_string_refs] looks for references to 35 and finds none. *)
Lemma string_anchor_not_normalized_in_txm :
  find Images.txm_substring (B "get-task-allow") 0 = 35 /\
  Cfw._find_cstring_start Images.txm_substring 35 16 = Ok 16 /\
  @TXMJB._find_refs_to_offset A64.capstone (A64.image Images.txm_substring) 16 = [(0, 4)] /\
  @TXMJB._find_string_refs A64.capstone (A64.image Images.txm_substring)
     (B "get-task-allow") = [].
Proof. vm_compute. repeat split; reflexivity. Qed.

(** The fallback of [patch_launchd_cache_loader] at work: the anchor
    ["unsecure_cache"] matches at 0x128, inside the string that starts at
    0x120; the code has no reference to 0x120 but one to 0x128, and the
    branch after that reference is replaced. *)
Example cache_loader_resolves_match :
  find Samples.cache_loader_tail (B "unsecure_cache") 0 = 0x128 /\
  Cfw._find_cstring_start Samples.cache_loader_tail 0x128 0x120 = Ok 0x120 /\
  @Cfw._find_adrp_add_ref A64.capstone
    (slice Samples.cache_loader_tail 0x108 (0x108 + 24)) 0x108 0x120 = -1 /\
  @Cfw._find_adrp_add_ref A64.capstone
    (slice Samples.cache_loader_tail 0x108 (0x108 + 24)) 0x108 0x128 = 0x108 /\
  @Cfw.patch_launchd_cache_loader A64.capstone Samples.cache_loader_tail
  = Cfw.wrote (slice_assign Samples.cache_loader_tail 0x114 (0x114 + 4) Cfw.NOP).
Proof. vm_compute. repeat split; reflexivity. Qed.

(** ** What a command that returns [True] has done *)





Section NoAnchor.
Context {D : Disassembler} {K : Assembler}.





End NoAnchor.



